(* ===== verification/_CoqProject ===== *)
-Q . S2P
Prelude.v
Cxx.v
CommandParser.v
CalTime.v
Coro.v
Json.v
Net.v
Auth.v
EventSub.v
TwitchService.v
Discord.v
AppState.v
Gui.v
Obs.v
Logging.v
AudioSystem.v
Cooldown.v
LuaEngine.v
LuaFacts.v
ViewModels.v
World.v
Ui.v
Application.v
Interference.v
Scheduler.v
Session.v
Invariants.v
Typing.v
Ends.v
Progress.v
LuaNumbers.v
Scripts.v
ScriptFacts.v
LuaProperties.v
ScriptProperties.v
Shipped.v
Examples.v
ScriptExamples.v
