(* ===== verification/Prelude.v ===== *)
(** * SeraphBot: verification development (root file)

    SeraphBot is a Twitch chat bot with a GUI.  Three network threads run Boost.Asio
    coroutines (login, EventSub websocket, HTTPS requests); the main thread draws an
    immediate-mode GUI.  This development translates the C++ sources under [src/]
    (the repository's own [src/] and [include/seraphbot/]) into executable Rocq
    definitions and proves properties of them.  Names are those of the source.

    ** Parts, files and what corresponds to what

    - [Prelude] (this file): exceptions ([exn], [outcome] with [Undefined] for
      undefined behaviour), the error-and-state monad [M], the relation-keeping
      computations ([keeps]), strings and characters of the C locale.
    - [Cxx]: the parts of the standard library used: paths, file-system snapshots,
      [int] bounds, [std::to_string], binary32 arithmetic.  [CalTime]: calendar time.
    - [CommandParser]: core/command_parser.cpp, chat_message.hpp.  The state is the
      prefix and the map of handlers; [tokenize] is a fold of [tok_step].
    - [Coro]: coroutines as trees with a suspension at every [co_await]; [exec] runs
      one against an [Environment], [runs] speaks of all environments, [advance] and
      [answers] run one piece at a time, [careful] and [safe] reason about pieces
      between which others run.  [Json]: the operations of nlohmann::json used, their
      laws, and a model of them.
    - [Net]: core/connection_manager.cpp, tw/config.cpp.  [Auth]: tw/auth.cpp.
      [EventSub]: tw/eventsub.cpp, tw/chat/read.cpp, tw/chat/send.cpp.
    - [TwitchService]: core/twitch_service.cpp.  Its state machine, the message
      handler, and the coroutines it spawns.  [EventSub] objects live in a heap
      ([objects]) known by address; [co_spawn] posts a [task] to the [queue].
    - [Discord]: discord/notifications.cpp.  [Obs]: obs/obsservice.hpp.
    - [AppState]: core/app_state.cpp.  [Logging]: core/logging.cpp and logging.hpp.
    - [AudioSystem]: core/audio_system.cpp, core/miniaudio_player.cpp.
    - [Cooldown], [LuaEngine]: core/lua_command_engine.cpp and its header; a Lua
      function is a [script], the tree of the calls it makes on its context.
      [LuaFacts]: the lemmas about them.
    - [LuaNumbers], [Scripts]: the seven Lua files of [src/commands] and what they use of
      the language (5.4): a piece of a Lua function is a continuation-passing program
      that becomes a [script]; [shipped_sol] is the interpreter that knows the files,
      an instance of the interface [SolApi].  [ScriptFacts]: the lemmas about them.
    - [Gui], [Ui]: ui/imgui_manager.cpp and the back end.  Every call to GLFW or Dear
      ImGui is an event of a trace; [GuiApi] gives the answers, so it stands for the
      user.  [ViewModels]: viewmodels/*.hpp.
    - [World]: every object that exists during [Application::run], as one record,
      and the instances that connect the components: each component is written
      against a class ([EngineHost], [ServiceHost], [EventSubHost], [DiscordHost],
      [GuiHost]) and the [World] implements it.  The callbacks of [setupCallbacks] and
      the handlers of the parser close the loop here.
    - [Application]: application.cpp and main.cpp: start-up, the frame loop, shutdown,
      and the destruction of the members when [main] returns.
    - [Interference], [Scheduler]: the threads of the [io_context] and the main
      thread interleaved; a step starts a queued coroutine, resumes a waiting one
      with any answer, or draws a frame.
    - [Session]: the abstract machine of [TwitchService::State].  [Invariants]: how a
      property of the state is carried through every interleaving; [Typing]: the
      well-typed states.  [Ends], [Progress]: how many answers a coroutine needs, and
      that the network threads come to rest.
    - [LuaProperties], [ScriptProperties]: theorems about the engine and the scripts;
      [Shipped]: the whole program with the scripts of the repository.
    - [Examples], [ScriptExamples]: concrete programs, GUIs, networks and commands on
      which the theorems are applied.

    ** What the theorems show

    - Lifetimes: no interleaving follows a null or dangling pointer unless the user
      destroys an EventSub object, by Disconnect or by Reset of the error state
      ([Scheduler.no_dangling_pointer], by a rely-guarantee invariant), and doing so
      breaks this ([leaving_dangles]).
    - Sessions: every step of every interleaving is a path of the session machine,
      also when the user leaves ([Session.session_refines]); when every read loop
      receives boundedly many frames, the network threads come to rest after finitely
      many steps, with the session in a state where the user can act
      ([Progress.network_settles], [Progress.task_bounded]).
    - Types: what the fields of every reachable state satisfy ([Typing.world_typed]).
    - Commands: rate limits and usage limits of the scripts that run in any history of
      calls (a run is observed at the call of [executeLuaCommand], independently of the
      guards before it), permissions, confinement of scripts, loading and registration
      ([LuaProperties]); tokenizing against a grammar of command lines, and dispatch
      ([CommandParser]); the exact cooldown test ([Cooldown]).
    - Scripts: what "!dice" and "!sfx" answer, and which sounds no page of the list
      shows ([ScriptProperties]); the commands a program started with the files knows,
      and the path of a roll from the frame of Twitch to the reply ([Shipped]).
    - Files and sound: the whitelist is containment of directory trees in which a
      backslash counts as a slash, and it guards every sound; on POSIX systems that
      reading lets a sibling directory in ([AudioSystem]); the player never uses a
      released engine.
    - Network: what each coroutine sends and how it ends, for all answers ([Auth],
      [EventSub], [TwitchService], [Discord], [Obs]).
    - GUI: what a frame of each panel may do ([Ui]), nesting of the GUI calls, exit,
      what an unchecked message text or colour does, and what the order in which the
      members are destroyed does at the end of [main] ([Application]).
    - Data: the message queue between the threads is one FIFO log ([AppState]);
      colours ([Gui]); log contexts ([Logging]).

    ** Fuel and bounds

    - [Auth.poll_token] takes 11 units of fuel, one more than its ten attempts;
      [Auth.loginAsync_bounded] shows it is never used up.
    - [EventSub.read_loop] takes one unit per frame received; the loop of the source
      has no bound.  [doRead_delivers] says how much is enough; the lifetime theorem
      holds for every fuel, and running out is a kind of undefined behaviour of its
      own ([OutOfFuel]), never confused with a dangling pointer.
    - [Progress.network_settles] holds for every such bound of at least one frame; a
      read loop that has used it up still ends when its connection fails.
      [Ends.task_cost] is the number of answers a coroutine needs.
    - [Scripts.page_loop] takes more fuel than 450 characters have room for sounds;
      [ScriptFacts.fill_page_total] shows it is never used up, for any page number.
    - [AppState.process_loop] takes the length of the queue and
      [Application.run_loop] one unit per frame.
    - Integers that wrap or are narrowed in the source are bounded where they are
      used ([Cxx.INT_MAX], [mod 2 ^ 32]); colours and volumes are binary32, the
      numbers of Lua are 64-bit integers that wrap around and binary64.

    ** What is not modelled

    - Code outside the repository is a parameter: Boost.Asio, Beast, OpenSSL
      ([Environment] or the answers of a step), nlohmann::json ([JsonApi] with
      [JsonLaws]), sol2 and Lua ([SolApi], [SolLaws]; for
      the scripts, the random generator [LuaRandom] and the conversion of floats by
      sol2, [SolNumbers]), miniaudio ([ma_success]), the
      file system ([FileSystem]), GLFW and Dear ImGui ([GuiApi]), the iteration order
      of [unordered_map] ([map_order]), the clocks.
    - Data races: between two suspensions a coroutine runs without interruption, and
      so does a frame.
    - Log calls inside the components, destructors that only log.
    - Failures for want of resources: memory, the creation of the network threads, the
      loading of the default certificates in the constructor of [ConnectionManager].
    - Collapsed windows: ImGui takes the items of a window without drawing, or
      formatting, them while it is collapsed; here every window is open.
    - A script that keeps its context object and uses it in a later call: the object
      refers to a [CommandContext] that is gone.  The network threads while [main]
      destroys the members: they are stopped last.
    - Branches for Windows, and of [parseTime] for libraries other than libc++.
    - [TwitchService::processLoginResult], [CommandParser::setPrefix] and the sound
      helpers of [Application] are declared but have no body.  The font bytes and the
      build files are data. *)

From Stdlib Require Export Ascii.
From stdpp Require Export base tactics list gmap strings sets sorting.
From Stdlib Require Export ZArith Lia.

#[global] Open Scope string_scope.
#[global] Open Scope list_scope.
#[global] Open Scope Z_scope.

#[global] Arguments String.append !_ _ : simpl nomatch.

(** ** Exceptions and outcomes

    A C++ call returns a value, throws an object of a class derived from
    [std::exception], or has undefined behaviour. *)

Inductive exn_kind :=
  | StdException
  | InvalidArgument
  | RuntimeError
  | SystemError (code : string)
  | JsonError
  | LuaError.

Record exn := mk_exn { exn_kind_of : exn_kind; exn_what : string }.

Inductive outcome (A : Type) :=
  | Ok (a : A)
  | Throw (e : exn)
  | Undefined.
Arguments Ok {A} a.
Arguments Throw {A} e.
Arguments Undefined {A}.

#[global] Instance exn_kind_eq_dec : EqDecision exn_kind.
Proof. solve_decision. Defined.
#[global] Instance exn_eq_dec : EqDecision exn.
Proof. solve_decision. Defined.
#[global] Instance outcome_eq_dec `{EqDecision A} : EqDecision (outcome A).
Proof. solve_decision. Defined.

Definition runtime_error (msg : string) : exn := mk_exn RuntimeError msg.

#[global] Instance outcome_ret : MRet outcome := λ A a, Ok a.
#[global] Instance outcome_bind : MBind outcome := λ A B f o,
  match o with Ok a => f a | Throw e => Throw e | Undefined => Undefined end.

(** A call that may throw but has defined behaviour. *)
#[global] Instance sum_ret {E} : MRet (sum E) := λ A a, inr a.
#[global] Instance sum_bind {E} : MBind (sum E) := λ A B f o,
  match o with inl e => inl e | inr a => f a end.

(** ** The computation monad

    [M S A]: a computation over the mutable state [S]; a thrown exception keeps
    the state reached when it was thrown. *)

Definition M (S A : Type) : Type := S → outcome A * S.

#[global] Instance M_ret {S} : MRet (M S) := λ A a s, (Ok a, s).
#[global] Instance M_bind {S} : MBind (M S) := λ A B f m s,
  match m s with
  | (Ok a, s') => f a s'
  | (Throw e, s') => (Throw e, s')
  | (Undefined, s') => (Undefined, s')
  end.

Definition throw {S A} (e : exn) : M S A := λ s, (Throw e, s).
Definition undefined {S A} : M S A := λ s, (Undefined, s).
Definition gets {S A} (f : S → A) : M S A := λ s, (Ok (f s), s).
Definition modify {S} (f : S → S) : M S unit := λ s, (Ok tt, f s).
Definition lift {S A} (o : outcome A) : M S A := λ s, (o, s).

Definition lift_exn {S A} (r : exn + A) : M S A := λ s,
  match r with inl e => (Throw e, s) | inr a => (Ok a, s) end.

(** [try { m } catch (const std::exception &e) { h e }] *)
Definition try_catch {S A} (m : M S A) (h : exn → M S A) : M S A := λ s,
  match m s with
  | (Throw e, s') => h e s'
  | r => r
  end.

(** Run a computation of a component on the component's part of a larger state. *)
Definition zoom {S T A} (get : S → T) (set : T → S → S) (m : M T A) : M S A := λ s,
  let '(r, t') := m (get s) in (r, set t' s).

(** [for (x : l) f x] *)
Fixpoint mfor {S A} (l : list A) (f : A → M S unit) : M S unit :=
  match l with
  | [] => mret tt
  | x :: l' => f x ;; mfor l' f
  end.

(** ** Characters and strings of the C++ standard library (C locale) *)

Definition isspace (c : ascii) : bool :=
  let n := Ascii.nat_of_ascii c in
  ((9 <=? n) && (n <=? 13) || (n =? 32))%nat.

Definition tolower_char (c : ascii) : ascii :=
  let n := Ascii.nat_of_ascii c in
  if ((65 <=? n) && (n <=? 90))%nat then Ascii.ascii_of_nat (n + 32) else c.

Fixpoint str_map (f : ascii → ascii) (s : string) : string :=
  match s with
  | EmptyString => EmptyString
  | String c s' => String (f c) (str_map f s')
  end.

(** [std::transform(s.begin(), s.end(), s.begin(), ::tolower)] *)
Definition tolower (s : string) : string := str_map tolower_char s.

Definition str_empty (s : string) : bool :=
  match s with EmptyString => true | _ => false end.

(** [s.starts_with(p)] *)
Definition starts_with (s p : string) : bool := String.prefix p s.

(** [s.substr(n)] for [n <= s.size()] *)
Fixpoint str_drop (n : nat) (s : string) : string :=
  match n, s with
  | O, _ => s
  | S n', String _ s' => str_drop n' s'
  | S _, EmptyString => EmptyString
  end.

(** [s += c] *)
Definition push_char (s : string) (c : ascii) : string := s +:+ String c "".

(** The elements of [l] with [sep] between them. *)
Fixpoint join (sep : string) (l : list string) : string :=
  match l with
  | [] => ""
  | [x] => x
  | x :: l' => x +:+ sep +:+ join sep l'
  end.

Fixpoint str_forall (P : ascii → bool) (s : string) : bool :=
  match s with
  | EmptyString => true
  | String c s' => P c && str_forall P s'
  end.

(** ** Lemmas on strings *)

Create HintDb sbot.
Create Rewrite HintDb sbot.

Lemma str_app_nil_r s : s +:+ "" = s.
Proof. induction s; simpl; congruence. Qed.

Lemma str_app_assoc s1 s2 s3 : (s1 +:+ s2) +:+ s3 = s1 +:+ (s2 +:+ s3).
Proof. induction s1; simpl; congruence. Qed.

Lemma str_length_app s1 s2 :
  String.length (s1 +:+ s2) = (String.length s1 + String.length s2)%nat.
Proof. induction s1; simpl; congruence. Qed.

Lemma str_app_eq_nil s1 s2 : s1 +:+ s2 = "" → s1 = "" ∧ s2 = "".
Proof. destruct s1; simpl; [auto | done]. Qed.

Lemma push_char_cons s c s' : push_char s c +:+ s' = s +:+ String c s'.
Proof. unfold push_char. by rewrite str_app_assoc. Qed.

Lemma push_char_nonempty s c : str_empty (push_char s c) = false.
Proof. by destruct s. Qed.

Lemma str_empty_true s : str_empty s = true ↔ s = "".
Proof. by destruct s. Qed.

Lemma str_empty_false s : str_empty s = false ↔ s ≠ "".
Proof. by destruct s. Qed.

Lemma starts_with_app p s : starts_with (p +:+ s) p = true.
Proof.
  unfold starts_with. induction p as [|c p IH]; simpl; [by destruct s|].
  by destruct (ascii_dec c c).
Qed.

Lemma starts_with_true s p :
  starts_with s p = true ↔ s = p +:+ str_drop (String.length p) s.
Proof.
  split; [|intros ->; apply starts_with_app].
  unfold starts_with. revert s. induction p as [|c p IH]; intros [|d s]; simpl; try done.
  destruct (ascii_dec c d) as [->|]; [|done]. intros H. f_equal. by apply IH.
Qed.

Lemma str_drop_app p s : str_drop (String.length p) (p +:+ s) = s.
Proof. induction p; simpl; auto. Qed.

Lemma tolower_char_idemp c : tolower_char (tolower_char c) = tolower_char c.
Proof. by destruct c as [[] [] [] [] [] [] [] []]. Qed.

Lemma tolower_idemp s : tolower (tolower s) = tolower s.
Proof.
  unfold tolower. induction s as [|c s IH]; simpl; [done|].
  by rewrite tolower_char_idemp, IH.
Qed.

Lemma tolower_length s : String.length (tolower s) = String.length s.
Proof. unfold tolower. induction s; simpl; congruence. Qed.

Lemma tolower_empty s : str_empty (tolower s) = str_empty s.
Proof. by destruct s. Qed.

#[export] Hint Rewrite str_app_nil_r str_app_assoc str_length_app push_char_cons
  push_char_nonempty tolower_idemp tolower_length tolower_empty str_drop_app : sbot.

(** ** Computations that stay within a relation *)

Definition keeps {S A} (R : relation S) (m : M S A) : Prop := ∀ s, R s (snd (m s)).

Section Keeps.
Context {S : Type} (R : relation S) `{!PreOrder R}.

Lemma keeps_bind {A B} (m : M S A) (f : A → M S B) :
  keeps R m → (∀ a, keeps R (f a)) → keeps R (m ≫= f).
Proof.
  intros Hm Hf s. unfold mbind, M_bind. specialize (Hm s).
  destruct (m s) as [[a|e|] s1]; simpl in *; [|done..]. etrans; [exact Hm|]. apply Hf.
Qed.

Lemma keeps_catch {A} (m : M S A) (h : exn → M S A) :
  keeps R m → (∀ e, keeps R (h e)) → keeps R (try_catch m h).
Proof.
  intros Hm Hh s. unfold try_catch. specialize (Hm s).
  destruct (m s) as [[a|e|] s1]; simpl in *; [done| |done]. etrans; [exact Hm|]. apply Hh.
Qed.

Lemma keeps_ret {A} (a : A) : keeps R (mret a).
Proof. intros s. reflexivity. Qed.
Lemma keeps_throw {A} e : keeps R (throw (A := A) e).
Proof. intros s. reflexivity. Qed.
Lemma keeps_gets {A} (f : S → A) : keeps R (gets f).
Proof. intros s. reflexivity. Qed.
Lemma keeps_lift {A} (o : outcome A) : keeps R (lift o).
Proof. intros s. reflexivity. Qed.
Lemma keeps_lift_exn {A} (r : exn + A) : keeps R (lift_exn r).
Proof. intros s. destruct r; reflexivity. Qed.
Lemma keeps_modify (f : S → S) : (∀ s, R s (f s)) → keeps R (modify f).
Proof. intros Hf s. apply Hf. Qed.
Lemma keeps_mfor {A} (l : list A) (f : A → M S unit) :
  (∀ x, keeps R (f x)) → keeps R (mfor l f).
Proof.
  intros Hf. induction l as [|x l IH]; [apply keeps_ret|]. by apply keeps_bind.
Qed.
Lemma keeps_zoom {T A} (get : S → T) (set : T → S → S) (m : M T A) :
  (∀ t s, R s (set t s)) → keeps R (zoom get set m).
Proof. intros Hs s. unfold zoom. destruct (m (get s)). apply Hs. Qed.

Lemma keeps_run {A} (m : M S A) s r s' : keeps R m → m s = (r, s') → R s s'.
Proof. intros Hm Hr. specialize (Hm s). by rewrite Hr in Hm. Qed.

End Keeps.

Lemma bind_run {S A B} (m : M S A) (f : A → M S B) s a s' :
  m s = (Ok a, s') → (m ≫= f) s = f a s'.
Proof. intros Hm. unfold mbind, M_bind. by rewrite Hm. Qed.

Lemma gets_run {S A B} (g : S → A) (f : A → M S B) s : (gets g ≫= f) s = f (g s) s.
Proof. done. Qed.

Lemma bind_ok {S A B} (m : M S A) (f : A → M S B) s b s' :
  (m ≫= f) s = (Ok b, s') → ∃ a s1, m s = (Ok a, s1) ∧ f a s1 = (Ok b, s').
Proof. unfold mbind, M_bind. destruct (m s) as [[a|e|] s1]; naive_solver. Qed.

#[export] Hint Resolve keeps_ret keeps_throw keeps_gets keeps_lift keeps_lift_exn : sbot.

(** Take a computation apart as far as its syntax goes. *)
Ltac keeps_step :=
  lazymatch goal with
  | |- keeps _ (_ ≫= _) => apply keeps_bind; [typeclasses eauto| |intros ?]
  | |- keeps _ (try_catch _ _) => apply keeps_catch; [typeclasses eauto| |intros ?]
  | |- keeps _ (mfor _ _) => apply keeps_mfor; [typeclasses eauto|intros ?]
  | |- keeps _ (if ?b then _ else _) => destruct b
  | |- keeps _ (match ?x with _ => _ end) => destruct x
  | |- keeps _ _ => solve [auto with sbot typeclass_instances]
  end.
Ltac keeps := repeat keeps_step.
