(* ===== verification/Cxx.v ===== *)
(** * The parts of the C++ standard library the program uses

    Lexical operations of [std::filesystem::path] (POSIX), queries of the file
    system as a snapshot, byte-wise ordering and sorting of [std::string],
    [int] bounds, [std::clamp], [std::stoul] and IEEE binary32 arithmetic. *)

From Stdlib Require Import SpecFloat.
From S2P Require Import Prelude.

(** ** Integers *)

Definition INT_MAX : Z := 2147483647.
Definition INT_MIN : Z := -2147483648.

(** [std::clamp(v, lo, hi)] *)
Definition clamp (v lo hi : Z) : Z :=
  if v <? lo then lo else if hi <? v then hi else v.

Definition digit (n : Z) : ascii := Ascii.ascii_of_nat (48 + Z.to_nat n).
#[global] Arguments digit : simpl never.

(** The decimal digits of [z] before [acc]; [fuel] bounds their number. *)
Fixpoint dec_digits (fuel : nat) (z : Z) (acc : string) : string :=
  match fuel with
  | O => acc
  | S f => if z <? 10 then String (digit z) acc
           else dec_digits f (z / 10) (String (digit (z mod 10)) acc)
  end.

(** [std::to_string(z)]: [z] has at most [log2 z + 1] digits. *)
Definition to_string (z : Z) : string :=
  if z <? 0 then "-" +:+ dec_digits (S (Z.to_nat (Z.log2 (- z)))) (- z) ""
  else dec_digits (S (Z.to_nat (Z.log2 z))) z "".

(** ** C strings *)

Definition nul : ascii := Ascii.ascii_of_nat 0.

(** [s.c_str()] as a C string: it ends at the first NUL. *)
Fixpoint c_str (s : string) : string :=
  match s with
  | EmptyString => ""
  | String c s' => if decide (c = nul) then "" else String c (c_str s')
  end.

(** ** Replacing text *)

Fixpoint replace_from (fuel : nat) (pat rep s : string) : string :=
  match fuel, s with
  | S f, String c s' =>
      if starts_with s pat then rep +:+ replace_from f pat rep (str_drop (String.length pat) s)
      else String c (replace_from f pat rep s')
  | _, _ => s
  end.

(** [std::regex_replace] with a pattern that is a plain non-empty text; every
    round consumes a character of [s]. *)
Definition replace_all (pat rep s : string) : string := replace_from (String.length s) pat rep s.

(** ** Paths *)

Definition slash : ascii := Ascii.ascii_of_nat 47.
Definition dot : ascii := Ascii.ascii_of_nat 46.

(** Split at the last occurrence of [c]: the part before it and the part after. *)
Fixpoint split_last (c : ascii) (s : string) : option (string * string) :=
  match s with
  | EmptyString => None
  | String d s' =>
      match split_last c s' with
      | Some (a, b) => Some (String d a, b)
      | None => if decide (d = c) then Some ("", s') else None
      end
  end.

Definition path_filename (p : string) : string :=
  match split_last slash p with Some (_, f) => f | None => p end.

(** [p.extension()]: from the last dot of the file name, unless the name is
    ["."] or [".."] or its only dot is the leading one. *)
Definition path_extension (p : string) : string :=
  let f := path_filename p in
  if bool_decide (f = "." ∨ f = "..") then ""
  else match split_last dot f with
       | Some (EmptyString, _) | None => ""
       | Some (_, e) => String dot e
       end.

Definition path_stem (p : string) : string :=
  let f := path_filename p in
  if bool_decide (f = "." ∨ f = "..") then f
  else match split_last dot f with
       | Some (EmptyString, _) | None => f
       | Some (b, _) => b
       end.

(** Remove trailing directory separators, but keep a root directory. *)
Fixpoint strip_slashes (s : string) : string :=
  match s with
  | EmptyString => ""
  | String c s' =>
      match strip_slashes s' with
      | EmptyString => if decide (c = slash) then "" else String c ""
      | r => String c r
      end
  end.

(** [p.parent_path()] *)
Definition path_parent (p : string) : string :=
  match split_last slash p with
  | None => ""
  | Some (d, _) =>
      let d' := strip_slashes d in
      if str_empty d' then String slash "" else d'
  end.

Definition str_last (s : string) : option ascii :=
  String.get (pred (String.length s)) s.

(** [p / q] *)
Definition path_append (p q : string) : string :=
  if starts_with q (String slash "") then q
  else if str_empty p then q
  else if decide (str_last p = Some slash) then p +:+ q
  else p +:+ String slash q.

(** ** The file system: the answers of one snapshot

    Every query may throw [std::filesystem::filesystem_error].  Iterating over a
    directory yields entries (a path and whether it is a regular file) and then
    ends, or throws after the entries yielded so far. *)
Record FileSystem := mk_FileSystem {
  fs_exists : string → outcome bool;
  fs_is_directory : string → outcome bool;
  fs_is_regular_file : string → outcome bool;
  fs_directory_iterator : string → list (string * bool) * option exn;
  fs_weakly_canonical : string → outcome string;
}.

(** ** Ordering and sorting of strings ([std::char_traits<char>::compare]) *)

Fixpoint str_leb (a b : string) : bool :=
  match a, b with
  | EmptyString, _ => true
  | String _ _, EmptyString => false
  | String x a', String y b' =>
      if decide (x = y) then str_leb a' b'
      else (Ascii.N_of_ascii x <? Ascii.N_of_ascii y)%N
  end.

Definition str_le (a b : string) : Prop := str_leb a b = true.

#[global] Instance str_le_dec : RelDecision str_le.
Proof. intros a b. unfold str_le. apply _. Defined.

(** [std::sort(v.begin(), v.end())] on strings *)
Definition sort_strings (l : list string) : list string := merge_sort str_le l.

Lemma N_of_ascii_inj x y : Ascii.N_of_ascii x = Ascii.N_of_ascii y → x = y.
Proof.
  intros H. rewrite <- (Ascii.ascii_N_embedding x), <- (Ascii.ascii_N_embedding y).
  by rewrite H.
Qed.

#[global] Instance str_le_total : Total str_le.
Proof.
  unfold str_le. intros a. induction a as [|x a IH]; intros [|y b]; simpl; auto.
  destruct (decide (x = y)) as [->|Hn]; [rewrite decide_True by done; apply IH|].
  rewrite decide_False by congruence. rewrite !N.ltb_lt.
  destruct (N.lt_total (Ascii.N_of_ascii x) (Ascii.N_of_ascii y)) as [|[E|]]; auto.
  by apply N_of_ascii_inj in E.
Qed.

#[global] Instance str_le_trans : Transitive str_le.
Proof.
  unfold str_le. intros a. induction a as [|x a IH]; intros [|y b] [|z c]; simpl; auto; try done.
  destruct (decide (x = y)) as [->|Hxy], (decide (y = z)) as [->|Hyz].
  - apply IH.
  - done.
  - by rewrite decide_False.
  - rewrite !N.ltb_lt. intros H1 H2.
    destruct (decide (x = z)) as [->|]; [lia|]. rewrite N.ltb_lt. lia.
Qed.

Lemma sort_strings_Permutation l : sort_strings l ≡ₚ l.
Proof. apply merge_sort_Permutation. Qed.

Lemma sort_strings_Sorted l : Sorted str_le (sort_strings l).
Proof. apply Sorted_merge_sort, _. Qed.

(** ** Path components *)

(** The components of a string between slashes. *)
Fixpoint split_slash (s : string) : list string :=
  match s with
  | EmptyString => [""]
  | String c s' =>
      if decide (c = slash) then "" :: split_slash s'
      else match split_slash s' with
           | [] => [String c ""]
           | x :: l => String c x :: l
           end
  end.

Lemma split_slash_nonnil s : split_slash s ≠ [].
Proof. induction s as [|c s IH]; simpl; [done|]. case_decide; [done|]. by case_match. Qed.

Lemma split_slash_app s1 s2 :
  split_slash (s1 +:+ String slash s2) = split_slash s1 ++ split_slash s2.
Proof.
  induction s1 as [|c s1 IH]; cbn [String.append split_slash].
  - by rewrite decide_True.
  - case_decide; rewrite IH; [done|].
    destruct (split_slash s1) as [|x l] eqn:E; [by apply split_slash_nonnil in E|done].
Qed.

Lemma join_split_slash s : join (String slash "") (split_slash s) = s.
Proof.
  induction s as [|c s IH]; simpl; [done|].
  destruct (split_slash s) as [|x l] eqn:E; [by apply split_slash_nonnil in E|].
  case_decide as Hc.
  - subst c. cbn [join]. cbn [join] in IH. by rewrite IH.
  - destruct l as [|y l]; cbn [join] in *; rewrite <- IH; done.
Qed.

Lemma join_app sep l1 l2 :
  l1 ≠ [] → l2 ≠ [] → join sep (l1 ++ l2) = join sep l1 +:+ sep +:+ join sep l2.
Proof.
  intros H1 H2. induction l1 as [|x l1 IH]; [done|].
  destruct l1 as [|y l1]; cbn [app join].
  - destruct l2; [done|]. done.
  - cbn [app join] in IH. rewrite IH by done. by rewrite !str_app_assoc.
Qed.

Lemma str_snoc_inj (a b : string) c :
  a +:+ String c "" = b +:+ String c "" → a = b.
Proof.
  revert b. induction a as [|x a IH]; intros [|y b]; simpl; try done.
  - intros [= -> H]. by destruct b.
  - intros [= -> H]. by destruct a.
  - intros [= -> H]. f_equal. by apply IH.
Qed.

Lemma str_snoc_cases (s : string) : s = "" ∨ ∃ s' c, s = s' +:+ String c "".
Proof.
  induction s as [|c s [->|(s' & d & ->)]]; [by left| |]; right.
  - by exists "", c.
  - by exists (String c s'), d.
Qed.

Lemma str_app_snoc_inv (a r b : string) c d :
  a +:+ (r +:+ String d "") = b +:+ String c "" → c = d ∧ a +:+ r = b.
Proof.
  rewrite <- str_app_assoc. generalize (a +:+ r). clear a r. intros x. revert b.
  induction x as [|y x IH]; intros [|z b]; simpl.
  - by intros [= ->].
  - intros [= -> H]. by destruct b.
  - intros [= -> H]. by destruct x.
  - intros [= -> H]. apply IH in H as [-> ->]. done.
Qed.

Lemma str_last_snoc s c : str_last (s +:+ String c "") = Some c.
Proof.
  unfold str_last. rewrite str_length_app. cbn [String.length]. rewrite Nat.add_1_r. cbn [pred].
  by induction s.
Qed.

Lemma split_slash_last s c : c ≠ slash → last (split_slash (s +:+ String c "")) ≠ Some "".
Proof.
  intros Hc. induction s as [|x s IH]; cbn [String.append split_slash].
  - by rewrite decide_False.
  - destruct (split_slash (s +:+ String c "")) as [|y l] eqn:E; [by apply split_slash_nonnil in E|].
    case_decide; [done|]. by destruct l.
Qed.

(** Comparing two paths closed by a slash by prefix is comparing their lists of
    components by prefix. *)
Lemma starts_with_components c d :
  starts_with (c +:+ String slash "") (d +:+ String slash "") = true ↔
  split_slash d `prefix_of` split_slash c.
Proof.
  rewrite starts_with_true. split.
  - generalize (str_drop (String.length (d +:+ String slash "")) (c +:+ String slash "")).
    intros r Hr. destruct (str_snoc_cases r) as [->|(r' & x & ->)].
    + rewrite str_app_nil_r in Hr. apply str_snoc_inj in Hr as ->. done.
    + symmetry in Hr. apply str_app_snoc_inv in Hr as [<- Hc]. rewrite <- Hc.
      rewrite str_app_assoc. cbn [String.append]. rewrite split_slash_app. by eexists.
  - intros [l Hl].
    assert (Hc : c = d ∨ ∃ r, c = d +:+ String slash r).
    { pose proof (join_split_slash c) as Hj. rewrite Hl in Hj.
      destruct (decide (l = [])) as [->|Hne].
      - left. by rewrite app_nil_r, join_split_slash in Hj.
      - right. rewrite join_app in Hj by (done || apply split_slash_nonnil).
        rewrite join_split_slash in Hj. by eexists. }
    destruct Hc as [->|[r ->]].
    + pose proof (str_drop_app (d +:+ String slash "") "") as Hd.
      rewrite str_app_nil_r in Hd. by rewrite Hd, str_app_nil_r.
    + replace ((d +:+ String slash r) +:+ String slash "")
        with ((d +:+ String slash "") +:+ (r +:+ String slash ""))
        by (by rewrite !str_app_assoc).
      by rewrite str_drop_app.
Qed.

(** ** IEEE binary32 ([float]) *)

Definition f32_prec : Z := 24.
Definition f32_emax : Z := 128.

(** [static_cast<float>(z)] *)
Definition f32_of_Z (z : Z) : spec_float := binary_normalize f32_prec f32_emax z 0 false.
Definition f32_div : spec_float → spec_float → spec_float := SFdiv f32_prec f32_emax.
Definition f32_mul : spec_float → spec_float → spec_float := SFmul f32_prec f32_emax.
Definition f32_ltb : spec_float → spec_float → bool := SFltb.

(** [static_cast<int>(f)] of a finite value: truncation towards zero *)
Definition f32_to_Z (f : spec_float) : Z :=
  match f with
  | S754_finite s m e =>
      let v := if (0 <=? e) then Z.pos m * 2 ^ e else Z.pos m / 2 ^ (- e) in
      if s then - v else v
  | _ => 0
  end.

(** [std::clamp(f, lo, hi)] on [float] *)
Definition f32_clamp (v lo hi : spec_float) : spec_float :=
  if f32_ltb v lo then lo else if f32_ltb hi v then hi else v.
