(* ===== verification/CommandParser.v ===== *)
(** * Chat messages and the command parser

    Models [include/seraphbot/core/chat_message.hpp],
    [include/seraphbot/core/command_parser.hpp] and
    [src/core/command_parser.cpp].  The parser is generic in the type [H] of the
    callable objects held by a [CommandHandler] and in the state [S] they act on;
    a [std::function] that may be empty is an [option H]. *)

From S2P Require Import Prelude.

(** [struct ChatMessage] *)
Record ChatMessage := mk_ChatMessage {
  user : string;
  text : string;
  color : string;
  badges : list string;
}.

(** [struct CommandContext]; [reply] is the callback the context carries. *)
Record CommandContext (S : Type) := mk_CommandContext {
  message : ChatMessage;
  command : string;
  args : list string;
  reply : string → M S unit;
}.
Arguments mk_CommandContext {S}.
Arguments message {S}.
Arguments command {S}.
Arguments args {S}.
Arguments reply {S}.

Definition dquote : ascii := Ascii.ascii_of_nat 34.
Definition backslash : ascii := Ascii.ascii_of_nat 92.

(** ** [CommandContext::joinArgs]: the loop [for (i = start; i < size; ++i)] *)

Fixpoint joinArgs_loop (a : list string) (start i fuel : nat) (result : string) : string :=
  match fuel with
  | O => result
  | S fuel' =>
      match a !! i with
      | None => result
      | Some x =>
          let result := if (start <? i)%nat then result +:+ " " else result in
          joinArgs_loop a start (S i) fuel' (result +:+ x)
      end
  end.

Definition joinArgs {S} (ctx : CommandContext S) (start_index : nat) : string :=
  joinArgs_loop (args ctx) start_index start_index (length (args ctx)) "".

(** ** [CommandParser::tokenize]: one iteration of the character loop *)

Record tok_state := mk_tok {
  tokens : list string;
  current_token : string;
  in_quotes : bool;
  escape_next : bool;
}.

Definition tok_step (st : tok_state) (c : ascii) : tok_state :=
  if escape_next st then
    mk_tok (tokens st) (push_char (current_token st) c) (in_quotes st) false
  else if decide (c = backslash) then
    mk_tok (tokens st) (current_token st) (in_quotes st) true
  else if decide (c = dquote) then
    mk_tok (tokens st) (current_token st) (negb (in_quotes st)) false
  else if isspace c && negb (in_quotes st) then
    if negb (str_empty (current_token st)) then
      mk_tok (tokens st ++ [current_token st]) "" (in_quotes st) false
    else st
  else mk_tok (tokens st) (push_char (current_token st) c) (in_quotes st) false.

Fixpoint tok_run (st : tok_state) (s : string) : tok_state :=
  match s with
  | EmptyString => st
  | String c s' => tok_run (tok_step st c) s'
  end.

Definition tok_finish (st : tok_state) : list string :=
  if negb (str_empty (current_token st)) then tokens st ++ [current_token st]
  else tokens st.

Definition tokenize (s : string) : list string :=
  tok_finish (tok_run (mk_tok [] "" false false) s).

(** ** [class CommandParser] *)

Record CommandParser (H : Type) := mk_CommandParser {
  m_prefix : string;
  m_commands : gmap string H;
}.
Arguments mk_CommandParser {H}.
Arguments m_prefix {H}.
Arguments m_commands {H}.

(** The constructor: the in-class initialisers. *)
Definition new_CommandParser {H} : CommandParser H := mk_CommandParser "!" ∅.

Definition registerCommand {H} (name : string) (handler : option H)
    (p : CommandParser H) : CommandParser H :=
  if str_empty name then p
  else match handler with
       | None => p
       | Some h => mk_CommandParser (m_prefix p) (<[tolower name := h]> (m_commands p))
       end.

Definition isCommand {H} (p : CommandParser H) (s : string) : bool :=
  negb (str_empty s) && starts_with s (m_prefix p).

Definition parseCommand {H} (p : CommandParser H) (s : string) : string * list string :=
  if negb (isCommand p s) then ("", [])
  else
    let without_prefix := str_drop (String.length (m_prefix p)) s in
    match tokenize without_prefix with
    | [] => ("", [])
    | cmd :: rest => (cmd, rest)
    end.

Section Execute.
Context {H S : Type}.
(** Where the parser lives in the program state, and the call operator of a
    registered handler. *)
Variable parser_of : S → CommandParser H.
Variable invoke : H → CommandContext S → M S unit.

Definition parseAndExecute (msg : ChatMessage) (reply_fn : string → M S unit) : M S bool :=
  λ s,
    let p := parser_of s in
    if negb (isCommand p (text msg)) then (Ok false, s)
    else
      let '(cmd, a) := parseCommand p (text msg) in
      if str_empty cmd then (Ok false, s)
      else match m_commands p !! tolower cmd with
           | None => (Ok false, s)
           | Some h =>
               try_catch (invoke h (mk_CommandContext msg cmd a reply_fn) ;; mret true)
                         (λ _, mret false) s
           end.

End Execute.

(** ** Reference definitions the theorems compare with *)

(** Quote a token so that [tokenize] reads it back. *)
Fixpoint escape (s : string) : string :=
  match s with
  | EmptyString => ""
  | String c s' =>
      if bool_decide (c = backslash ∨ c = dquote)
      then String backslash (String c (escape s'))
      else String c (escape s')
  end.

Definition quote (s : string) : string :=
  String dquote (escape s +:+ String dquote "").

Definition render (l : list string) : string := join " " (map quote l).

(** Splitting at white space: what [tokenize] does to a text with no quote and
    no backslash. *)
Fixpoint words_from (cur : string) (s : string) : list string :=
  match s with
  | EmptyString => if str_empty cur then [] else [cur]
  | String c s' =>
      if isspace c then
        if str_empty cur then words_from "" s' else cur :: words_from "" s'
      else words_from (push_char cur c) s'
  end.

Definition words (s : string) : list string := words_from "" s.

Definition plain_char (c : ascii) : bool :=
  negb (bool_decide (c = backslash)) && negb (bool_decide (c = dquote)).

Definition word_char (c : ascii) : bool := plain_char c && negb (isspace c).

(** The grammar of a command line, written without the tokenizer's flags.  Between
    quotes every character stands for itself but the quote and the backslash; a
    backslash stands for the character after it. *)
Inductive quoted : string → string → Prop :=
  | quoted_nil : quoted "" ""
  | quoted_char c w t : plain_char c = true → quoted w t → quoted (String c w) (String c t)
  | quoted_escape c w t : quoted w t → quoted (String backslash (String c w)) (String c t).

(** [spells w t]: the text [w] is a spelling of the token [t], with plain
    characters, escaped ones and parts in quotes in any order. *)
Inductive spells : string → string → Prop :=
  | spells_nil : spells "" ""
  | spells_char c w t : word_char c = true → spells w t → spells (String c w) (String c t)
  | spells_escape c w t : spells w t → spells (String backslash (String c w)) (String c t)
  | spells_quoted q u w t :
      quoted q u → spells w t → spells (String dquote (q +:+ String dquote w)) (u +:+ t).

(** The end of a text: a quote left open reaches to the end, and a backslash with
    nothing after it stands for nothing. *)
Inductive unfinished : string → string → Prop :=
  | unfinished_none : unfinished "" ""
  | unfinished_escape : unfinished (String backslash "") ""
  | unfinished_quote q u : quoted q u → unfinished (String dquote q) u
  | unfinished_quote_escape q u :
      quoted q u → unfinished (String dquote (q +:+ String backslash "")) u.

(** White space separates the tokens; an empty one, such as a pair of quotes with
    nothing between them, is left out. *)
Definition token (t : string) (l : list string) : list string :=
  if str_empty t then l else t :: l.

Inductive line : string → list string → Prop :=
  | line_last w t r u :
      spells w t → unfinished r u → line (w +:+ r) (token (t +:+ u) [])
  | line_word w t c s l :
      spells w t → isspace c = true → line s l → line (w +:+ String c s) (token t l).

(** ** Lemmas *)

Lemma tok_run_app st s1 s2 : tok_run st (s1 +:+ s2) = tok_run (tok_run st s1) s2.
Proof. revert st. induction s1; simpl; auto. Qed.

Lemma tok_run_escape ts cur t :
  tok_run (mk_tok ts cur true false) (escape t) = mk_tok ts (cur +:+ t) true false.
Proof.
  revert cur. induction t as [|c t IH]; intros cur; simpl; [by rewrite str_app_nil_r|].
  case_bool_decide as Hc; simpl.
  - unfold tok_step at 2; simpl. destruct (decide (backslash = backslash)); [|done].
    unfold tok_step; simpl. by rewrite IH, push_char_cons.
  - unfold tok_step; simpl. rewrite !decide_False by tauto.
    rewrite andb_false_r. by rewrite IH, push_char_cons.
Qed.

Lemma tok_run_quote ts cur t :
  tok_run (mk_tok ts cur false false) (quote t) = mk_tok ts (cur +:+ t) false false.
Proof.
  unfold quote. simpl. rewrite tok_run_app.
  replace (tok_step (mk_tok ts cur false false) dquote) with (mk_tok ts cur true false)
    by reflexivity.
  rewrite tok_run_escape. reflexivity.
Qed.

Lemma tok_run_space ts cur s :
  cur ≠ "" →
  tok_run (mk_tok ts cur false false) (" " +:+ s) = tok_run (mk_tok (ts ++ [cur]) "" false false) s.
Proof. intros Hc. simpl. by destruct cur. Qed.

Lemma tok_run_render ts l :
  Forall (λ t, t ≠ "") l →
  tok_finish (tok_run (mk_tok ts "" false false) (render l)) = ts ++ l.
Proof.
  unfold render. revert ts. induction l as [|t l IH]; intros ts Hl.
  - simpl. by rewrite app_nil_r.
  - inversion_clear Hl as [|? ? Ht Hl']. destruct l as [|t' l'].
    + cbn [map join]. rewrite tok_run_quote. unfold tok_finish; simpl.
      by apply str_empty_false in Ht as ->.
    + change (join " " (map quote (t :: t' :: l')))
        with (quote t +:+ (" " +:+ join " " (map quote (t' :: l')))).
      rewrite tok_run_app, tok_run_quote, tok_run_space by done.
      rewrite IH by done. by rewrite <- app_assoc.
Qed.

Lemma tok_run_words ts cur s :
  str_forall plain_char s = true →
  tok_finish (tok_run (mk_tok ts cur false false) s) = ts ++ words_from cur s.
Proof.
  revert ts cur. induction s as [|c s IH]; intros ts cur Hs; simpl in *.
  - unfold tok_finish; simpl. destruct (str_empty cur); simpl; [by rewrite app_nil_r|done].
  - apply andb_true_iff in Hs as [Hc Hs]. apply andb_true_iff in Hc as [Hb Hq].
    apply negb_true_iff, bool_decide_eq_false in Hb, Hq.
    unfold tok_step; simpl. rewrite !decide_False, andb_true_r by done.
    destruct (isspace c); [|by apply IH].
    destruct (str_empty cur) eqn:Hcur; simpl.
    + apply str_empty_true in Hcur as ->. by apply IH.
    + rewrite IH by done. by rewrite <- app_assoc.
Qed.

(** The loop invariant of [tokenize]: no stored token is empty. *)
Lemma tok_step_nonempty st c :
  Forall (λ t, t ≠ "") (tokens st) → Forall (λ t, t ≠ "") (tokens (tok_step st c)).
Proof.
  intros H. unfold tok_step. repeat case_match; simpl; auto.
  apply Forall_app; split; [done|]. constructor; [|done].
  by apply str_empty_false, negb_true_iff.
Qed.

Lemma tok_run_nonempty st s :
  Forall (λ t, t ≠ "") (tokens st) → Forall (λ t, t ≠ "") (tokens (tok_run st s)).
Proof. revert st. induction s; simpl; auto using tok_step_nonempty. Qed.

Lemma tok_finish_nonempty st :
  Forall (λ t, t ≠ "") (tokens st) → Forall (λ t, t ≠ "") (tok_finish st).
Proof.
  intros H. unfold tok_finish. case_match; [|done].
  apply Forall_app; split; [done|]. constructor; [|done].
  by apply str_empty_false, negb_true_iff.
Qed.

Lemma words_from_word cur w s :
  str_forall word_char w = true → words_from cur (w +:+ s) = words_from (cur +:+ w) s.
Proof.
  revert cur. induction w as [|c w IH]; intros cur Hw; simpl in *.
  - by rewrite str_app_nil_r.
  - apply andb_true_iff in Hw as [Hc Hw]. apply andb_true_iff in Hc as [_ Hc].
    apply negb_true_iff in Hc as ->. by rewrite IH, push_char_cons.
Qed.

Lemma words_join l :
  Forall (λ t, t ≠ "" ∧ str_forall word_char t = true) l → words (join " " l) = l.
Proof.
  unfold words. induction l as [|t l IH]; intros Hl; [done|].
  inversion_clear Hl as [|? ? [Ht Hw] Hl']. destruct l as [|t' l'].
  - cbn [join]. rewrite <- (str_app_nil_r t) at 1. rewrite words_from_word by done. simpl.
    by apply str_empty_false in Ht as ->.
  - change (join " " (t :: t' :: l')) with (t +:+ (" " +:+ join " " (t' :: l'))).
    rewrite words_from_word by done. cbn -[join]. apply str_empty_false in Ht as ->.
    by rewrite IH.
Qed.

Lemma word_plain w : str_forall word_char w = true → str_forall plain_char w = true.
Proof.
  induction w as [|c w IH]; simpl; [done|].
  unfold word_char at 1. intros [[Hp _]%andb_true_iff Hw]%andb_true_iff.
  rewrite Hp. by apply IH.
Qed.

Lemma str_forall_app P s1 s2 :
  str_forall P (s1 +:+ s2) = str_forall P s1 && str_forall P s2.
Proof. induction s1; simpl; [done|]. by rewrite IHs1, andb_assoc. Qed.

Lemma join_plain l :
  Forall (λ t, str_forall plain_char t = true) l → str_forall plain_char (join " " l) = true.
Proof.
  induction l as [|t l IH]; intros Hl; [done|]. inversion_clear Hl.
  destruct l as [|t' l']; [done|].
  change (join " " (t :: t' :: l')) with (t +:+ (" " +:+ join " " (t' :: l'))).
  rewrite !str_forall_app, H, IH by done. reflexivity.
Qed.

Lemma joinArgs_loop_spec a start i fuel r :
  (length a ≤ i + fuel)%nat → (start < i)%nat →
  joinArgs_loop a start i fuel r =
    match drop i a with [] => r | l => r +:+ " " +:+ join " " l end.
Proof.
  revert i r. induction fuel as [|fuel IH]; intros i r Hlen Hi; simpl.
  - by rewrite drop_ge by lia.
  - destruct (a !! i) as [x|] eqn:Hx.
    + rewrite (proj2 (Nat.ltb_lt start i)) by done.
      rewrite IH by lia. rewrite (drop_S a x i) by done.
      destruct (drop (S i) a) eqn:Hd; cbn [join]; by rewrite ?str_app_assoc.
    + apply lookup_ge_None in Hx. by rewrite drop_ge by lia.
Qed.

Lemma joinArgs_spec {St} (ctx : CommandContext St) start :
  joinArgs ctx start = join " " (drop start (args ctx)).
Proof.
  unfold joinArgs. destruct (args ctx) as [|x0 a0] eqn:Ha; [by rewrite drop_nil|].
  cbn [length joinArgs_loop]. rewrite <- Ha.
  destruct (args ctx !! start) as [x|] eqn:Hx.
  - rewrite Nat.ltb_irrefl.
    rewrite joinArgs_loop_spec; [|rewrite Ha; simpl; lia|lia].
    rewrite (drop_S (args ctx) x start) by done.
    by destruct (drop (S start) (args ctx)).
  - apply lookup_ge_None in Hx. by rewrite drop_ge.
Qed.

Lemma parseCommand_command {H} (p : CommandParser H) t :
  starts_with (m_prefix p +:+ t) (m_prefix p) = true →
  m_prefix p +:+ t ≠ "" →
  parseCommand p (m_prefix p +:+ t) =
    match tokenize t with [] => ("", []) | c :: r => (c, r) end.
Proof.
  intros Hs Hne. unfold parseCommand, isCommand.
  rewrite Hs. apply str_empty_false in Hne as ->. simpl. by rewrite str_drop_app.
Qed.

(** The tokenizer reads the grammar. *)

Lemma plain_not c : plain_char c = true → c ≠ backslash ∧ c ≠ dquote.
Proof.
  unfold plain_char. intros [?%negb_true_iff ?%negb_true_iff]%andb_true_iff.
  by rewrite bool_decide_eq_false in *.
Qed.

Lemma tok_step_plain ts cur q c :
  plain_char c = true → isspace c = false ∨ q = true →
  tok_step (mk_tok ts cur q false) c = mk_tok ts (push_char cur c) q false.
Proof.
  intros [Hb Hq]%plain_not Hs. unfold tok_step; simpl. rewrite !decide_False by done.
  destruct Hs as [-> | ->]; [done|]. by rewrite andb_false_r.
Qed.

Lemma tok_run_escaped ts cur q c s :
  tok_run (mk_tok ts cur q false) (String backslash (String c s)) =
  tok_run (mk_tok ts (push_char cur c) q false) s.
Proof. reflexivity. Qed.

Lemma tok_run_quoted ts cur w t s : quoted w t →
  tok_run (mk_tok ts cur true false) (w +:+ s) = tok_run (mk_tok ts (cur +:+ t) true false) s.
Proof.
  intros Hq. revert cur. induction Hq as [|c w t Hc _ IH|c w t _ IH]; intros cur;
    cbn [String.append].
  - by rewrite str_app_nil_r.
  - cbn [tok_run]. rewrite tok_step_plain by auto. by rewrite IH, push_char_cons.
  - by rewrite tok_run_escaped, IH, push_char_cons.
Qed.

Lemma tok_run_spells ts cur w t s : spells w t →
  tok_run (mk_tok ts cur false false) (w +:+ s) = tok_run (mk_tok ts (cur +:+ t) false false) s.
Proof.
  intros Hw. revert cur. induction Hw as [|c w t Hc _ IH|c w t _ IH|q u w t Hq _ IH];
    intros cur; cbn [String.append].
  - by rewrite str_app_nil_r.
  - apply andb_true_iff in Hc as [Hc Hs%negb_true_iff].
    cbn [tok_run]. rewrite tok_step_plain by auto. by rewrite IH, push_char_cons.
  - by rewrite tok_run_escaped, IH, push_char_cons.
  - cbn [tok_run]. change (tok_step (mk_tok ts cur false false) dquote) with (mk_tok ts cur true false).
    rewrite str_app_assoc, (tok_run_quoted _ _ _ _ _ Hq). cbn [String.append tok_run].
    change (tok_step (mk_tok ts (cur +:+ u) true false) dquote)
      with (mk_tok ts (cur +:+ u) false false).
    by rewrite IH, str_app_assoc.
Qed.

Lemma tok_run_unfinished ts cur r u : unfinished r u →
  tok_finish (tok_run (mk_tok ts cur false false) r) = ts ++ token (cur +:+ u) [].
Proof.
  assert (Hf : ∀ t q e, tok_finish (mk_tok ts t q e) = ts ++ token t []).
  { intros t q e. unfold tok_finish, token; simpl. destruct (str_empty t); [|done].
    by rewrite app_nil_r. }
  assert (Hopen : ∀ q, tok_run (mk_tok ts cur false false) (String dquote q) =
                       tok_run (mk_tok ts cur true false) q) by done.
  destruct 1 as [| |q u Hq|q u Hq]; rewrite ?str_app_nil_r; [apply Hf|apply Hf| |]; rewrite Hopen.
  - rewrite <- (str_app_nil_r q), (tok_run_quoted _ _ _ _ _ Hq). apply Hf.
  - rewrite (tok_run_quoted _ _ _ _ _ Hq). apply Hf.
Qed.

Lemma tok_run_line ts s l : line s l →
  tok_finish (tok_run (mk_tok ts "" false false) s) = ts ++ l.
Proof.
  intros Hl. revert ts. induction Hl as [w t r u Hw Hr|w t c s l Hw Hc Hl IH]; intros ts;
    rewrite (tok_run_spells _ _ _ _ _ Hw); cbn [String.append].
  - by rewrite (tok_run_unfinished _ _ _ _ Hr).
  - cbn [tok_run]. unfold tok_step at 1; cbn -[tok_run].
    rewrite !decide_False, Hc by (intros ->; discriminate Hc). cbn [andb negb].
    unfold token. destruct (str_empty t) eqn:Ht; cbn [negb]; rewrite ?IH, <- ?app_assoc; [|done].
    apply str_empty_true in Ht as ->. apply IH.
Qed.

Lemma line_tokenize_eq s l : line s l → tokenize s = l.
Proof. apply (tok_run_line []). Qed.

(** Every text is a command line. *)

Lemma quoted_total s :
  (∃ q u s', s = q +:+ String dquote s' ∧ quoted q u) ∨ ∃ u, unfinished (String dquote s) u.
Proof.
  induction s as [s IH] using (induction_ltof1 _ String.length). unfold ltof in IH.
  destruct s as [|c s]; [right; exists ""; repeat constructor|].
  destruct (plain_char c) eqn:Hc.
  - destruct (IH s) as [(q & u & s' & -> & Hq)|[u Hu]]; [simpl; lia| |].
    + left. exists (String c q), (String c u), s'. by repeat constructor.
    + right. exists (String c u). inversion Hu as [| |q u' Hq|q u' Hq]; subst.
      * by repeat constructor.
      * apply (unfinished_quote_escape (String c q)). by constructor.
  - apply andb_false_iff in Hc as [Hc%negb_false_iff|Hc%negb_false_iff];
      apply bool_decide_eq_true in Hc as ->.
    + destruct s as [|d s]; [right; exists ""; apply (unfinished_quote_escape "" ""); constructor|].
      destruct (IH s) as [(q & u & s' & -> & Hq)|[u Hu]]; [simpl; lia| |].
      * left. exists (String backslash (String d q)), (String d u), s'. by repeat constructor.
      * right. exists (String d u). inversion Hu as [| |q u' Hq|q u' Hq]; subst.
        -- by repeat constructor.
        -- apply (unfinished_quote_escape (String backslash (String d q))). by constructor.
    + left. exists "", "", s. by repeat constructor.
Qed.

(** The first word of a text: it ends at white space or with the text. *)
Definition starts_word (s : string) : Prop :=
  (∃ w t r u, s = w +:+ r ∧ spells w t ∧ unfinished r u) ∨
  ∃ w t c s', s = w +:+ String c s' ∧ spells w t ∧ isspace c = true.

Lemma starts_word_prefix p s :
  (∀ w t, spells w t → ∃ t', spells (p +:+ w) t') → starts_word s → starts_word (p +:+ s).
Proof.
  intros Hp [(w & t & r & u & -> & [t' Hw]%Hp & Hr)|(w & t & c & s' & -> & [t' Hw]%Hp & Hc)];
    [left; exists (p +:+ w), t', r, u|right; exists (p +:+ w), t', c, s']; by rewrite str_app_assoc.
Qed.

Lemma starts_word_total s : starts_word s.
Proof.
  induction s as [s IH] using (induction_ltof1 _ String.length). unfold ltof in IH.
  destruct s as [|c s]; [left; exists "", "", "", ""; by repeat constructor|].
  destruct (plain_char c) eqn:Hc.
  - destruct (isspace c) eqn:Hs; [right; exists "", "", c, s; by repeat constructor|].
    apply (starts_word_prefix (String c "")); [|apply IH; simpl; lia].
    intros w t Hw. exists (String c t). constructor; [|done]. unfold word_char. by rewrite Hc, Hs.
  - apply andb_false_iff in Hc as [Hc%negb_false_iff|Hc%negb_false_iff];
      apply bool_decide_eq_true in Hc as ->.
    + destruct s as [|d s]; [left; exists "", "", (String backslash ""), ""; by repeat constructor|].
      apply (starts_word_prefix (String backslash (String d ""))); [|apply IH; simpl; lia].
      intros w t Hw. exists (String d t). by constructor.
    + destruct (quoted_total s) as [(q & u & s' & -> & Hq)|[u Hu]];
        [|left; exists "", "", (String dquote s), u; split_and!; [done|constructor|done]].
      replace (String dquote (q +:+ String dquote s')) with
        (String dquote (q +:+ String dquote "") +:+ s') by (simpl; by rewrite str_app_assoc).
      apply starts_word_prefix; [|apply IH; simpl; rewrite str_length_app; simpl; lia].
      intros w t Hw. exists (u +:+ t). cbn [String.append]. rewrite str_app_assoc. by constructor.
Qed.

Lemma line_total s : ∃ l, line s l.
Proof.
  induction s as [s IH] using (induction_ltof1 _ String.length). unfold ltof in IH.
  destruct (starts_word_total s) as [(w & t & r & u & -> & Hw & Hr)|(w & t & c & s' & -> & Hw & Hc)].
  - eexists. by eapply line_last.
  - destruct (IH s') as [l Hl]; [rewrite str_length_app; simpl; lia|]. eexists. by eapply line_word.
Qed.

Lemma line_tokenize s : line s (tokenize s).
Proof. destruct (line_total s) as [l Hl]. by rewrite (line_tokenize_eq _ _ Hl). Qed.

(** ** Properties *)

(** C24.  Round trip of the tokenizer: any list of non-empty tokens, each written
    between quotes with its quotes and backslashes escaped, and separated by
    single spaces, is read back exactly by [CommandParser::tokenize], whatever
    characters (white space, quotes, backslashes) the tokens contain. *)
Theorem tokenize_render (l : list string) :
  Forall (λ t, t ≠ "") l → tokenize (render l) = l.
Proof. intros Hl. unfold tokenize. by rewrite tok_run_render. Qed.

Lemma tokenize_render_witness :
  tokenize (render ["say"; "a b"; String dquote (String backslash "x")])
  = ["say"; "a b"; String dquote (String backslash "x")].
Proof. apply (tokenize_render ["say"; "a b"; String dquote (String backslash "x")]).
  repeat constructor; discriminate. Defined.

(** The tokenizer against a reference definition: on a text with no quote
    and no backslash it is splitting at white space, and on every text no token
    it returns is empty. *)
Theorem tokenize_words (s : string) :
  Forall (λ t, t ≠ "") (tokenize s) ∧
  (str_forall plain_char s = true → tokenize s = words s).
Proof.
  split.
  - apply tok_finish_nonempty, tok_run_nonempty. constructor.
  - apply (tok_run_words []).
Qed.

Lemma tokenize_words_witness : tokenize "dice 20  now" = ["dice"; "20"; "now"].
Proof. rewrite (proj2 (tokenize_words "dice 20  now") eq_refl). reflexivity. Defined.

(** [CommandContext::joinArgs]: the index loop returns the arguments from
    [start_index] on with one space between them (the empty string past the
    end), and tokenizing that string gives those arguments back when they are
    plain words. *)
Theorem joinArgs_roundtrip {St} (ctx : CommandContext St) (start : nat) :
  joinArgs ctx start = join " " (drop start (args ctx)) ∧
  (Forall (λ t, t ≠ "" ∧ str_forall word_char t = true) (args ctx) →
   tokenize (joinArgs ctx start) = drop start (args ctx)).
Proof.
  split; [apply joinArgs_spec|]. intros Ha. rewrite joinArgs_spec.
  apply (Forall_drop _ start) in Ha. unfold tokenize.
  rewrite tok_run_words.
  - by apply words_join.
  - apply join_plain. eapply Forall_impl; [exact Ha|]. intros t [_ Ht]. by apply word_plain.
Qed.

Lemma joinArgs_roundtrip_witness :
  let ctx := @mk_CommandContext unit (mk_ChatMessage "u" "" "" []) "say" ["a"; "b"; "c"]
               (λ _, mret tt) in
  tokenize (joinArgs ctx 1) = ["b"; "c"].
Proof.
  intros ctx. apply (proj2 (joinArgs_roundtrip ctx 1)). repeat constructor; done.
Defined.

Section ExecuteProperties.
Context {H St : Type} (parser_of : St → CommandParser H)
        (invoke : H → CommandContext St → M St unit).

(** C25.  Dispatch end to end: once a handler is registered under [name], a
    message made of the prefix and a command line whose first token is that name in
    any letter case calls that handler with exactly that token as the command and
    the other tokens as the arguments; [parseAndExecute] reports [true] when the
    handler returns, [false] when it throws, and keeps the handler's effect on the
    state.  The tokens are those of the grammar [line]: white space separates them,
    and each may be written plainly, with escapes or in quotes; every text is such
    a line. *)
Theorem parseAndExecute_dispatch (p : CommandParser H) name h msg reply_fn body cmd l s :
  parser_of s = registerCommand name (Some h) p →
  name ≠ "" → tolower cmd = tolower name →
  text msg = m_prefix p +:+ body → line body (cmd :: l) →
  parseAndExecute parser_of invoke msg reply_fn s =
    match invoke h (mk_CommandContext msg cmd l reply_fn) s with
    | (Ok _, s') => (Ok true, s')
    | (Throw _, s') => (Ok false, s')
    | (Undefined, s') => (Undefined, s')
    end.
Proof.
  intros Hp Hname Hcmd Htext Hl%line_tokenize_eq. unfold parseAndExecute.
  apply str_empty_false in Hname. rewrite Hp. unfold registerCommand; rewrite Hname.
  set (p' := mk_CommandParser _ _).
  assert (Hce : cmd ≠ "").
  { apply str_empty_false. by rewrite <- (tolower_empty cmd), Hcmd, tolower_empty. }
  assert (Htne : str_empty (text msg) = false).
  { rewrite Htext. apply str_empty_false. by intros [_ ->]%str_app_eq_nil. }
  assert (Hic : isCommand p' (text msg) = true).
  { unfold isCommand. rewrite Htne, Htext. simpl. apply starts_with_app. }
  rewrite Hic; cbn [negb]. unfold parseCommand; rewrite Hic; cbn [negb].
  rewrite Htext. change (m_prefix p') with (m_prefix p). rewrite str_drop_app, Hl.
  apply str_empty_false in Hce. rewrite Hce.
  change (m_commands p') with (<[tolower name := h]> (m_commands p)).
  rewrite Hcmd, lookup_insert_eq. unfold try_catch, mbind, M_bind, mret, M_ret.
  by destruct (invoke h _ s) as [[]].
Qed.

(** C26.  Containment: [parseAndExecute] never lets an exception of a handler
    escape, and a message that is not a command, has an empty command word or
    names no registered command returns [false] and leaves the whole program
    state untouched. *)
Theorem parseAndExecute_contained msg reply_fn s :
  (∀ e, fst (parseAndExecute parser_of invoke msg reply_fn s) ≠ Throw e) ∧
  (isCommand (parser_of s) (text msg) = false ∨
   fst (parseCommand (parser_of s) (text msg)) = "" ∨
   m_commands (parser_of s) !! tolower (fst (parseCommand (parser_of s) (text msg))) = None →
   parseAndExecute parser_of invoke msg reply_fn s = (Ok false, s)).
Proof.
  unfold parseAndExecute.
  destruct (parseCommand (parser_of s) (text msg)) as [cmd a] eqn:Hpc; simpl. split.
  - intros e. repeat case_match; simpl; try done.
    unfold try_catch, mbind, M_bind, mret, M_ret.
    by destruct (invoke _ _ s) as [[]].
  - intros [Hc | [-> | Hn]].
    + by rewrite Hc.
    + by destruct (negb _).
    + rewrite Hn. by destruct (negb _), (str_empty cmd).
Qed.

End ExecuteProperties.

(** A line of plain words, an escaped space, quotes, and a quote left open. *)
Example line_examples :
  line "DICE  20" ["DICE"; "20"] ∧ line "say a\ b" ["say"; "a b"] ∧
  line ("say " +:+ String dquote ("a b" +:+ String dquote "c")) ["say"; "a bc"] ∧
  line ("say " +:+ String dquote "a b") ["say"; "a b"].
Proof. split_and!; match goal with |- line ?s _ => exact (line_tokenize s) end. Qed.

Lemma parseAndExecute_dispatch_witness :
  let st := @registerCommand string "Dice" (Some "roll") new_CommandParser in
  let msg := mk_ChatMessage "bob" "!DICE 20" "" [] in
  parseAndExecute (λ s : CommandParser string * list string, fst s)
    (λ h c, modify (λ '(p, out), (p, out ++ [h +:+ joinArgs c 0]))) msg (λ _, mret tt) (st, [])
  = (Ok true, (st, ["roll20"])).
Proof.
  intros st msg.
  rewrite (parseAndExecute_dispatch fst _ new_CommandParser "Dice" "roll" msg _ "DICE 20"
             "DICE" ["20"]);
    [reflexivity | reflexivity | discriminate | reflexivity | reflexivity
    | apply (line_tokenize "DICE 20")].
Defined.

Lemma parseAndExecute_contained_witness :
  let st := @registerCommand string "dice" (Some "roll") new_CommandParser in
  let msg := mk_ChatMessage "bob" "hello dice" "" [] in
  parseAndExecute (λ s, s) (λ _ _, throw (runtime_error "boom")) msg (λ _, mret tt) st
  = (Ok false, st).
Proof.
  intros st msg.
  apply (proj2 (parseAndExecute_contained (λ s, s) _ msg (λ _, mret tt) st)).
  left. reflexivity.
Defined.

(** Registration: a name and a handler that are both non-empty are entered
    under the lower-cased name, so a later look-up in any case finds the newest
    handler; every other entry is untouched, and an empty name or an empty
    handler changes nothing. *)
Theorem registerCommand_lookup {H} (p : CommandParser H) name handler k :
  m_commands (registerCommand name handler p) !! tolower k =
    match handler with
    | Some h => if decide (name ≠ "" ∧ tolower k = tolower name) then Some h
                else m_commands p !! tolower k
    | None => m_commands p !! tolower k
    end ∧
  m_prefix (registerCommand name handler p) = m_prefix p.
Proof.
  unfold registerCommand. destruct (str_empty name) eqn:He; destruct handler as [h|]; simpl;
    split; auto.
  - apply str_empty_true in He as ->. rewrite decide_False by tauto. done.
  - apply str_empty_false in He. rewrite lookup_insert.
    destruct (decide (tolower name = tolower k)); destruct (decide _) as [[? ?]|Hn]; try congruence.
    destruct Hn. auto.
Qed.
