(* ===== verification/CalTime.v ===== *)
(** * Calendar time

    The parts of [<ctime>], [<chrono>] and [<iomanip>] used by [parseTime]
    ([src/tw/auth.cpp]) and [getIsoTimestamp] ([src/discord/notifications.cpp]):
    [gmtime], [timegm], [std::put_time] and [std::get_time] with the format
    ["%Y-%m-%dT%H:%M:%SZ"].  A [time_t] is a number of seconds since 1970. *)

From S2P Require Import Prelude Cxx.

Record tm := mk_tm {
  tm_year : Z;     (* the year itself, not minus 1900 *)
  tm_mon : Z;      (* 1 .. 12 *)
  tm_mday : Z;
  tm_hour : Z;
  tm_min : Z;
  tm_sec : Z;
}.

(** Days since 1970-01-01 of a date of the proleptic Gregorian calendar. *)
Definition days_from_civil (y m d : Z) : Z :=
  let y := if m <=? 2 then y - 1 else y in
  let era := y / 400 in
  let yoe := y mod 400 in
  let doy := (153 * (if 2 <? m then m - 3 else m + 9) + 2) / 5 + d - 1 in
  let doe := yoe * 365 + yoe / 4 - yoe / 100 + doy in
  era * 146097 + doe - 719468.

Definition civil_from_days (z : Z) : Z * Z * Z :=
  let z := z + 719468 in
  let era := z / 146097 in                       (* 400 years *)
  let doe := z mod 146097 in
  let c := Z.min 3 (doe / 36524) in              (* centuries *)
  let q := (doe - 36524 * c) / 1461 in           (* 4 years *)
  let r := Z.min 3 ((doe - 36524 * c - 1461 * q) / 365) in
  let yoe := 100 * c + 4 * q + r in
  let doy := doe - 36524 * c - 1461 * q - 365 * r in
  let mp := (5 * doy + 2) / 153 in
  let d := doy - (153 * mp + 2) / 5 + 1 in
  let m := if mp <? 10 then mp + 3 else mp - 9 in
  (if m <=? 2 then yoe + era * 400 + 1 else yoe + era * 400, m, d).

Definition gmtime (t : Z) : tm :=
  let '(y, m, d) := civil_from_days (t / 86400) in
  let r := t mod 86400 in
  mk_tm y m d (r / 3600) (r mod 3600 / 60) (r mod 60).

Definition timegm (t : tm) : Z :=
  days_from_civil (tm_year t) (tm_mon t) (tm_mday t) * 86400
  + tm_hour t * 3600 + tm_min t * 60 + tm_sec t.

(** ** Printing *)

Definition two_digits (n : Z) : string := String (digit (n / 10)) (String (digit (n mod 10)) "").

(** [std::put_time(&t, "%Y-%m-%dT%H:%M:%SZ")] *)
Definition put_time (t : tm) : string :=
  to_string (tm_year t) +:+ "-" +:+ two_digits (tm_mon t) +:+ "-" +:+ two_digits (tm_mday t)
  +:+ "T" +:+ two_digits (tm_hour t) +:+ ":" +:+ two_digits (tm_min t)
  +:+ ":" +:+ two_digits (tm_sec t) +:+ "Z".

(** ** Parsing *)

Definition digit_value (c : ascii) : option Z :=
  let n := Ascii.nat_of_ascii c in
  if ((48 <=? n) && (n <=? 57))%nat then Some (Z.of_nat n - 48) else None.

Fixpoint more_digits (n : nat) (acc : Z) (s : string) : Z * string :=
  match n, s with
  | S n', String c s' =>
      match digit_value c with
      | Some d => more_digits n' (10 * acc + d) s'
      | None => (acc, s)
      end
  | _, _ => (acc, s)
  end.

(** At least one and at most [n] digits. *)
Definition get_digits (n : nat) (s : string) : option (Z * string) :=
  match s with
  | String c s' =>
      match digit_value c with
      | Some d => Some (more_digits (pred n) d s')
      | None => None
      end
  | EmptyString => None
  end.

Definition get_field (n : nat) (lo hi : Z) (s : string) : option (Z * string) :=
  r ← get_digits n s;
  if (lo <=? fst r) && (fst r <=? hi) then Some r else None.

Definition get_literal (c : ascii) (s : string) : option string :=
  match s with
  | String d s' => if decide (d = c) then Some s' else None
  | EmptyString => None
  end.

Definition chr_dash : ascii := Ascii.ascii_of_nat 45.
Definition chr_T : ascii := Ascii.ascii_of_nat 84.
Definition chr_colon : ascii := Ascii.ascii_of_nat 58.
Definition chr_Z : ascii := Ascii.ascii_of_nat 90.

(** [std::get_time(&t, "%Y-%m-%dT%H:%M:%SZ")]; [None] sets [failbit]. *)
Definition get_time (s : string) : option tm :=
  '(y, s) ← get_field 4 0 9999 s;
  s ← get_literal chr_dash s;
  '(mo, s) ← get_field 2 1 12 s;
  s ← get_literal chr_dash s;
  '(d, s) ← get_field 2 1 31 s;
  s ← get_literal chr_T s;
  '(hh, s) ← get_field 2 0 23 s;
  s ← get_literal chr_colon s;
  '(mi, s) ← get_field 2 0 59 s;
  s ← get_literal chr_colon s;
  '(ss, s) ← get_field 2 0 60 s;
  _ ← get_literal chr_Z s;
  Some (mk_tm y mo d hh mi ss).

(** ** Lemmas *)

(** A boolean check of every integer of an interval. *)
Fixpoint check_range (f : Z → bool) (n : nat) (lo : Z) : bool :=
  match n with O => true | S n' => f lo && check_range f n' (lo + 1) end.

Lemma check_range_spec f n lo z :
  check_range f n lo = true → lo ≤ z < lo + Z.of_nat n → f z = true.
Proof.
  revert lo. induction n as [|n IH]; intros lo Hc Hz; [lia|]. simpl in Hc.
  apply andb_true_iff in Hc as [Hf Hc]. destruct (decide (z = lo)) as [->|]; [done|].
  apply (IH (lo + 1)); [done|lia].
Qed.

(** A day of a year that starts on 1 March has a month and a day. *)
Definition month_day_ok (doy : Z) : bool :=
  let mp := (5 * doy + 2) / 153 in
  let d := doy - (153 * mp + 2) / 5 + 1 in
  let m := if mp <? 10 then mp + 3 else mp - 9 in
  (1 <=? m) && (m <=? 12) && (1 <=? d) && (d <=? 31)
  && ((153 * (if 2 <? m then m - 3 else m + 9) + 2) / 5 + d - 1 =? doy).

Lemma month_days_ok : check_range month_day_ok 366 0 = true.
Proof. vm_compute. reflexivity. Qed.

Lemma civil_from_days_spec z :
  let '(y, m, d) := civil_from_days z in
  1 ≤ m ≤ 12 ∧ 1 ≤ d ≤ 31 ∧ days_from_civil y m d = z.
Proof.
  unfold civil_from_days. cbv zeta.
  assert (Hz : z + 719468 = 146097 * ((z + 719468) / 146097) + (z + 719468) mod 146097)
    by (apply Z.div_mod; lia).
  pose proof (Z.mod_pos_bound (z + 719468) 146097 ltac:(lia)) as Hd.
  set (era := (z + 719468) / 146097) in *. set (doe := (z + 719468) mod 146097) in *.
  clearbody era doe.
  set (c := Z.min 3 (doe / 36524)).
  assert (Hc : 0 ≤ c ≤ 3 ∧ 0 ≤ doe - 36524 * c < 36525 ∧ (c < 3 → doe - 36524 * c < 36524))
    by (unfold c; Z.to_euclidean_division_equations; lia).
  clearbody c. set (q := (doe - 36524 * c) / 1461).
  assert (Hq : 0 ≤ q ≤ 24 ∧ 0 ≤ doe - 36524 * c - 1461 * q < 1461)
    by (unfold q; Z.to_euclidean_division_equations; lia).
  clearbody q. set (r := Z.min 3 ((doe - 36524 * c - 1461 * q) / 365)).
  assert (Hr : 0 ≤ r ≤ 3 ∧ 0 ≤ doe - 36524 * c - 1461 * q - 365 * r < 366)
    by (unfold r; Z.to_euclidean_division_equations; lia).
  clearbody r. set (doy := doe - 36524 * c - 1461 * q - 365 * r) in *.
  pose proof (check_range_spec _ _ _ doy month_days_ok ltac:(lia)) as Hm.
  unfold month_day_ok in Hm. cbv zeta in Hm.
  set (m := if (5 * doy + 2) / 153 <? 10 then _ else _) in *.
  set (d := doy - _ + 1) in *.
  rewrite !andb_true_iff, !Z.leb_le, Z.eqb_eq in Hm.
  destruct Hm as ((((? & ?) & ?) & ?) & Hm). split_and!; try done.
  unfold days_from_civil. cbv zeta.
  replace (if m <=? 2 then (if m <=? 2 then _ else _) - 1 else _)
    with (100 * c + 4 * q + r + era * 400) by (destruct (m <=? 2); lia).
  rewrite Z.div_add, Z.mod_add by lia.
  rewrite (Z.div_small _ 400), (Z.mod_small _ 400) by lia. rewrite <- !Z.add_sub_assoc in Hm |- *.
  assert ((100 * c + 4 * q + r) / 4 = 25 * c + q) by (Z.to_euclidean_division_equations; lia).
  assert ((100 * c + 4 * q + r) / 100 = c) by (Z.to_euclidean_division_equations; lia).
  unfold doy in *. lia.
Qed.

Lemma timegm_gmtime t : timegm (gmtime t) = t.
Proof.
  unfold timegm, gmtime. pose proof (civil_from_days_spec (t / 86400)) as Hc.
  destruct (civil_from_days (t / 86400)) as [[y m] d]. destruct Hc as (_ & _ & Hc).
  cbn [tm_year tm_mon tm_mday tm_hour tm_min tm_sec]. rewrite Hc.
  pose proof (Z.div_mod t 86400 ltac:(lia)). pose proof (Z.mod_pos_bound t 86400 ltac:(lia)).
  set (r := t mod 86400) in *.
  pose proof (Z.div_mod r 3600 ltac:(lia)). pose proof (Z.mod_pos_bound r 3600 ltac:(lia)).
  pose proof (Z.div_mod (r mod 3600) 60 ltac:(lia)).
  pose proof (Z.mod_pos_bound (r mod 3600) 60 ltac:(lia)).
  assert (r mod 3600 mod 60 = r mod 60).
  { apply Z.mod_mod_divide. by exists 60. }
  lia.
Qed.

Lemma digit_value_digit n : 0 ≤ n < 10 → digit_value (digit n) = Some n.
Proof.
  intros Hn. assert (n = 0 ∨ n = 1 ∨ n = 2 ∨ n = 3 ∨ n = 4 ∨ n = 5 ∨ n = 6 ∨ n = 7 ∨ n = 8 ∨ n = 9)
    as H by lia. by repeat destruct H as [->|H]; [..|subst n].
Qed.

Lemma get_two_digits lo hi n s :
  0 ≤ n < 100 → lo ≤ n ≤ hi → get_field 2 lo hi (two_digits n +:+ s) = Some (n, s).
Proof.
  intros Hn Hr. unfold get_field, get_digits, two_digits. cbn [String.append].
  rewrite digit_value_digit by (split; [apply Z.div_pos; lia|apply Z.div_lt_upper_bound; lia]).
  cbn [more_digits pred]. rewrite digit_value_digit by (apply Z.mod_pos_bound; lia).
  replace (10 * (n / 10) + n mod 10) with n by (apply Z.div_mod; lia). cbn [mbind option_bind fst].
  rewrite (proj2 (Z.leb_le _ _)), (proj2 (Z.leb_le _ _)) by lia. done.
Qed.

Definition four_digits (n : Z) : string :=
  String (digit (n / 1000)) (String (digit (n / 100 mod 10))
    (String (digit (n / 10 mod 10)) (String (digit (n mod 10)) ""))).

Lemma to_string_four_digits y : 1000 ≤ y < 10000 → to_string y = four_digits y.
Proof.
  intros Hy. unfold to_string. rewrite (proj2 (Z.ltb_ge y 0)) by lia.
  assert (9 ≤ Z.log2 y) by (change 9 with (Z.log2 512); apply Z.log2_le_mono; lia).
  destruct (Z.to_nat (Z.log2 y)) as [|[|[|n]]] eqn:Hn; [lia..|]. cbn [dec_digits].
  rewrite !Z.div_div by lia. change (10 * 10) with 100. change (100 * 10) with 1000.
  rewrite (proj2 (Z.ltb_ge y 10)) by lia.
  rewrite (proj2 (Z.ltb_ge (y / 10) 10)) by (Z.to_euclidean_division_equations; lia).
  rewrite (proj2 (Z.ltb_ge (y / 100) 10)) by (Z.to_euclidean_division_equations; lia).
  rewrite (proj2 (Z.ltb_lt (y / 1000) 10)) by (Z.to_euclidean_division_equations; lia).
  done.
Qed.

Lemma get_four_digits y s :
  1000 ≤ y < 10000 → get_field 4 0 9999 (four_digits y +:+ s) = Some (y, s).
Proof.
  intros Hy. unfold get_field, get_digits, four_digits. cbn [String.append pred more_digits].
  rewrite !digit_value_digit by (first [apply Z.mod_pos_bound; lia
    |split; [apply Z.div_pos; lia|apply Z.div_lt_upper_bound; lia]]).
  assert (E : 10 * (10 * (10 * (y / 1000) + y / 100 mod 10) + y / 10 mod 10) + y mod 10 = y).
  { clear s. Z.to_euclidean_division_equations. lia. }
  rewrite E. cbn [mbind option_bind fst].
  rewrite (proj2 (Z.leb_le _ _)), (proj2 (Z.leb_le _ _)) by lia. done.
Qed.

(** The day of a year that starts on 1 March. *)
Lemma day_of_year_bounds m d :
  1 ≤ m ≤ 12 → 1 ≤ d ≤ 31 →
  let doy := (153 * (if 2 <? m then m - 3 else m + 9) + 2) / 5 + d - 1 in
  0 ≤ doy ≤ 367 ∧ (m ≤ 2 → 306 ≤ doy) ∧ (3 ≤ m → doy ≤ 305).
Proof.
  intros Hm Hd.
  assert (m = 1 ∨ m = 2 ∨ m = 3 ∨ m = 4 ∨ m = 5 ∨ m = 6 ∨ m = 7 ∨ m = 8 ∨ m = 9 ∨ m = 10 ∨
          m = 11 ∨ m = 12) as H by lia.
  clear Hm. repeat destruct H as [->|H]; [..|subst m]; cbv zeta; cbn [Z.ltb Z.compare Pos.compare Pos.compare_cont]; Z.to_euclidean_division_equations; lia.
Qed.

Lemma civil_year_bounds t y m d :
  -30610224000 ≤ t < 253402300800 → civil_from_days (t / 86400) = (y, m, d) → 1000 ≤ y < 10000.
Proof.
  intros Ht Hc. pose proof (civil_from_days_spec (t / 86400)) as Hs. rewrite Hc in Hs.
  destruct Hs as (Hm & Hd & Hs).
  assert (-354285 ≤ t / 86400 < 2932897).
  { split; [apply Z.div_le_lower_bound|apply Z.div_lt_upper_bound]; lia. }
  unfold days_from_civil in Hs. set (y' := if m <=? 2 then y - 1 else y) in *.
  assert (Hy : y' ≤ y ≤ y' + 1 ∧ (y = y' + 1 → m ≤ 2) ∧ (y = y' → 3 ≤ m)).
  { unfold y'. destruct (m <=? 2) eqn:E; [apply Z.leb_le in E|apply Z.leb_gt in E]; lia. }
  pose proof (day_of_year_bounds m d Hm Hd) as Hdoy.
  cbv zeta in Hdoy. set (doy := (153 * _ + 2) / 5 + d - 1) in *.
  pose proof (Z.div_mod y' 400 ltac:(lia)). pose proof (Z.mod_pos_bound y' 400 ltac:(lia)).
  set (era := y' / 400) in *. set (yoe := y' mod 400) in *.
  assert (yoe / 4 * 4 ≤ yoe < yoe / 4 * 4 + 4)
    by (pose proof (Z.div_mod yoe 4 ltac:(lia)); pose proof (Z.mod_pos_bound yoe 4 ltac:(lia)); lia).
  assert (yoe / 100 * 100 ≤ yoe < yoe / 100 * 100 + 100)
    by (pose proof (Z.div_mod yoe 100 ltac:(lia)); pose proof (Z.mod_pos_bound yoe 100 ltac:(lia)); lia).
  lia.
Qed.

Lemma get_literal_hit c d s : c = d → get_literal c (String d "" +:+ s) = Some s.
Proof. intros ->. simpl. by rewrite decide_True. Qed.

(** Printing the calendar time of a four-digit year and reading it back. *)
Lemma get_time_put_time t :
  -30610224000 ≤ t < 253402300800 → get_time (put_time (gmtime t)) = Some (gmtime t).
Proof.
  intros Ht. unfold gmtime. pose proof (civil_from_days_spec (t / 86400)) as Hs.
  destruct (civil_from_days (t / 86400)) as [[y m] d] eqn:Hc. destruct Hs as (Hm & Hd & _).
  pose proof (civil_year_bounds _ _ _ _ Ht Hc) as Hy.
  assert (Hr : 0 ≤ t mod 86400 < 86400) by (apply Z.mod_pos_bound; lia).
  set (r := t mod 86400) in *.
  assert (0 ≤ r / 3600 < 24) by (Z.to_euclidean_division_equations; lia).
  assert (0 ≤ r mod 3600 / 60 < 60) by (Z.to_euclidean_division_equations; lia).
  assert (0 ≤ r mod 60 < 60) by (apply Z.mod_pos_bound; lia).
  unfold get_time, put_time. cbn [tm_year tm_mon tm_mday tm_hour tm_min tm_sec].
  rewrite to_string_four_digits, get_four_digits by done. cbn [mbind option_bind].
  repeat (first [rewrite get_two_digits by lia|rewrite get_literal_hit by done];
    cbn [mbind option_bind]).
  done.
Qed.
