(* ===== verification/Coro.v ===== *)
(** * Coroutines and network I/O

    The network code of the program is written as Boost.Asio coroutines.  A
    [coro S A] is such a coroutine: it runs over the objects in [S], suspends at
    every [co_await] of an I/O operation and continues with its result, and ends
    with a value, an exception or undefined behaviour.  Starting a detached
    coroutine ([asio::co_spawn]) posts it to the queue of the [io_context], which
    is part of the state (file [TwitchService]).

    Boost.Asio, Beast and OpenSSL are outside the repository: what an operation
    answers is given from outside, either by an [Environment] (a function of the
    operations performed before) when one coroutine is run to its end, or step by
    step by a scheduler that interleaves several of them. *)

From S2P Require Import Prelude.

(** ** I/O operations *)

Inductive http_verb := verb_get | verb_post.

Record http_request := mk_request {
  req_verb : http_verb;
  req_target : string;
  req_version : Z;
  req_fields : list (string * string);     (* the header fields, in order *)
  req_body : string;
}.

Record http_response := mk_response {
  res_status : Z;
  res_location : string;                   (* [res.base()["Location"]] *)
  res_body : string;
}.

(** Operations that only succeed or fail. *)
Inductive io_call :=
  | IoResolve (host port : string)
  | IoConnect (host port : string)         (* the endpoints the resolver gave *)
  | IoSetSni (host : string)
  | IoTlsHandshake
  | IoHttpWrite (r : http_request)
  | IoTlsShutdown
  | IoWsHandshake (host target : string)
  | IoWsWrite (text : string)
  | IoWsClose
  | IoTimer (ms : Z)                       (* [steady_timer::async_wait] *)
  | IoProcess (command : string).          (* [boost::process::child] *)

(** Why a coroutine has undefined behaviour: it follows a pointer that is null or
    whose object was destroyed, the model ran out of the fuel of a loop, or a call
    it makes is undefined. *)
Inductive ub := Dangling | OutOfFuel | OtherUB.

Inductive coro (St A : Type) : Type :=
  | co_return (a : A)
  | co_throw (e : exn)
  | co_undefined (u : ub)
  | co_get (k : St → coro St A)
  | co_put (s : St) (c : coro St A)
  | co_do (op : io_call) (k : option exn → coro St A)
  | co_http_read (k : exn + http_response → coro St A)
  | co_ws_read (k : exn + string → coro St A)
  | co_random (n : nat) (k : nat → coro St A).    (* a number below [n] *)
Arguments co_return {St A}.
Arguments co_throw {St A}.
Arguments co_undefined {St A}.
Arguments co_get {St A}.
Arguments co_put {St A}.
Arguments co_do {St A}.
Arguments co_http_read {St A}.
Arguments co_ws_read {St A}.
Arguments co_random {St A}.

(** ** The coroutine monad *)

Fixpoint co_bind {St A B} (f : A → coro St B) (c : coro St A) : coro St B :=
  match c with
  | co_return a => f a
  | co_throw e => co_throw e
  | co_undefined u => co_undefined u
  | co_get k => co_get (λ s, co_bind f (k s))
  | co_put s c' => co_put s (co_bind f c')
  | co_do op k => co_do op (λ r, co_bind f (k r))
  | co_http_read k => co_http_read (λ r, co_bind f (k r))
  | co_ws_read k => co_ws_read (λ r, co_bind f (k r))
  | co_random n k => co_random n (λ r, co_bind f (k r))
  end.

#[global] Instance coro_ret {St} : MRet (coro St) := λ A a, co_return a.
#[global] Instance coro_bind {St} : MBind (coro St) := λ A B f c, co_bind f c.

(** [try { c } catch (E &e) { h e }] for the exceptions [catches] accepts. *)
Fixpoint co_catch {St A} (catches : exn → bool) (h : exn → coro St A) (c : coro St A)
    : coro St A :=
  match c with
  | co_return a => co_return a
  | co_throw e => if catches e then h e else co_throw e
  | co_undefined u => co_undefined u
  | co_get k => co_get (λ s, co_catch catches h (k s))
  | co_put s c' => co_put s (co_catch catches h c')
  | co_do op k => co_do op (λ r, co_catch catches h (k r))
  | co_http_read k => co_http_read (λ r, co_catch catches h (k r))
  | co_ws_read k => co_ws_read (λ r, co_catch catches h (k r))
  | co_random n k => co_random n (λ r, co_catch catches h (k r))
  end.

Definition any_exception (e : exn) : bool := true.
Definition system_error (e : exn) : bool :=
  match exn_kind_of e with SystemError _ => true | _ => false end.
Definition error_code (e : exn) : string :=
  match exn_kind_of e with SystemError c => c | _ => "" end.

(** [co_await] of one operation: its failure is thrown. *)
Definition await {St} (op : io_call) : coro St unit :=
  co_do op (λ r, match r with None => co_return tt | Some e => co_throw e end).
Definition await_http {St} : coro St http_response :=
  co_http_read (λ r, match r with inl e => co_throw e | inr x => co_return x end).
Definition await_ws {St} : coro St string :=
  co_ws_read (λ r, match r with inl e => co_throw e | inr x => co_return x end).

Definition co_gets {St A} (f : St → A) : coro St A := co_get (λ s, co_return (f s)).
Definition co_modify {St} (f : St → St) : coro St unit :=
  co_get (λ s, co_put (f s) (co_return tt)).
Definition co_lift {St A} (r : exn + A) : coro St A :=
  match r with inl e => co_throw e | inr a => co_return a end.
(** A synchronous computation inside a coroutine. *)
Definition co_sync {St A} (m : M St A) : coro St A :=
  co_get (λ s, match m s with
               | (Ok a, s') => co_put s' (co_return a)
               | (Throw e, s') => co_put s' (co_throw e)
               | (Undefined, s') => co_put s' (co_undefined OtherUB)
               end).

(** A coroutine of an object that is part of a larger state.  [get] fails when
    the object does not exist any more. *)
Fixpoint co_zoom {T St A} (get : St → option T) (set : T → St → St) (c : coro T A)
    : coro St A :=
  match c with
  | co_return a => co_return a
  | co_throw e => co_throw e
  | co_undefined u => co_undefined u
  | co_get k => co_get (λ s, match get s with
                             | Some t => co_zoom get set (k t)
                             | None => co_undefined Dangling
                             end)
  | co_put t c' => co_get (λ s, match get s with
                                | Some _ => co_put (set t s) (co_zoom get set c')
                                | None => co_undefined Dangling
                                end)
  | co_do op k => co_do op (λ r, co_zoom get set (k r))
  | co_http_read k => co_http_read (λ r, co_zoom get set (k r))
  | co_ws_read k => co_ws_read (λ r, co_zoom get set (k r))
  | co_random n k => co_random n (λ r, co_zoom get set (k r))
  end.

(** ** Running one coroutine to its end *)

Inductive io_event :=
  | EvDo (op : io_call) (error : option exn)
  | EvHttpRead (r : exn + http_response)
  | EvWsRead (r : exn + string)
  | EvRandom (n r : nat).

Class Environment := {
  env_do : list io_event → io_call → option exn;
  env_http_read : list io_event → exn + http_response;
  env_ws_read : list io_event → exn + string;
  env_random : list io_event → nat → nat;
}.

(** The result, the state and the operations performed (appended to the history [h]). *)
Fixpoint exec {env : Environment} {St A} (c : coro St A) (s : St) (h : list io_event)
    : outcome A * St * list io_event :=
  match c with
  | co_return a => (Ok a, s, h)
  | co_throw e => (Throw e, s, h)
  | co_undefined _ => (Undefined, s, h)
  | co_get k => exec (k s) s h
  | co_put s' c' => exec c' s' h
  | co_do op k => let r := env_do h op in exec (k r) s (h ++ [EvDo op r])
  | co_http_read k => let r := env_http_read h in exec (k r) s (h ++ [EvHttpRead r])
  | co_ws_read k => let r := env_ws_read h in exec (k r) s (h ++ [EvWsRead r])
  | co_random n k =>
      let r := Nat.modulo (env_random h n) n in exec (k r) s (h ++ [EvRandom n r])
  end.

(** ** Interleaving several coroutines *)

(** A coroutine runs until it awaits an operation or ends. *)
Fixpoint advance {St A} (c : coro St A) (s : St) : coro St A * St :=
  match c with
  | co_get k => advance (k s) s
  | co_put s' c' => advance c' s'
  | _ => (c, s)
  end.

(** A resumption: the awaited operation answers, with any result. *)
Inductive answers {St A} : coro St A → coro St A → Prop :=
  | answers_do op k r : answers (co_do op k) (k r)
  | answers_http k r : answers (co_http_read k) (k r)
  | answers_ws k r : answers (co_ws_read k) (k r)
  | answers_random n k r : (r < n)%nat → answers (co_random n k) (k r).

(** ** Laws *)

Section Laws.
Context {env : Environment}.

Lemma co_bind_ret_l {St A B} (a : A) (f : A → coro St B) : (mret a ≫= f) = f a.
Proof. done. Qed.

Lemma exec_bind {St A B} (c : coro St A) (f : A → coro St B) s h :
  exec (c ≫= f) s h =
    let '(o, s1, h1) := exec c s h in
    match o with
    | Ok a => exec (f a) s1 h1
    | Throw e => (Throw e, s1, h1)
    | Undefined => (Undefined, s1, h1)
    end.
Proof.
  unfold mbind, coro_bind. revert s h. induction c; intros s' h; simpl; auto.
Qed.

Lemma exec_catch {St A} p (g : exn → coro St A) (c : coro St A) s h :
  exec (co_catch p g c) s h =
    let '(o, s1, h1) := exec c s h in
    match o with
    | Throw e => if p e then exec (g e) s1 h1 else (Throw e, s1, h1)
    | _ => (o, s1, h1)
    end.
Proof. revert s h. induction c; intros s' h; simpl; auto. by destruct (p e). Qed.

End Laws.

(** ** Runs: reasoning about every environment at once

    [runs c s ev o s']: with some answers of the awaited operations, [c] run from
    state [s] performs the operations [ev] and ends with [o] in state [s'].  A
    coroutine is a well-founded tree, so every environment gives a run
    ([exec_runs]). *)

Fixpoint runs {St A} (c : coro St A) (s : St) (ev : list io_event) (o : outcome A) (s' : St)
    : Prop :=
  match c with
  | co_return a => ev = [] ∧ o = Ok a ∧ s' = s
  | co_throw e => ev = [] ∧ o = Throw e ∧ s' = s
  | co_undefined _ => ev = [] ∧ o = Undefined ∧ s' = s
  | co_get k => runs (k s) s ev o s'
  | co_put s1 c' => runs c' s1 ev o s'
  | co_do op k => ∃ r ev', ev = EvDo op r :: ev' ∧ runs (k r) s ev' o s'
  | co_http_read k => ∃ r ev', ev = EvHttpRead r :: ev' ∧ runs (k r) s ev' o s'
  | co_ws_read k => ∃ r ev', ev = EvWsRead r :: ev' ∧ runs (k r) s ev' o s'
  | co_random n k =>
      ∃ r ev', ev = EvRandom n r :: ev' ∧ (n = 0 ∨ r < n)%nat ∧ runs (k r) s ev' o s'
  end.

Section Runs.
Context {St : Type}.
Implicit Types (s : St) (ev h : list io_event).

Lemma exec_runs {env : Environment} {A} (c : coro St A) s h o s' h' :
  exec c s h = (o, s', h') → ∃ ev, h' = h ++ ev ∧ runs c s ev o s'.
Proof.
  revert s h.
  induction c as [a|e|u|k IH|s1 c IH|op k IH|k IH|k IH|n k IH];
    intros s h; simpl; eauto;
    try (intros [= <- <- <-]; exists []; by rewrite app_nil_r).
  1-3: intros Hx; apply IH in Hx as (ev & -> & Hr); rewrite <- app_assoc; eauto 10.
  intros Hx; apply IH in Hx as (ev & -> & Hr). rewrite <- app_assoc.
  eexists; split; [done|]. eexists _, _; split_and!; [done| |done].
  destruct n; [by left|]. right. by apply Nat.mod_upper_bound.
Qed.

(** The runs of a sequential composition. *)
Lemma runs_bind {A B} (c : coro St A) (f : A → coro St B) s ev o s' :
  runs (c ≫= f) s ev o s' →
  ∃ o1 s1 ev1 ev2, ev = ev1 ++ ev2 ∧ runs c s ev1 o1 s1 ∧
    match o1 with
    | Ok a => runs (f a) s1 ev2 o s'
    | Throw e => o = Throw e ∧ s' = s1 ∧ ev2 = []
    | Undefined => o = Undefined ∧ s' = s1 ∧ ev2 = []
    end.
Proof.
  unfold mbind, coro_bind. revert s ev.
  induction c as [a|e|u|k IH|s1 c IH|op k IH|k IH|k IH|n k IH]; intros s ev; simpl; auto.
  - intros Hr. by eexists (Ok a), s, [], ev.
  - intros (-> & -> & ->). by eexists (Throw e), s, [], [].
  - intros (-> & -> & ->). by eexists Undefined, s, [], [].
  - intros (r & ev' & -> & Hr). apply IH in Hr as (o1 & s1 & ev1 & ev2 & -> & Hr & Hm).
    exists o1, s1, (EvDo op r :: ev1), ev2. eauto 10.
  - intros (r & ev' & -> & Hr). apply IH in Hr as (o1 & s1 & ev1 & ev2 & -> & Hr & Hm).
    exists o1, s1, (EvHttpRead r :: ev1), ev2. eauto 10.
  - intros (r & ev' & -> & Hr). apply IH in Hr as (o1 & s1 & ev1 & ev2 & -> & Hr & Hm).
    exists o1, s1, (EvWsRead r :: ev1), ev2. eauto 10.
  - intros (r & ev' & -> & Hn & Hr). apply IH in Hr as (o1 & s1 & ev1 & ev2 & -> & Hr & Hm).
    exists o1, s1, (EvRandom n r :: ev1), ev2. eauto 10.
Qed.

Lemma runs_assoc {A B C} (c : coro St A) (f : A → coro St B) (g : B → coro St C) s ev o s' :
  runs ((c ≫= f) ≫= g) s ev o s' → runs (c ≫= λ a, f a ≫= g) s ev o s'.
Proof.
  unfold mbind, coro_bind. revert s ev.
  induction c as [a|e|u|k IH|s1 c IH|op k IH|k IH|k IH|n k IH]; intros s ev; simpl; auto;
    naive_solver.
Qed.

(** The runs of [try ... catch]. *)
Lemma runs_catch {A} p (g : exn → coro St A) (c : coro St A) s ev o s' :
  runs (co_catch p g c) s ev o s' →
  (runs c s ev o s' ∧ (∀ e, o = Throw e → p e = false)) ∨
  ∃ e s1 ev1 ev2, ev = ev1 ++ ev2 ∧ runs c s ev1 (Throw e) s1 ∧ p e = true ∧
    runs (g e) s1 ev2 o s'.
Proof.
  revert s ev.
  induction c as [a|e|u|k IH|s1 c IH|op k IH|k IH|k IH|n k IH]; intros s ev; simpl; auto.
  - intros (-> & -> & ->). by left.
  - destruct (p e) eqn:Hp.
    + intros Hr. right. by eexists e, s, [], ev.
    + intros (-> & -> & ->). left. split; [done|]. by intros ? [= <-].
  - intros (-> & -> & ->). by left.
  - intros (r & ev' & -> & Hr).
    apply IH in Hr as [(Hr & Hp)|(e & s1 & ev1 & ev2 & -> & Hr & Hp & Hg)]; eauto 10.
    right. exists e, s1, (EvDo op r :: ev1), ev2. eauto 10.
  - intros (r & ev' & -> & Hr).
    apply IH in Hr as [(Hr & Hp)|(e & s1 & ev1 & ev2 & -> & Hr & Hp & Hg)]; eauto 10.
    right. exists e, s1, (EvHttpRead r :: ev1), ev2. eauto 10.
  - intros (r & ev' & -> & Hr).
    apply IH in Hr as [(Hr & Hp)|(e & s1 & ev1 & ev2 & -> & Hr & Hp & Hg)]; eauto 10.
    right. exists e, s1, (EvWsRead r :: ev1), ev2. eauto 10.
  - intros (r & ev' & -> & Hn & Hr).
    apply IH in Hr as [(Hr & Hp)|(e & s1 & ev1 & ev2 & -> & Hr & Hp & Hg)]; eauto 10.
    right. exists e, s1, (EvRandom n r :: ev1), ev2. eauto 10.
Qed.

(** A handler that throws the exception again. *)
Lemma runs_rethrow {A} p (c : coro St A) s ev o s' :
  runs (co_catch p (λ e, co_throw e) c) s ev o s' → runs c s ev o s'.
Proof.
  intros Hr. apply runs_catch in Hr as [[Hr _]|(e & s1 & ev1 & ev2 & -> & Hr & _ & Hg)]; [done|].
  destruct Hg as (-> & -> & ->). by rewrite app_nil_r.
Qed.

Lemma runs_await op s ev o s' :
  runs (await op) s ev o s' →
  s' = s ∧
  ((ev = [EvDo op None] ∧ o = Ok tt) ∨ ∃ e, ev = [EvDo op (Some e)] ∧ o = Throw e).
Proof. intros ([e|] & ev' & -> & Hr); simpl in Hr; destruct Hr as (-> & -> & ->); eauto 10. Qed.

Lemma runs_await_http s ev o s' :
  runs await_http s ev o s' →
  s' = s ∧
  ((∃ r, ev = [EvHttpRead (inr r)] ∧ o = Ok r) ∨ ∃ e, ev = [EvHttpRead (inl e)] ∧ o = Throw e).
Proof. intros ([e|r] & ev' & -> & Hr); simpl in Hr; destruct Hr as (-> & -> & ->); eauto 10. Qed.

Lemma runs_await_ws s ev o s' :
  runs await_ws s ev o s' →
  s' = s ∧
  ((∃ r, ev = [EvWsRead (inr r)] ∧ o = Ok r) ∨ ∃ e, ev = [EvWsRead (inl e)] ∧ o = Throw e).
Proof. intros ([e|r] & ev' & -> & Hr); simpl in Hr; destruct Hr as (-> & -> & ->); eauto 10. Qed.

Lemma runs_lift {A} (r : exn + A) s ev o s' :
  runs (co_lift r) s ev o s' →
  ev = [] ∧ s' = s ∧ match r with inl e => o = Throw e | inr a => o = Ok a end.
Proof. destruct r; simpl; naive_solver. Qed.

End Runs.

(** ** Interference: coroutines between which others run

    [careful view c s]: from state [s] the coroutine follows no dangling pointer
    and never changes the [view] of the state, whatever the operations answer and
    whatever state the other coroutines leave behind at every suspension. *)

Fixpoint careful {St X A} (view : St → X) (c : coro St A) (s : St) : Prop :=
  match c with
  | co_return _ | co_throw _ => True
  | co_undefined u => u ≠ Dangling
  | co_get k => careful view (k s) s
  | co_put s' c' => view s' = view s ∧ careful view c' s'
  | co_do _ k => ∀ r s', careful view (k r) s'
  | co_http_read k => ∀ r s', careful view (k r) s'
  | co_ws_read k => ∀ r s', careful view (k r) s'
  | co_random _ k => ∀ r s', careful view (k r) s'
  end.

Definition Careful {St X A} (view : St → X) (c : coro St A) : Prop := ∀ s, careful view c s.

Section Careful.
Context {St X : Type} (view : St → X).

Lemma Careful_bind {A B} (c : coro St A) (f : A → coro St B) :
  Careful view c → (∀ a, Careful view (f a)) → Careful view (c ≫= f).
Proof.
  unfold Careful, mbind, coro_bind. intros Hc Hf s. specialize (Hc s). revert s Hc.
  induction c; simpl; intuition eauto.
Qed.

Lemma Careful_catch {A} p (g : exn → coro St A) (c : coro St A) :
  Careful view c → (∀ e, Careful view (g e)) → Careful view (co_catch p g c).
Proof.
  unfold Careful. intros Hc Hg s. specialize (Hc s). revert s Hc.
  induction c; simpl; intuition eauto. case_match; simpl; auto.
Qed.

Lemma Careful_ret {A} (a : A) : Careful view (mret a).
Proof. by intros s. Qed.
Lemma Careful_return {A} (a : A) : Careful view (co_return a).
Proof. by intros s. Qed.
Lemma Careful_throw {A} e : Careful view (co_throw (A := A) e).
Proof. by intros s. Qed.
Lemma Careful_undefined {A} u : u ≠ Dangling → Careful view (co_undefined (A := A) u).
Proof. by intros ? s. Qed.
Lemma Careful_gets {A} (f : St → A) : Careful view (co_gets f).
Proof. by intros s. Qed.
Lemma Careful_modify (f : St → St) : (∀ s, view (f s) = view s) → Careful view (co_modify f).
Proof. intros Hf s. simpl. auto. Qed.
Lemma Careful_lift {A} (r : exn + A) : Careful view (co_lift r).
Proof. by destruct r; intros s. Qed.
Lemma Careful_do {A} op (k : option exn → coro St A) :
  (∀ r, Careful view (k r)) → Careful view (co_do op k).
Proof. intros Hk s r. apply Hk. Qed.
Lemma Careful_random {A} n (k : nat → coro St A) :
  (∀ r, Careful view (k r)) → Careful view (co_random n k).
Proof. intros Hk s r. apply Hk. Qed.
Lemma Careful_await op : Careful view (await op).
Proof. by intros s [e|] s'. Qed.
Lemma Careful_await_http : Careful view await_http.
Proof. by intros s [e|r] s'. Qed.
Lemma Careful_await_ws : Careful view await_ws.
Proof. by intros s [e|r] s'. Qed.

End Careful.

#[export] Hint Resolve Careful_ret Careful_return Careful_throw Careful_gets Careful_lift
  Careful_await Careful_await_http Careful_await_ws : sbot.

(** Take a coroutine apart as far as its syntax goes. *)
Ltac careful_step :=
  lazymatch goal with
  | |- Careful _ (_ ≫= _) => apply Careful_bind; [|intros ?]
  | |- Careful _ (co_catch _ _ _) => apply Careful_catch; [|intros ?]
  | |- Careful _ (co_do _ _) => apply Careful_do; intros ?
  | |- Careful _ (co_random _ _) => apply Careful_random; intros ?
  | |- Careful _ (co_modify _) => apply Careful_modify; intros ?; reflexivity
  | |- Careful _ (co_undefined _) => by apply Careful_undefined
  | |- Careful _ (if ?b then _ else _) => destruct b
  | |- Careful _ (match ?x with _ => _ end) => destruct x
  | |- Careful _ (let _ := _ in _) => cbv zeta
  | |- Careful _ _ => solve [auto with sbot]
  end.
Ltac careful := repeat careful_step.

(** [safe avoid G holds c s Q]: running [c] from [s] while others interfere has no
    undefined behaviour of a kind to [avoid]; every change it makes is in the
    guarantee [G]; at every suspension some claim holds that is enough to go on in any state where it
    still holds; and when it ends, [Q] holds of its outcome and the state. *)
Section Safe.
Context {St C : Type} (avoid : ub → Prop) (G : relation St) `{!PreOrder G} (holds : C → St → Prop).

Definition suspend {R} (s : St) (next : R → St → Prop) : Prop :=
  ∃ cl, holds cl s ∧ ∀ r s', holds cl s' → next r s'.

Fixpoint safe {A} (c : coro St A) (s : St) (Q : outcome A → St → Prop) : Prop :=
  match c with
  | co_return a => Q (Ok a) s
  | co_throw e => Q (Throw e) s
  | co_undefined u => ¬ avoid u
  | co_get k => safe (k s) s Q
  | co_put s' c' => G s s' ∧ safe c' s' Q
  | co_do _ k => suspend s (λ r s', safe (k r) s' Q)
  | co_http_read k => suspend s (λ r s', safe (k r) s' Q)
  | co_ws_read k => suspend s (λ r s', safe (k r) s' Q)
  | co_random _ k => suspend s (λ r s', safe (k r) s' Q)
  end.

Definition suspended {A} (c : coro St A) : Prop :=
  match c with co_do _ _ | co_http_read _ | co_ws_read _ | co_random _ _ => True | _ => False end.

Lemma suspend_mono {R} s (n1 n2 : R → St → Prop) :
  suspend s n1 → (∀ r s', n1 r s' → n2 r s') → suspend s n2.
Proof. intros (cl & Hh & Hn) H12. exists cl. eauto. Qed.

Lemma safe_bind {A B} (c : coro St A) (f : A → coro St B) s Q :
  safe c s (λ o s', match o with
                    | Ok a => safe (f a) s' Q
                    | Throw e => Q (Throw e) s'
                    | Undefined => True
                    end) →
  safe (c ≫= f) s Q.
Proof.
  unfold mbind, coro_bind. revert s.
  induction c as [a|e|u|k IH|s1 c IH|op k IH|k IH|k IH|n k IH]; intros s; simpl; auto.
  - intros [HG Hc]. auto.
  - intros Hs. eapply suspend_mono; [exact Hs|]. auto.
  - intros Hs. eapply suspend_mono; [exact Hs|]. auto.
  - intros Hs. eapply suspend_mono; [exact Hs|]. auto.
  - intros Hs. eapply suspend_mono; [exact Hs|]. auto.
Qed.

Lemma safe_catch {A} (p : exn → bool) (g : exn → coro St A) (c : coro St A) s Q :
  safe c s (λ o s', match o with
                    | Throw e => if p e then safe (g e) s' Q else Q (Throw e) s'
                    | _ => Q o s'
                    end) →
  safe (co_catch p g c) s Q.
Proof.
  revert s.
  induction c as [a|e|u|k IH|s1 c IH|op k IH|k IH|k IH|n k IH]; intros s; simpl; auto.
  - by destruct (p e).
  - intros [HG Hc]. auto.
  - intros Hs. eapply suspend_mono; [exact Hs|]. auto.
  - intros Hs. eapply suspend_mono; [exact Hs|]. auto.
  - intros Hs. eapply suspend_mono; [exact Hs|]. auto.
  - intros Hs. eapply suspend_mono; [exact Hs|]. auto.
Qed.

Lemma safe_mono {A} (c : coro St A) s (Q Q' : outcome A → St → Prop) :
  safe c s Q → (∀ o s', Q o s' → Q' o s') → safe c s Q'.
Proof.
  intros Hc HQ. revert s Hc.
  induction c as [a|e|u|k IH|s1 c IH|op k IH|k IH|k IH|n k IH]; intros s; simpl; auto.
  - intros [HG Hc]. auto.
  - intros Hs. eapply suspend_mono; [exact Hs|]. auto.
  - intros Hs. eapply suspend_mono; [exact Hs|]. auto.
  - intros Hs. eapply suspend_mono; [exact Hs|]. auto.
  - intros Hs. eapply suspend_mono; [exact Hs|]. auto.
Qed.

Lemma safe_gets {A} (f : St → A) s Q : Q (Ok (f s)) s → safe (co_gets f) s Q.
Proof. done. Qed.

Lemma safe_modify f s Q : G s (f s) → Q (Ok tt) (f s) → safe (co_modify f) s Q.
Proof. done. Qed.

Lemma safe_sync {A} (m : M St A) s Q :
  ¬ avoid OtherUB → G s (snd (m s)) → (fst (m s) ≠ Undefined → Q (fst (m s)) (snd (m s))) →
  safe (co_sync m) s Q.
Proof. simpl. destruct (m s) as [[a|e|] s']; simpl; intros; split; auto. Qed.

Lemma safe_await op cl s Q :
  holds cl s → (∀ o s', holds cl s' → Q o s') → safe (await op) s Q.
Proof. intros Hh HQ. exists cl. split; [done|]. intros [e|] s' Hs; simpl; auto. Qed.

Lemma safe_await_ws cl s Q :
  holds cl s → (∀ o s', holds cl s' → Q o s') → safe await_ws s Q.
Proof. intros Hh HQ. exists cl. split; [done|]. intros [e|r] s' Hs; simpl; auto. Qed.

(** A coroutine that changes nothing keeps every claim. *)
Lemma safe_careful {A} (c : coro St A) cl s :
  (∀ u, avoid u → u = Dangling) → careful id c s → holds cl s → safe c s (λ _ s', holds cl s').
Proof.
  intros Havoid. revert s.
  induction c as [a|e|u|k IH|s1 c IH|op k IH|k IH|k IH|n k IH]; intros s; simpl; auto.
  - unfold id. intros [-> Hc] Hh. split; [reflexivity|]. auto.
  - intros Hk Hh. exists cl. auto.
  - intros Hk Hh. exists cl. auto.
  - intros Hk Hh. exists cl. auto.
  - intros Hk Hh. exists cl. auto.
Qed.

(** A coroutine of one object, which a claim protects unless dangling pointers are
    tolerated. *)
Lemma safe_zoom {T X A} `{!Inhabited T} (view : T → X) (get : St → option T) (set : T → St → St)
    (c : coro T A) cl s :
  (∀ u, avoid u → u = Dangling) →
  (∀ s, holds cl s → is_Some (get s) ∨ ¬ avoid Dangling) →
  (∀ t s, holds cl s → G s (set t s) ∧ holds cl (set t s) ∧ get (set t s) = Some t) →
  Careful view c → holds cl s → safe (co_zoom get set c) s (λ _ s', holds cl s').
Proof.
  intros Havoid Hget Hset Hc Hh.
  set (now t s := get s = Some t ∨ (get s = None ∧ ¬ avoid Dangling)).
  assert (Hnow : ∀ s, holds cl s → ∃ t, now t s).
  { intros s1 Hs1. unfold now. destruct (get s1) as [t|] eqn:Ht; [by exists t; left|].
    exists inhabitant. right. split; [done|]. destruct (Hget s1 Hs1) as [[t ?]|?]; [congruence|done]. }
  destruct (Hnow s Hh) as [t Ht]. specialize (Hc t). revert t s Hc Hh Ht.
  induction c as [a|e|u|k IH|t1 c IH|op k IH|k IH|k IH|n k IH]; intros t s; simpl; auto.
  - intros Hc Hh [Ht|[Ht ?]]; rewrite Ht; [|done]. apply (IH t t s); [done..|by left].
  - intros [_ Hc] Hh [Ht|[Ht ?]]; rewrite Ht; [|done].
    destruct (Hset t1 s Hh) as (HG & Hh' & Ht'). simpl. split; [done|].
    apply (IH t1 (set t1 s)); [done..|by left].
  - intros Hk Hh _. exists cl. split; [done|]. intros r s' Hs'. destruct (Hnow _ Hs'). eauto.
  - intros Hk Hh _. exists cl. split; [done|]. intros r s' Hs'. destruct (Hnow _ Hs'). eauto.
  - intros Hk Hh _. exists cl. split; [done|]. intros r s' Hs'. destruct (Hnow _ Hs'). eauto.
  - intros Hk Hh _. exists cl. split; [done|]. intros r s' Hs'. destruct (Hnow _ Hs'). eauto.
Qed.

(** *** Coroutines that keep one claim all the way *)

Definition claimed (cl : C) {A} (c : coro St A) : Prop :=
  ∀ s, holds cl s → safe c s (λ _ s', holds cl s').

Lemma claimed_bind cl {A B} (c : coro St A) (f : A → coro St B) :
  claimed cl c → (∀ a, claimed cl (f a)) → claimed cl (c ≫= f).
Proof.
  intros Hc Hf w Hw. apply safe_bind. eapply safe_mono; [by apply Hc|].
  intros [a|e|] w' Hw'; [by apply Hf|done|done].
Qed.

Lemma claimed_catch cl {A} pred (g : exn → coro St A) (c : coro St A) :
  claimed cl c → (∀ e, claimed cl (g e)) → claimed cl (co_catch pred g c).
Proof.
  intros Hc Hg w Hw. apply safe_catch. eapply safe_mono; [by apply Hc|].
  intros [a|e|] w' Hw'; [done| |done]. destruct (pred e); [by apply Hg|done].
Qed.

Lemma claimed_ret cl {A} (a : A) : claimed cl (mret a).
Proof. by intros w. Qed.

Lemma claimed_await cl op : claimed cl (await op).
Proof. intros w Hw. by apply (safe_await _ cl). Qed.

Lemma claimed_await_ws cl : claimed cl await_ws.
Proof. intros w Hw. by apply (safe_await_ws cl). Qed.

Lemma claimed_sync cl {A} (m : M St A) :
  ¬ avoid OtherUB → keeps G m → (∀ s s', holds cl s → G s s' → holds cl s') →
  claimed cl (co_sync m).
Proof.
  intros Ha Hm Hst w Hw. pose proof (Hm w). apply safe_sync; [done|done|]. intros _. by apply (Hst w).
Qed.

(** Running a coroutine to its next suspension or its end. *)
Lemma advance_stops {A} (c : coro St A) s c' s' :
  advance c s = (c', s') → match c' with co_get _ | co_put _ _ => False | _ => True end.
Proof.
  revert s. induction c as [a|e|u|k IH|s1 c IH|op k IH|k IH|k IH|b k IH]; intros s; simpl;
    try (by intros [= <- <-]); apply IH.
Qed.

Lemma safe_advance {A} (c : coro St A) s Q c' s' :
  advance c s = (c', s') → safe c s Q →
  G s s' ∧ safe c' s' Q ∧
  (suspended c' ∨ (∃ a, c' = co_return a) ∨ (∃ e : exn, c' = co_throw e) ∨
   ∃ u, c' = co_undefined u ∧ ¬ avoid u).
Proof.
  revert s.
  induction c as [a|e|u|k IH|s1 c IH|op k IH|k IH|k IH|n k IH]; intros s; simpl;
    try (intros [= <- <-] Hs; split; [reflexivity|split; [done|]]; simpl; eauto 10).
  - apply IH.
  - intros Ha [HG Hs]. destruct (IH _ Ha Hs) as (HG' & ?). split; [by etrans|done].
Qed.

Lemma safe_answers {A} (c c' : coro St A) s Q : answers c c' → safe c s Q → safe c' s Q.
Proof. intros [] (cl & Hh & Hn); auto. Qed.

(** A suspended coroutine survives every change that keeps the claims. *)
Lemma safe_stable {A} (c : coro St A) s s' Q :
  suspended c → (∀ cl, holds cl s → holds cl s') → safe c s Q → safe c s' Q.
Proof. intros Hc Hst. destruct c; try done; intros (cl & Hh & Hn); exists cl; eauto. Qed.

End Safe.

(** Use an equation between outcomes. *)
Ltac outcome_eq H :=
  first [ discriminate H
        | match type of H with ?o = _ => is_var o; subst o end
        | injection H as H; subst
        | clear H ].

(** Take a run of a straight-line coroutine apart, one operation at a time. *)
Ltac runs_step :=
  match goal with
  | H : runs (_ ≫= _) _ _ _ _ |- _ =>
      apply runs_bind in H as (? & ? & ? & ? & -> & ? & ?)
  | H : runs (await _) _ _ _ _ |- _ =>
      apply runs_await in H as (-> & [(-> & H)|(? & -> & H)]); outcome_eq H
  | H : runs await_http _ _ _ _ |- _ =>
      apply runs_await_http in H as (-> & [(? & -> & H)|(? & -> & H)]); outcome_eq H
  | H : runs await_ws _ _ _ _ |- _ =>
      apply runs_await_ws in H as (-> & [(? & -> & H)|(? & -> & H)]); outcome_eq H
  | H : runs (co_lift ?r) _ _ _ _ |- _ =>
      let E := fresh "E" in
      apply runs_lift in H as (-> & -> & H); destruct r as [?|?] eqn:E; outcome_eq H;
      first [discriminate E | injection E as E; subst | idtac]
  | H : runs (mret _) _ _ _ _ |- _ => destruct H as (-> & H & ->); outcome_eq H
  | H : runs (co_return _) _ _ _ _ |- _ => destruct H as (-> & H & ->); outcome_eq H
  | H : runs (co_throw _) _ _ _ _ |- _ => destruct H as (-> & H & ->); outcome_eq H
  | H : runs (co_gets _) _ _ _ _ |- _ => destruct H as (-> & H & ->); outcome_eq H
  | H : runs (co_modify _) _ _ _ _ |- _ => destruct H as (-> & H & ->); outcome_eq H
  | H : runs (co_do _ _) _ _ _ _ |- _ => destruct H as ([?|] & ? & -> & H)
  | H : _ = Throw _ ∧ _ ∧ _ |- _ => destruct H as (H & -> & ->); outcome_eq H
  | H : _ = Undefined ∧ _ ∧ _ |- _ => destruct H as (H & -> & ->); outcome_eq H
  end.
Ltac runs_steps := repeat (runs_step; cbn beta iota zeta in *).
Ltac runs_if :=
  match goal with H : runs (if ?b then _ else _) _ _ _ _ |- _ => destruct b eqn:? end.
