(* ===== verification/Json.v ===== *)
(** * JSON values (nlohmann::json)

    The JSON library is outside the repository.  [JsonApi] lists the operations
    the program calls; [JsonLaws] states the documented behaviour the theorems
    rely on; [JsonModel] is a concrete instance that satisfies the laws.

    An operation that throws ([type_error], [out_of_range], [parse_error])
    returns [inl].  Reading a missing key with the non-const [operator[]] inserts
    a null value there; the program never tests a key with [contains] after
    reading it that way, so the inserted value is only visible as the answer.  The
    const [operator[]] is undefined on a missing key; where the program guards it
    with [contains] it reads the same element as [json_index]. *)

From S2P Require Import Prelude.

Class JsonApi := {
  json : Type;
  json_parse : string → exn + json;
  json_dump : json → exn + string;
  json_contains : json → string → bool;
  json_index : json → string → exn + json;        (* [operator[](key)] *)
  json_const_index : json → string → outcome json; (* [operator[](key) const] *)
  json_at : json → string → exn + json;           (* [at(key)] *)
  json_nth : json → nat → exn + json;             (* [operator[](index)] *)
  json_is_array : json → bool;
  json_empty : json → bool;
  json_items : json → list json;                  (* range-for *)
  json_get_string : json → exn + string;          (* [get<std::string>()] *)
  json_get_int : json → exn + Z;                  (* [get<std::int64_t>()] *)
  json_value_string : json → string → string → exn + string;  (* [value(key, default)] *)
  json_value_int : json → string → Z → exn + Z;
  json_eq_string : json → string → bool;          (* [j == "..."] *)
  json_eq_bool : json → bool → bool;
  json_null : json;
  json_string : string → json;
  json_int : Z → json;
  json_bool : bool → json;
  json_object : list (string * json) → json;
  json_array : list json → json;
  json_set : json → string → json → json;         (* [j[key] = v] on an object *)
}.

(** The first value of a key, as in an initializer list of pairs. *)
Fixpoint assoc {A} (k : string) (l : list (string * A)) : option A :=
  match l with
  | [] => None
  | (k', v) :: l' => if decide (k = k') then Some v else assoc k l'
  end.

Class JsonLaws {J : JsonApi} : Prop := {
  json_contains_object l k : json_contains (json_object l) k = bool_decide (is_Some (assoc k l));
  json_index_object l k : json_index (json_object l) k = inr (default json_null (assoc k l));
  json_index_null k : json_index json_null k = inr json_null;
  json_const_index_object l k :
    json_const_index (json_object l) k =
      match assoc k l with Some v => Ok v | None => Undefined end;
  json_at_object l k v : assoc k l = Some v → json_at (json_object l) k = inr v;
  json_nth_array l i : json_nth (json_array l) i = inr (default json_null (l !! i));
  json_nth_null i : json_nth json_null i = inr json_null;
  json_is_array_array l : json_is_array (json_array l) = true;
  json_empty_array l : json_empty (json_array l) = bool_decide (l = []);
  json_empty_null : json_empty json_null = true;
  json_items_array l : json_items (json_array l) = l;
  json_items_null : json_items json_null = [];
  json_get_string_string s : json_get_string (json_string s) = inr s;
  json_get_string_int z : ∃ e, json_get_string (json_int z) = inl e;
  json_get_string_null : ∃ e, json_get_string json_null = inl e;
  json_get_int_int z : json_get_int (json_int z) = inr z;
  json_contains_null k : json_contains json_null k = false;
  json_value_string_object l k d :
    json_value_string (json_object l) k d =
      match assoc k l with Some v => json_get_string v | None => inr d end;
  json_value_string_null k d : ∃ e, json_value_string json_null k d = inl e;
  json_value_int_object l k d :
    json_value_int (json_object l) k d =
      match assoc k l with Some v => json_get_int v | None => inr d end;
  json_eq_string_string s t : json_eq_string (json_string s) t = bool_decide (s = t);
  json_eq_bool_bool a b : json_eq_bool (json_bool a) b = bool_decide (a = b);
}.

(** ** A concrete instance, for examples

    [json_parse] knows the texts of the table [texts]. *)

Inductive jvalue :=
  | JNull
  | JString (s : string)
  | JInt (z : Z)
  | JBool (b : bool)
  | JObject (l : list (string * jvalue))
  | JArray (l : list jvalue).

Definition json_error (what : string) : exn := mk_exn JsonError what.

Section JsonModel.
Variable texts : list (string * jvalue).

Fixpoint print_digits (fuel : nat) (z : Z) : string :=
  match fuel with
  | O => ""
  | S f => (if z <? 10 then "" else print_digits f (z / 10)) +:+
           String (Ascii.ascii_of_nat (48 + Z.to_nat (z mod 10))) ""
  end.

Definition quoted (s : string) : string :=
  String (Ascii.ascii_of_nat 34) (s +:+ String (Ascii.ascii_of_nat 34) "").

Fixpoint jprint (v : jvalue) : string :=
  match v with
  | JNull => "null"
  | JString s => quoted s
  | JInt z => if z <? 0 then "-" +:+ print_digits 20 (- z) else print_digits 20 z
  | JBool b => if b then "true" else "false"
  | JObject l =>
      "{" +:+ join "," (map (λ '(k, x), quoted k +:+ ":" +:+ jprint x) l) +:+ "}"
  | JArray l => "[" +:+ join "," (map jprint l) +:+ "]"
  end.

Definition jget_string (v : jvalue) : exn + string :=
  match v with JString s => inr s | _ => inl (json_error "type must be string") end.
Definition jget_int (v : jvalue) : exn + Z :=
  match v with JInt z => inr z | _ => inl (json_error "type must be number") end.
Definition jvalue_or {A} (get : jvalue → exn + A) (v : jvalue) (k : string) (d : A) : exn + A :=
  match v with
  | JObject l => match assoc k l with Some x => get x | None => inr d end
  | _ => inl (json_error "cannot use value()")
  end.

#[local] Instance JsonModel : JsonApi := {|
  json := jvalue;
  json_parse s :=
    match assoc s texts with Some v => inr v | None => inl (json_error "parse error") end;
  json_dump v := inr (jprint v);
  json_contains v k := match v with JObject l => bool_decide (is_Some (assoc k l)) | _ => false end;
  json_index v k := match v with
                    | JObject l => inr (default JNull (assoc k l))
                    | JNull => inr JNull
                    | _ => inl (json_error "cannot use operator[]")
                    end;
  json_const_index v k := match v with
                          | JObject l => match assoc k l with Some x => Ok x | None => Undefined end
                          | _ => Throw (json_error "cannot use operator[]")
                          end;
  json_at v k := match v with
                 | JObject l => match assoc k l with
                                | Some x => inr x
                                | None => inl (json_error "key not found")
                                end
                 | _ => inl (json_error "cannot use at()")
                 end;
  json_nth v i := match v with
                  | JArray l => inr (default JNull (l !! i))
                  | JNull => inr JNull
                  | _ => inl (json_error "cannot use operator[]")
                  end;
  json_is_array v := match v with JArray _ => true | _ => false end;
  json_empty v := match v with
                  | JNull | JArray [] | JObject [] => true
                  | _ => false
                  end;
  json_items v := match v with
                  | JArray l => l
                  | JObject l => map snd l
                  | JNull => []
                  | v => [v]
                  end;
  json_get_string := jget_string;
  json_get_int := jget_int;
  json_value_string := jvalue_or jget_string;
  json_value_int := jvalue_or jget_int;
  json_eq_string v s := match v with JString t => bool_decide (t = s) | _ => false end;
  json_eq_bool v b := match v with JBool c => bool_decide (c = b) | _ => false end;
  json_null := JNull;
  json_string := JString;
  json_int := JInt;
  json_bool := JBool;
  json_object := JObject;
  json_array := JArray;
  json_set v k x := match v with
                    | JObject l => JObject (filter (λ '(k', _), k' ≠ k) l ++ [(k, x)])
                    | v => v
                    end;
|}.

#[local] Instance JsonModel_laws : @JsonLaws JsonModel.
Proof.
  split; simpl; try done; try (intros; by eexists).
  - intros l k v ->. done.
  - intros [|]; done.
Qed.

End JsonModel.

(** ** Reading a path *)

Section Paths.
Context {J : JsonApi}.

(** [j[k1][k2]...] *)
Fixpoint json_path (j : json) (ks : list string) : exn + json :=
  match ks with
  | [] => inr j
  | k :: ks' => match json_index j k with inl e => inl e | inr x => json_path x ks' end
  end.

(** [j.at(k1).at(k2)...] *)
Fixpoint json_at_path (j : json) (ks : list string) : exn + json :=
  match ks with
  | [] => inr j
  | k :: ks' => match json_at j k with inl e => inl e | inr x => json_at_path x ks' end
  end.

End Paths.
