(* ===== verification/Net.v ===== *)
(** * Connections and HTTPS requests

    Models [ConnectionManager] ([include/seraphbot/core/connection_manager.hpp],
    [src/core/connection_manager.cpp]) and the request functions and
    [ClientConfig] of [include/seraphbot/tw/config.hpp] and [src/tw/config.cpp].

    A TLS stream is used by one coroutine only and dies with it, so it has no
    state here besides the operations performed on it. *)

From S2P Require Import Prelude Cxx Coro.

(** ** [class ConnectionManager] *)

Inductive ssl_option := default_workarounds | no_sslv2 | no_sslv3 | no_tlsv1 | no_tlsv1_1.
Inductive io_thread := ThreadRunning | ThreadFinished.

Record ConnectionManager := mk_ConnectionManager {
  m_ssl_options : list ssl_option;
  m_ssl_verify_peer : bool;
  m_ssl_default_paths : bool;
  m_work_guard : bool;
  m_io_stopped : bool;
  m_thread_pool : list io_thread;
  m_thread_count : nat;
}.

(** The loop that starts the pool: [for (i = 0; i < m_thread_count; ++i)]. *)
Fixpoint start_threads (n : nat) (pool : list io_thread) : list io_thread :=
  match n with O => pool | S n' => start_threads n' (pool ++ [ThreadRunning]) end.

Definition new_ConnectionManager (thread_count : nat) : ConnectionManager :=
  mk_ConnectionManager
    [default_workarounds; no_sslv2; no_sslv3; no_tlsv1; no_tlsv1_1] true true true false
    (start_threads thread_count []) thread_count.

(** [io_context::run] returns once the context is stopped. *)
Definition join_thread (stopped : bool) (t : io_thread) : option io_thread :=
  match t with
  | ThreadFinished => Some ThreadFinished
  | ThreadRunning => if stopped then Some ThreadFinished else None
  end.

(** The destructor; [None] when a join would wait for ever. *)
Definition delete_ConnectionManager (c : ConnectionManager) : option ConnectionManager :=
  let stopped := true in
  match mapM (join_thread stopped) (m_thread_pool c) with
  | Some _ => Some (mk_ConnectionManager (m_ssl_options c) (m_ssl_verify_peer c)
                      (m_ssl_default_paths c) false stopped [] (m_thread_count c))
  | None => None
  end.

Section Net.
Context {St : Type}.

Definition makeSslStreamAsync (host port : string) : coro St unit :=
  await (IoResolve host port) ;;
  await (IoConnect host port) ;;
  co_do (IoSetSni host) (λ r,
    match r with
    | Some _ => co_throw (runtime_error "Failed to set SNI")
    | None => co_return tt
    end).

(** ** [struct ClientConfig] and the request functions *)

Record ClientConfig := mk_ClientConfig {
  cfg_host : string;
  cfg_port : string;
  helix_host : string;
  helix_port : string;
  client_id : string;
  access_token : string;
  broadcaster_id : string;
}.

Definition default_ClientConfig : ClientConfig :=
  mk_ClientConfig "eventsub.wss.twitch.tv" "443" "api.twitch.tv" "443" "" "" "".

(** Closing the TLS stream: every [system_error] is swallowed (some are logged). *)
Definition tls_shutdown : coro St unit :=
  co_catch system_error (λ _, co_return tt) (await IoTlsShutdown).

(** [req.set(name, value)]: fields of that name, in any case, are replaced. *)
Definition set_field (fields : list (string * string)) (field : string * string)
    : list (string * string) :=
  filter (λ f, tolower (fst f) ≠ tolower (fst field)) fields ++ [field].
Definition set_fields (fields new : list (string * string)) : list (string * string) :=
  foldl set_field fields new.

(** [req.prepare_payload()] of a POST request. *)
Definition prepare_payload (body : string) (fields : list (string * string))
    : list (string * string) :=
  set_field fields ("Content-Length", to_string (Z.of_nat (String.length body))).

Definition httpsPostAsync (host port target body : string)
    (headers : list (string * string)) : coro St string :=
  makeSslStreamAsync host port ;;
  await IoTlsHandshake ;;
  let fields := set_fields []
    [("Host", host); ("User-Agent", "seraphbot-eventsub/0.1");
     ("Content-Type", "application/json"); ("Connection", "close")] in
  let fields := set_fields fields headers in
  let req := mk_request verb_post target 11 (prepare_payload body fields) body in
  await (IoHttpWrite req) ;;
  res ← await_http;
  let response_body := res_body res in
  tls_shutdown ;;
  mret response_body.

Definition stripOauthPrefix (token : string) : string :=
  if starts_with token "oauth:" then str_drop 6 token else token.

Definition httpsGetAsync (host port target : string)
    (headers : list (string * string)) : coro St string :=
  makeSslStreamAsync host port ;;
  await IoTlsHandshake ;;
  let fields := set_fields []
    [("Host", host); ("User-Agent", "seraphbot-eventsub/0.1"); ("Connection", "close")] in
  let req := mk_request verb_get target 11 (set_fields fields headers) "" in
  await (IoHttpWrite req) ;;
  res ← await_http;
  let response_body := res_body res in
  tls_shutdown ;;
  mret response_body.

End Net.

(** ** Reference definitions *)

(** What one HTTPS request may do: the operations it performed are a prefix of
    the protocol (connect, handshake, write [req], read, shut down); it returned
    the body of the response it read, or threw because some operation failed. *)
Definition request_ops (host port : string) (req : http_request) : list io_call :=
  [IoResolve host port; IoConnect host port; IoSetSni host; IoTlsHandshake; IoHttpWrite req].

(** The requests written in a list of events, in order. *)
Fixpoint requests_of (h : list io_event) : list http_request :=
  match h with
  | [] => []
  | EvDo (IoHttpWrite r) None :: h' => r :: requests_of h'
  | _ :: h' => requests_of h'
  end.

(** Milliseconds spent in timers. *)
Fixpoint slept (h : list io_event) : Z :=
  match h with
  | [] => 0
  | EvDo (IoTimer ms) _ :: h' => ms + slept h'
  | _ :: h' => slept h'
  end.

Definition event_ok (ev : io_event) : bool :=
  match ev with
  | EvDo _ (Some _) | EvHttpRead (inl _) | EvWsRead (inl _) => false
  | _ => true
  end.

(** ** Lemmas *)

Lemma requests_of_app h1 h2 : requests_of (h1 ++ h2) = requests_of h1 ++ requests_of h2.
Proof.
  induction h1 as [|ev h1 IH]; simpl; [done|]. rewrite IH. by destruct ev as [[] []| | |].
Qed.

Lemma slept_app h1 h2 : slept (h1 ++ h2) = slept h1 + slept h2.
Proof.
  induction h1 as [|ev h1 IH]; simpl; [done|]. rewrite IH. destruct ev as [[] []| | |]; lia.
Qed.

#[export] Hint Rewrite requests_of_app slept_app : sbot.

Lemma start_threads_length n pool : length (start_threads n pool) = (n + length pool)%nat.
Proof.
  revert pool. induction n as [|n IH]; intros pool; simpl; [done|].
  rewrite IH, length_app. simpl. lia.
Qed.

Section NetLemmas.
Context {St : Type}.
Implicit Types (s : St) (h ev : list io_event).

Lemma runs_tls_shutdown s ev o s' :
  runs tls_shutdown s ev o s' →
  s' = s ∧
  ((∃ r, ev = [EvDo IoTlsShutdown r] ∧ o = Ok tt) ∨
   (∃ e, ev = [EvDo IoTlsShutdown (Some e)] ∧ o = Throw e ∧ system_error e = false)).
Proof.
  intros Hr. apply runs_catch in Hr as [[Hr He]|(e & s1 & ev1 & ev2 & -> & Hr & Hp & Hg)];
    runs_steps; rewrite ?app_nil_r; eauto 10.
Qed.

(** Opening a connection writes no request, sleeps nowhere and changes nothing. *)
Lemma runs_makeSslStream host port s ev o s' :
  runs (makeSslStreamAsync host port) s ev o s' →
  s' = s ∧
  ((ev = [EvDo (IoResolve host port) None; EvDo (IoConnect host port) None;
          EvDo (IoSetSni host) None] ∧ o = Ok tt) ∨
   (∃ e, o = Throw e ∧ requests_of ev = [] ∧ slept ev = 0)).
Proof. unfold makeSslStreamAsync. intros Hr. runs_steps; eauto 10. Qed.

End NetLemmas.

Ltac net_step :=
  match goal with
  | H : runs (makeSslStreamAsync _ _) _ _ _ _ |- _ =>
      apply runs_makeSslStream in H as (-> & [(-> & H)|(? & H & ? & ?)]); outcome_eq H
  | H : runs tls_shutdown _ _ _ _ |- _ =>
      apply runs_tls_shutdown in H as (-> & [(? & -> & H)|(? & -> & H & ?)]); outcome_eq H
  end.
Ltac net_steps := repeat (first [runs_step | net_step]; cbn beta iota zeta in *).

(** ** The whole exchange of one request *)

Section Exchange.
Context {St : Type}.

(** An exchange either performs the whole protocol and returns the body of the
    response, however the TLS shutdown went, or throws after writing the request
    at most once. *)
Definition exchange (host port : string) (req : http_request) (s : St) (ev : list io_event)
    (o : outcome string) (s' : St) : Prop :=
  s' = s ∧ slept ev = 0 ∧
  ((∃ res r, o = Ok (res_body res) ∧
      ev = map (λ op, EvDo op None) (request_ops host port req)
           ++ [EvHttpRead (inr res); EvDo IoTlsShutdown r]) ∨
   (∃ e, o = Throw e ∧ (requests_of ev = [] ∨ requests_of ev = [req]))).

Definition post_request (host target body : string) (headers : list (string * string))
    : http_request :=
  mk_request verb_post target 11
    (prepare_payload body (set_fields (set_fields []
       [("Host", host); ("User-Agent", "seraphbot-eventsub/0.1");
        ("Content-Type", "application/json"); ("Connection", "close")]) headers)) body.

Definition get_request (host target : string) (headers : list (string * string))
    : http_request :=
  mk_request verb_get target 11
    (set_fields (set_fields []
       [("Host", host); ("User-Agent", "seraphbot-eventsub/0.1"); ("Connection", "close")]) headers) "".

Lemma runs_httpsPost host port target body headers (s : St) ev o s' :
  runs (httpsPostAsync host port target body headers) s ev o s' →
  exchange host port (post_request host target body headers) s ev o s'.
Proof.
  unfold httpsPostAsync. intros Hr. net_steps.
  all: rewrite ?app_nil_r; simpl; unfold exchange; split; [done|split; [done|]].
  all: first [by left; do 2 eexists|by right; eauto].
Qed.

Lemma runs_httpsGet host port target headers (s : St) ev o s' :
  runs (httpsGetAsync host port target headers) s ev o s' →
  exchange host port (get_request host target headers) s ev o s'.
Proof.
  unfold httpsGetAsync. intros Hr. net_steps.
  all: rewrite ?app_nil_r; simpl; unfold exchange; split; [done|split; [done|]].
  all: first [by left; do 2 eexists|by right; eauto].
Qed.

End Exchange.

(** ** A network that works *)

(** A network where every operation succeeds and the server answers each request
    with status 200 and the text [server target]. *)
Definition network_up {env : Environment} (server : string → string) : Prop :=
  (∀ h op, env_do h op = None) ∧
  (∀ h r, env_http_read (h ++ [EvDo (IoHttpWrite r) None]) =
            inr (mk_response 200 "" (server (req_target r)))).

Lemma exec_httpsPost {env : Environment} {St} server host port target body headers (s : St) h :
  network_up server →
  ∃ ev, exec (httpsPostAsync host port target body headers) s h =
      (Ok (server target), s, h ++ ev) ∧
    requests_of ev = [post_request host target body headers].
Proof.
  intros [Hdo Hread]. unfold httpsPostAsync.
  cbn [mbind coro_bind co_bind makeSslStreamAsync await await_http exec].
  repeat (rewrite Hdo; cbn [co_bind exec]). rewrite Hread. cbn [co_bind exec res_body req_target].
  rewrite exec_bind. unfold tls_shutdown. rewrite exec_catch. cbn [await exec]. rewrite Hdo. cbn.
  rewrite <- !app_assoc. by eexists.
Qed.

Lemma exec_httpsGet {env : Environment} {St} server host port target headers (s : St) h :
  network_up server →
  ∃ ev, exec (httpsGetAsync host port target headers) s h = (Ok (server target), s, h ++ ev) ∧
    requests_of ev = [get_request host target headers].
Proof.
  intros [Hdo Hread]. unfold httpsGetAsync.
  cbn [mbind coro_bind co_bind makeSslStreamAsync await await_http exec].
  repeat (rewrite Hdo; cbn [co_bind exec]). rewrite Hread. cbn [co_bind exec res_body req_target].
  rewrite exec_bind. unfold tls_shutdown. rewrite exec_catch. cbn [await exec]. rewrite Hdo. cbn.
  rewrite <- !app_assoc. by eexists.
Qed.

(** A network that works, with the given server. *)
Definition last_request (h : list io_event) : string :=
  match last h with Some (EvDo (IoHttpWrite r) _) => req_target r | _ => "" end.

Definition network_of (server : string → string) : Environment := {|
  env_do _ _ := None;
  env_http_read h := inr (mk_response 200 "" (server (last_request h)));
  env_ws_read _ := inr "";
  env_random h _ := length h;
|}.

Lemma network_of_up server : network_up (env := network_of server) server.
Proof. split; [done|]. intros h r. simpl. unfold last_request. by rewrite last_snoc. Qed.
