(* ===== verification/Auth.v ===== *)
(** * Twitch login

    Models [Auth] of [include/seraphbot/tw/auth.hpp] and [src/tw/auth.cpp]: the
    client id, authorization URL and token requests to the OAuth server, the
    polling loop of [loginAsync], and the parsing of the user record.
    [parseTime] is the branch compiled with libc++; on Linux the browser is
    started with [xdg-open]. *)

From S2P Require Import Prelude Cxx CalTime Coro Json Net.

Record TwitchUserInfo := mk_TwitchUserInfo {
  ui_id : string;
  ui_login : string;
  ui_display_name : string;
  ui_broadcaster_type : string;
  ui_description : string;
  ui_created_at : Z;
  ui_profile_image_url : string;
  ui_view_count : Z;
  ui_offline_image_url : option string;
  ui_email : option string;
}.

Record Auth := mk_Auth {
  m_url_base : string;
  m_access_token : string;
  m_client_id : string;
  m_auth_state : string;
  m_refresh_token : string;
}.

Definition c_twitch_port : string := "443".
Definition c_user_agent : string := "seraphbot-auth/0.1".
Definition c_http_version : Z := 11.
Definition c_state_length : nat := 16.

Definition new_Auth (url_base : string) : Auth := mk_Auth url_base "" "" "" "".

Definition isLoggedIn (a : Auth) : bool := negb (str_empty (m_access_token a)).
Definition accessToken (a : Auth) : string := m_access_token a.
Definition clientId (a : Auth) : string := m_client_id a.

Definition storeToken (token : string) (a : Auth) : Auth :=
  mk_Auth (m_url_base a) token (m_client_id a) (m_auth_state a) (m_refresh_token a).
Definition storeRefreshToken (refresh_token : string) (a : Auth) : Auth :=
  mk_Auth (m_url_base a) (m_access_token a) (m_client_id a) (m_auth_state a) refresh_token.
Definition set_client_id (id : string) (a : Auth) : Auth :=
  mk_Auth (m_url_base a) (m_access_token a) id (m_auth_state a) (m_refresh_token a).
Definition set_auth_state (st : string) (a : Auth) : Auth :=
  mk_Auth (m_url_base a) (m_access_token a) (m_client_id a) st (m_refresh_token a).

Definition parseTime (str : string) : exn + Z :=
  match get_time str with
  | None => inl (runtime_error ("Invalid time format: " +:+ str))
  | Some time => inr (timegm time)
  end.

(** ** Random state *)

Definition c_alphanum : string :=
  "0123456789ABCDEFGHIJKLMNOPQRSTUVWXYZabcdefghijklmnopqrstuvwxyz".

(** [std::ranges::generate] over a string of [n] characters. *)
Fixpoint generate_chars {St} (n : nat) : coro St string :=
  match n with
  | O => mret ""
  | S n' =>
      co_random (String.length c_alphanum) (λ i,
        match String.get i c_alphanum with
        | Some c => rest ← generate_chars n'; mret (String c rest)
        | None => co_undefined OtherUB
        end)
  end.

Definition generateState {St} : coro St string := generate_chars c_state_length.

(** ** Requests to the OAuth server *)

Definition getHttpAsync (url : string) : coro Auth string :=
  co_catch any_exception
    (λ err,
      if system_error err
      then co_throw (runtime_error ("HTTP request failed: " +:+ exn_what err))
      else co_throw err)
    (base ← co_gets m_url_base;
     makeSslStreamAsync base c_twitch_port ;;
     await IoTlsHandshake ;;
     await (IoHttpWrite (mk_request verb_get url c_http_version
       [("Host", base); ("User-Agent", c_user_agent); ("Connection", "close")] "")) ;;
     res ← await_http;
     let response_body := res_body res in
     tls_shutdown ;;
     if negb (res_status res =? 200) && negb (res_status res =? 302) then
       co_throw (runtime_error ("HTTP request failed with status: " +:+ to_string (res_status res)))
     else if res_status res =? 302 then
       if negb (str_empty (res_location res)) then mret (res_location res)
       else co_throw (runtime_error "Redirect response missing Location header")
     else mret response_body).

Section Login.
Context {J : JsonApi}.

(** [j.at(k).get<std::string>()] *)
Definition json_at_string (j : json) (k : string) : exn + string :=
  match json_at j k with inl e => inl e | inr v => json_get_string v end.

Definition fetchClientIdAsync : coro Auth string :=
  response_body ← getHttpAsync "/client_id";
  json_res ← co_lift (json_parse response_body);
  id ← co_lift (json_at_string json_res "client_id");
  co_modify (set_client_id id) ;;
  mret id.

Definition getAuthUrlAsync : coro Auth string :=
  st ← generateState;
  co_modify (set_auth_state st) ;;
  st ← co_gets m_auth_state;
  getHttpAsync ("/auth_url?state=" +:+ st).

Definition requestTokenAsync : coro Auth unit :=
  st ← co_gets m_auth_state;
  response_body ← getHttpAsync ("/token?state=" +:+ st);
  json_res ← co_lift (json_parse response_body);
  _ ← co_lift (json_dump json_res);
  token ← co_lift (json_at_string json_res "access_token");
  co_modify (storeToken token) ;;
  refresh_token ← co_lift (json_at_string json_res "refresh_token");
  co_modify (storeRefreshToken refresh_token).

Definition parseTwitchUser (user_json : json) : exn + TwitchUserInfo :=
  let no_user := inl (runtime_error "No user data found in Twitch response") in
  if negb (json_contains user_json "data") then no_user
  else
    data ← json_index user_json "data";
    if negb (json_is_array data) || json_empty data then no_user
    else
      user ← json_nth data 0;
      created_str ← json_value_string user "created_at" "";
      created_at ← (if negb (str_empty created_str) then parseTime created_str else inr 0);
      id ← json_value_string user "id" "";
      login ← json_value_string user "login" "";
      display_name ← json_value_string user "display_name" "";
      broadcaster_type ← json_value_string user "broadcaster_type" "";
      description ← json_value_string user "description" "";
      profile_image_url ← json_value_string user "profile_image_url" "";
      view_count ← json_value_int user "view_count" 0;
      offline_image_url ← json_value_string user "offline_image_url" "";
      email ← json_value_string user "email" "";
      inr (mk_TwitchUserInfo id login display_name broadcaster_type description created_at
             profile_image_url (view_count mod 2 ^ 32) (Some offline_image_url) (Some email)).

Definition fetchUserInfoAsync : coro Auth TwitchUserInfo :=
  st ← co_gets m_auth_state;
  response_body ← getHttpAsync ("/user_info?state=" +:+ st);
  json_res ← co_lift (json_parse response_body);
  co_lift (parseTwitchUser json_res).

(** ** The login flow *)

Definition max_attempts : Z := 10.
Definition poll_delay : Z := 300.

(** [while (!got_token && attempts < max_attempts)]; the fuel is never used up
    when it exceeds [max_attempts - attempts]. *)
Fixpoint poll_token (fuel : nat) (got_token : bool) (attempts : Z) : coro Auth bool :=
  if negb got_token && (attempts <? max_attempts) then
    match fuel with
    | O => co_undefined OutOfFuel
    | S fuel' =>
        await (IoTimer poll_delay) ;;
        got_token ← co_catch any_exception (λ _, mret false) (requestTokenAsync ;; mret true);
        if negb got_token then
          let attempts := attempts + 1 in
          (if 4 <=? attempts then await (IoTimer (poll_delay * attempts))
           else await (IoTimer poll_delay)) ;;
          poll_token fuel' got_token attempts
        else poll_token fuel' got_token attempts
    end
  else mret got_token.

Definition quote : string := String (Ascii.ascii_of_nat 34) "".

Definition loginAsync : coro Auth unit :=
  _ ← co_catch any_exception
        (λ e, co_throw (runtime_error ("Failed to fetch client ID: {}" +:+ exn_what e)))
        fetchClientIdAsync;
  url ← getAuthUrlAsync;
  await (IoProcess (c_str ("xdg-open " +:+ quote +:+ url +:+ quote))) ;;
  got_token ← poll_token 11 false 0;
  if got_token : bool then mret tt else co_throw (runtime_error "Authorization timeout").

End Login.

(** ** Reference definitions *)

(** The text [getHttpAsync] makes of a response. *)
Definition http_text (r : http_response) : option string :=
  if res_status r =? 200 then Some (res_body r)
  else if (res_status r =? 302) && negb (str_empty (res_location r)) then Some (res_location r)
  else None.

(** Milliseconds spent in the timers of the last [n] rounds of the polling loop. *)
Fixpoint poll_sleep (n : nat) : Z :=
  match n with
  | O => 0
  | S n' =>
      let attempts := max_attempts - Z.of_nat n' in
      poll_delay + (if 4 <=? attempts then poll_delay * attempts else poll_delay) + poll_sleep n'
  end.

Section Spec.
Context {J : JsonApi}.

(** Both tokens of [a] are the ones of one response received in [ev]. *)
Definition tokens_received (ev : list io_event) (a : Auth) : Prop :=
  ∃ r text j, EvHttpRead (inr r) ∈ ev ∧ http_text r = Some text ∧ json_parse text = inr j ∧
    json_at_string j "access_token" = inr (m_access_token a) ∧
    json_at_string j "refresh_token" = inr (m_refresh_token a).

End Spec.

Definition alphanumeric (c : ascii) : bool :=
  existsb (λ d, bool_decide (d = c)) (String.list_ascii_of_string c_alphanum).

(** ** Lemmas *)

Section AuthLemmas.
Context {J : JsonApi}.

(** What the exchange inside the [try] block of [getHttpAsync] may do. *)
Definition exchange_post (a : Auth) (o : outcome string) (a' : Auth) (ev : list io_event)
     : Prop :=
  a' = a ∧ (length (requests_of ev) ≤ 1)%nat ∧ slept ev = 0 ∧
  match o with
  | Ok text => ∃ r, EvHttpRead (inr r) ∈ ev ∧ http_text r = Some text
  | Throw _ => True
  | Undefined => False
  end.

Lemma runs_getHttp url a ev o a' :
  runs (getHttpAsync url) a ev o a' → exchange_post a o a' ev.
Proof.
  unfold getHttpAsync. intros Hr.
  match type of Hr with runs (co_catch _ _ ?c) _ _ _ _ => set (body := c) in Hr end.
  assert (Hb : ∀ ev o a', runs body a ev o a' → exchange_post a o a' ev).
  { clear ev o a' Hr. intros ev o a' Hr. unfold body in Hr. net_steps.
    6: { rewrite app_nil_r. simpl. unfold exchange_post.
         match goal with H : requests_of _ = [] |- _ => rewrite H end. split_and!; auto; simpl; lia. }
    2-5: by unfold exchange_post; split_and!; simpl; auto with lia.
    destruct (negb _ && negb _) eqn:Hst.
    - net_steps. by split_and!.
    - destruct (res_status x0 =? 302) eqn:H302.
      + destruct (negb (str_empty (res_location x0))) eqn:Hloc; net_steps; split_and!; try done.
        exists x0. split; [set_solver|]. unfold http_text. rewrite H302, Hloc.
        apply Z.eqb_eq in H302 as ->. done.
      + net_steps. split_and!; try done. exists x0. split; [set_solver|].
        unfold http_text. destruct (res_status x0 =? 200); simpl in *; [done|congruence]. }
  apply runs_catch in Hr as [[Hr _]|(e & s1 & ev1 & ev2 & -> & Hr & _ & Hg)];
    [by apply Hb|].
  apply Hb in Hr as (-> & Hn & Hs & _).
  destruct (system_error e); runs_steps; unfold exchange_post; rewrite ?app_nil_r; by split_and!.
Qed.

(** A stretch of a run with at most [n] requests and no timer. *)
Definition quiet (n : nat) (ev : list io_event) : Prop :=
  (length (requests_of ev) ≤ n)%nat ∧ slept ev = 0.

Lemma quiet_app n1 n2 ev1 ev2 : quiet n1 ev1 → quiet n2 ev2 → quiet (n1 + n2) (ev1 ++ ev2).
Proof.
  unfold quiet. rewrite requests_of_app, slept_app, length_app. lia.
Qed.

Lemma quiet_nil n : quiet n [].
Proof. unfold quiet; simpl; lia. Qed.

Lemma alphanum_get r : (r < String.length c_alphanum)%nat →
  ∃ c, String.get r c_alphanum = Some c ∧ alphanumeric c = true.
Proof. intros Hr. do 62 (destruct r as [|r]; [by eexists|]). simpl in Hr. lia. Qed.

Lemma runs_generate n {St} (s : St) ev o s' :
  runs (generate_chars n) s ev o s' →
  s' = s ∧ quiet 0 ev ∧
  ∃ str, o = Ok str ∧ String.length str = n ∧ str_forall alphanumeric str = true.
Proof.
  revert ev o s'. induction n as [|n IH]; intros ev o s'; cbn [generate_chars runs].
  - intros (-> & -> & ->). split_and!; eauto using quiet_nil.
  - intros (r & ev' & -> & Hr & Hx). destruct Hr as [|Hr]; [done|].
    destruct (alphanum_get r Hr) as (c & Hc & Ha). rewrite Hc in Hx.
    apply runs_bind in Hx as (o1 & s1 & ev1 & ev2 & -> & Hx & Hf).
    apply IH in Hx as (-> & Hq & str & -> & Hl & Hs). runs_steps.
    rewrite !app_nil_r. split_and!; [done..|]. exists (String c str). simpl. rewrite Hl, Ha, Hs. auto.
Qed.

Lemma runs_fetchClientId a ev o a' :
  runs fetchClientIdAsync a ev o a' → quiet 1 ev ∧ o ≠ Undefined.
Proof.
  unfold fetchClientIdAsync. intros Hr.
  apply runs_bind in Hr as (o1 & s1 & ev1 & ev2 & -> & Hr & Hf).
  apply runs_getHttp in Hr as (-> & Hn & Hs & Ho).
  destruct o1 as [text|e|]; [|runs_steps; rewrite !app_nil_r; by split_and!|done].
  runs_steps; simpl; rewrite ?app_nil_r; by split_and!.
Qed.

Lemma runs_getAuthUrl a ev o a' :
  runs getAuthUrlAsync a ev o a' → quiet 1 ev ∧ o ≠ Undefined.
Proof.
  unfold getAuthUrlAsync. intros Hr.
  apply runs_bind in Hr as (o1 & s1 & ev1 & ev2 & -> & Hr & Hf).
  apply runs_generate in Hr as (-> & Hq & str & -> & _). runs_steps.
  match goal with H : runs (getHttpAsync _) _ _ _ _ |- _ =>
    apply runs_getHttp in H as (-> & Hn & Hs & Ho) end.
  simpl. split; [|by destruct o]. by apply (quiet_app 0 1).
Qed.

Lemma runs_requestToken a ev o a' :
  runs requestTokenAsync a ev o a' →
  quiet 1 ev ∧ o ≠ Undefined ∧ (o = Ok tt → tokens_received ev a').
Proof.
  unfold requestTokenAsync. intros Hr. runs_steps.
  match goal with H : runs (getHttpAsync _) _ _ _ _ |- _ =>
    apply runs_getHttp in H as (-> & Hn & Hs & Ho) end.
  destruct x as [text|e|]; [|runs_steps; rewrite !app_nil_r; by split_and!|done].
  destruct Ho as (r & Hin & Ht). runs_steps; simpl; rewrite ?app_nil_r; split_and!; try done.
  intros _. exists r, text. eexists. split_and!; eauto.
Qed.

(** One round of the polling loop up to its second timer. *)
Lemma runs_try_token a ev o a' :
  runs (co_catch any_exception (λ _, mret false) (requestTokenAsync ;; mret true)) a ev o a' →
  quiet 1 ev ∧
  ((o = Ok true ∧ tokens_received ev a') ∨ o = Ok false).
Proof.
  intros Hr.
  assert (Hb : ∀ ev o a', runs (requestTokenAsync ;; mret true) a ev o a' →
    quiet 1 ev ∧ o ≠ Undefined ∧ (∀ b, o = Ok b → b = true ∧ tokens_received ev a')).
  { clear ev o a' Hr. intros ev o a' Hr.
    apply runs_bind in Hr as (o1 & s1 & ev1 & ev2 & -> & Hr & Hf).
    apply runs_requestToken in Hr as (Hq & Hu & Ht).
    destruct o1 as [[]|e|]; [..|done]; runs_steps; rewrite ?app_nil_r; split_and!; try done.
    intros b [= <-]. split; [done|]. by apply Ht. }
  apply runs_catch in Hr as [[Hr He]|(e & s1 & ev1 & ev2 & -> & Hr & _ & Hg)].
  - apply Hb in Hr as (Hq & Hu & Ht). split; [done|].
    destruct o as [b|e|]; [|by specialize (He e eq_refl)|done].
    destruct (Ht b eq_refl) as [-> ?]. by left.
  - apply Hb in Hr as (Hq & _). runs_steps. rewrite ?app_nil_r. split_and!; auto.
Qed.

Lemma poll_sleep_nonneg n : (n ≤ 10)%nat → 0 ≤ poll_sleep n.
Proof.
  induction n as [|n IH]; simpl; intros Hn; [lia|]. specialize (IH ltac:(lia)).
  unfold poll_delay, max_attempts. case_match; lia.
Qed.

Lemma runs_poll fuel attempts a ev o a' :
  0 ≤ attempts ≤ max_attempts → (Z.to_nat (max_attempts - attempts) < fuel)%nat →
  runs (poll_token fuel false attempts) a ev o a' →
  let n := Z.to_nat (max_attempts - attempts) in
  (length (requests_of ev) ≤ n)%nat ∧ slept ev ≤ poll_sleep n ∧ o ≠ Undefined ∧
  (o = Ok true → tokens_received ev a') ∧ (o = Ok false → slept ev = poll_sleep n).
Proof.
  revert attempts a ev. induction fuel as [|fuel IH]; intros attempts a ev Ha Hf Hr; [lia|].
  cbn [poll_token negb andb] in Hr. destruct (attempts <? max_attempts) eqn:Hlt.
  2: { apply Z.ltb_ge in Hlt. replace attempts with max_attempts by lia. runs_steps. by split_and!. }
  apply Z.ltb_lt in Hlt. destruct (Z.to_nat (max_attempts - attempts)) as [|n] eqn:Hn; [lia|].
  cbn zeta. simpl poll_sleep. replace (max_attempts - Z.of_nat n) with (attempts + 1) by lia.
  set (w := if 4 <=? attempts + 1 then poll_delay * (attempts + 1) else poll_delay).
  assert (Hpos : 0 ≤ poll_sleep n) by (apply poll_sleep_nonneg; unfold max_attempts in *; lia).
  assert (Hw : 0 ≤ w) by (unfold w, poll_delay; case_match; lia).
  apply runs_bind in Hr as (o1 & s1 & ev1 & ev2 & -> & Hr & Hx).
  runs_steps; [|simpl; split_and!; try done; unfold poll_delay; lia].
  match goal with H : runs (co_catch _ _ _) _ _ _ _ |- _ =>
    apply runs_try_token in H as ([Hq Hs] & [[-> Ht]| ->]) end.
  - destruct fuel as [|fuel]; [lia|]. cbn [poll_token negb andb] in *. runs_steps.
    simpl. rewrite !app_nil_r. split_and!; try done; [lia|unfold poll_delay; lia|].
    destruct Ht as (r & text & j & Hin & Ht). exists r, text, j. split; [|done].
    by rewrite elem_of_cons; right.
  - cbn [negb] in *.
    assert (Htimer : (if 4 <=? attempts + 1 then await (IoTimer (poll_delay * (attempts + 1)))
                      else await (IoTimer poll_delay)) = await (St := Auth) (IoTimer w))
      by (unfold w; by case_match).
    rewrite Htimer in *. clear Htimer.
    runs_steps; [|simpl; rewrite ?app_nil_r, ?requests_of_app, ?slept_app, ?length_app; simpl;
                  split_and!; try done; unfold poll_delay in *; lia].
    match goal with H : runs (poll_token _ _ _) _ _ _ _ |- _ => apply IH in H as
      (Hn' & Hs' & Hu & Ht & Hf'); [|lia..] end.
    replace (Z.to_nat (max_attempts - (attempts + 1))) with n in * by lia.
    simpl. rewrite requests_of_app, slept_app, length_app. simpl.
    split_and!; try done; [lia|lia| |intros Ho; specialize (Hf' Ho); lia].
    intros Ho. destruct (Ht Ho) as (r & text & j & Hin & Hr).
    exists r, text, j. split; [|done].
    rewrite elem_of_cons, elem_of_app, elem_of_cons. auto.
Qed.

Lemma runs_login a ev o a' :
  runs loginAsync a ev o a' →
  (length (requests_of ev) ≤ 12)%nat ∧ slept ev ≤ 18600 ∧ o ≠ Undefined ∧
  (o = Ok tt → tokens_received ev a').
Proof.
  unfold loginAsync. intros Hr.
  apply runs_bind in Hr as (o1 & s1 & ev1 & ev2 & -> & Hr & Hx).
  assert (Hc : quiet 1 ev1 ∧ o1 ≠ Undefined).
  { clear Hx. apply runs_catch in Hr as [[Hr _]|(e & s2 & ev3 & ev4 & -> & Hr & _ & Hg)].
    - by apply runs_fetchClientId in Hr.
    - apply runs_fetchClientId in Hr as (Hq & _). runs_steps. by rewrite !app_nil_r. }
  clear Hr. destruct Hc as ([Hq1 Hs1] & Hu1).
  rewrite requests_of_app, slept_app, length_app.
  destruct o1 as [id|e|]; [|runs_steps; simpl; split_and!; try done; lia|done].
  apply runs_bind in Hx as (o2 & s2 & ev3 & ev4 & -> & Hr & Hx).
  apply runs_getAuthUrl in Hr as ([Hq2 Hs2] & Hu2).
  rewrite requests_of_app, slept_app, length_app.
  destruct o2 as [url|e|]; [|runs_steps; simpl; split_and!; try done; lia|done].
  runs_steps; [|simpl; split_and!; try done; lia].
  match goal with H : runs (poll_token _ _ _) _ _ _ _ |- _ =>
    apply runs_poll in H as (Hn & Hs & Hu & Ht & _); [|unfold max_attempts; lia..] end.
  rewrite !requests_of_app, !slept_app, !length_app. cbn [requests_of slept length].
  change (Z.to_nat (max_attempts - 0)) with 10%nat in *. change (poll_sleep 10) with 18600 in *.
  destruct x as [[]|e|]; [..|done]; runs_steps; simpl; split_and!; try done; try lia.
  intros _. destruct (Ht eq_refl) as (r & text & j & Hin & Hr).
  exists r, text, j. split; [set_solver|done].
Qed.

End AuthLemmas.

(** ** Properties *)

(** The state parameter: whatever numbers the generator draws, the state is a
    string of exactly 16 characters, all of them digits or ASCII letters, and
    making it performs no request and keeps the object as it was. *)
Theorem generateState_alphanumeric {env : Environment} {St} (s : St) h :
  let '(o, s', h') := exec generateState s h in
  ∃ st, o = Ok st ∧ String.length st = 16%nat ∧ str_forall alphanumeric st = true ∧
    s' = s ∧ requests_of h' = requests_of h.
Proof.
  destruct (exec generateState s h) as [[o s'] h'] eqn:Hx.
  apply exec_runs in Hx as (ev & -> & Hr).
  apply runs_generate in Hr as (-> & [Hq _] & st & -> & Hl & Ha).
  exists st. rewrite requests_of_app. destruct (requests_of ev); [|simpl in Hq; lia].
  by rewrite app_nil_r.
Qed.

(** C34.  The login flow ends, whatever the network answers: after at most 12
    requests (the client id, the authorization URL and at most 10 polls) and at
    most 18.6 seconds of timers it returns or throws, and when it returns, the
    access and refresh token it holds are those of one response it received. *)
Theorem loginAsync_bounded {J : JsonApi} {env : Environment} (a : Auth) :
  let '(o, a', h) := exec loginAsync a [] in
  o ≠ Undefined ∧ (length (requests_of h) ≤ 12)%nat ∧ slept h ≤ 18600 ∧
  (o = Ok tt → tokens_received h a').
Proof.
  destruct (exec loginAsync a []) as [[o a'] h] eqn:Hx.
  apply exec_runs in Hx as (ev & -> & Hr). simpl.
  apply runs_login in Hr as (Hn & Hs & Hu & Ht). by split_and!.
Qed.

Lemma exec_getHttp {env : Environment} server url a h :
  network_up server →
  ∃ ev, exec (getHttpAsync url) a h = (Ok (server url), a, h ++ ev) ∧
    slept ev = 0 ∧ length (requests_of ev) = 1%nat.
Proof.
  intros [Hdo Hread]. unfold getHttpAsync. rewrite exec_catch.
  cbn [mbind coro_bind co_bind co_gets makeSslStreamAsync await await_http exec].
  repeat (rewrite Hdo; cbn [co_bind exec]). rewrite Hread. cbn [co_bind exec res_status res_body].
  rewrite exec_bind. unfold tls_shutdown. rewrite exec_catch. cbn [await exec]. rewrite Hdo. cbn.
  rewrite <- !app_assoc. by eexists.
Qed.

Lemma poll_token_done {J : JsonApi} fuel n : poll_token fuel true n = mret true.
Proof. by destruct fuel. Qed.

Section Up.
Context {J : JsonApi} {env : Environment} (server : string → string) (jtok : json).
Context (token refresh dump : string).
Hypothesis Hnet : network_up server.
Hypothesis Htok1 : ∀ st, json_parse (server ("/token?state=" +:+ st)) = inr jtok.
Hypothesis Hdump : json_dump jtok = inr dump.
Hypothesis Htok2 : json_at_string jtok "access_token" = inr token.
Hypothesis Htok3 : json_at_string jtok "refresh_token" = inr refresh.

Lemma exec_requestToken a h :
  ∃ ev, exec requestTokenAsync a h =
      (Ok tt, storeRefreshToken refresh (storeToken token a), h ++ ev) ∧
    slept ev = 0 ∧ length (requests_of ev) = 1%nat.
Proof.
  unfold requestTokenAsync. rewrite exec_bind. cbn [co_gets exec]. rewrite exec_bind.
  destruct (exec_getHttp server ("/token?state=" +:+ m_auth_state a) a h Hnet) as (ev & -> & Hs & Hn).
  rewrite Htok1. cbn [co_lift mbind coro_bind co_bind]. rewrite Hdump.
  cbn [co_lift mbind coro_bind co_bind]. rewrite Htok2.
  cbn [co_lift co_modify mbind coro_bind co_bind exec]. rewrite Htok3. by eexists.
Qed.

Lemma exec_poll_first fuel a h :
  ∃ ev, exec (poll_token (S fuel) false 0) a h =
      (Ok true, storeRefreshToken refresh (storeToken token a), h ++ ev) ∧
    slept ev = poll_delay ∧ length (requests_of ev) = 1%nat.
Proof.
  cbn [poll_token negb andb Z.ltb Z.compare max_attempts].
  rewrite exec_bind. cbn [await exec]. rewrite (proj1 Hnet). cbn [exec].
  rewrite exec_bind, exec_catch, exec_bind.
  destruct (exec_requestToken a (h ++ [EvDo (IoTimer poll_delay) None])) as (ev & -> & Hs & Hn).
  cbn [exec mret coro_ret negb]. rewrite poll_token_done. cbn [exec mret coro_ret app].
  rewrite <- app_assoc. eexists. split; [done|]. split; [|done].
  cbn [app slept]. rewrite Hs. unfold poll_delay. lia.
Qed.

End Up.

(** C35.  The login succeeds at its first poll when the network is up and the OAuth
    server answers: whatever the browser does, [loginAsync] returns after three
    requests and 300 ms of timers, and the client id and both tokens of the
    server's answers are stored. *)
Theorem loginAsync_succeeds {J : JsonApi} {env : Environment} (a : Auth) server
    jid jtok id token refresh dump :
  network_up server →
  json_parse (server "/client_id") = inr jid → json_at_string jid "client_id" = inr id →
  (∀ st, json_parse (server ("/token?state=" +:+ st)) = inr jtok) →
  json_dump jtok = inr dump →
  json_at_string jtok "access_token" = inr token →
  json_at_string jtok "refresh_token" = inr refresh →
  ∃ a' h, exec loginAsync a [] = (Ok tt, a', h) ∧ clientId a' = id ∧
    accessToken a' = token ∧ m_refresh_token a' = refresh ∧ slept h = 300 ∧
    length (requests_of h) = 3%nat.
Proof.
  intros Hnet Hid1 Hid2 Htok1 Hdump Htok2 Htok3. pose proof Hnet as [Hdo _].
  unfold loginAsync. rewrite exec_bind, exec_catch. unfold fetchClientIdAsync. rewrite exec_bind.
  destruct (exec_getHttp server "/client_id" a [] Hnet) as (ev1 & -> & Hs1 & Hn1).
  rewrite Hid1. cbn [co_lift co_bind mbind coro_bind exec]. rewrite Hid2.
  cbn [co_lift co_modify co_bind mbind coro_bind exec mret coro_ret app].
  rewrite exec_bind. unfold getAuthUrlAsync. rewrite exec_bind.
  destruct (exec generateState _ _) as [[o1 s1] h1] eqn:Hg.
  apply exec_runs in Hg as (ev2 & -> & Hg).
  apply runs_generate in Hg as (-> & [Hn2 Hs2] & st & -> & _).
  cbn [co_modify co_gets co_bind mbind coro_bind exec].
  match goal with |- context [exec (getHttpAsync ?u) ?x ?h] =>
    destruct (exec_getHttp server u x h Hnet) as (ev3 & -> & Hs3 & Hn3) end.
  cbn [await co_bind mbind coro_bind exec]. rewrite Hdo. cbn [co_bind exec].
  rewrite exec_bind.
  match goal with |- context [exec (poll_token _ false 0) ?x ?h] =>
    destruct (exec_poll_first server jtok token refresh dump Hnet Htok1 Hdump Htok2 Htok3 10 x h)
      as (ev4 & -> & Hs4 & Hn4) end.
  cbn [exec mret coro_ret app].
  do 2 eexists. split; [done|]. split_and!; try done.
  - rewrite !slept_app. cbn [slept]. unfold poll_delay in *. lia.
  - rewrite !requests_of_app, !length_app. cbn [requests_of length]. lia.
Qed.

(** The server and the network of an example. *)
Definition demo_oauth_texts : list (string * jvalue) :=
  [("{client}", JObject [("client_id", JString "abc123")]);
   ("{token}", JObject [("access_token", JString "tok"); ("refresh_token", JString "ref")])].

Definition demo_oauth_server (target : string) : string :=
  if starts_with target "/token" then "{token}"
  else if starts_with target "/client_id" then "{client}" else "https://id.twitch.tv".

Lemma loginAsync_succeeds_witness :
  ∃ a' h, exec (env := network_of demo_oauth_server)
      (loginAsync (J := JsonModel demo_oauth_texts)) (new_Auth "oauth.example") []
    = (Ok tt, a', h) ∧ accessToken a' = "tok".
Proof.
  destruct (loginAsync_succeeds (J := JsonModel demo_oauth_texts)
    (env := network_of demo_oauth_server) (new_Auth "oauth.example")
    demo_oauth_server (JObject [("client_id", JString "abc123")])
    (JObject [("access_token", JString "tok"); ("refresh_token", JString "ref")])
    "abc123" "tok" "ref" (jprint (JObject [("access_token", JString "tok");
      ("refresh_token", JString "ref")])))
    as (a' & h & Hx & _ & Ht & _); [apply network_of_up|done..|by eauto].
Defined.

(** ** The user record *)

(** A user object of the Helix API with the string fields [strs]. *)
Definition user_object {J : JsonApi} (strs : list (string * string)) : json :=
  json_object (map (λ '(k, s), (k, json_string s)) strs).

Lemma assoc_strings {J : JsonApi} k strs :
  assoc k (map (λ '(k, s), (k, json_string s)) strs) = json_string <$> assoc k strs.
Proof. induction strs as [|[k' s] strs IH]; simpl; [done|]. by destruct (decide (k = k')). Qed.

Lemma value_user_object {J : JsonApi} {laws : JsonLaws} strs k :
  json_value_string (user_object strs) k "" = inr (default "" (assoc k strs)).
Proof.
  unfold user_object. rewrite json_value_string_object, assoc_strings.
  destruct (assoc k strs) as [s|]; simpl; [|done]. apply json_get_string_string.
Qed.

(** The user record: from a response whose "data" is an array that starts with
    an object of string fields, every field of the record is the string of that
    name, or the default when it is absent, and a creation date printed by
    [put_time] for a four-digit year is read back to the second; any later
    element of the array is ignored. *)
Theorem parseTwitchUser_described {J : JsonApi} {laws : JsonLaws} strs rest t :
  -30610224000 ≤ t < 253402300800 →
  assoc "created_at" strs = Some (put_time (gmtime t)) → assoc "view_count" strs = None →
  let field k := default "" (assoc k strs) in
  parseTwitchUser (json_object [("data", json_array (user_object strs :: rest))]) =
    inr (mk_TwitchUserInfo (field "id") (field "login") (field "display_name")
           (field "broadcaster_type") (field "description") t (field "profile_image_url") 0
           (Some (field "offline_image_url")) (Some (field "email"))).
Proof.
  intros Ht Hc Hv field. unfold parseTwitchUser.
  rewrite json_contains_object. rewrite bool_decide_true by (by eexists). cbn [negb].
  rewrite json_index_object. simpl.
  rewrite json_is_array_array, json_empty_array, json_nth_array.
  rewrite bool_decide_false by done. simpl. rewrite !value_user_object, Hc. simpl.
  assert (Hp : parseTime (put_time (gmtime t)) = inr t)
    by (unfold parseTime; by rewrite get_time_put_time, timegm_gmtime).
  destruct (negb (str_empty (put_time (gmtime t)))) eqn:He.
  2: { unfold put_time in He.
       destruct (to_string _) in He; discriminate He. }
  rewrite Hp. simpl. unfold user_object. rewrite json_value_int_object, assoc_strings, Hv.
  unfold field. done.
Qed.

Lemma parseTwitchUser_described_witness :
  parseTwitchUser (J := JsonModel []) (JObject [("data", JArray [JObject
    [("id", JString "42"); ("created_at", JString (put_time (gmtime 1700000000)));
     ("display_name", JString "Lagizur")]])]) =
  inr (mk_TwitchUserInfo "42" "" "Lagizur" "" "" 1700000000 "" 0 (Some "") (Some "")).
Proof.
  exact (parseTwitchUser_described (J := JsonModel []) (laws := JsonModel_laws [])
    [("id", "42"); ("created_at", put_time (gmtime 1700000000)); ("display_name", "Lagizur")]
    [] 1700000000 ltac:(lia) eq_refl eq_refl).
Defined.
