(* ===== verification/EventSub.v ===== *)
(** * Twitch EventSub and chat

    Models [EventSub] ([include/seraphbot/tw/eventsub.hpp], [src/tw/eventsub.cpp])
    and [Read] and [Send] ([include/seraphbot/tw/chat/], [src/tw/chat/]).

    The callback given to [start] acts on objects outside of the [EventSub]
    object, so [doRead] runs over the state of the whole program, where the
    [EventSub] object is found through [EventSubHost]. *)

From S2P Require Import Prelude Cxx Coro Json Net.

(** The socket of the websocket stream: open after the websocket handshake. *)
Inductive ws_state := WsNotOpen | WsOpen.

Record EventSub {CB : Type} := mk_EventSub {
  m_cfg : ClientConfig;
  m_stream : bool;                   (* [m_stream] holds a stream *)
  m_wss : option ws_state;
  m_buffer : string;
  m_callback : option CB;
  m_session_id : string;
}.
Arguments EventSub CB : clear implicits.

Section Object.
Context {J : JsonApi} {CB : Type}.
Implicit Types es : EventSub CB.

Definition new_EventSub (cfg : ClientConfig) : EventSub CB := mk_EventSub _ cfg false None "" None "".

Definition getSessionId es : string := m_session_id es.
Definition getTwitchConfig es : ClientConfig := m_cfg es.

Definition set_stream (b : bool) es : EventSub CB :=
  mk_EventSub _ (m_cfg es) b (m_wss es) (m_buffer es) (m_callback es) (m_session_id es).
Definition set_wss (w : option ws_state) es : EventSub CB :=
  mk_EventSub _ (m_cfg es) (m_stream es) w (m_buffer es) (m_callback es) (m_session_id es).
Definition set_buffer (b : string) es : EventSub CB :=
  mk_EventSub _ (m_cfg es) (m_stream es) (m_wss es) b (m_callback es) (m_session_id es).
Definition set_callback (c : option CB) es : EventSub CB :=
  mk_EventSub _ (m_cfg es) (m_stream es) (m_wss es) (m_buffer es) c (m_session_id es).
Definition set_session_id (i : string) es : EventSub CB :=
  mk_EventSub _ (m_cfg es) (m_stream es) (m_wss es) (m_buffer es) (m_callback es) i.

Definition start (callback : CB) : coro (EventSub CB) unit :=
  co_modify (set_callback (Some callback)).

(** [jsn.at("payload").at("session").at("id").get<std::string>()]; any exception
    is replaced. *)
Definition welcome_session_id (jsn : json) : exn + string :=
  match json_at_path jsn ["payload"; "session"; "id"] with
  | inl _ => inl (runtime_error "Failed to extract session.id from welcome message")
  | inr v =>
      match json_get_string v with
      | inl _ => inl (runtime_error "Failed to extract session.id from welcome message")
      | inr s => inr s
      end
  end.

Definition connect : coro (EventSub CB) unit :=
  co_catch any_exception (λ ex, co_throw ex)
    (cfg ← co_gets m_cfg;
     makeSslStreamAsync (cfg_host cfg) (cfg_port cfg) ;;
     co_modify (set_stream true) ;;
     await IoTlsHandshake ;;
     co_modify (λ es, set_wss (Some WsNotOpen) es) ;;
     await (IoWsHandshake (cfg_host cfg) "/ws") ;;
     co_modify (set_wss (Some WsOpen)) ;;
     welcome ← await_ws;
     jsn ← co_lift (json_parse welcome);
     session_id ← co_lift (welcome_session_id jsn);
     co_modify (set_session_id session_id)).

Definition subscription_request (cfg : ClientConfig) (session_id type version : string) : json :=
  json_object
    [("type", json_string type);
     ("version", json_string version);
     ("condition", json_object
        [("broadcaster_user_id", json_string (broadcaster_id cfg));
         ("user_id", json_string (broadcaster_id cfg))]);
     ("transport", json_object
        [("method", json_string "websocket"); ("session_id", json_string session_id)])].

Definition subscribe (type version : string) : coro (EventSub CB) unit :=
  co_catch any_exception (λ ex, co_throw ex)
    (cfg ← co_gets m_cfg;
     let token := stripOauthPrefix (access_token cfg) in
     let headers := [("Client-Id", client_id cfg); ("Authorization", "Bearer " +:+ token);
                     ("Content-Type", "application/json")] in
     session_id ← co_gets m_session_id;
     body ← co_lift (json_dump (subscription_request cfg session_id type version));
     co_catch any_exception (λ e, co_throw e)
       (resp ← httpsPostAsync (helix_host cfg) (helix_port cfg)
                 "/helix/eventsub/subscriptions" body headers;
        sub_response ← co_lift (json_parse resp);
        if json_contains sub_response "error" then
          (_ ← co_lift (json_dump sub_response);
           co_throw (runtime_error "EventSub subscription failed"))
        else mret tt) ;;
     co_gets m_session_id ;;                      (* [this->m_conn_manager] *)
     await (IoTimer 300)).

Definition shutdown : coro (EventSub CB) unit :=
  wss ← co_gets m_wss;
  (match wss with
   | Some _ =>
       co_catch any_exception (λ _, mret tt)
         (co_catch system_error (λ _, mret tt) (await IoWsClose))
   | None => mret tt
   end) ;;
  co_modify (set_wss None).

End Object.

(** ** [tw::chat::Read] and [tw::chat::Send] *)

Section Chat.
Context {J : JsonApi} {CB : Type}.

(** [Read::requestSubscription] on the [EventSub] object it shares. *)
Definition requestSubscription : coro (EventSub CB) unit := subscribe "channel.chat.message" "1".

Record Send := mk_Send { send_cfg : ClientConfig }.

Definition chat_message_body (cfg : ClientConfig) (msg sender_id : string) : json :=
  json_object [("broadcaster_id", json_string (broadcaster_id cfg));
               ("message", json_string msg); ("sender_id", json_string sender_id)].

Definition send_message {St} (snd : Send) (msg sender_id : string) : coro St unit :=
  let cfg := send_cfg snd in
  let token := stripOauthPrefix (access_token cfg) in
  let headers := [("Client-Id", client_id cfg); ("Authorization", "Bearer " +:+ token)] in
  body ← co_lift (json_dump (chat_message_body cfg msg sender_id));
  _ ← httpsPostAsync (helix_host cfg) (helix_port cfg) "/helix/chat/messages" body headers;
  mret tt.

End Chat.

(** ** The read loop *)

Class EventSubHost (CB St : Type) := {
  es_get : nat → St → option (EventSub CB);      (* the object, while it exists *)
  es_set : nat → EventSub CB → St → St;
  es_call : CB → string → M St unit;             (* the callback *)
  es_post_connect : nat → St → St;               (* [co_spawn(..., connect(), detached)] *)
}.

Section Host.
Context {CB St : Type} {host : EventSubHost CB St}.

Definition on_eventsub {A} (p : nat) (c : coro (EventSub CB) A) : coro St A :=
  co_zoom (es_get p) (es_set p) c.

(** [while (m_wss && m_wss->is_open())]: one round per unit of fuel. *)
Fixpoint read_loop (fuel : nat) (p : nat) : coro St unit :=
  wss ← on_eventsub p (co_gets m_wss);
  match wss with
  | Some WsOpen =>
      match fuel with
      | O => co_undefined OutOfFuel
      | S fuel' =>
          frame ← await_ws;
          buffered ← on_eventsub p (co_gets m_buffer);
          let msg := buffered +:+ frame in
          on_eventsub p (co_modify (set_buffer "")) ;;
          callback ← on_eventsub p (co_gets m_callback);
          (match callback with Some f => co_sync (es_call f msg) | None => mret tt end) ;;
          read_loop fuel' p
      end
  | _ => mret tt
  end.

Definition doRead (fuel : nat) (p : nat) : coro St unit :=
  wss ← on_eventsub p (co_gets m_wss);
  match wss with
  | None => mret tt
  | Some _ =>
      co_catch any_exception (λ _, mret tt)
        (co_catch system_error (λ _, mret tt) (read_loop fuel p))
  end.

(** Closing the socket itself cannot fail here: its error code is ignored. *)
Definition reconnect (p : nat) : coro St unit :=
  wss ← on_eventsub p (co_gets m_wss);
  (match wss with
   | Some _ => co_do IoWsClose (λ _, mret tt)
   | None => mret tt
   end) ;;
  on_eventsub p (co_modify (set_wss None)) ;;
  co_modify (es_post_connect p).

End Host.

(** ** Reference definitions *)

(** How many frames have been read in a history. *)
Fixpoint ws_reads (h : list io_event) : nat :=
  match h with
  | [] => O
  | EvWsRead _ :: h' => S (ws_reads h')
  | _ :: h' => ws_reads h'
  end.

(** After the history [h0] the server sends the frames [msgs] and then the
    connection fails with [err]. *)
Definition server_sends {env : Environment} (h0 : list io_event) (msgs : list string) (err : exn)
    : Prop :=
  ∀ ev, env_ws_read (h0 ++ ev) =
    match msgs !! ws_reads ev with Some m => inr m | None => inl err end.

(** Calling the callback [f] on each message in turn. *)
Fixpoint deliver {CB St} {host : EventSubHost CB St} (f : CB) (msgs : list string) (s : St) : St :=
  match msgs with [] => s | m :: msgs' => deliver f msgs' (snd (es_call f m s)) end.

(** The objects of [EventSubHost] are independent cells. *)
Class EventSubHostLaws (CB St : Type) {host : EventSubHost CB St} : Prop := {
  es_set_get p es s : es_get p s = Some es → es_set p es s = s;
}.

(** A callback that returns normally and leaves the [EventSub] object [p] alone. *)
Definition callback_ok {CB St} {host : EventSubHost CB St} (f : CB) (p : nat) : Prop :=
  ∀ m s, fst (es_call f m s) = Ok tt ∧ es_get p (snd (es_call f m s)) = es_get p s.

(** ** Lemmas *)

Lemma ws_reads_app h1 h2 : ws_reads (h1 ++ h2) = (ws_reads h1 + ws_reads h2)%nat.
Proof. induction h1 as [|[] h1 IH]; simpl; auto. Qed.

Section ReadLoop.
Context {CB St : Type} {host : EventSubHost CB St} {laws : EventSubHostLaws CB St}.
Context {env : Environment}.

Lemma exec_es_gets {A} p es (g : EventSub CB → A) s h :
  es_get p s = Some es → exec (on_eventsub p (co_gets g)) s h = (Ok (g es), s, h).
Proof. intros Hes. unfold on_eventsub; simpl. by rewrite Hes. Qed.

Lemma exec_es_modify p es (g : EventSub CB → EventSub CB) s h :
  es_get p s = Some es → exec (on_eventsub p (co_modify g)) s h = (Ok tt, es_set p (g es) s, h).
Proof. intros Hes. unfold on_eventsub; simpl. rewrite Hes. simpl. by rewrite Hes. Qed.

Lemma exec_sync {A} (m : M St A) s h : exec (co_sync m) s h = (m s, h).
Proof. unfold co_sync; simpl. by destruct (m s) as [[] ?]. Qed.

Lemma exec_read_loop f p es err msgs fuel s h :
  callback_ok f p → server_sends h msgs err → (length msgs < fuel)%nat →
  es_get p s = Some es → m_wss es = Some WsOpen → m_callback es = Some f → m_buffer es = "" →
  ∃ h', exec (read_loop fuel p) s h = (Throw err, deliver f msgs s, h').
Proof.
  intros Hf. revert msgs s h. induction fuel as [|fuel IH]; intros msgs s h Hsrv Hfuel Hes Hw Hc Hb;
    [lia|].
  cbn [read_loop]. rewrite exec_bind, (exec_es_gets _ es), Hw by done.
  rewrite exec_bind. cbn [await_ws exec].
  pose proof (Hsrv []) as Hread. rewrite app_nil_r in Hread. rewrite Hread.
  destruct msgs as [|m msgs]; cbn [lookup list_lookup ws_reads exec].
  { by eexists. }
  rewrite exec_bind, (exec_es_gets _ es), exec_bind, (exec_es_modify _ es) by done.
  assert (Hset : es_set p (set_buffer "" es) s = s).
  { apply es_set_get. rewrite Hes. destruct es; simpl in *. by subst. }
  rewrite Hset, exec_bind, (exec_es_gets _ es), Hc, Hb, exec_bind, exec_sync by done.
  destruct (Hf m s) as [Hok Hkeep].
  change ("" +:+ m) with m. destruct (es_call f m s) as [r s'] eqn:Hcall.
  simpl in Hok, Hkeep. subst r. cbn [deliver]. rewrite Hcall. cbn [snd].
  apply IH; try done; [|simpl in *; lia|by rewrite Hkeep].
  intros ev. rewrite <- app_assoc, Hsrv. done.
Qed.

End ReadLoop.

(** ** Properties *)

(** C32.  The read loop: on an open connection it hands every frame the server
    sends to the callback, in order and exactly once, and returns normally when
    the connection fails, whatever the error; one unit of fuel more than there
    are frames is enough. *)
Theorem doRead_delivers {CB St} {host : EventSubHost CB St} {laws : EventSubHostLaws CB St}
    {env : Environment} f p es err msgs fuel s h :
  callback_ok f p → server_sends h msgs err → (length msgs < fuel)%nat →
  es_get p s = Some es → m_wss es = Some WsOpen → m_callback es = Some f → m_buffer es = "" →
  ∃ h', exec (doRead fuel p) s h = (Ok tt, deliver f msgs s, h').
Proof.
  intros Hf Hsrv Hfuel Hes Hw Hc Hb. unfold doRead.
  rewrite exec_bind, (exec_es_gets _ es), Hw, exec_catch, exec_catch by done.
  destruct (exec_read_loop f p es err msgs fuel s h) as (h' & ->); try done.
  exists h'. destruct (system_error err); done.
Qed.

(** Connecting: [connect] returns or throws; when it returns, the websocket is
    open and the session id is the one of a welcome message it read; when it
    throws, the session id is the old one.  It never changes the configuration
    or the callback. *)
Theorem connect_session {J : JsonApi} {CB} {env : Environment} (es : EventSub CB) h :
  let '(o, es', h') := exec connect es h in
  m_cfg es' = m_cfg es ∧ m_callback es' = m_callback es ∧ m_buffer es' = m_buffer es ∧
  match o with
  | Ok _ => m_wss es' = Some WsOpen ∧
      ∃ welcome j, EvWsRead (inr welcome) ∈ h' ∧ json_parse welcome = inr j ∧
        welcome_session_id j = inr (m_session_id es')
  | Throw _ => m_session_id es' = m_session_id es
  | Undefined => False
  end.
Proof.
  destruct (exec connect es h) as [[o es'] h'] eqn:Hx. apply exec_runs in Hx as (ev & -> & Hr).
  apply runs_rethrow in Hr. net_steps; simpl; split_and!; try done.
  do 2 eexists. split_and!; [|done..]. set_solver.
Qed.

(** C33.  Subscribing: when [subscribe] returns, it has written exactly one request,
    a POST to the subscriptions endpoint with the token stripped of its "oauth:"
    prefix, every header field once (the caller's content type replaces the one of
    the request function), the length of the body, and as body the dumped
    subscription for this session, and the answer parsed to a JSON value without
    "error"; in every case the object is unchanged and at most that one request was
    written. *)
Theorem subscribe_request {J : JsonApi} {CB} {env : Environment} (es : EventSub CB) type version h :
  let cfg := m_cfg es in
  let request body := mk_request verb_post "/helix/eventsub/subscriptions" 11
    [("Host", helix_host cfg); ("User-Agent", "seraphbot-eventsub/0.1"); ("Connection", "close");
     ("Client-Id", client_id cfg);
     ("Authorization", "Bearer " +:+ stripOauthPrefix (access_token cfg));
     ("Content-Type", "application/json");
     ("Content-Length", to_string (Z.of_nat (String.length body)))] body in
  let dumped body := json_dump (subscription_request cfg (m_session_id es) type version) = inr body in
  let '(o, es', h') := exec (subscribe type version) es h in
  es' = es ∧ ∃ ev, h' = h ++ ev ∧
  match o with
  | Ok _ => ∃ body res j, dumped body ∧ requests_of ev = [request body] ∧
      EvHttpRead (inr res) ∈ ev ∧ json_parse (res_body res) = inr j ∧ json_contains j "error" = false
  | Throw _ => requests_of ev = [] ∨ ∃ body, dumped body ∧ requests_of ev = [request body]
  | Undefined => False
  end.
Proof.
  intros cfg request dumped.
  destruct (exec (subscribe type version) es h) as [[o es'] h'] eqn:Hx.
  apply exec_runs in Hx as (ev & -> & Hr). apply runs_rethrow in Hr. runs_steps.
  { split; [done|]. eexists; split; [done|]. by left. }
  match goal with H : runs (co_catch _ _ _) _ _ _ _ |- _ => apply runs_rethrow in H end.
  runs_steps.
  match goal with H : runs (httpsPostAsync _ _ _ _ _) _ _ _ _ |- _ =>
    apply runs_httpsPost in H as (-> & _ & [(res & r & -> & ->)|(e & -> & Hq)]) end; runs_steps.
  - split; [done|]. eexists; split; [done|]. right. by exists s.
  - match goal with H : runs (if json_contains ?j _ then _ else _) _ _ _ _ |- _ =>
      destruct (json_contains j "error") eqn:He end; runs_steps;
      (split; [done|]; eexists; split; [done|]); simpl; try (right; by exists s).
    exists s, res. eexists. split_and!; try done. set_solver.
  - split; [done|]. eexists; split; [done|]. cbn [app]. rewrite !app_nil_r.
    destruct Hq as [->| ->]; [by left|]. right. by exists s.
Qed.

(** ** An example: a callback that notes the messages it gets *)

Definition demo_world : Type := option (EventSub unit) * list string.

#[local] Instance demo_eventsub_host : EventSubHost unit demo_world := {|
  es_get p s := if (p =? 0)%nat then fst s else None;
  es_set p es s := if (p =? 0)%nat then (Some es, snd s) else s;
  es_call _ m s := (Ok tt, (fst s, snd s ++ [m]));
  es_post_connect _ s := s;
|}.

#[local] Instance demo_eventsub_laws : EventSubHostLaws unit demo_world.
Proof. split. intros p es [o l]; simpl. destruct (p =? 0)%nat; simpl; congruence. Qed.

Definition demo_frames : list string := ["welcome"; "hello"; "bye"].

Definition demo_stream : Environment := {|
  env_do _ _ := None;
  env_http_read _ := inl (runtime_error "no server");
  env_ws_read h := match demo_frames !! ws_reads h with
                   | Some m => inr m | None => inl (mk_exn (SystemError "closed") "closed") end;
  env_random _ _ := O;
|}.

Definition demo_open : EventSub unit :=
  mk_EventSub unit default_ClientConfig true (Some WsOpen) "" (Some tt) "s1".

Lemma doRead_delivers_witness :
  ∃ h', exec (env := demo_stream) (doRead 4 0) (Some demo_open, []) [] =
    (Ok tt, (Some demo_open, demo_frames), h').
Proof.
  change (Some demo_open, demo_frames) with (deliver tt demo_frames (Some demo_open, [] : list string)).
  apply (doRead_delivers (env := demo_stream) tt 0 demo_open
    (mk_exn (SystemError "closed") "closed") demo_frames 4 (Some demo_open, []) []);
    [|by intros ev|simpl; lia|done..].
  intros m s. done.
Defined.
