(* ===== verification/TwitchService.v ===== *)
(** * The Twitch service

    Models [TwitchService] of [include/seraphbot/core/twitch_service.hpp] and
    [src/core/twitch_service.cpp]: the login and chat states, the coroutines that
    move between them, the message handler, and the object lifetimes behind its
    shared pointers.

    [EventSub] objects live in a heap and are known by their address; the service
    and its [Read] object own one each, and an object that loses its last owner
    is destroyed.  The coroutines given to [asio::co_spawn] go to the queue of the
    [io_context] as values of [task]. *)

From S2P Require Import Prelude Cxx CommandParser Coro Json Net Auth EventSub.

Inductive State :=
  | Disconnected | LoggingIn | LoggedIn | ConnectingToChat | ChatConnected | Error.

#[global] Instance State_eq_dec : EqDecision State.
Proof. solve_decision. Defined.

(** The coroutines the program spawns. *)
Inductive task :=
  | TLogin                                       (* the lambda of [startLogin] *)
  | TConnectToChat                               (* [connectToChat()] *)
  | TDoRead                                      (* the read lambda of [connectToChat] *)
  | TStart (p : nat)                             (* [m_eventsub->start(...)] *)
  | TSubscribe (p : nat) (type version : string) (* [m_eventsub->subscribe(...)] *)
  | TConnect (p : nat)                           (* [connect()], from [reconnect] *)
  | TSend (message : string)                     (* the lambda of [sendMessage] *)
  | TDiscord (message : string).                 (* [Notifications::sendMessage] *)

(** The only [EventSub] callback is the lambda of [connectToChat]. *)
Inductive eventsub_callback := HandleMessage.

Record TwitchService {CB : Type} := mk_TwitchService {
  m_auth : Auth;
  m_eventsub : option nat;
  m_chat_read : option nat;          (* the [EventSub] object the [Read] object shares *)
  m_chat_send : option Send;
  m_state : State;
  m_current_user : string;
  m_message_callback : option CB;
  m_status_callback : option CB;
}.
Arguments TwitchService CB : clear implicits.

Section Fields.
Context {CB : Type}.
Implicit Types t : TwitchService CB.

Definition new_TwitchService : TwitchService CB :=
  mk_TwitchService _ (new_Auth "seraphbot-oauth-server.onrender.com") None None None
    Disconnected "" None None.

Definition set_auth (a : Auth) t : TwitchService CB :=
  mk_TwitchService _ a (m_eventsub t) (m_chat_read t) (m_chat_send t) (m_state t)
    (m_current_user t) (m_message_callback t) (m_status_callback t).
Definition set_services (es rd : option nat) (snd : option Send) t : TwitchService CB :=
  mk_TwitchService _ (m_auth t) es rd snd (m_state t)
    (m_current_user t) (m_message_callback t) (m_status_callback t).
Definition set_state (st : State) t : TwitchService CB :=
  mk_TwitchService _ (m_auth t) (m_eventsub t) (m_chat_read t) (m_chat_send t) st
    (m_current_user t) (m_message_callback t) (m_status_callback t).
Definition set_current_user (u : string) t : TwitchService CB :=
  mk_TwitchService _ (m_auth t) (m_eventsub t) (m_chat_read t) (m_chat_send t) (m_state t)
    u (m_message_callback t) (m_status_callback t).
Definition setMessageCallback (c : CB) t : TwitchService CB :=
  mk_TwitchService _ (m_auth t) (m_eventsub t) (m_chat_read t) (m_chat_send t) (m_state t)
    (m_current_user t) (Some c) (m_status_callback t).
Definition setStatusCallback (c : CB) t : TwitchService CB :=
  mk_TwitchService _ (m_auth t) (m_eventsub t) (m_chat_read t) (m_chat_send t) (m_state t)
    (m_current_user t) (m_message_callback t) (Some c).

Definition getState t : State := m_state t.
Definition canConnectToChat t : bool := bool_decide (m_state t = LoggedIn).
Definition canSendMessages t : bool := bool_decide (m_state t = ChatConnected).
Definition getCurrentUser t : string := m_current_user t.

End Fields.

(** ** The program around the service *)

Class ServiceHost (CB St : Type) := {
  svc : St → TwitchService CB;
  set_svc : TwitchService CB → St → St;
  config : St → ClientConfig;                              (* [m_config] *)
  set_config : ClientConfig → St → St;
  objects : St → gmap nat (EventSub eventsub_callback);    (* the heap *)
  set_objects : gmap nat (EventSub eventsub_callback) → St → St;
  queue : St → list task;                                  (* of the [io_context] *)
  post : task → St → St;                                   (* [asio::co_spawn] *)
  call_message : CB → ChatMessage → M St unit;
  call_status : CB → string → M St unit;
}.

Class ServiceHostLaws (CB St : Type) {host : ServiceHost CB St} : Prop := {
  svc_set_svc t s : svc (set_svc t s) = t;
  svc_set_config c s : svc (set_config c s) = svc s;
  svc_set_objects o s : svc (set_objects o s) = svc s;
  svc_post t s : svc (post t s) = svc s;
  config_set_svc t s : config (set_svc t s) = config s;
  config_set_config c s : config (set_config c s) = c;
  config_set_objects o s : config (set_objects o s) = config s;
  config_post t s : config (post t s) = config s;
  objects_set_svc t s : objects (set_svc t s) = objects s;
  objects_set_config c s : objects (set_config c s) = objects s;
  objects_set_objects o s : objects (set_objects o s) = o;
  objects_post t s : objects (post t s) = objects s;
  queue_set_svc t s : queue (set_svc t s) = queue s;
  queue_set_config c s : queue (set_config c s) = queue s;
  queue_set_objects o s : queue (set_objects o s) = queue s;
  queue_post t s : queue (post t s) = queue s ++ [t];
}.

Section Service.
Context {J : JsonApi} {CB St : Type} {host : ServiceHost CB St}.

Definition on_svc (f : TwitchService CB → TwitchService CB) : M St unit :=
  modify (λ s, set_svc (f (svc s)) s).
Definition on_auth {A} (c : coro Auth A) : coro St A :=
  co_zoom (λ s, Some (m_auth (svc s))) (λ a s, set_svc (set_auth a (svc s)) s) c.

Definition setState (state : State) (status : string) : M St unit :=
  on_svc (set_state state) ;;
  cb ← gets (λ s, m_status_callback (svc s));
  match cb with
  | Some f => if negb (str_empty status) then call_status f status else mret tt
  | None => mret tt
  end.

Definition startLogin : M St unit := λ s,
  if bool_decide (m_state (svc s) ≠ Disconnected) then (Ok tt, s)
  else (setState LoggingIn "Starting login process..." ;; modify (post TLogin)) s.

(** What the login coroutine does once the user record is there. *)
Definition login_done (user_info : TwitchUserInfo) : M St unit :=
  on_svc (set_current_user (ui_display_name user_info)) ;;
  modify (λ s, let c := config s in
    set_config (mk_ClientConfig (cfg_host c) (cfg_port c) (helix_host c) (helix_port c)
                  (clientId (m_auth (svc s))) (accessToken (m_auth (svc s)))
                  (ui_id user_info)) s) ;;
  user ← gets (λ s, m_current_user (svc s));
  setState LoggedIn ("Logged in as " +:+ user).

Definition login_task : coro St unit :=
  co_catch any_exception
    (λ err, co_sync (setState Error ("Login failed: " +:+ exn_what err)))
    (on_auth loginAsync ;;
     user_info ← on_auth fetchUserInfoAsync;
     co_sync (login_done user_info)).

(** An [EventSub] object without owner is destroyed. *)
Definition collect (s : St) : St :=
  set_objects (filter (λ '(p, _), m_eventsub (svc s) = Some p ∨ m_chat_read (svc s) = Some p)
                 (objects s)) s.

Definition setupChatServices : M St unit := modify (λ s,
  let p := fresh (dom (objects s)) in
  let s := set_objects (<[p := new_EventSub (config s)]> (objects s)) s in
  collect (set_svc (set_services (Some p) (Some p) (Some (mk_Send (config s))) (svc s)) s)).

Definition disconnect : M St unit :=
  setState Disconnected "Disconnected" ;;
  modify (λ s, collect (set_svc (set_services None None None (svc s)) s)) ;;
  on_svc (set_current_user "").

(** ** The message handler *)

(** [for (const auto &badge : badges)] *)
Fixpoint badge_ids (badges : list json) : M St (list string) :=
  match badges with
  | [] => mret []
  | b :: rest =>
      v ← lift (json_const_index b "set_id");
      id ← lift_exn (json_get_string v);
      ids ← badge_ids rest;
      mret (id :: ids)
  end.

Definition json_path_string (j : json) (ks : list string) : exn + string :=
  v ← json_path j ks; json_get_string v.

(** The block for [type == "channel.chat.message"]; [false] when it returns from
    the function. *)
Definition chat_message_block (f : CB) (raw_msg : json) : M St bool :=
  let event := ["payload"; "event"] in
  ev ← lift_exn (json_path raw_msg event);
  if negb (json_contains ev "chatter_user_name") || negb (json_contains ev "message") then mret false
  else
    m ← lift_exn (json_path raw_msg (event ++ ["message"]));
    if negb (json_contains m "text") then mret false
    else
      chatter ← lift_exn (json_path_string raw_msg (event ++ ["chatter_user_name"]));
      text ← lift_exn (json_path_string raw_msg (event ++ ["message"; "text"]));
      color ← lift_exn (json_path_string raw_msg (event ++ ["color"]));
      bs ← lift_exn (json_path raw_msg (event ++ ["badges"]));
      badges ← badge_ids (json_items bs);
      call_message f (mk_ChatMessage chatter text color badges) ;;
      mret true.

Definition handle_body (msg : string) : M St unit :=
  raw_msg ← lift_exn (json_parse msg);
  if negb (json_contains raw_msg "metadata") then mret tt
  else
    message_type ← lift_exn (json_path raw_msg ["metadata"; "message_type"]);
    if negb (json_eq_string message_type "notification") then mret tt
    else
      type ← lift_exn (json_path_string raw_msg ["metadata"; "subscription_type"]);
      cb ← gets (λ s, m_message_callback (svc s));
      match cb with
      | None => mret tt
      | Some f =>
          continue ← (if String.eqb type "channel.chat.message" then chat_message_block f raw_msg
                      else mret true);
          if negb continue then mret tt
          else
            (if String.eqb type "channel.ad_break.begin" then
               text ← lift_exn (json_path_string raw_msg ["payload"; "event"; "duration_seconds"]);
               call_message f (mk_ChatMessage "System" (text +:+ " second ad break beginning.")
                                 "#AAAAAA" [])
             else mret tt) ;;
            (if String.eqb type "channel.chat.clear" then
               call_message f (mk_ChatMessage "System" "Chat clear requested" "#AAAAAA" [])
             else mret tt)
      end.

Definition handleEventSubMessage (msg : string) : M St unit :=
  try_catch (handle_body msg) (λ _, mret tt).

#[global] Instance service_eventsub_host : EventSubHost eventsub_callback St := {|
  es_get p s := objects s !! p;
  es_set p es s := set_objects (<[p := es]> (objects s)) s;
  es_call f msg := match f with HandleMessage =>
                     try_catch (handleEventSubMessage msg) (λ _, mret tt) end;
  es_post_connect p s := post (TConnect p) s;
|}.

(** ** Connecting *)

(** [*m_eventsub]: undefined when the pointer is null. *)
Definition eventsub_ptr : coro St nat :=
  co_get (λ s, match m_eventsub (svc s) with Some p => co_return p | None => co_undefined Dangling end).
Definition chat_read_ptr : coro St nat :=
  co_get (λ s, match m_chat_read (svc s) with Some p => co_return p | None => co_undefined Dangling end).

(** [co_spawn(..., m_eventsub->subscribe(type, version), detached)] *)
Definition spawn_subscribe (type version : string) : coro St unit :=
  p ← eventsub_ptr; co_modify (post (TSubscribe p type version)).

Definition connectToChat : coro St unit :=
  st ← co_gets (λ s, m_state (svc s));
  if bool_decide (st ≠ LoggedIn) then mret tt
  else
    co_sync (setState ConnectingToChat "Connecting to chat...") ;;
    co_catch any_exception
      (λ err, co_sync (setState Error ("Chat connection failed: " +:+ exn_what err)))
      (co_sync setupChatServices ;;
       p ← eventsub_ptr;
       on_eventsub p connect ;;
       co_modify (post TDoRead) ;;
       p ← eventsub_ptr;
       co_modify (post (TStart p)) ;;
       await (IoTimer 500) ;;
       r ← chat_read_ptr;
       on_eventsub r requestSubscription ;;
       spawn_subscribe "channel.update" "2" ;;
       spawn_subscribe "channel.ad_break.begin" "1" ;;
       spawn_subscribe "channel.chat.clear" "1" ;;
       spawn_subscribe "channel.chat.clear_user_messages" "1" ;;
       spawn_subscribe "channel.chat.message_delete" "1" ;;
       spawn_subscribe "channel.chat.notification" "1" ;;
       spawn_subscribe "stream.online" "1" ;;
       co_sync (setState ChatConnected "Connected to chat")).

Definition read_task (fuel : nat) : coro St unit :=
  co_catch any_exception (λ _, mret tt) (p ← eventsub_ptr; doRead fuel p).

(** ** Sending *)

Definition sendMessage (message : string) : M St unit := λ s,
  if bool_decide (m_state (svc s) ≠ ChatConnected) then (Ok tt, s)
  else modify (post (TSend message)) s.

Definition send_task (message : string) : coro St unit :=
  co_catch any_exception
    (λ err, co_sync (
       cb ← gets (λ s, m_status_callback (svc s));
       match cb with
       | Some f => call_status f ("Failed to send message: " +:+ exn_what err)
       | None => mret tt
       end))
    (snd ← co_gets (λ s, m_chat_send (svc s));
     match snd with
     | None => co_undefined Dangling
     | Some snd =>
         sender ← co_gets (λ s, broadcaster_id (config s));
         send_message snd message sender
     end).

(** The coroutine of a task of this file; [fuel] bounds the frames a read loop
    may receive, and [discord] is the coroutine of [TDiscord]. *)
Definition run_task (fuel : nat) (discord : string → coro St unit) (t : task) : coro St unit :=
  match t with
  | TLogin => login_task
  | TConnectToChat => connectToChat
  | TDoRead => read_task fuel
  | TStart p => on_eventsub p (start HandleMessage)
  | TSubscribe p type version => on_eventsub p (subscribe type version)
  | TConnect p => on_eventsub p connect
  | TSend message => send_task message
  | TDiscord message => discord message
  end.

End Service.

(** ** Reference definitions *)

Section Spec.
Context {J : JsonApi}.

(** A badge of a chat event and its set id. *)
Definition badge_described (b : json) (id : string) : Prop :=
  ∃ fields, b = json_object fields ∧ assoc "set_id" fields = Some (json_string id).

(** [j] is a notification of the given type with the event fields [ev]; other
    fields may be present. *)
Definition notification (j : json) (type : string) (ev : list (string * json)) : Prop :=
  ∃ top md pl, j = json_object top ∧
    assoc "metadata" top = Some (json_object md) ∧
    assoc "message_type" md = Some (json_string "notification") ∧
    assoc "subscription_type" md = Some (json_string type) ∧
    assoc "payload" top = Some (json_object pl) ∧ assoc "event" pl = Some (json_object ev).

Definition describes_chat (j : json) (msg : ChatMessage) : Prop :=
  ∃ ev m bs, notification j "channel.chat.message" ev ∧
    assoc "chatter_user_name" ev = Some (json_string (user msg)) ∧
    assoc "message" ev = Some (json_object m) ∧ assoc "text" m = Some (json_string (text msg)) ∧
    assoc "color" ev = Some (json_string (color msg)) ∧
    assoc "badges" ev = Some (json_array bs) ∧ Forall2 badge_described bs (badges msg).

End Spec.

(** A status callback returns normally and does not touch the service. *)
Class StatusOk (CB St : Type) {host : ServiceHost CB St} : Prop :=
  status_ok f m s : ∃ s', call_status f m s = (Ok tt, s') ∧ svc s' = svc s ∧
    config s' = config s ∧ objects s' = objects s ∧ queue s' = queue s.

(** ** Lemmas on the message handler *)

Section HandlerLemmas.
Context {J : JsonApi} {laws : JsonLaws} {CB St : Type} {host : ServiceHost CB St}.
Implicit Types s : St.

Lemma json_path_object l k ks v :
  assoc k l = Some v → json_path (json_object l) (k :: ks) = json_path v ks.
Proof. intros Hk. simpl. by rewrite json_index_object, Hk. Qed.

Lemma json_contains_true l k v : assoc k l = Some v → json_contains (json_object l) k = true.
Proof. intros Hk. rewrite json_contains_object, Hk. by apply bool_decide_true. Qed.

Lemma json_path_nil (j : json) : json_path j [] = inr j.
Proof. done. Qed.

Lemma badge_ids_described bs ids s :
  Forall2 badge_described bs ids → badge_ids (St := St) bs s = (Ok ids, s).
Proof.
  induction 1 as [|b id bs ids (fields & -> & Hid) _ IH]; [done|].
  simpl. unfold mbind, M_bind, lift at 1. rewrite json_const_index_object, Hid.
  unfold lift_exn. rewrite json_get_string_string, IH. done.
Qed.

Lemma handle_body_notification msg j type ev s :
  json_parse msg = inr j → notification j type ev →
  handle_body msg s = match m_message_callback (svc s) with None => (Ok tt, s) | Some f =>
    (continue ← (if String.eqb type "channel.chat.message" then chat_message_block f j
                 else mret true);
     if negb continue then mret tt
     else
       (if String.eqb type "channel.ad_break.begin" then
          text ← lift_exn (json_path_string j ["payload"; "event"; "duration_seconds"]);
          call_message f (mk_ChatMessage "System" (text +:+ " second ad break beginning.")
                            "#AAAAAA" [])
        else mret tt) ;;
       (if String.eqb type "channel.chat.clear" then
          call_message f (mk_ChatMessage "System" "Chat clear requested" "#AAAAAA" [])
        else mret tt)) s end.
Proof.
  intros Hp (top & md & pl & -> & Hmd & Hmt & Hst & _).
  unfold handle_body. unfold mbind at 1, M_bind at 1, lift_exn at 1. rewrite Hp.
  rewrite (json_contains_true _ _ _ Hmd). cbn [negb].
  unfold mbind at 1, M_bind at 1, lift_exn at 1.
  rewrite (json_path_object _ _ _ _ Hmd), (json_path_object _ _ _ _ Hmt), json_path_nil.
  rewrite json_eq_string_string, bool_decide_true by done. cbn [negb].
  unfold mbind at 1, M_bind at 1, lift_exn at 1, json_path_string.
  rewrite (json_path_object _ _ _ _ Hmd), (json_path_object _ _ _ _ Hst), json_path_nil.
  unfold mbind at 1, sum_bind at 1. rewrite json_get_string_string.
  unfold mbind at 1, M_bind at 1, gets. by destruct (m_message_callback (svc s)).
Qed.

Lemma chat_message_block_described j msg f s :
  describes_chat j msg → chat_message_block f j s = (call_message f msg ;; mret true) s.
Proof.
  intros (ev & m & bs & (top & md & pl & -> & _ & _ & _ & Hpl & Hev) & Hu & Hm & Ht & Hc & Hb & Hbs).
  unfold chat_message_block, json_path_string. cbn [app].
  assert (Hpath : ∀ ks, json_path (json_object top) ("payload" :: "event" :: ks) =
    json_path (json_object ev) ks).
  { intros ks. by rewrite (json_path_object _ _ _ _ Hpl), (json_path_object _ _ _ _ Hev). }
  rewrite !Hpath. rewrite !(json_path_object _ _ _ _ Hm), !(json_path_object _ _ _ _ Hu),
    !(json_path_object _ _ _ _ Ht), !(json_path_object _ _ _ _ Hc), !(json_path_object _ _ _ _ Hb).
  rewrite !json_path_nil.
  unfold mbind at 1, M_bind at 1, lift_exn at 1.
  rewrite (json_contains_true _ _ _ Hu), (json_contains_true _ _ _ Hm). cbn [negb orb].
  unfold mbind at 1, M_bind at 1, lift_exn at 1.
  rewrite (json_contains_true _ _ _ Ht). cbn [negb].
  cbn [mbind sum_bind]. rewrite !json_get_string_string.
  unfold mbind, M_bind, lift_exn. rewrite json_items_array, (badge_ids_described _ _ _ Hbs).
  by destruct msg.
Qed.

End HandlerLemmas.

(** ** Properties of the message handler *)

Section Handler.
Context {J : JsonApi} {laws : JsonLaws} {CB St : Type} {host : ServiceHost CB St}.

Lemma handle_described msg j cm f (s : St) :
  json_parse msg = inr j → describes_chat j cm → m_message_callback (svc s) = Some f →
  handleEventSubMessage msg s = try_catch (call_message f cm) (λ _, mret tt) s.
Proof.
  intros Hp Hd Hf. pose proof Hd as (ev & _ & _ & Hn & _).
  unfold handleEventSubMessage, try_catch.
  rewrite (handle_body_notification _ _ _ _ _ Hp Hn), Hf, String.eqb_refl. cbv iota.
  unfold mbind at 1, M_bind at 1. rewrite (chat_message_block_described _ _ _ _ Hd).
  unfold mbind at 1, M_bind at 1. by destruct (call_message f cm s) as [[[]| |] s'].
Qed.

(** C13.  Chat messages: a frame that parses to a chat notification calls the message
    callback exactly once, with the user, text, colour and badge set ids of the
    notification in their order, and an exception of the callback goes no
    further. *)
Theorem handle_chat_message msg j cm f (s : St) :
  json_parse msg = inr j → describes_chat j cm → m_message_callback (svc s) = Some f →
  handleEventSubMessage msg s = try_catch (call_message f cm) (λ _, mret tt) s.
Proof. apply handle_described. Qed.

(** Ad breaks: Twitch sends the duration of an ad break as a number, which the
    handler reads as a string; the conversion throws, the exception is swallowed,
    and the notification is lost: no callback, no change of state. *)
Theorem ad_break_dropped msg j ev d f (s : St) :
  json_parse msg = inr j → notification j "channel.ad_break.begin" ev →
  assoc "duration_seconds" ev = Some (json_int d) → m_message_callback (svc s) = Some f →
  handleEventSubMessage msg s = (Ok tt, s).
Proof.
  intros Hp Hn Hd Hf. unfold handleEventSubMessage, try_catch.
  rewrite (handle_body_notification _ _ _ _ _ Hp Hn), Hf.
  destruct Hn as (top & md & pl & -> & _ & _ & _ & Hpl & Hev).
  destruct (json_get_string_int d) as (e & He).
  unfold json_path_string. rewrite (json_path_object _ _ _ _ Hpl), (json_path_object _ _ _ _ Hev),
    (json_path_object _ _ _ _ Hd), json_path_nil. cbn. by rewrite He.
Qed.

(** Other frames: a frame that is no JSON, has no "metadata", is no
    notification, or is a notification of a type other than chat messages, ad
    breaks and chat clears, returns normally and changes nothing. *)
Theorem handle_ignored msg (s : St) :
  match json_parse msg with
  | inl _ => True
  | inr j => json_contains j "metadata" = false ∨
      (∃ v, json_path j ["metadata"; "message_type"] = inr v ∧
            json_eq_string v "notification" = false) ∨
      (∃ type ev, notification j type ev ∧
        type ∉ ["channel.chat.message"; "channel.ad_break.begin"; "channel.chat.clear"])
  end →
  handleEventSubMessage msg s = (Ok tt, s).
Proof.
  intros Hc. unfold handleEventSubMessage, try_catch.
  destruct (json_parse msg) as [e|j] eqn:Hp.
  { unfold handle_body, mbind, M_bind, lift_exn. by rewrite Hp. }
  destruct Hc as [Hc|[(v & Hv & Hc)|(type & ev & Hn & Ht)]].
  - unfold handle_body, mbind, M_bind, lift_exn. by rewrite Hp, Hc.
  - unfold handle_body. unfold mbind at 1, M_bind at 1, lift_exn at 1. rewrite Hp.
    destruct (json_contains j "metadata"); [|done]. cbn [negb].
    unfold mbind at 1, M_bind at 1, lift_exn at 1. by rewrite Hv, Hc.
  - rewrite (handle_body_notification _ _ _ _ _ Hp Hn).
    destruct (m_message_callback (svc s)) as [f|]; [|done].
    rewrite !not_elem_of_cons in Ht. destruct Ht as (H1 & H2 & H3 & _).
    by apply String.eqb_neq in H1 as ->, H2 as ->, H3 as ->.
Qed.

End Handler.

(** ** Lemmas on the coroutines of the service *)

(** Read a field of the program after writes to others. *)
Ltac host_simpl := repeat first
  [ rewrite svc_set_svc | rewrite svc_set_config | rewrite svc_set_objects | rewrite svc_post
  | rewrite config_set_svc | rewrite config_set_config | rewrite config_set_objects
  | rewrite config_post | rewrite objects_set_svc | rewrite objects_set_config
  | rewrite objects_set_objects | rewrite objects_post | rewrite queue_set_svc
  | rewrite queue_set_config | rewrite queue_set_objects | rewrite queue_post ].

Section CoroutineLemmas.
Context {J : JsonApi} {CB St : Type} {host : ServiceHost CB St}.
Context {laws : ServiceHostLaws CB St} {status : StatusOk CB St}.
Implicit Types s : St.

(** [s'] differs from [s] in the service only. *)
Definition same_outside (s s' : St) : Prop :=
  config s' = config s ∧ objects s' = objects s ∧ queue s' = queue s.

Lemma same_outside_refl s : same_outside s s.
Proof. done. Qed.

Lemma same_outside_trans s1 s2 s3 : same_outside s1 s2 → same_outside s2 s3 → same_outside s1 s3.
Proof. unfold same_outside. intros (?&?&?) (?&?&?). split_and!; congruence. Qed.

Lemma same_outside_set_svc t s : same_outside s (set_svc t s).
Proof.
  unfold same_outside. by rewrite config_set_svc, objects_set_svc, queue_set_svc.
Qed.

Lemma setState_spec st msg s :
  ∃ s', setState st msg s = (Ok tt, s') ∧ svc s' = set_state st (svc s) ∧ same_outside s s'.
Proof.
  unfold setState, on_svc, mbind, M_bind, modify, gets. rewrite svc_set_svc. cbn [m_status_callback set_state].
  destruct (m_status_callback (svc s)) as [f|]; [destruct (negb (str_empty msg))|].
  - destruct (status_ok f msg (set_svc (set_state st (svc s)) s)) as (s' & -> & Hsv & Hc & Ho & Hq).
    exists s'. split; [done|]. split; [by rewrite Hsv, svc_set_svc|].
    eapply same_outside_trans; [apply same_outside_set_svc|]. by split_and!.
  - eexists; split; [done|]. split; [apply svc_set_svc|apply same_outside_set_svc].
  - eexists; split; [done|]. split; [apply svc_set_svc|apply same_outside_set_svc].
Qed.

Lemma set_auth_id (t : TwitchService CB) : set_auth (m_auth t) t = t.
Proof. by destruct t. Qed.

Lemma runs_on_auth {A} (c : coro Auth A) s ev o s' :
  runs (on_auth c) s ev o s' →
  ∃ a', runs c (m_auth (svc s)) ev o a' ∧ svc s' = set_auth a' (svc s) ∧ same_outside s s'.
Proof.
  unfold on_auth. revert s ev.
  induction c as [a|e| |k IH|a1 c IH|op k IH|k IH|k IH|n k IH]; intros s ev; simpl.
  1-3: intros (-> & -> & ->); eexists; split_and!; [done..| |done]; by rewrite set_auth_id.
  - intros Hr. by apply IH in Hr.
  - intros Hr. apply IH in Hr as (a' & Hr & Hs & Ho). rewrite svc_set_svc in *. exists a'.
    split_and!; [done|by rewrite Hs|].
    eapply same_outside_trans; [apply same_outside_set_svc|done].
  - intros (r & ev' & -> & Hr). apply IH in Hr as (a' & Hr & Hs). eauto 10.
  - intros (r & ev' & -> & Hr). apply IH in Hr as (a' & Hr & Hs). eauto 10.
  - intros (r & ev' & -> & Hr). apply IH in Hr as (a' & Hr & Hs). eauto 10.
  - intros (r & ev' & -> & Hn & Hr). apply IH in Hr as (a' & Hr & Hs). eauto 10.
Qed.

(** [s'] differs from [s] in the [EventSub] object [p] only, which is [es] now. *)
Definition object_step (p : nat) (es : EventSub eventsub_callback) (s s' : St) : Prop :=
  svc s' = svc s ∧ config s' = config s ∧ queue s' = queue s ∧ objects s' = <[p := es]> (objects s).

Lemma runs_on_eventsub {A} p (c : coro (EventSub eventsub_callback) A) s ev o s' es :
  objects s !! p = Some es → runs (on_eventsub p c) s ev o s' →
  ∃ es', runs c es ev o es' ∧ object_step p es' s s'.
Proof.
  unfold on_eventsub, object_step. revert s es ev.
  induction c as [a|e| |k IH|es1 c IH|op k IH|k IH|k IH|n k IH]; intros s es ev Hes; simpl.
  1-3: intros (-> & -> & ->); eexists; split_and!; [done..|]; by rewrite insert_id.
  - rewrite Hes. intros Hr. by apply (IH es s es).
  - rewrite Hes. intros Hr. apply (IH _ es1) in Hr as (es' & Hr & Hs & Hc & Hq & Ho);
      [|rewrite objects_set_objects; apply lookup_insert_eq].
    rewrite svc_set_objects in Hs. rewrite config_set_objects in Hc.
    rewrite queue_set_objects in Hq. rewrite objects_set_objects, insert_insert_eq in Ho. eauto 10.
  - intros (r & ev' & -> & Hr). apply (IH _ _ es) in Hr as (es' & Hr & Hs); eauto 10.
  - intros (r & ev' & -> & Hr). apply (IH _ _ es) in Hr as (es' & Hr & Hs); eauto 10.
  - intros (r & ev' & -> & Hr). apply (IH _ _ es) in Hr as (es' & Hr & Hs); eauto 10.
  - intros (r & ev' & -> & Hn & Hr). apply (IH _ _ es) in Hr as (es' & Hr & Hs); eauto 10.
Qed.

Lemma runs_sync {A} (m : M St A) s ev o s' :
  runs (co_sync m) s ev o s' → ev = [] ∧ m s = (o, s').
Proof.
  unfold co_sync. simpl. destruct (m s) as [[a|e|] s1]; simpl; by intros (-> & -> & ->).
Qed.

Lemma runs_setState st msg s ev o s' :
  runs (co_sync (setState st msg)) s ev o s' →
  ev = [] ∧ o = Ok tt ∧ svc s' = set_state st (svc s) ∧ same_outside s s'.
Proof.
  intros Hr. apply runs_sync in Hr as (-> & Hr).
  destruct (setState_spec st msg s) as (s1 & Hs & ?). rewrite Hr in Hs.
  injection Hs as -> ->. done.
Qed.

Lemma runs_fetchUserInfo a ev o a' :
  runs fetchUserInfoAsync a ev o a' →
  a' = a ∧ o ≠ Undefined ∧
  ∀ ui, o = Ok ui → ∃ r text j, EvHttpRead (inr r) ∈ ev ∧ http_text r = Some text ∧
    json_parse text = inr j ∧ parseTwitchUser j = inr ui.
Proof.
  unfold fetchUserInfoAsync. intros Hr. runs_steps.
  match goal with H : runs (getHttpAsync _) _ _ _ _ |- _ =>
    apply runs_getHttp in H as (-> & _ & _ & Ho) end.
  destruct x as [text|e|]; [|runs_steps; by split_and!|done].
  destruct Ho as (r & Hin & Ht). runs_steps; split_and!; try done.
  intros ui [= <-]. do 3 eexists. split_and!; [|done..]. simpl. rewrite ?app_nil_r. done.
Qed.

End CoroutineLemmas.

(** ** Properties of the coroutines *)

Section Coroutines.
Context {J : JsonApi} {CB St : Type} {host : ServiceHost CB St}.
Context {laws : ServiceHostLaws CB St} {status : StatusOk CB St}.

(** The result of a login coroutine that succeeded: everything the service keeps
    comes from responses received in [ev]. *)
Definition login_succeeded (ev : list io_event) (s s' : St) : Prop :=
  m_state (svc s') = LoggedIn ∧ tokens_received ev (m_auth (svc s')) ∧
  ∃ r text j ui, EvHttpRead (inr r) ∈ ev ∧ http_text r = Some text ∧ json_parse text = inr j ∧
    parseTwitchUser j = inr ui ∧ m_current_user (svc s') = ui_display_name ui ∧
    config s' = mk_ClientConfig (cfg_host (config s)) (cfg_port (config s))
      (helix_host (config s)) (helix_port (config s)) (m_client_id (m_auth (svc s')))
      (m_access_token (m_auth (svc s'))) (ui_id ui).

Lemma login_done_spec ui s :
  ∃ s', login_done ui s = (Ok tt, s') ∧
    svc s' = set_state LoggedIn (set_current_user (ui_display_name ui) (svc s)) ∧
    objects s' = objects s ∧ queue s' = queue s ∧
    config s' = mk_ClientConfig (cfg_host (config s)) (cfg_port (config s))
      (helix_host (config s)) (helix_port (config s)) (m_client_id (m_auth (svc s)))
      (m_access_token (m_auth (svc s))) (ui_id ui).
Proof.
  unfold login_done, on_svc, mbind, M_bind, modify, gets.
  rewrite svc_set_config, svc_set_svc, config_set_svc. unfold clientId, accessToken.
  match goal with |- context [setState LoggedIn ?m ?x] =>
    destruct (setState_spec LoggedIn m x) as (s' & -> & Hs & Hc & Ho & Hq) end.
  rewrite svc_set_config, svc_set_svc in Hs. rewrite config_set_config in Hc.
  rewrite objects_set_config, objects_set_svc in Ho. rewrite queue_set_config, queue_set_svc in Hq.
  eauto 10.
Qed.

(** The [try] block of the login coroutine. *)
Lemma runs_login_body ev s o s1 :
  runs (on_auth loginAsync ;; user_info ← on_auth fetchUserInfoAsync;
        co_sync (login_done user_info)) s ev o s1 →
  objects s1 = objects s ∧ queue s1 = queue s ∧ m_eventsub (svc s1) = m_eventsub (svc s) ∧
  m_chat_send (svc s1) = m_chat_send (svc s) ∧
  ((o = Ok tt ∧ login_succeeded ev s s1) ∨ (∃ e, o = Throw e ∧ config s1 = config s)).
Proof.
  intros Hr. apply runs_bind in Hr as (o1 & s2 & ev1 & ev2 & -> & Hr & Hx).
  apply runs_on_auth in Hr as (a1 & Hr & Hs2 & Hc2 & Ho2 & Hq2).
  apply runs_login in Hr as (_ & _ & Hu & Ht).
  destruct o1 as [[]|e|]; [|destruct Hx as (-> & -> & ->); rewrite Hs2; eauto 10|done].
  apply runs_bind in Hx as (o3 & s3 & ev3 & ev4 & -> & Hr & Hx).
  apply runs_on_auth in Hr as (a2 & Hr & Hs3 & Hc3 & Ho3 & Hq3).
  apply runs_fetchUserInfo in Hr as (-> & Hu3 & Hui). rewrite Hs2 in *. cbn [m_auth set_auth] in *.
  destruct o3 as [ui|e|]; [|destruct Hx as (-> & -> & ->); rewrite Hs3, Ho3, Hq3, Hc3; eauto 10|done].
  apply runs_sync in Hx as (-> & Hx).
  destruct (login_done_spec ui s3) as (s4 & Hd & Hs4 & Ho4 & Hq4 & Hc4).
  rewrite Hx in Hd. injection Hd as -> ->. rewrite Ho4, Ho3, Hq4, Hq3, Hs4, Hs3.
  split_and!; try done. left. split; [done|].
  destruct (Ht eq_refl) as (r1 & text1 & j1 & Hin1 & Hj1).
  destruct (Hui ui eq_refl) as (r & text & j & Hin & Hj).
  unfold login_succeeded. rewrite Hs4, Hs3. split_and!; try done.
  - exists r1, text1, j1. split; [|done]. rewrite elem_of_app. by left.
  - exists r, text, j, ui. rewrite app_nil_r. split; [rewrite elem_of_app; by right|].
    destruct Hj as (? & ? & ?). split_and!; try done. rewrite Hc4, Hc3, Hc2, Hs3. done.
Qed.

(** C12.  Logging in: the login coroutine ends normally whatever the network answers,
    in state LoggedIn or Error.  In LoggedIn the configuration holds the client
    id, the access token received and the id of the user record received; in
    Error the configuration is unchanged.  The chat objects, the heap and the
    queue are untouched. *)
Theorem login_task_outcome {env : Environment} (s : St) h :
  let '(o, s', h') := exec login_task s h in
  o = Ok tt ∧ objects s' = objects s ∧ queue s' = queue s ∧
  m_eventsub (svc s') = m_eventsub (svc s) ∧ m_chat_send (svc s') = m_chat_send (svc s) ∧
  ((∃ ev, h' = h ++ ev ∧ login_succeeded ev s s') ∨
   (m_state (svc s') = Error ∧ config s' = config s)).
Proof.
  destruct (exec login_task s h) as [[o s'] h'] eqn:Hx. apply exec_runs in Hx as (ev & -> & Hr).
  apply runs_catch in Hr as [[Hr Ht]|(e & s1 & ev1 & ev2 & -> & Hr & _ & Hg)].
  - apply runs_login_body in Hr as (Ho & Hq & He & Hc & [[-> Hl]|(e & -> & _)]); [by eauto 10|].
    by specialize (Ht e eq_refl).
  - apply runs_login_body in Hr as (Ho & Hq & He & Hc & [[? _]|(e' & _ & Hcfg)]); [done|].
    apply runs_setState in Hg as (-> & -> & Hs & Hc' & Ho' & Hq').
    rewrite Ho', Hq', Hc', Hs. split_and!; try done. by right.
Qed.

Lemma setupChatServices_spec s :
  let p := fresh (dom (objects s)) in
  ∃ s', setupChatServices s = (Ok tt, s') ∧ objects s' = {[p := new_EventSub (config s)]} ∧
    svc s' = set_services (Some p) (Some p) (Some (mk_Send (config s))) (svc s) ∧
    config s' = config s ∧ queue s' = queue s.
Proof.
  intros p. unfold setupChatServices, modify, collect. eexists; split; [done|].
  host_simpl.
  split_and!; try done. apply map_eq. intros q. rewrite map_lookup_filter.
  cbn [m_eventsub m_chat_read set_services]. fold p.
  destruct (decide (p = q)) as [<-|Hn].
  - rewrite lookup_insert_eq, lookup_singleton_eq. simpl. rewrite option_guard_True; auto.
  - rewrite lookup_insert_ne, lookup_singleton_ne by done.
    destruct (objects s !! q); simpl; [|done]. rewrite option_guard_False; [done|].
    intros [[= ?]|[= ?]]; done.
Qed.

Lemma runs_eventsub_ptr p s ev o s' :
  m_eventsub (svc s) = Some p → runs eventsub_ptr s ev o s' → ev = [] ∧ o = Ok p ∧ s' = s.
Proof. intros Hp. unfold eventsub_ptr. simpl. by rewrite Hp. Qed.

Lemma runs_chat_read_ptr p s ev o s' :
  m_chat_read (svc s) = Some p → runs chat_read_ptr s ev o s' → ev = [] ∧ o = Ok p ∧ s' = s.
Proof. intros Hp. unfold chat_read_ptr. simpl. by rewrite Hp. Qed.

(** The program with [ts] posted to its queue. *)
Definition posted (ts : list task) (s s' : St) : Prop :=
  svc s' = svc s ∧ config s' = config s ∧ objects s' = objects s ∧ queue s' = queue s ++ ts.

Lemma posted_trans ts1 ts2 s1 s2 s3 :
  posted ts1 s1 s2 → posted ts2 s2 s3 → posted (ts1 ++ ts2) s1 s3.
Proof.
  unfold posted. intros (-> & -> & -> & Hq1) (-> & -> & -> & ->). by rewrite Hq1, app_assoc.
Qed.

Lemma runs_post t s ev o s' :
  runs (co_modify (post t)) s ev o s' → ev = [] ∧ o = Ok tt ∧ posted [t] s s'.
Proof.
  intros (-> & -> & ->). unfold posted. by rewrite svc_post, config_post, objects_post, queue_post.
Qed.

(** A sequence of [co_spawn(..., m_eventsub->subscribe(...), detached)]. *)
Lemma runs_spawn_subscribe {A} p type version (c : coro St A) s ev o s' :
  m_eventsub (svc s) = Some p → runs (spawn_subscribe type version ;; c) s ev o s' →
  ∃ s1, posted [TSubscribe p type version] s s1 ∧ runs c s1 ev o s'.
Proof.
  intros Hp Hr. apply runs_bind in Hr as (o1 & s1 & ev1 & ev2 & -> & Hr & Hx).
  apply runs_bind in Hr as (o2 & s2 & ev3 & ev4 & -> & Hr & Hy).
  apply (runs_eventsub_ptr p) in Hr as (-> & -> & ->); [|done].
  apply runs_post in Hy as (-> & -> & Hpost). eauto.
Qed.

Definition subscriptions (p : nat) : list task :=
  map (λ '(type, version), TSubscribe p type version)
    [("channel.update", "2"); ("channel.ad_break.begin", "1"); ("channel.chat.clear", "1");
     ("channel.chat.clear_user_messages", "1"); ("channel.chat.message_delete", "1");
     ("channel.chat.notification", "1"); ("stream.online", "1")].

Lemma runs_subscriptions {A} p (c : coro St A) s ev o s' :
  m_eventsub (svc s) = Some p →
  runs (spawn_subscribe "channel.update" "2" ;;
        spawn_subscribe "channel.ad_break.begin" "1" ;;
        spawn_subscribe "channel.chat.clear" "1" ;;
        spawn_subscribe "channel.chat.clear_user_messages" "1" ;;
        spawn_subscribe "channel.chat.message_delete" "1" ;;
        spawn_subscribe "channel.chat.notification" "1" ;;
        spawn_subscribe "stream.online" "1" ;; c) s ev o s' →
  ∃ s1, posted (subscriptions p) s s1 ∧ runs c s1 ev o s'.
Proof.
  intros Hp Hr.
  do 7 (apply (runs_spawn_subscribe p) in Hr as (? & ? & Hr);
        [|repeat match goal with H : posted _ _ ?x |- context [svc ?x] =>
            rewrite (proj1 H); clear H end; done]).
  eexists; split; [|exact Hr]. unfold subscriptions. cbn [map].
  repeat match goal with
  | H : posted _ ?x ?y |- posted [_] ?x ?y => exact H
  | H : posted [?t] ?x ?y |- posted (?t :: ?ts) ?x ?z =>
      apply (posted_trans [t] ts x y z H); clear H
  end.
Qed.

(** What [connect] of the [EventSub] object leaves. *)
Lemma runs_connect (es : EventSub eventsub_callback) ev o es' :
  runs connect es ev o es' →
  m_cfg es' = m_cfg es ∧ o ≠ Undefined ∧ (o = Ok tt → m_wss es' = Some WsOpen).
Proof.
  unfold connect. intros Hr. apply runs_rethrow in Hr. net_steps; by split_and!.
Qed.

Lemma runs_subscribe type version (es : EventSub eventsub_callback) ev o es' :
  runs (subscribe type version) es ev o es' → es' = es ∧ o ≠ Undefined.
Proof.
  intros Hr. apply runs_rethrow in Hr. runs_steps; [done|].
  match goal with H : runs (co_catch _ _ _) _ _ _ _ |- _ => apply runs_rethrow in H end.
  runs_steps.
  match goal with H : runs (httpsPostAsync _ _ _ _ _) _ _ _ _ |- _ =>
    apply runs_httpsPost in H as (-> & _ & [(res & r & -> & ->)|(e & -> & Hq)]) end;
    runs_steps; try done.
  match goal with H : runs (if ?b then _ else _) _ _ _ _ |- _ => destruct b end; by runs_steps.
Qed.

(** A connection made: the objects, the state and the tasks posted. *)
Definition connected (s s' : St) : Prop :=
  ∃ p es, m_state (svc s') = ChatConnected ∧ m_eventsub (svc s') = Some p ∧
    m_chat_read (svc s') = Some p ∧ m_chat_send (svc s') = Some (mk_Send (config s)) ∧
    objects s' = {[p := es]} ∧ m_wss es = Some WsOpen ∧ m_cfg es = config s ∧
    queue s' = queue s ++ [TDoRead; TStart p] ++ subscriptions p.

(** The [try] block of [connectToChat]. *)
Lemma runs_connect_body s ev o s' :
  runs (co_sync setupChatServices ;;
        p ← eventsub_ptr;
        on_eventsub p connect ;;
        co_modify (post TDoRead) ;;
        p ← eventsub_ptr;
        co_modify (post (TStart p)) ;;
        await (IoTimer 500) ;;
        r ← chat_read_ptr;
        on_eventsub r requestSubscription ;;
        spawn_subscribe "channel.update" "2" ;;
        spawn_subscribe "channel.ad_break.begin" "1" ;;
        spawn_subscribe "channel.chat.clear" "1" ;;
        spawn_subscribe "channel.chat.clear_user_messages" "1" ;;
        spawn_subscribe "channel.chat.message_delete" "1" ;;
        spawn_subscribe "channel.chat.notification" "1" ;;
        spawn_subscribe "stream.online" "1" ;;
        co_sync (setState ChatConnected "Connected to chat")) s ev o s' →
  config s' = config s ∧ ((o = Ok tt ∧ connected s s') ∨ ∃ e, o = Throw e).
Proof.
  set (p := fresh (dom (objects s))).
  destruct (setupChatServices_spec s) as (s1 & Hset & Ho1 & Hs1 & Hc1 & Hq1). fold p in Ho1, Hs1.
  intros Hr. apply runs_bind in Hr as (? & ? & ? & ? & -> & Hr & Hx).
  apply runs_sync in Hr as (-> & Hr). rewrite Hset in Hr. injection Hr as <- <-.
  apply runs_bind in Hx as (? & ? & ? & ? & -> & Hr & Hx).
  apply (runs_eventsub_ptr p) in Hr as (-> & -> & ->); [|by rewrite Hs1].
  apply runs_bind in Hx as (o2 & s2 & ? & ? & -> & Hr & Hx).
  apply (runs_on_eventsub p _ _ _ _ _ (new_EventSub (config s))) in Hr
    as (es & Hr & Hs2 & Hc2 & Hq2 & Ho2); [|by rewrite Ho1, lookup_singleton_eq].
  apply runs_connect in Hr as (Hcfg & Hu & Hw).
  rewrite Ho1, insert_singleton_eq in Ho2.
  destruct o2 as [[]|e|]; [|destruct Hx as (-> & -> & ->); split; [congruence|eauto]|done].
  specialize (Hw eq_refl).
  apply runs_bind in Hx as (? & s3 & ? & ? & -> & Hr & Hx).
  apply runs_post in Hr as (-> & -> & Hp3).
  assert (Hes3 : m_eventsub (svc s3) = Some p) by (by rewrite (proj1 Hp3), Hs2, Hs1).
  apply runs_bind in Hx as (? & ? & ? & ? & -> & Hr & Hx).
  apply (runs_eventsub_ptr p) in Hr as (-> & -> & ->); [|done].
  apply runs_bind in Hx as (? & s4 & ? & ? & -> & Hr & Hx).
  apply runs_post in Hr as (-> & -> & Hp4).
  pose proof (posted_trans _ _ _ _ _ Hp3 Hp4) as (Hs4 & Hc4 & Ho4 & Hq4). clear Hp3 Hp4.
  apply runs_bind in Hx as (? & ? & ? & ? & -> & Hr & Hx).
  apply runs_await in Hr as (-> & [(-> & ->)|(e & -> & ->)]);
    [|destruct Hx as (-> & -> & ->); split; [congruence|eauto]].
  apply runs_bind in Hx as (? & ? & ? & ? & -> & Hr & Hx).
  apply (runs_chat_read_ptr p) in Hr as (-> & -> & ->); [|by rewrite Hs4, Hs2, Hs1].
  apply runs_bind in Hx as (o5 & s5 & ? & ? & -> & Hr & Hx).
  apply (runs_on_eventsub p _ _ _ _ _ es) in Hr as (es' & Hr & Hs5 & Hc5 & Hq5 & Ho5);
    [|by rewrite Ho4, Ho2, lookup_singleton_eq].
  apply runs_subscribe in Hr as (-> & Hu5).
  destruct o5 as [[]|e|]; [|destruct Hx as (-> & -> & ->); split; [congruence|eauto]|done].
  apply (runs_subscriptions p) in Hx as (s6 & (Hs6 & Hc6 & Ho6 & Hq6) & Hx);
    [|by rewrite Hs5, Hs4, Hs2, Hs1].
  apply runs_setState in Hx as (-> & -> & Hs7 & Hc7 & Ho7 & Hq7).
  split; [congruence|]. left. split; [done|]. exists p, es.
  rewrite Hs7, Hs6, Hs5, Hs4, Hs2, Hs1, Ho7, Ho6, Ho5, Ho4, Ho2, insert_singleton_eq.
  rewrite Hq7, Hq6, Hq5, Hq4, Hq2, Hq1, <- app_assoc. by split_and!.
Qed.

(** C11.  Connecting to chat: outside of LoggedIn, [connectToChat] does nothing.  In
    LoggedIn it ends normally whatever the network answers, in ChatConnected or
    Error, with the configuration unchanged.  In ChatConnected the service owns
    one open [EventSub] object made from the configuration, shared with [Read],
    every other object is gone, and the read loop, the callback and exactly the
    seven further subscriptions have been posted, in this order. *)
Theorem connectToChat_outcome {env : Environment} (s : St) h :
  let '(o, s', h') := exec connectToChat s h in
  o = Ok tt ∧ config s' = config s ∧
  (m_state (svc s) ≠ LoggedIn → s' = s ∧ h' = h) ∧
  (m_state (svc s) = LoggedIn → connected s s' ∨ m_state (svc s') = Error).
Proof.
  destruct (exec connectToChat s h) as [[o s'] h'] eqn:Hx. apply exec_runs in Hx as (ev & -> & Hr).
  unfold connectToChat in Hr. runs_steps.
  match goal with H : runs (if bool_decide ?P then _ else _) _ _ _ _ |- _ =>
    destruct (bool_decide P) eqn:Hst end.
  { apply bool_decide_eq_true_1 in Hst. runs_steps. simpl. rewrite app_nil_r. by split_and!. }
  apply bool_decide_eq_false_1, dec_stable in Hst. runs_steps.
  match goal with H : runs (co_sync (setState _ _)) _ _ _ _ |- _ =>
    apply runs_setState in H as (-> & -> & Hs1 & Hc1 & Ho1 & Hq1) end.
  match goal with H : runs (co_catch _ _ _) _ _ _ _ |- _ =>
    apply runs_catch in H as [[Hr Ht]|(e & s2 & ev1 & ev2 & -> & Hr & _ & Hg)] end;
    apply runs_connect_body in Hr as (Hc & Hcases).
  - destruct Hcases as [(-> & p & es & Hcon)|(e & ->)]; [|by specialize (Ht e eq_refl)].
    split_and!; [done|congruence|done|]. intros _. left. exists p, es.
    rewrite Hc1, Hq1 in Hcon. exact Hcon.
  - apply runs_setState in Hg as (-> & -> & Hs & Hcf & _). rewrite Hs.
    split_and!; [done|congruence|done|]. by right.
Qed.

End Coroutines.
