(* ===== verification/Discord.v ===== *)
(** * Discord notifications

    Models [Notifications] of [include/seraphbot/discord/notifications.hpp] and
    [src/discord/notifications.cpp].  The variables of [sendMessage] that survive
    an exception in the middle of its [try] block are the state [Locals]. *)

From S2P Require Import Prelude Cxx CalTime Coro Json Net.

Record Notifications := mk_Notifications { m_webhook_url : string }.

Definition getWebhookUrl (n : Notifications) : string := m_webhook_url n.
Definition setWebhookUrl (url : string) (n : Notifications) : Notifications := mk_Notifications url.

Record Locals := mk_Locals {
  stream_title : string;
  game_name : string;
  thumbnail_url : string;
  game_thumbnail : string;
}.

Definition default_Locals : Locals := mk_Locals "Stream Notification" "Just Chatting" "" "".

Definition set_title (v : string) (l : Locals) : Locals :=
  mk_Locals v (game_name l) (thumbnail_url l) (game_thumbnail l).
Definition set_game (v : string) (l : Locals) : Locals :=
  mk_Locals (stream_title l) v (thumbnail_url l) (game_thumbnail l).
Definition set_thumbnail (v : string) (l : Locals) : Locals :=
  mk_Locals (stream_title l) (game_name l) v (game_thumbnail l).
Definition set_game_thumbnail (v : string) (l : Locals) : Locals :=
  mk_Locals (stream_title l) (game_name l) (thumbnail_url l) v.

(** [std::regex_replace] of the two placeholders of a Twitch image URL. *)
Definition fill_size (url width height : string) : string :=
  replace_all "{height}" height (replace_all "{width}" width url).

(** [getIsoTimestamp]: [now] is the system clock in seconds. *)
Definition getIsoTimestamp (now : Z) : string := put_time (gmtime now).

(** Local variables of a coroutine: they start as [l] and go away when it ends. *)
Fixpoint co_local {L St A} (l : L) (c : coro (L * St) A) : coro St A :=
  match c with
  | co_return a => co_return a
  | co_throw e => co_throw e
  | co_undefined u => co_undefined u
  | co_get k => co_get (λ s, co_local l (k (l, s)))
  | co_put ls c' => co_put (snd ls) (co_local (fst ls) c')
  | co_do op k => co_do op (λ r, co_local l (k r))
  | co_http_read k => co_http_read (λ r, co_local l (k r))
  | co_ws_read k => co_ws_read (λ r, co_local l (k r))
  | co_random n k => co_random n (λ r, co_local l (k r))
  end.

Class DiscordHost (St : Type) := {
  notifications : St → Notifications;
  set_notifications : Notifications → St → St;
  discord_cfg : St → ClientConfig;                   (* [m_cfg] *)
  system_now : St → Z;                               (* [system_clock::now()], seconds *)
}.

Section Discord.
Context {J : JsonApi} {St : Type} {host : DiscordHost St}.

Definition local {A} (f : Locals → A) : coro (Locals * St) A := co_gets (λ ls, f (fst ls)).
Definition assign (f : Locals → Locals) : coro (Locals * St) unit :=
  co_modify (λ ls, (f (fst ls), snd ls)).
Definition cfg : coro (Locals * St) ClientConfig := co_gets (λ ls, discord_cfg (snd ls)).

(** [j.contains("data") || !j["data"].empty()] *)
Definition has_data (j : json) : coro (Locals * St) bool :=
  if json_contains j "data" then mret true
  else d ← co_lift (json_index j "data"); mret (negb (json_empty d)).

(** [j["data"][0]] *)
Definition first_data (j : json) : coro (Locals * St) json :=
  d ← co_lift (json_index j "data"); co_lift (json_nth d 0).

(** The inner [try] block: the box art of the game. *)
Definition game_block (url_games : string) (headers : list (string * string))
    : coro (Locals * St) unit :=
  c ← cfg;
  game_response ← httpsGetAsync (helix_host c) (helix_port c) url_games headers;
  games ← co_lift (json_parse game_response);
  _ ← co_lift (json_dump games);
  b ← has_data games;
  if b : bool then
    game_data ← first_data games;
    art ← co_lift (json_value_string game_data "box_art_url" "");
    assign (set_game_thumbnail art) ;;
    if negb (str_empty art) then assign (set_game_thumbnail (fill_size art "285" "380"))
    else mret tt
  else mret tt.

(** The outer [try] block: title, game and thumbnail of the stream. *)
Definition stream_block (url : string) (headers : list (string * string))
    : coro (Locals * St) unit :=
  c ← cfg;
  response ← httpsGetAsync (helix_host c) (helix_port c) url headers;
  info ← co_lift (json_parse response);
  _ ← co_lift (json_dump info);
  b ← has_data info;
  if b : bool then
    data ← first_data info;
    title ← co_lift (json_value_string data "title" "Live Stream");
    assign (set_title title) ;;
    game ← co_lift (json_value_string data "game_name" "Just Chatting");
    assign (set_game game) ;;
    thumb ← co_lift (json_value_string data "thumbnail_url" "");
    assign (set_thumbnail thumb) ;;
    (if negb (str_empty thumb) then assign (set_thumbnail (fill_size thumb "1920" "1080"))
     else mret tt) ;;
    (if json_contains data "game_id" then
       g ← co_lift (json_index data "game_id");
       id ← co_lift (json_get_string g);
       if negb (str_empty id) then
         g ← co_lift (json_at data "game_id");
         id ← co_lift (json_get_string g);
         co_catch any_exception (λ _, mret tt) (game_block ("/helix/games?id=" +:+ id) headers)
       else mret tt
     else mret tt)
  else mret tt.

Definition embed_json (l : Locals) (twitch_url timestamp : string) : json :=
  let embed := json_object
    [("title", json_string "🔴 Stream is live!"); ("type", json_string "rich");
     ("url", json_string twitch_url); ("description", json_string (stream_title l));
     ("color", json_int 9442302); ("timestamp", json_string timestamp);
     ("footer", json_object [("text", json_string "Sent by SeraphBot")]);
     ("fields", json_array [json_object [("name", json_string "Game");
        ("value", json_string (game_name l)); ("inline", json_bool true)]])] in
  let embed := if negb (str_empty (thumbnail_url l))
    then json_set embed "image" (json_object [("url", json_string (thumbnail_url l))])
    else embed in
  if negb (str_empty (game_thumbnail l))
  then json_set embed "thumbnail" (json_object [("url", json_string (game_thumbnail l))])
  else embed.

Definition payload_json (message : string) (embed : json) : json :=
  json_object [("content", json_string ("<@&1267602696706199703> " +:+ message));
               ("embeds", json_array [embed])].

Definition send_body (message : string) : coro (Locals * St) unit :=
  c ← cfg;
  let url := "/helix/streams?user_id=" +:+ broadcaster_id c +:+ "&type=all" in
  let token := stripOauthPrefix (access_token c) in
  let headers := [("Client-Id", client_id c); ("Authorization", "Bearer " +:+ token)] in
  let twitch_url := "https://www.twitch.tv/" +:+
    (if str_empty (broadcaster_id c) then "channel_name" else broadcaster_id c) in
  co_catch any_exception (λ _, mret tt) (stream_block url headers) ;;
  l ← local id;
  now ← co_gets (λ ls, system_now (snd ls));
  let payload := payload_json message (embed_json l twitch_url (getIsoTimestamp now)) in
  _ ← co_lift (json_dump payload);
  co_catch any_exception (λ _, mret tt)
    (hook ← co_gets (λ ls, m_webhook_url (notifications (snd ls)));
     body ← co_lift (json_dump payload);
     _ ← httpsPostAsync "discord.com" "443" hook body [];
     mret tt).

Definition sendMessage (message : string) : coro St unit :=
  co_local default_Locals (send_body message).

End Discord.

(** ** Lemmas *)

Lemma runs_local {L St A} (l : L) (c : coro (L * St) A) s ev o s' :
  runs (co_local l c) s ev o s' → ∃ l', runs c (l, s) ev o (l', s').
Proof.
  revert l s ev. induction c as [a|e| |k IH|[l1 s1] c IH|op k IH|k IH|k IH|n k IH]; intros l s ev; simpl.
  1-3: intros (-> & -> & ->); by eexists.
  - apply IH.
  - apply IH.
  - intros (r & ev' & -> & Hr). apply IH in Hr as (l' & Hr). eauto 10.
  - intros (r & ev' & -> & Hr). apply IH in Hr as (l' & Hr). eauto 10.
  - intros (r & ev' & -> & Hr). apply IH in Hr as (l' & Hr). eauto 10.
  - intros (r & ev' & -> & Hn & Hr). apply IH in Hr as (l' & Hr). eauto 10.
Qed.

Lemma exec_local {env : Environment} {L St A} (l : L) (c : coro (L * St) A) s h :
  exec (co_local l c) s h = let '(o, ls, h') := exec c (l, s) h in (o, snd ls, h').
Proof. revert l s h. induction c as [| | |? IH|[]| | | |]; intros; simpl; auto. Qed.

(** A stretch that only writes up to [n] GET requests and keeps the program state. *)
Definition reads_only {St} (n : nat) (s s' : St) (ev : list io_event) : Prop :=
  s' = s ∧ (length (requests_of ev) ≤ n)%nat ∧
  Forall (λ r, req_verb r = verb_get) (requests_of ev).

Section DiscordLemmas.
Context {J : JsonApi} {St : Type} {host : DiscordHost St}.

(** Every run of [c] is such a stretch and is defined. *)
Definition reads {A} (n : nat) (c : coro (Locals * St) A) : Prop :=
  ∀ ls ev o ls', runs c ls ev o ls' → o ≠ Undefined ∧ reads_only n (snd ls) (snd ls') ev.

Lemma reads_only_app {S} n1 n2 (s1 s2 s3 : S) ev1 ev2 :
  reads_only n1 s1 s2 ev1 → reads_only n2 s2 s3 ev2 → reads_only (n1 + n2) s1 s3 (ev1 ++ ev2).
Proof.
  unfold reads_only. rewrite requests_of_app, length_app, Forall_app.
  intros (-> & ? & ?) (-> & ? & ?). split_and!; auto. lia.
Qed.

Lemma reads_only_nil {S} n (s : S) : reads_only n s s [].
Proof. unfold reads_only; simpl. split_and!; auto; lia. Qed.

Lemma reads_only_more {S} n m (s s' : S) ev :
  (n ≤ m)%nat → reads_only n s s' ev → reads_only m s s' ev.
Proof. unfold reads_only. intros ? (? & ? & ?). split_and!; auto. lia. Qed.

Lemma reads_bind {A B} n m (c : coro (Locals * St) A) (f : A → coro (Locals * St) B) :
  reads n c → (∀ a, reads m (f a)) → reads (n + m) (c ≫= f).
Proof.
  intros Hc Hf ls ev o ls' Hr. apply runs_bind in Hr as (o1 & ls1 & ev1 & ev2 & -> & Hr & Hx).
  apply Hc in Hr as (Hu & Hr). destruct o1 as [a|e|]; [| |done].
  - apply Hf in Hx as (Hu2 & Hx). split; [done|]. by eapply reads_only_app.
  - destruct Hx as (-> & -> & ->). split; [done|]. rewrite app_nil_r.
    eapply reads_only_more; [|done]. lia.
Qed.

Lemma reads_catch {A} n (c : coro (Locals * St) A) (a : A) :
  reads n c → reads n (co_catch any_exception (λ _, mret a) c).
Proof.
  intros Hc ls ev o ls' Hr.
  apply runs_catch in Hr as [[Hr _]|(e & ls1 & ev1 & ev2 & -> & Hr & _ & Hg)]; [by apply Hc in Hr|].
  apply Hc in Hr as (_ & Hr). destruct Hg as (-> & -> & ->). by rewrite app_nil_r.
Qed.

Lemma reads_httpsGet host_name port target headers :
  reads 1 (httpsGetAsync host_name port target headers).
Proof.
  intros ls ev o ls' Hr. apply runs_httpsGet in Hr as (-> & _ & [(res & r & -> & ->)|(e & -> & Hq)]).
  - split; [done|]. unfold reads_only; simpl. split_and!; auto; by repeat constructor.
  - split; [done|]. unfold reads_only. destruct Hq as [-> | ->]; simpl; split_and!; auto;
      by repeat constructor.
Qed.

Lemma reads_ret {A} (a : A) : reads 0 (mret a).
Proof. intros ls ev o ls' (-> & -> & ->). split; [done|apply reads_only_nil]. Qed.
Lemma reads_lift {A} (r : exn + A) : reads 0 (co_lift r).
Proof. destruct r; intros ls ev o ls' (-> & -> & ->); (split; [done|apply reads_only_nil]). Qed.
Lemma reads_assign f : reads 0 (assign f).
Proof. intros ls ev o ls' (-> & -> & ->). split; [done|apply reads_only_nil]. Qed.
Lemma reads_cfg : reads 0 cfg.
Proof. intros ls ev o ls' (-> & -> & ->). split; [done|apply reads_only_nil]. Qed.

Lemma reads_more {A} n m (c : coro (Locals * St) A) : (n ≤ m)%nat → reads n c → reads m c.
Proof.
  intros Hn Hc ls ev o ls' Hr. apply Hc in Hr as (? & ?). split; [done|].
  by eapply reads_only_more.
Qed.

End DiscordLemmas.

Create HintDb discord.
#[export] Hint Resolve reads_ret reads_lift reads_assign reads_cfg reads_httpsGet reads_catch
  : discord.

(** Split a block into its calls; [n] requests go to the first part of a sequence. *)
Ltac reads_auto := repeat match goal with
  | |- reads _ (if ?b then _ else _) => destruct b
  | |- reads ?n (httpsGetAsync _ _ _ _ ≫= _) => apply (reads_bind 1 (pred n)); [|intros ?]
  | |- reads ?n (_ ≫= _) => apply (reads_bind 0 n); [|intros ?]
  | |- reads _ _ => solve [auto with discord | eapply (reads_more 0); [lia|auto with discord]]
  end; simpl pred.

Section DiscordBlocks.
Context {J : JsonApi} {St : Type} {host : DiscordHost St}.

Lemma reads_has_data j : reads (St := St) 0 (has_data j).
Proof. unfold has_data. reads_auto. Qed.
Lemma reads_first_data j : reads (St := St) 0 (first_data j).
Proof. unfold first_data. reads_auto. Qed.
#[local] Hint Resolve reads_has_data reads_first_data : discord.

Lemma reads_game_block url headers : reads (St := St) 1 (game_block url headers).
Proof. unfold game_block. reads_auto. Qed.
#[local] Hint Resolve reads_game_block : discord.

Lemma reads_stream_block url headers : reads (St := St) 2 (stream_block url headers).
Proof. unfold stream_block. reads_auto. Qed.

End DiscordBlocks.

(** ** Properties *)

Section Properties.
Context {J : JsonApi} {St : Type} {host : DiscordHost St}.

Definition channel_url (c : ClientConfig) : string :=
  "https://www.twitch.tv/" +:+
    (if str_empty (broadcaster_id c) then "channel_name" else broadcaster_id c).

(** The notification for the values [l], sent from the program state [s]. *)
Definition notification_json (message : string) (l : Locals) (s : St) : json :=
  payload_json message (embed_json l (channel_url (discord_cfg s)) (getIsoTimestamp (system_now s))).

Definition webhook_post (s : St) (body : string) : http_request :=
  post_request "discord.com" (m_webhook_url (notifications s)) body [].

Lemma runs_post_block d body l (s : St) ev o ls' :
  d = inr body →
  runs (co_catch any_exception (λ _, mret tt)
    (hook ← co_gets (λ ls : Locals * St, m_webhook_url (notifications (snd ls)));
     body ← co_lift d;
     _ ← httpsPostAsync "discord.com" "443" hook body [];
     mret tt)) (l, s) ev o ls' →
  o = Ok tt ∧ ls' = (l, s) ∧ (requests_of ev = [] ∨ requests_of ev = [webhook_post s body]).
Proof.
  intros -> Hr.
  assert (Hb : ∀ ev o ls', runs (hook ← co_gets (λ ls : Locals * St, m_webhook_url (notifications (snd ls)));
     body ← co_lift (inr body); _ ← httpsPostAsync "discord.com" "443" hook body []; mret tt)
     (l, s) ev o ls' → o ≠ Undefined ∧ ls' = (l, s) ∧
     (requests_of ev = [] ∨ requests_of ev = [webhook_post s body])).
  { clear. intros ev o ls' Hr. runs_steps.
    match goal with H : runs (httpsPostAsync _ _ _ _ _) _ _ _ _ |- _ =>
      apply runs_httpsPost in H as (-> & _ & [(res & r & -> & ->)|(e & -> & Hq)]) end; runs_steps.
    - split_and!; [done..|]. by right.
    - split_and!; [done..|]. simpl. by rewrite !app_nil_r. }
  apply runs_catch in Hr as [[Hr Ht]|(e & ls1 & ev1 & ev2 & -> & Hr & _ & Hg)].
  - apply Hb in Hr as (Hu & -> & Hq). split_and!; [|done..].
    destruct o as [[]|e|]; [done|by specialize (Ht e eq_refl)|done].
  - apply Hb in Hr as (_ & -> & Hq). destruct Hg as (-> & -> & ->). by rewrite app_nil_r.
Qed.

(** C36.  A Discord notification: whatever the network and Twitch answer,
    [sendMessage] ends, keeps the program state, and sends at most two GET
    requests followed by at most one POST, to the webhook URL, whose body is the
    notification for some values of title, game and images; it throws only when
    that notification cannot be printed, and then nothing is posted. *)
Theorem sendMessage_requests {env : Environment} message (s : St) h :
  let '(o, s', h') := exec (sendMessage message) s h in
  s' = s ∧ ∃ ev l gets posts,
    h' = h ++ ev ∧ requests_of ev = gets ++ posts ∧ (length gets ≤ 2)%nat ∧
    Forall (λ r, req_verb r = verb_get) gets ∧
    match o with
    | Ok _ => ∃ body, json_dump (notification_json message l s) = inr body ∧
                (posts = [] ∨ posts = [webhook_post s body])
    | Throw e => json_dump (notification_json message l s) = inl e ∧ posts = []
    | Undefined => False
    end.
Proof.
  destruct (exec (sendMessage message) s h) as [[o s'] h'] eqn:Hx.
  apply exec_runs in Hx as (ev & -> & Hr). apply runs_local in Hr as (l' & Hr).
  unfold send_body, cfg, local in Hr. runs_steps.
  assert (Hblock : ∀ url headers (ls : Locals * St) ev o ls',
    runs (co_catch any_exception (λ _, mret tt) (stream_block url headers)) ls ev o ls' →
    o = Ok tt ∧ reads_only 2 (snd ls) (snd ls') ev).
  { intros url headers ls ev o1 ls' Hr.
    assert (Hno : ∀ e, o1 ≠ Throw e).
    { intros e ->. apply runs_catch in Hr as [[_ Ht]|(? & ? & ? & ? & _ & _ & _ & Hg)];
        [by specialize (Ht e eq_refl)|by destruct Hg as (_ & ? & _)]. }
    apply (reads_catch _ _ _ (reads_stream_block url headers)) in Hr as [Hu Hr].
    split; [|done]. destruct o1 as [[]|e|]; [done|by specialize (Hno e)|done]. }
  match goal with H : runs (co_catch _ _ (stream_block _ _)) _ _ _ _ |- _ =>
    apply Hblock in H as (-> & Hs & Hn & Hf) end.
  runs_steps.
  - match goal with H : o = _ ∧ _ = ?x ∧ _ |- _ => destruct H as (-> & <- & ->); simpl in *; subst end.
    split; [done|]. exists x1, l', (requests_of x1), []. rewrite !app_nil_r. by split_and!.
  - match goal with H : runs (co_catch _ _ _) ?ls _ _ _ |- _ =>
      destruct ls as [l s1]; simpl in Hs; subst s1; eapply runs_post_block in H as (-> & Hls & Hp); [|reflexivity] end.
    injection Hls as -> ->.
    split; [done|]. do 2 eexists. eexists _, (requests_of x5). split; [done|].
    simpl. rewrite requests_of_app. split_and!; eauto.
Qed.

Lemma exec_stream_offline {laws : JsonLaws} {env : Environment} server (s : St) url headers h dump :
  let c := discord_cfg s in
  network_up server → json_parse (server url) = inr (json_object [("data", json_array [])]) →
  json_dump (json_object [("data", json_array [])]) = inr dump →
  ∃ ev, exec (co_catch any_exception (λ _, mret tt) (stream_block url headers))
      (default_Locals, s) h = (Ok tt, (default_Locals, s), h ++ ev) ∧
    requests_of ev = [get_request (helix_host c) url headers].
Proof.
  intros c Hnet Hp Hd. rewrite exec_catch. unfold stream_block, cfg. rewrite exec_bind.
  cbn [co_gets exec snd]. fold c. rewrite exec_bind.
  destruct (exec_httpsGet server (helix_host c) (helix_port c) url headers (default_Locals, s) h Hnet)
    as (ev1 & -> & Hr1).
  rewrite Hp. cbn [co_lift mbind coro_bind co_bind]. rewrite Hd. cbn [co_lift co_bind].
  unfold has_data, first_data. rewrite json_contains_object. simpl.
  rewrite json_index_object. simpl. rewrite json_nth_array. simpl.
  destruct (json_value_string_null "title" "Live Stream") as (e & ->). by eexists.
Qed.

(** An offline stream: when Twitch answers the stream request with an empty
    "data" array and the network is up, [sendMessage] returns after exactly two
    requests, the stream query and one POST of the notification with the
    placeholder title and game and without images. *)
Theorem offline_notification {laws : JsonLaws} {env : Environment} server message (s : St) h
    dump body :
  let c := discord_cfg s in
  let url := "/helix/streams?user_id=" +:+ broadcaster_id c +:+ "&type=all" in
  let headers := [("Client-Id", client_id c);
                  ("Authorization", "Bearer " +:+ stripOauthPrefix (access_token c))] in
  let offline := json_object [("data", json_array [])] in
  network_up server → json_parse (server url) = inr offline → json_dump offline = inr dump →
  json_dump (notification_json message default_Locals s) = inr body →
  ∃ ev, exec (sendMessage message) s h = (Ok tt, s, h ++ ev) ∧
    requests_of ev = [get_request (helix_host c) url headers; webhook_post s body].
Proof.
  intros c url headers offline Hnet Hp Hd Hb. unfold sendMessage. rewrite exec_local.
  unfold send_body, cfg. rewrite exec_bind. cbn [co_gets exec snd]. fold c url headers.
  rewrite exec_bind.
  destruct (exec_stream_offline server s url headers h dump Hnet Hp Hd) as (ev1 & -> & Hr1).
  rewrite exec_bind. cbn [local co_gets exec fst id]. rewrite exec_bind. cbn [co_gets exec snd].
  change (payload_json message _) with (notification_json message default_Locals s).
  rewrite exec_bind, Hb. cbn [co_lift exec]. rewrite exec_catch, exec_bind. cbn [co_gets exec snd].
  rewrite exec_bind. cbn [exec]. rewrite exec_bind.
  match goal with |- context [exec (httpsPostAsync ?hn ?p ?t ?b ?hs) ?x ?h] =>
    destruct (exec_httpsPost server hn p t b hs x h Hnet) as (ev2 & -> & Hr2) end.
  cbn [exec mret coro_ret snd]. rewrite <- app_assoc. eexists; split; [done|].
  by rewrite requests_of_app, Hr1, Hr2.
Qed.

End Properties.

(** ** An example *)

Definition demo_offline : jvalue := JObject [("data", JArray [])].

Definition demo_cfg : ClientConfig := mk_ClientConfig "eventsub.wss.twitch.tv" "443"
  "api.twitch.tv" "443" "client" "oauth:secret" "42".

#[local] Instance demo_discord : DiscordHost unit := {|
  notifications _ := mk_Notifications "/api/webhooks/1/x";
  set_notifications _ s := s;
  discord_cfg _ := demo_cfg;
  system_now _ := 1700000000;
|}.

Lemma offline_notification_witness :
  ∃ ev body, exec (env := network_of (λ _, "{off}"))
      (sendMessage (J := JsonModel [("{off}", demo_offline)]) "live!") tt [] = (Ok tt, tt, ev) ∧
    requests_of ev =
      [get_request "api.twitch.tv" "/helix/streams?user_id=42&type=all"
         [("Client-Id", "client"); ("Authorization", "Bearer secret")];
       post_request "discord.com" "/api/webhooks/1/x" body []].
Proof.
  destruct (offline_notification (J := JsonModel [("{off}", demo_offline)])
    (laws := JsonModel_laws _) (env := network_of (λ _, "{off}")) (λ _, "{off}") "live!" tt []
    (jprint demo_offline) (jprint (notification_json (J := JsonModel [("{off}", demo_offline)])
       "live!" default_Locals tt)))
    as (ev & Hx & Hr); [apply network_of_up|done..|].
  exists ev. eexists. split; [exact Hx|]. exact Hr.
Defined.
