(* ===== verification/AppState.v ===== *)
(** * Application state shared by the network threads and the UI

    Models [include/seraphbot/core/app_state.hpp] and [src/core/app_state.cpp].
    Every operation holds [m_message_mutex] for its whole body, so a concurrent
    execution is a sequence of these operations in some order. *)

From S2P Require Import Prelude CommandParser.

Record AppState := mk_AppState {
  chat_log : list ChatMessage;
  last_status : string;
  show_debug_window : bool;
  auto_scroll_chat : bool;
  m_pending_messages : list ChatMessage;      (* a queue, front first *)
}.

Definition new_AppState : AppState := mk_AppState [] "" false true [].

Definition pushChatMessage (msg : ChatMessage) (st : AppState) : AppState :=
  mk_AppState (chat_log st) (last_status st) (show_debug_window st) (auto_scroll_chat st)
    (m_pending_messages st ++ [msg]).

(** One iteration of the loop: move the front of the queue to the log. *)
Definition process_one (st : AppState) : AppState :=
  match m_pending_messages st with
  | [] => st
  | m :: rest =>
      mk_AppState (chat_log st ++ [m]) (last_status st) (show_debug_window st)
        (auto_scroll_chat st) rest
  end.

(** [while (!m_pending_messages.empty())], with fuel for the iterations. *)
Fixpoint process_loop (fuel : nat) (st : AppState) : option AppState :=
  match m_pending_messages st, fuel with
  | [], _ => Some st
  | _ :: _, O => None
  | _ :: _, S fuel' => process_loop fuel' (process_one st)
  end.

Definition processPendingMessages (st : AppState) : AppState :=
  default st (process_loop (length (m_pending_messages st)) st).

Definition pendingMessageCount (st : AppState) : nat := length (m_pending_messages st).

(** [last_status = status] of the status callback. *)
Definition set_last_status (status : string) (st : AppState) : AppState :=
  mk_AppState (chat_log st) status (show_debug_window st) (auto_scroll_chat st)
    (m_pending_messages st).

(** ** Reference definitions *)

(** The operations of the threads, in the order in which they take the mutex. *)
Inductive app_op :=
  | Push (thread : nat) (msg : ChatMessage)
  | Process.

Definition app_step (st : AppState) (o : app_op) : AppState :=
  match o with
  | Push _ msg => pushChatMessage msg st
  | Process => processPendingMessages st
  end.

(** The messages pushed, in mutex order; those of one thread. *)
Definition pushed (ops : list app_op) : list ChatMessage :=
  omap (λ o, match o with Push _ m => Some m | Process => None end) ops.

Definition pushed_by (t : nat) (ops : list app_op) : list ChatMessage :=
  omap (λ o, match o with
             | Push t' m => if decide (t' = t) then Some m else None
             | Process => None end) ops.

(** ** Lemmas *)

Lemma process_loop_spec fuel st :
  (length (m_pending_messages st) ≤ fuel)%nat →
  process_loop fuel st =
    Some (mk_AppState (chat_log st ++ m_pending_messages st) (last_status st)
            (show_debug_window st) (auto_scroll_chat st) []).
Proof.
  revert st. induction fuel as [|fuel IH]; intros [cl ls sd au q] Hf; destruct q as [|m q];
    simpl in *; try lia; [by rewrite app_nil_r..|].
  rewrite IH by (simpl; lia). simpl. by rewrite <- app_assoc.
Qed.

Lemma processPendingMessages_spec st :
  processPendingMessages st =
    mk_AppState (chat_log st ++ m_pending_messages st) (last_status st)
      (show_debug_window st) (auto_scroll_chat st) [].
Proof. unfold processPendingMessages. by rewrite process_loop_spec. Qed.

Lemma app_steps_total ops st :
  let st' := foldl app_step st ops in
  chat_log st' ++ m_pending_messages st' =
    (chat_log st ++ m_pending_messages st) ++ pushed ops.
Proof.
  revert st. induction ops as [|o ops IH]; intros st; simpl; [by rewrite app_nil_r|].
  rewrite IH. destruct o as [t m|]; simpl.
  - by rewrite <- !app_assoc.
  - rewrite processPendingMessages_spec. simpl. by rewrite app_nil_r.
Qed.

Lemma pushed_by_sublist t ops : pushed_by t ops `sublist_of` pushed ops.
Proof.
  induction ops as [|[t' m|] ops IH]; simpl; [done| |done].
  case_decide; by constructor.
Qed.

(** ** Properties *)

(** C37.  The hand-over queue: the drain loop terminates, and in every
    interleaving of pushes by network threads and drains by the UI thread the
    log followed by the queue is exactly what was there before followed by the
    pushed messages in the order of the pushes: nothing is lost, duplicated or
    reordered, each thread's messages keep their order, and right after a drain
    everything pushed is in the log and the queue is empty. *)
Theorem app_state_fifo (ops : list app_op) (st : AppState) :
  let st' := foldl app_step st ops in
  chat_log st' ++ m_pending_messages st' =
    (chat_log st ++ m_pending_messages st) ++ pushed ops ∧
  (∀ t, pushed_by t ops `sublist_of` (chat_log st' ++ m_pending_messages st')) ∧
  process_loop (pendingMessageCount st') st' ≠ None ∧
  chat_log (processPendingMessages st') =
    (chat_log st ++ m_pending_messages st) ++ pushed ops ∧
  pendingMessageCount (processPendingMessages st') = 0%nat.
Proof.
  cbv zeta. pose proof (app_steps_total ops st) as Ht. cbv zeta in Ht. split_and!; [done| | | |].
  - intros t. rewrite Ht. apply sublist_inserts_l, pushed_by_sublist.
  - unfold pendingMessageCount. by rewrite process_loop_spec.
  - by rewrite processPendingMessages_spec.
  - by rewrite processPendingMessages_spec.
Qed.
