(* ===== verification/Gui.v ===== *)
(** * The window and the immediate-mode GUI

    Models the parts of [ImGuiManager] ([include/seraphbot/ui/imgui_manager.hpp],
    [src/ui/imgui_manager.cpp]) that only talk to GLFW, OpenGL and Dear ImGui, the
    interface [ImGuiBackend] and its OpenGL implementation
    ([include/seraphbot/ui/imgui_backend.hpp], [imgui_backend_opengl.hpp]).

    The three libraries are outside the repository.  A call to one of them is
    recorded in a trace, with its answer when it has one; [GuiApi] gives the
    answers as functions of the trace so far. *)

From Stdlib Require Import SpecFloat.
From S2P Require Import Prelude Cxx.

(** ** Data passed to the libraries *)

Record ImVec2 := mk_vec2 { vec_x : spec_float; vec_y : spec_float }.
Record ImVec4 := mk_vec4 { red : spec_float; green : spec_float; blue : spec_float;
                           alpha : spec_float }.
Record ImGuiViewport := mk_viewport { vp_pos : ImVec2; vp_size : ImVec2; vp_id : Z }.

Inductive window_flag :=
  | MenuBar | NoDocking | NoTitleBar | NoCollapse | NoResize | NoMove
  | NoBringToFrontOnFocus | NoNavFocus | NoScrollbar | NoSavedSettings
  | NoFocusOnAppearing | HorizontalScrollbar.

Inductive input_flag := EnterReturnsTrue | CtrlEnterForNewLine.
Inductive style_var := WindowRounding | WindowBorderSize.
Inductive config_flag := NavEnableKeyboard | DockingEnable.
Inductive window_hint := HintPlatformWayland | HintVersionMajor (n : Z) | HintVersionMinor (n : Z)
                       | HintCoreProfile | HintNoApi.

Inductive gui_call :=
  (* GLFW *)
  | GlfwInit | GlfwWindowHint (h : window_hint)
  | GlfwCreateWindow (width height : Z) (title : string)
  | GlfwTerminate | GlfwMakeContextCurrent | GlfwSwapInterval (n : Z) | GlfwDestroyWindow
  | GlfwPollEvents | GlfwSwapBuffers | GlfwWindowShouldClose | GlfwSetWindowShouldClose (b : bool)
  (* OpenGL *)
  | GlClearColor (c : ImVec4) | GlClear
  (* the ImGui backends *)
  | ImplGlfwInit | ImplGlfwNewFrame | ImplGlfwShutdown
  | ImplGlInit (glsl_version : string) | ImplGlNewFrame | ImplGlRender | ImplGlShutdown
  (* Dear ImGui: the context and the frame *)
  | CreateContext | DestroyContext | ConfigFlag (f : config_flag) | StyleColorsDark
  | BuildRanges | AddFont (bytes : Z) (owned : bool) (size : spec_float)
  | NewFrame | Render
  (* Dear ImGui: widgets *)
  | SetNextWindowPos (p : ImVec2) | SetNextWindowSize (p : ImVec2) | SetNextWindowViewport (id : Z)
  | PushStyleVar (v : style_var) (x : spec_float) | PopStyleVar (n : nat)
  | Begin (title : string) (flags : list window_flag) | End
  | BeginChild (name : string) (size : ImVec2) (border : bool) (flags : list window_flag) | EndChild
  | DockSpace (name : string) (size : ImVec2)
  | BeginMenuBar | EndMenuBar | BeginMenu (l : string) | EndMenu | MenuItem (l : string) | Separator
  | Text (s : string) | TextFps (framerate : spec_float) | TextColored (c : ImVec4) (s : string)
  | TextWrapped (s : string)
  | SameLine | PushTextWrapPos (x : spec_float) | PopTextWrapPos
  | SetScrollHereY (ratio : spec_float) | SetNextItemWidth (w : spec_float)
  | InputText (label : string) (size : Z) (flags : list input_flag)
  | Button (l : string).

(** A call, or a question with its answer. *)
Inductive gui_event :=
  | Did (c : gui_call)
  | Asked (c : gui_call) (answer : bool).

Class GuiApi := {
  gui_answer : list gui_event → gui_call → bool;
  gui_edit : list gui_event → string → string → string;  (* label, old content, new content *)
  gui_viewport : list gui_event → ImGuiViewport;
  gui_framerate : list gui_event → spec_float;
  gui_frame_height : list gui_event → spec_float;        (* with spacing *)
  gui_at_bottom : list gui_event → bool;                 (* [GetScrollY() >= GetScrollMaxY()] *)
}.

Class GuiHost (St : Type) := {
  gui_trace : St → list gui_event;
  set_gui_trace : list gui_event → St → St;
}.

Section Calls.
Context {gui : GuiApi} {St : Type} {host : GuiHost St}.

Definition emit (c : gui_call) : M St unit :=
  modify (λ s, set_gui_trace (gui_trace s ++ [Did c]) s).
Definition ask (c : gui_call) : M St bool := λ s,
  let r := gui_answer (gui_trace s) c in
  (Ok r, set_gui_trace (gui_trace s ++ [Asked c r]) s).

End Calls.

(** ** Text *)

Definition percent : ascii := Ascii.ascii_of_nat 37.

(** [vsnprintf] of a format without arguments: ["%%"] prints a percent sign, and
    every other conversion reads an argument that was not passed. *)
Fixpoint printf_noargs (fmt : string) : outcome string :=
  match fmt with
  | EmptyString => Ok ""
  | String c fmt' =>
      if decide (c = percent) then
        match fmt' with
        | String d rest =>
            if decide (d = percent) then s ← printf_noargs rest; Ok (String percent s)
            else Undefined
        | EmptyString => Undefined
        end
      else s ← printf_noargs fmt'; Ok (String c s)
  end.

(** ** [hexToImVec4] *)

Definition hex_value (c : ascii) : option Z :=
  let n := Ascii.nat_of_ascii c in
  if ((48 <=? n) && (n <=? 57))%nat then Some (Z.of_nat n - 48)
  else if ((65 <=? n) && (n <=? 70))%nat then Some (Z.of_nat n - 55)
  else if ((97 <=? n) && (n <=? 102))%nat then Some (Z.of_nat n - 87)
  else None.

Fixpoint skip_spaces (s : string) : string :=
  match s with
  | String c s' => if isspace c then skip_spaces s' else s
  | EmptyString => ""
  end.

Fixpoint hex_digits (acc : Z) (s : string) : Z :=
  match s with
  | String c s' =>
      match hex_value c with Some d => hex_digits (16 * acc + d) s' | None => acc end
  | EmptyString => acc
  end.

Definition starts_hex (s : string) : bool :=
  match s with String c _ => bool_decide (is_Some (hex_value c)) | EmptyString => false end.

(** [std::stoul(s, nullptr, 16)] for at most sixteen digits, with a 64-bit
    [unsigned long]: white space, a sign, an optional ["0x"], digits, and anything
    after them. *)
Definition stoul16 (s : string) : exn + Z :=
  let s := skip_spaces s in
  let '(negative, s) :=
    match s with
    | String c s' =>
        if decide (c = Ascii.ascii_of_nat 45) then (true, s')
        else if decide (c = Ascii.ascii_of_nat 43) then (false, s') else (false, s)
    | EmptyString => (false, s)
    end in
  let s := if (starts_with s "0x" || starts_with s "0X") && starts_hex (str_drop 2 s)
           then str_drop 2 s else s in
  if negb (starts_hex s) then inl (mk_exn InvalidArgument "stoul")
  else inr (if negative : bool then (- hex_digits 0 s) mod 2 ^ 64 else hex_digits 0 s).

Definition f32_zero : spec_float := f32_of_Z 0.
Definition f32_one : spec_float := f32_of_Z 1.

(** A colour component: [static_cast<float>(v) / 255.0F]. *)
Definition component (v : Z) : spec_float := f32_div (f32_of_Z v) (f32_of_Z 255).

Definition hash : ascii := Ascii.ascii_of_nat 35.

Definition hexToImVec4 (hex : string) : exn + ImVec4 :=
  if (Z.of_nat (String.length hex) <? 7) || bool_decide (String.get 0 hex ≠ Some hash) then
    inr (mk_vec4 f32_zero f32_zero f32_zero f32_one)
  else
    value ← stoul16 (String.substring 1 6 hex);
    let r := component (Z.land (Z.shiftr value 16) 255) in
    let g := component (Z.land (Z.shiftr value 8) 255) in
    let b := component (Z.land value 255) in
    if 9 <=? Z.of_nat (String.length hex) then
      alpha_val ← stoul16 (String.substring 7 2 hex);
      inr (mk_vec4 r g b (component alpha_val))
    else inr (mk_vec4 r g b f32_one).

(** ** [ImGuiBackend]: the interface and the OpenGL implementation *)

Class ImGuiBackend (St : Type) := {
  backend_init : M St unit;
  backend_newFrame : M St unit;
  backend_renderDrawData : M St unit;
  backend_shutdown : M St unit;
}.

Section Backend.
Context {gui : GuiApi} {St : Type} {host : GuiHost St}.

#[global] Instance ImGuiBackendOpenGL : ImGuiBackend St := {|
  backend_init := emit ImplGlfwInit ;; emit (ImplGlInit "#version 460");
  backend_newFrame := emit ImplGlNewFrame ;; emit ImplGlfwNewFrame;
  backend_renderDrawData := emit ImplGlRender;
  backend_shutdown := emit ImplGlShutdown ;; emit ImplGlfwShutdown;
|}.

End Backend.

(** ** [class ImGuiManager]: window, context and frame *)

Record ImGuiManager := mk_ImGuiManager {
  m_backend : bool;                  (* the pointers: null or not *)
  m_window : bool;
  m_context : bool;
  m_message_input : string;          (* the C string in the 256-byte buffer *)
}.

Definition message_input_size : Z := 256.
Definition FiraSans_Regular_ttf_len : Z := 440984.
Definition tenth : spec_float := f32_div f32_one (f32_of_Z 10).    (* [0.1F] *)

Section Window.
Context {gui : GuiApi} {St : Type} {host : GuiHost St} {backend : ImGuiBackend St}.

Definition initWindow (width height : Z) : M St unit :=
  ok ← ask GlfwInit;
  if negb ok then throw (runtime_error "Failed to init GLFW")
  else
    emit (GlfwWindowHint HintPlatformWayland) ;;
    emit (GlfwWindowHint (HintVersionMajor 4)) ;;
    emit (GlfwWindowHint (HintVersionMinor 6)) ;;
    emit (GlfwWindowHint HintCoreProfile) ;;
    window ← ask (GlfwCreateWindow width height "SeraphBot");
    if negb window then
      emit GlfwTerminate ;; throw (runtime_error "Failed to create window")
    else
      emit GlfwMakeContextCurrent ;; emit (GlfwSwapInterval 1).

Definition initWindowVulkan (width height : Z) : M St unit :=
  ok ← ask GlfwInit;
  if negb ok then throw (runtime_error "Failed to init GLFW")
  else
    emit (GlfwWindowHint HintNoApi) ;;
    window ← ask (GlfwCreateWindow width height "SeraphBot");
    if negb window then
      emit GlfwTerminate ;; throw (runtime_error "Failed to create window")
    else mret tt.

(** The constructor; the backend it is given is never null. *)
Definition new_ImGuiManager : M St ImGuiManager :=
  initWindow 1280 720 ;;
  emit CreateContext ;;
  emit (ConfigFlag NavEnableKeyboard) ;;
  emit (ConfigFlag DockingEnable) ;;
  emit StyleColorsDark ;;
  emit BuildRanges ;;
  emit (AddFont FiraSans_Regular_ttf_len false (f32_of_Z 18)) ;;
  backend_init ;;
  mret (mk_ImGuiManager true true true "").

(** The destructor. *)
Definition delete_ImGuiManager (m : ImGuiManager) : M St unit :=
  (if m_backend m then backend_shutdown else mret tt) ;;
  (if m_context m then emit DestroyContext else mret tt) ;;
  (if m_window m then emit GlfwDestroyWindow else mret tt) ;;
  emit GlfwTerminate.

Definition beginFrame : M St unit := backend_newFrame ;; emit NewFrame.
Definition endFrame : M St unit := emit Render.
Definition render : M St unit := backend_renderDrawData.
Definition poll : M St unit :=
  emit GlfwPollEvents ;;
  emit (GlClearColor (mk_vec4 tenth tenth tenth f32_one)) ;;
  emit GlClear.
Definition shouldClose : M St bool := ask GlfwWindowShouldClose.
Definition swapBuffers : M St unit := emit GlfwSwapBuffers.

End Window.

(** ** Lemmas and properties of colours and text *)

(** Split a goal about one character into its 256 cases. *)
Ltac by_ascii c := destruct c as [[] [] [] [] [] [] [] []]; vm_compute; intros; simplify_eq; try done.

Lemma hex_value_plain c d :
  hex_value c = Some d →
  isspace c = false ∧ c ≠ Ascii.ascii_of_nat 45 ∧ c ≠ Ascii.ascii_of_nat 43 ∧
  Ascii.eqb c (Ascii.ascii_of_nat 120) = false ∧ Ascii.eqb c (Ascii.ascii_of_nat 88) = false ∧
  0 ≤ d < 16.
Proof. by_ascii c. Qed.

(** The numbers a component can be, and their [float]s. *)
Definition component_ok (v : Z) : bool :=
  negb (f32_ltb (component v) f32_zero) && negb (f32_ltb f32_one (component v)) &&
  (if v <? 255 then f32_ltb (component v) (component (v + 1)) else true).

Fixpoint for_all_below (n : nat) (P : Z → bool) : bool :=
  match n with O => true | S n' => P (Z.of_nat n') && for_all_below n' P end.

Lemma for_all_below_spec n P v : for_all_below n P = true → 0 ≤ v < Z.of_nat n → P v = true.
Proof.
  induction n as [|n IH]; simpl; intros Hp Hv; [lia|]. apply andb_true_iff in Hp as [H1 H2].
  destruct (decide (v = Z.of_nat n)) as [->|]; [done|]. apply IH; [done|lia].
Qed.

Lemma component_range v : 0 ≤ v < 256 → component_ok v = true.
Proof. apply (for_all_below_spec 256). vm_compute. reflexivity. Qed.

Lemma component_spec v :
  0 ≤ v < 256 →
  f32_ltb (component v) f32_zero = false ∧ f32_ltb f32_one (component v) = false ∧
  (v < 255 → f32_ltb (component v) (component (v + 1)) = true).
Proof.
  intros Hv%component_range. unfold component_ok in Hv.
  apply andb_true_iff in Hv as [[H1 H2]%andb_true_iff H3].
  apply negb_true_iff in H1, H2. split_and!; [exact H1|exact H2|].
  intros Hlt%Z.ltb_lt. by rewrite Hlt in H3.
Qed.

(** Six hexadecimal digits. *)
Definition six (c1 c2 c3 c4 c5 c6 : ascii) : string :=
  String c1 (String c2 (String c3 (String c4 (String c5 (String c6 ""))))).

Lemma starts_with_one a p c s : c ≠ a → starts_with (String c s) (String a p) = false.
Proof. intros Hc. unfold starts_with. simpl. destruct (ascii_dec a c); [by subst|done]. Qed.

Lemma starts_with_two a p c1 c2 s :
  c2 ≠ p → starts_with (String c1 (String c2 s)) (String a (String p "")) = false.
Proof.
  intros Hc. unfold starts_with. simpl. destruct (ascii_dec a c1); [|done].
  destruct (ascii_dec p c2); [|done]. by subst.
Qed.

Lemma stoul16_six c1 c2 c3 c4 c5 c6 d1 d2 d3 d4 d5 d6 :
  hex_value c1 = Some d1 → hex_value c2 = Some d2 → hex_value c3 = Some d3 →
  hex_value c4 = Some d4 → hex_value c5 = Some d5 → hex_value c6 = Some d6 →
  stoul16 (six c1 c2 c3 c4 c5 c6) =
    inr ((16 * d1 + d2) * 65536 + (16 * d3 + d4) * 256 + (16 * d5 + d6)).
Proof.
  intros H1 H2 H3 H4 H5 H6. unfold stoul16, six.
  pose proof (hex_value_plain c1 d1 H1) as (Hs & Hm & Hp & _).
  pose proof (hex_value_plain c2 d2 H2) as (_ & _ & _ & Hx & HX & _).
  cbn [skip_spaces]. rewrite Hs, decide_False, decide_False by done.
  assert (Hpre : ∀ a p s, Ascii.eqb c2 p = false →
    starts_with (String c1 (String c2 s)) (String a (String p "")) = false).
  { intros a p s Hc. apply starts_with_two. intros ->. by rewrite Ascii.eqb_refl in Hc. }
  rewrite !Hpre by done. cbn [orb andb starts_hex]. rewrite H1. cbn [negb bool_decide].
  rewrite bool_decide_true by eauto. cbn [negb hex_digits]. rewrite H1. cbn [hex_digits].
  rewrite H2, H3, H4, H5, H6. f_equal. lia.
Qed.

Lemma byte_of_value r g b :
  0 ≤ r < 256 → 0 ≤ g < 256 → 0 ≤ b < 256 →
  let v := r * 65536 + g * 256 + b in
  Z.land (Z.shiftr v 16) 255 = r ∧ Z.land (Z.shiftr v 8) 255 = g ∧ Z.land v 255 = b.
Proof.
  intros Hr Hg Hb v. change 255 with (Z.ones 8). rewrite !Z.land_ones, !Z.shiftr_div_pow2 by lia.
  change (2 ^ 16) with 65536. change (2 ^ 8) with 256. unfold v. split_and!.
  - rewrite <- (Z.div_unique _ 65536 r (g * 256 + b)) by lia. apply Z.mod_small. lia.
  - rewrite <- (Z.div_unique _ 256 (r * 256 + g) b) by lia.
    symmetry. apply (Z.mod_unique _ _ r); lia.
  - symmetry. apply (Z.mod_unique _ _ (r * 256 + g)); lia.
Qed.

(** A colour as Twitch writes it. *)
Definition hex_digit (n : Z) : ascii :=
  Ascii.ascii_of_nat (Z.to_nat (if n <? 10 then 48 + n else 55 + n)).
Definition hex_byte (n : Z) (s : string) : string :=
  String (hex_digit (n / 16)) (String (hex_digit (n mod 16)) s).
Definition hex_color (r g b : Z) : string := String hash (hex_byte r (hex_byte g (hex_byte b ""))).

Lemma hex_value_digit n : 0 ≤ n < 16 → hex_value (hex_digit n) = Some n.
Proof.
  intros Hn. set (P n := bool_decide (hex_value (hex_digit n) = Some n)).
  assert (P n = true) as Hp%bool_decide_eq_true by
    (apply (for_all_below_spec 16 P); [vm_compute; reflexivity|done]).
  done.
Qed.

(** Colours: the colour ["#RRGGBB"] that stands for the bytes r, g and b is read
    back as exactly these components over 255, opaque; each component is a
    [float] between 0 and 1 and larger bytes give larger components. *)
Theorem hexToImVec4_roundtrip r g b :
  0 ≤ r < 256 → 0 ≤ g < 256 → 0 ≤ b < 256 →
  hexToImVec4 (hex_color r g b) = inr (mk_vec4 (component r) (component g) (component b) f32_one) ∧
  Forall (λ v, f32_ltb (component v) f32_zero = false ∧ f32_ltb f32_one (component v) = false ∧
    (v < 255 → f32_ltb (component v) (component (v + 1)) = true)) [r; g; b].
Proof.
  intros Hr Hg Hb. split.
  - unfold hexToImVec4, hex_color, hex_byte. cbn [String.length String.get].
    rewrite bool_decide_false by (intros Hn; by apply Hn). cbn [Z.ltb Z.of_nat orb Pos.of_succ_nat Pos.succ Z.compare Pos.compare Pos.compare_cont].
    cbn [String.substring].
    match goal with |- context [stoul16 ?x] => change x with
      (six (hex_digit (r / 16)) (hex_digit (r mod 16)) (hex_digit (g / 16)) (hex_digit (g mod 16))
           (hex_digit (b / 16)) (hex_digit (b mod 16))) end.
    assert (Hd : ∀ n, 0 ≤ n < 256 → 0 ≤ n / 16 < 16 ∧ 0 ≤ n mod 16 < 16)
      by (intros n Hn; split; [split; [apply Z.div_pos|apply Z.div_lt_upper_bound]; lia|
          apply Z.mod_pos_bound; lia]).
    rewrite (stoul16_six _ _ _ _ _ _ (r / 16) (r mod 16) (g / 16) (g mod 16) (b / 16) (b mod 16))
      by (apply hex_value_digit; apply Hd; done).
    rewrite <- !Z.div_mod by lia. cbn [mbind sum_bind].
    destruct (byte_of_value r g b Hr Hg Hb) as (-> & -> & ->). done.
  - auto using Forall_cons, Forall_nil, component_spec.
Qed.

Lemma hexToImVec4_roundtrip_witness :
  hexToImVec4 "#FF7F50" = inr (mk_vec4 (component 255) (component 127) (component 80) f32_one).
Proof. apply (hexToImVec4_roundtrip 255 127 80); lia. Defined.

(** A colour whose first digit is none. *)
Lemma hexToImVec4_malformed c rest :
  hex_value c = None → isspace c = false → c ≠ Ascii.ascii_of_nat 45 → c ≠ Ascii.ascii_of_nat 43 →
  (5 ≤ String.length rest)%nat →
  hexToImVec4 (String hash (String c rest)) = inl (mk_exn InvalidArgument "stoul").
Proof.
  intros Hc Hs Hm Hp Hl. unfold hexToImVec4. cbn [String.length String.get].
  rewrite bool_decide_false by (intros Hn; by apply Hn).
  replace (_ <? 7) with false by (symmetry; apply Z.ltb_ge; lia). cbn [orb String.substring].
  unfold stoul16. cbn [skip_spaces]. rewrite Hs, decide_False, decide_False by done.
  assert (Hx : ∀ p s, starts_with (String c s) (String (Ascii.ascii_of_nat 48) p) = false).
  { intros p s. apply starts_with_one. intros ->. discriminate Hc. }
  rewrite !Hx. cbn [orb andb starts_hex]. by rewrite Hc.
Qed.

(** A percent sign that is not doubled. *)
Lemma printf_noargs_stray a c b :
  str_forall (λ x, bool_decide (x ≠ percent)) a = true → c ≠ percent →
  printf_noargs (a +:+ String percent (String c b)) = Undefined.
Proof.
  intros Ha Hc. induction a as [|x a IH].
  - cbn [String.append printf_noargs]. by rewrite decide_True, decide_False.
  - cbn [String.append printf_noargs]. apply andb_true_iff in Ha as [Hx%bool_decide_eq_true Ha]. rewrite decide_False, IH by done. done.
Qed.

(** Text without a percent sign is printed as it is. *)
Lemma printf_noargs_plain s :
  str_forall (λ x, bool_decide (x ≠ percent)) s = true → printf_noargs s = Ok s.
Proof.
  induction s as [|x s IH]; simpl; [done|]. intros [Hx%bool_decide_eq_true Hs]%andb_true_iff.
  by rewrite decide_False, IH.
Qed.
