(* ===== verification/Obs.v ===== *)
(** * The OBS service

    Models [OBSService] of [include/seraphbot/obs/obsservice.hpp]: a client of the
    OBS websocket protocol.  Its methods are coroutines over the service object;
    dereferencing the websocket before one was made is undefined. *)

From S2P Require Import Prelude Cxx Coro Json EventSub.

Record OBSService := mk_OBSService {
  m_obs_host : string;
  m_obs_port : string;
  m_obs_password : string;
  m_ws : option ws_state;
  m_connected : bool;
  m_request_id : Z;                  (* [std::uint64_t] *)
}.

Definition new_OBSService (password : string) : OBSService :=
  mk_OBSService "192.168.1.2" "4455" password None false 1.

Definition set_ws (w : option ws_state) (o : OBSService) : OBSService :=
  mk_OBSService (m_obs_host o) (m_obs_port o) (m_obs_password o) w (m_connected o) (m_request_id o).
Definition set_connected (b : bool) (o : OBSService) : OBSService :=
  mk_OBSService (m_obs_host o) (m_obs_port o) (m_obs_password o) (m_ws o) b (m_request_id o).
Definition set_request_id (i : Z) (o : OBSService) : OBSService :=
  mk_OBSService (m_obs_host o) (m_obs_port o) (m_obs_password o) (m_ws o) (m_connected o) i.

Definition next_id (i : Z) : Z := (i + 1) mod 2 ^ 64.

(** [int] from a wider integer. *)
Definition to_int32 (z : Z) : Z := (z + 2 ^ 31) mod 2 ^ 32 - 2 ^ 31.

Section Obs.
Context {J : JsonApi}.

(** [m_request_id++] *)
Definition take_request_id : coro OBSService Z :=
  i ← co_gets m_request_id; co_modify (set_request_id (next_id i)) ;; mret i.

(** Messages of the protocol. *)
Definition obs_request (type : string) (data : list (string * json)) (id : Z) : json :=
  json_object [("op", json_int 6);
    ("d", json_object [("requestType", json_string type); ("requestData", json_object data);
                       ("requestId", json_int id)])].

Definition auth_request (id : Z) : json :=
  json_object [("op", json_int 6);
    ("d", json_object [("requestType", json_string "GetAuthRequired"); ("requestId", json_int id)])].

Definition identify_request (auth_response : string) : json :=
  json_object [("op", json_int 1);
    ("d", json_object [("rpcVersion", json_int 1); ("authentication", json_string auth_response)])].

Definition set_media_request (video_path source_name : string) : Z → json :=
  obs_request "SetInputSettings"
    [("inputName", json_string source_name);
     ("inputSettings", json_object [("local_file", json_string video_path);
                                    ("restart_on_activate", json_bool true)])].
Definition item_list_request (scene_name : string) : Z → json :=
  obs_request "GetSceneItemList" [("sceneName", json_string scene_name)].
Definition show_source_request (scene_name source_name : string) : Z → json :=
  obs_request "SetSceneItemEnabled"
    [("sceneName", json_string scene_name); ("sceneItemId", json_string source_name);
     ("sceneItemEnabled", json_bool true)].
Definition media_status_request (source_name : string) : Z → json :=
  obs_request "GetMediaInputStatus" [("inputName", json_string source_name)].
Definition hide_source_request (scene_name : string) (source_id : Z) : Z → json :=
  obs_request "SetSceneItemEneabled"
    [("sceneName", json_string scene_name); ("sceneItemId", json_int source_id);
     ("sceneItemEnabled", json_bool false)].

Definition generateAuthResponse (challenge salt : string) : string := "".

(** [m_ws->...]: undefined on a null pointer. *)
Definition with_ws {A} (c : coro OBSService A) : coro OBSService A :=
  w ← co_gets m_ws; match w with Some _ => c | None => co_undefined Dangling end.

Definition obs_sendMessage (message : json) : coro OBSService unit :=
  msg_str ← co_lift (json_dump message);
  with_ws (await (IoWsWrite msg_str)).

Definition receiveMessage : coro OBSService json :=
  response ← with_ws await_ws;
  co_lift (json_parse response).

(** [j.contains(k1) && j[k1].contains(k2) && ...] *)
Fixpoint json_contains_path (j : json) (ks : list string) : exn + bool :=
  match ks with
  | [] => inr true
  | k :: ks' =>
      if json_contains j k then
        match json_index j k with inl e => inl e | inr x => json_contains_path x ks' end
      else inr false
  end.

Definition authenticate : coro OBSService unit :=
  i ← take_request_id;
  obs_sendMessage (auth_request i) ;;
  response ← receiveMessage;
  c ← co_lift (json_contains_path response ["d"; "authRequired"]);
  if c : bool then
    required ← co_lift (json_path response ["d"; "authRequired"]);
    if json_eq_bool required true then
      challenge ← co_lift (v ← json_path response ["d"; "challenge"]; json_get_string v);
      salt ← co_lift (v ← json_path response ["d"; "salt"]; json_get_string v);
      obs_sendMessage (identify_request (generateAuthResponse challenge salt))
    else mret tt
  else mret tt.

Definition connectToOBS : coro OBSService bool :=
  co_catch any_exception
    (λ err, co_modify (set_connected false) ;; mret false)
    (o ← co_gets id;
     (* the password is passed where the port belongs *)
     await (IoResolve (m_obs_host o) (m_obs_password o)) ;;
     co_modify (set_ws (Some WsNotOpen)) ;;
     await (IoConnect (m_obs_host o) (m_obs_password o)) ;;
     await (IoWsHandshake (m_obs_host o) "") ;;
     co_modify (set_ws (Some WsOpen)) ;;
     (if negb (str_empty (m_obs_password o)) then authenticate else mret tt) ;;
     co_modify (set_connected true) ;;
     mret true).

Definition sendOBSCommand (command : json) : coro OBSService json :=
  connected ← co_gets m_connected;
  (if negb connected then _ ← connectToOBS; mret tt else mret tt) ;;
  obs_sendMessage command ;;
  receiveMessage.

(** [for (const auto &item : items)]: the first item of the source. *)
Fixpoint find_source (items : list json) (source_name : string) : exn + Z :=
  match items with
  | [] => inr (-1)
  | item :: rest =>
      if json_contains item "sourceName" then
        name ← json_index item "sourceName";
        if json_eq_string name source_name then
          id ← json_value_int item "sceneItemId" (-1); inr (to_int32 id)
        else find_source rest source_name
      else find_source rest source_name
  end.

Definition getSourceId (scene_name source_name : string) : coro OBSService Z :=
  i ← take_request_id;
  response ← sendOBSCommand (item_list_request scene_name i);
  c ← co_lift (json_contains_path response ["d"; "responseData"; "sceneItems"]);
  if c : bool then
    items ← co_lift (json_path response ["d"; "responseData"; "sceneItems"]);
    co_lift (find_source (json_items items) source_name)
  else mret (-1).

Definition getMediaDuration (source_name : string) : coro OBSService Z :=
  i ← take_request_id;
  response ← sendOBSCommand (media_status_request source_name i);
  c ← co_lift (json_contains_path response ["d"; "responseData"]);
  if c : bool then
    data ← co_lift (json_path response ["d"; "responseData"]);
    if json_contains data "mediaDuration" then
      co_lift (v ← json_index data "mediaDuration"; json_get_int v)
    else mret 5000
  else mret 5000.

Definition waitForVideoEnd : coro OBSService unit := await (IoTimer 1000).

(** The [try] block of [playVideo]. *)
Definition play_body (video_path scene_name source_name : string) : coro OBSService unit :=
  connected ← co_gets m_connected;
  (if negb connected then _ ← connectToOBS; mret tt else mret tt) ;;
  i ← take_request_id;
  _ ← sendOBSCommand (set_media_request video_path source_name i);
  source_id ← getSourceId scene_name source_name;
  if source_id =? -1 then mret tt
  else
    i ← take_request_id;
    _ ← sendOBSCommand (show_source_request scene_name source_name i);
    duration ← getMediaDuration source_name;
    await (IoTimer duration) ;;
    i ← take_request_id;
    _ ← sendOBSCommand (hide_source_request scene_name source_id i);
    mret tt.

Definition playVideo (video_path scene_name source_name : string) : coro OBSService unit :=
  co_catch any_exception (λ _, mret tt) (play_body video_path scene_name source_name).

End Obs.

(** ** Reference definitions *)

(** The texts written to the websocket, in order. *)
Fixpoint ws_writes (h : list io_event) : list string :=
  match h with
  | [] => []
  | EvDo (IoWsWrite t) _ :: h' => t :: ws_writes h'
  | _ :: h' => ws_writes h'
  end.

Section Spec.
Context {J : JsonApi}.

(** The requests that play a video, when OBS gives the source the id [id] (-1 for a
    source that is not in the scene) and the first request gets the number [n]. *)
Definition conversation (video_path scene_name source_name : string) (id n : Z) : list json :=
  let n1 := next_id n in let n2 := next_id n1 in let n3 := next_id n2 in let n4 := next_id n3 in
  [set_media_request video_path source_name n; item_list_request scene_name n1] ++
  if id =? -1 then []
  else [show_source_request scene_name source_name n2; media_status_request source_name n3;
        hide_source_request scene_name id n4].

Definition dumps (l : list json) (texts : list string) : Prop :=
  Forall2 (λ j t, json_dump j = inr t) l texts.

(** A service with a connection made. *)
Definition obs_ready (o : OBSService) : Prop := m_connected o = true ∧ is_Some (m_ws o).

End Spec.

(** ** Lemmas *)

Lemma ws_writes_app h1 h2 : ws_writes (h1 ++ h2) = ws_writes h1 ++ ws_writes h2.
Proof.
  induction h1 as [|ev h1 IH]; simpl; [done|]. rewrite IH. by destruct ev as [[] []| | |].
Qed.
#[export] Hint Rewrite ws_writes_app : sbot.

Section ObsLemmas.
Context {J : JsonApi}.
Implicit Types (s : OBSService) (ev : list io_event).

Lemma runs_with_ws {A} (c : coro OBSService A) s ev o s' :
  is_Some (m_ws s) → runs (with_ws c) s ev o s' → runs c s ev o s'.
Proof. intros [w Hw] Hr. unfold with_ws in Hr. runs_steps. by rewrite Hw in *. Qed.

(** One request on a connected service writes its text at most once. *)
Lemma runs_sendOBSCommand j s ev o s' :
  obs_ready s → runs (sendOBSCommand j) s ev o s' →
  s' = s ∧ o ≠ Undefined ∧
  ((∃ r, o = Ok r ∧ dumps [j] (ws_writes ev)) ∨
   (∃ e, o = Throw e ∧ (ws_writes ev = [] ∨ dumps [j] (ws_writes ev)))).
Proof.
  intros [Hc Hw] Hr. unfold sendOBSCommand, obs_sendMessage, receiveMessage in Hr. runs_steps.
  rewrite Hc in *. cbn [negb] in *. runs_steps;
    repeat (match goal with H : runs (with_ws _) _ _ _ _ |- _ =>
      apply runs_with_ws in H; [|done] end; runs_steps);
    simpl; split_and!; try done.
  all: first [left; eexists; split; [done|]; by repeat constructor | right; eexists; split; [done|]].
  all: first [by left | right; by repeat constructor].
Qed.

Lemma runs_take_request_id s ev o s' :
  runs take_request_id s ev o s' →
  ev = [] ∧ o = Ok (m_request_id s) ∧ s' = set_request_id (next_id (m_request_id s)) s.
Proof. unfold take_request_id. intros Hr. by runs_steps. Qed.

Lemma dumps_app l1 l2 t1 t2 : dumps l1 t1 → dumps l2 t2 → dumps (l1 ++ l2) (t1 ++ t2).
Proof. apply Forall2_app. Qed.

(** A run that writes the messages [l], or an exception and a beginning of them,
    and only moves the request number, to [i]. *)
Definition says {A} (l : list json) (i : Z) s ev (o : outcome A) s' : Prop :=
  s' = set_request_id i s ∧
  ((∃ a, o = Ok a ∧ dumps l (ws_writes ev)) ∨
   (∃ e l', o = Throw e ∧ l' `prefix_of` l ∧ dumps l' (ws_writes ev))).

(** A run from a connected service that writes the messages [l], or an exception and
    a beginning of them. *)
Definition speaks {A} (l : list json) ev (o : outcome A) : Prop :=
  o ≠ Undefined ∧ ∃ l', l' `prefix_of` l ∧ (∀ a, o = Ok a → l' = l) ∧ dumps l' (ws_writes ev).

Lemma speaks_silent {A} ev (o : outcome A) : o ≠ Undefined → ws_writes ev = [] → speaks [] ev o.
Proof. intros Hu Hw. split; [done|]. exists []. rewrite Hw. by repeat constructor. Qed.

Lemma speaks_throw {A} l ev e : ws_writes ev = [] → speaks (A := A) l ev (Throw e).
Proof.
  intros Hw. split; [done|]. exists []. rewrite Hw. split; [apply prefix_nil|].
  by repeat constructor.
Qed.

Lemma set_request_id_id s : set_request_id (m_request_id s) s = s.
Proof. by destruct s. Qed.

Lemma says_sendOBSCommand j s ev o s' :
  obs_ready s → runs (sendOBSCommand j) s ev o s' → says [j] (m_request_id s) s ev o s'.
Proof.
  intros Hok Hr. apply runs_sendOBSCommand in Hr as (-> & Hu & [(r & -> & Hd)|(e & -> & Hd)]);
    [| |done]; (split; [by rewrite set_request_id_id|]).
  - left. eauto.
  - right. exists e. destruct Hd as [Hd|Hd]; [exists []|exists [j]]; split_and!; try done.
    + apply prefix_nil.
    + rewrite Hd. constructor.
Qed.

Lemma says_take_request_id s ev o s' :
  runs take_request_id s ev o s' → says [] (next_id (m_request_id s)) s ev o s' ∧
    (∀ a, o = Ok a → a = m_request_id s).
Proof.
  intros Hr. apply runs_take_request_id in Hr as (-> & -> & ->).
  split; [|by intros a [= ->]]. split; [done|]. left. eexists; split; [done|]. constructor.
Qed.

(** A piece of conversation and what follows it, which may depend on an answer. *)
Lemma speaks_bind_ex {A B X} l1 (l2 : X → list json) (x0 : X) i (c : coro OBSService A)
    (f : A → coro OBSService B) P s ev o s' :
  runs (c ≫= f) s ev o s' →
  (∀ ev1 o1 s1, runs c s ev1 o1 s1 → says l1 i s ev1 o1 s1 ∧ ∀ a, o1 = Ok a → P a) →
  (∀ a ev2, P a → runs (f a) (set_request_id i s) ev2 o s' → ∃ x, speaks (l2 x) ev2 o) →
  ∃ x, speaks (l1 ++ l2 x) ev o.
Proof.
  intros Hr Hc Hf. apply runs_bind in Hr as (o1 & s1 & ev1 & ev2 & -> & Hr & Hx).
  apply Hc in Hr as [(-> & [(a & -> & Hd)|(e & l' & -> & Hl & Hd)]) HP].
  - apply Hf in Hx as (x & Hu & l' & Hl & Hok & Hd'); [|by apply HP]. exists x. split; [done|].
    exists (l1 ++ l'). split; [by apply prefix_app|]. rewrite ws_writes_app.
    split; [by intros b ->%Hok|by apply dumps_app].
  - destruct Hx as (-> & -> & ->). exists x0. split; [done|]. exists l'. rewrite app_nil_r.
    split; [by apply prefix_app_r|done].
Qed.

Lemma speaks_bind {A B} l1 l2 i (c : coro OBSService A) (f : A → coro OBSService B) P s ev o s' :
  runs (c ≫= f) s ev o s' →
  (∀ ev1 o1 s1, runs c s ev1 o1 s1 → says l1 i s ev1 o1 s1 ∧ ∀ a, o1 = Ok a → P a) →
  (∀ a ev2, P a → runs (f a) (set_request_id i s) ev2 o s' → speaks l2 ev2 o) →
  speaks (l1 ++ l2) ev o.
Proof.
  intros Hr Hc Hf. apply (speaks_bind_ex l1 (λ _ : unit, l2) tt i) with (P := P) in Hr as [_ ?]; [done..|].
  intros a ev2 Ha Hx. exists tt. by apply (Hf a).
Qed.

(** The same for a piece that is a whole method. *)
Lemma says_bind {A B} l i (c : coro OBSService A) (f : A → coro OBSService B) s ev o s' :
  runs (c ≫= f) s ev o s' →
  (∀ ev1 o1 s1, runs c s ev1 o1 s1 → says l i s ev1 o1 s1) →
  (∀ a s1 ev2 o2 s2, runs (f a) s1 ev2 o2 s2 → s2 = s1 ∧ ev2 = [] ∧ o2 ≠ Undefined) →
  says l i s ev o s'.
Proof.
  intros Hr Hc Hf. apply runs_bind in Hr as (o1 & s1 & ev1 & ev2 & -> & Hr & Hx).
  apply Hc in Hr as (-> & [(a & -> & Hd)|(e & l' & -> & Hl & Hd)]).
  - apply Hf in Hx as (-> & -> & Hu). rewrite app_nil_r. split; [done|].
    destruct o as [b|e|]; [left; eauto|right|done]. exists e, l. by split_and!.
  - destruct Hx as (-> & -> & ->). rewrite app_nil_r. split; [done|]. right. eauto 10.
Qed.

(** A numbered request whose answer is only looked at. *)
Lemma says_request {A} (mk : Z → json) (f : json → coro OBSService A) s ev o s' :
  obs_ready s → runs (i ← take_request_id; r ← sendOBSCommand (mk i); f r) s ev o s' →
  (∀ r s1 ev2 o2 s2, runs (f r) s1 ev2 o2 s2 → s2 = s1 ∧ ev2 = [] ∧ o2 ≠ Undefined) →
  says [mk (m_request_id s)] (next_id (m_request_id s)) s ev o s'.
Proof.
  intros Hok Hr Hf. apply runs_bind in Hr as (? & ? & ev0 & ev1 & -> & Hr & Hx).
  apply runs_take_request_id in Hr as (-> & -> & ->).
  eapply says_bind in Hx; [| |exact Hf]; [exact Hx|].
  intros ev2 o1 s1 Hr. by apply says_sendOBSCommand in Hr.
Qed.

Lemma says_getSourceId scene src s ev o s' :
  obs_ready s → runs (getSourceId scene src) s ev o s' →
  says [item_list_request scene (m_request_id s)] (next_id (m_request_id s)) s ev o s'.
Proof.
  intros Hok Hr. eapply (says_request (item_list_request scene)); [done|exact Hr|].
  clear. intros r s1 ev o s2 Hr. cbn beta in Hr. runs_steps; try done.
  runs_if; runs_steps; done.
Qed.

Lemma says_getMediaDuration src s ev o s' :
  obs_ready s → runs (getMediaDuration src) s ev o s' →
  says [media_status_request src (m_request_id s)] (next_id (m_request_id s)) s ev o s'.
Proof.
  intros Hok Hr. eapply (says_request (media_status_request src)); [done|exact Hr|].
  clear. intros r s1 ev o s2 Hr. cbn beta in Hr. runs_steps; try done.
  runs_if; runs_steps; try done. runs_if; runs_steps; done.
Qed.

(** A numbered request in the middle of a conversation. *)
Lemma speaks_request {A} (mk : Z → json) l (f : json → coro OBSService A) s ev o s' :
  let n := m_request_id s in
  obs_ready s → runs (i ← take_request_id; r ← sendOBSCommand (mk i); f r) s ev o s' →
  (∀ r ev2, runs (f r) (set_request_id (next_id n) s) ev2 o s' → speaks l ev2 o) →
  speaks (mk n :: l) ev o.
Proof.
  intros n Hok Hr Hf.
  eapply (speaks_bind [] _ (next_id n) _ _ (λ a, a = n)); [exact Hr|by intros; apply says_take_request_id|].
  intros ? ev2 -> Hx.
  eapply (speaks_bind [mk n] l (next_id n) _ _ (λ _, True)); [exact Hx| |by intros ???; apply Hf].
  intros ev1 o1 s1 Hr1. apply says_sendOBSCommand in Hr1; [|done]. by split.
Qed.

(** The rest of [playVideo] once the source is known. *)
Lemma speaks_show_and_hide scene src id s ev o s' :
  obs_ready s →
  runs (i ← take_request_id;
        _ ← sendOBSCommand (show_source_request scene src i);
        duration ← getMediaDuration src;
        await (IoTimer duration) ;;
        i ← take_request_id;
        _ ← sendOBSCommand (hide_source_request scene id i);
        mret tt) s ev o s' →
  let n2 := m_request_id s in let n3 := next_id n2 in
  speaks [show_source_request scene src n2; media_status_request src n3;
          hide_source_request scene id (next_id n3)] ev o.
Proof.
  intros Hok Hr n2 n3. eapply (speaks_request (show_source_request scene src)); [done|exact Hr|].
  clear Hr ev. intros r ev Hr. cbn beta in Hr.
  eapply (speaks_bind [media_status_request src n3] _ (next_id n3) _ _ (λ _, True)); [exact Hr| |].
  { intros ev1 o1 s1 Hr1. apply says_getMediaDuration in Hr1; [|done]. by split. }
  clear Hr ev. intros d ev _ Hr.
  apply runs_bind in Hr as (? & ? & ev1 & ev2 & -> & Hr & Hx).
  apply runs_await in Hr as (-> & [(-> & ->)|(e & -> & ->)]).
  - cbn [app]. apply (speaks_request (hide_source_request scene id)) with (l := []) in Hx; [exact Hx|done|].
    intros ? ev3 (-> & -> & _). by apply speaks_silent.
  - destruct Hx as (-> & _ & ->). by apply speaks_throw.
Qed.

End ObsLemmas.

(** ** Properties *)

Section Properties.
Context {J : JsonApi}.

Lemma speaks_play_body video scene src (s : OBSService) ev o s' :
  obs_ready s → runs (play_body video scene src) s ev o s' →
  ∃ id, speaks (conversation video scene src id (m_request_id s)) ev o.
Proof.
  intros Hok Hr. unfold play_body in Hr.
  apply runs_bind in Hr as (? & ? & ? & ? & -> & (-> & -> & ->) & Hr).
  rewrite (proj1 Hok) in Hr. cbn [negb] in Hr.
  apply runs_bind in Hr as (? & ? & ? & ? & -> & (-> & -> & ->) & Hr). cbn [app].
  unfold conversation. set (n := m_request_id s).
  eapply (speaks_bind_ex [] _ 0 (next_id n) _ _ (λ a, a = n)); [exact Hr|by intros; apply says_take_request_id|].
  intros ? ev1 -> Hx.
  eapply (speaks_bind_ex [_] _ 0 (next_id n) _ _ (λ _, True)); [exact Hx| |].
  { intros ev2 o1 s1 Hr1. apply says_sendOBSCommand in Hr1; [|done]. split; [exact Hr1|done]. }
  clear Hr Hx. intros r ev2 _ Hx.
  eapply (speaks_bind_ex [_] _ 0 (next_id (next_id n)) _ _ (λ _, True)); [exact Hx| |].
  { intros ev3 o1 s1 Hr1. apply says_getSourceId in Hr1; [|done]. split; [exact Hr1|done]. }
  clear Hx. intros id ev3 _ Hx. exists id. cbn beta in Hx. destruct (id =? -1).
  - destruct Hx as (-> & -> & _). by apply speaks_silent.
  - by apply speaks_show_and_hide in Hx.
Qed.


(** OBS out of reach: the service resolves its host with the password where
    the port belongs.  When that lookup fails, a service that never connected
    reports no error from [playVideo] but dereferences the websocket it does not
    have. *)
Theorem playVideo_null_websocket {env : Environment} (s : OBSService) video scene src t h :
  m_connected s = false → m_ws s = None →
  (∀ h, is_Some (env_do h (IoResolve (m_obs_host s) (m_obs_password s)))) →
  json_dump (set_media_request video src (m_request_id s)) = inr t →
  fst (fst (exec (playVideo video scene src) s h)) = Undefined.
Proof.
  intros Hc Hw Hres Hd.
  assert (Hcon : ∀ s1 h, m_connected s1 = false → m_obs_host s1 = m_obs_host s →
    m_obs_password s1 = m_obs_password s → ∃ h', exec connectToOBS s1 h = (Ok false, s1, h')).
  { intros s1 h1 Hc1 Hh Hp. unfold connectToOBS. rewrite exec_catch. cbn. rewrite Hh, Hp.
    destruct (Hres h1) as [e ->]. cbn. eexists. do 2 f_equal. by destruct s1; cbn in *; subst. }
  unfold playVideo, play_body. rewrite exec_catch. rewrite exec_bind. cbn [co_gets exec]. rewrite Hc. cbn [negb].
  rewrite exec_bind, exec_bind. destruct (Hcon s h Hc eq_refl eq_refl) as [h1 ->].
  cbn [mret coro_ret exec]. rewrite exec_bind. cbn [take_request_id mbind coro_bind co_bind co_gets
    co_modify mret coro_ret exec].
  set (s1 := set_request_id (next_id (m_request_id s)) s).
  rewrite exec_bind. unfold sendOBSCommand. rewrite exec_bind. cbn [co_gets exec].
  change (m_connected s1) with (m_connected s). rewrite Hc. cbn [negb].
  rewrite exec_bind, exec_bind. destruct (Hcon s1 h1 Hc eq_refl eq_refl) as [h2 ->].
  cbn [mret coro_ret exec]. rewrite exec_bind. unfold obs_sendMessage. rewrite exec_bind.
  rewrite Hd. cbn [co_lift exec with_ws]. unfold with_ws. rewrite exec_bind. cbn [co_gets exec].
  change (m_ws s1) with (m_ws s). by rewrite Hw.
Qed.

End Properties.

(** ** Examples *)

(** Nothing resolves. *)
Definition demo_offline_net : Environment := {|
  env_do _ op := match op with IoResolve _ _ => Some (mk_exn (SystemError "host_not_found") "Host not found")
                             | _ => None end;
  env_http_read _ := inl (runtime_error "no server");
  env_ws_read _ := inl (runtime_error "no server");
  env_random _ _ := O;
|}.

Lemma playVideo_null_websocket_witness :
  fst (fst (exec (env := demo_offline_net)
    (playVideo (J := JsonModel []) "intro.mp4" "Main" "Video") (new_OBSService "testpassword") [])) = Undefined.
Proof.
  eapply (playVideo_null_websocket (J := JsonModel []) (env := demo_offline_net));
    [reflexivity|reflexivity|intros h; eexists; reflexivity|reflexivity].
Defined.

(** OBS answering the first two requests, and then failing. *)
Definition demo_obs_texts : list (string * jvalue) :=
  [("set", JObject [("d", JObject [])]);
   ("list", JObject [("d", JObject [("responseData", JObject [("sceneItems", JArray
      [JObject [("sourceName", JString "Other"); ("sceneItemId", JInt 4)];
       JObject [("sourceName", JString "Video"); ("sceneItemId", JInt 7)]])])])])].

Definition demo_obs_net : Environment := {|
  env_do _ _ := None;
  env_http_read _ := inl (runtime_error "no server");
  env_ws_read h := match ["set"; "list"] !! ws_reads h with
                   | Some m => inr m | None => inl (mk_exn (SystemError "closed") "closed") end;
  env_random _ _ := O;
|}.


Example find_source_first :
  find_source (J := JsonModel []) [JObject [("sourceName", JString "Other"); ("sceneItemId", JInt 4)];
     JObject [("sourceName", JString "Video"); ("sceneItemId", JInt 7)]] "Video" = inr 7.
Proof. reflexivity. Qed.
