(* ===== verification/Logging.v ===== *)
(** * Logging

    Models [include/seraphbot/core/logging.hpp] and [src/core/logging.cpp].
    spdlog is outside the repository: the logger it is given is data (sinks,
    level, pattern), and each record handed to it is appended to [log_output].
    The one [Logger] of [Logger::instance] is a value that the operations take
    and return.  The log calls inside the other components are not modelled. *)

From S2P Require Import Prelude Cxx.

Inductive LogLevel := Trace | Debug | Info | Warn | Error | Critical | Off.

Definition level_number (l : LogLevel) : Z :=
  match l with
  | Trace => 0 | Debug => 1 | Info => 2 | Warn => 3 | Error => 4 | Critical => 5 | Off => 6
  end.

(** [spdlog::level::level_enum] *)
Inductive spd_level := spd_trace | spd_debug | spd_info | spd_warn | spd_err | spd_critical | spd_off.

Definition toSpdlogLevel (l : LogLevel) : spd_level :=
  match l with
  | Trace => spd_trace
  | Debug => spd_debug
  | Info => spd_info
  | Warn => spd_warn
  | Error => spd_err
  | Critical => spd_critical
  | Off => spd_off
  end.

Definition c_max_size : Z := 10 * 1024 * 1024.
Definition c_max_files : Z := 5.

Record Config := mk_Config {
  console_level : LogLevel;
  file_level : LogLevel;
  log_directory : string;
  log_filename : string;
  enable_console : bool;
  enable_file : bool;
  enable_rotation : bool;
  max_file_size : Z;
  max_files : Z;
  pattern : string;
}.

Definition default_Config : Config :=
  mk_Config Info Debug "logs" "seraphbot.log" true true true c_max_size c_max_files
    "[%Y-%m-%d %H:%M:%S.%e] [%n] [%^%l%$] [%t] %v".

Inductive sink :=
  | ConsoleSink (level : spd_level)
  | RotatingFileSink (path : string) (size files : Z) (level : spd_level)
  | BasicFileSink (path : string) (truncate : bool) (level : spd_level).

Record spd_logger := mk_spd { spd_name : string; spd_sinks : list sink;
                              spd_logger_level : spd_level; spd_pattern : string }.

Record Logger := mk_Logger {
  m_logger : option spd_logger;           (* a [std::shared_ptr] *)
  m_context_stack : list string;          (* bottom first *)
  m_current_level : LogLevel;
  log_output : list (spd_level * string); (* records handed to spdlog *)
  log_flushes : nat;
}.

Definition new_Logger : Logger := mk_Logger None [] Info [] 0.

Definition setupSinks (config : Config) (lg : Logger) : Logger :=
  let sinks := if enable_console config
               then [ConsoleSink (toSpdlogLevel (console_level config))] else [] in
  let full_path := log_directory config +:+ "/" +:+ log_filename config in
  let sinks :=
    if enable_file config then
      if enable_rotation config
      then sinks ++ [RotatingFileSink full_path (max_file_size config) (max_files config)
                       (toSpdlogLevel (file_level config))]
      else sinks ++ [BasicFileSink full_path true (toSpdlogLevel (file_level config))]
    else sinks in
  mk_Logger (Some (mk_spd "sbot" sinks spd_trace (pattern config)))
    (m_context_stack lg) (m_current_level lg) (log_output lg) (log_flushes lg).

Definition pushContext (context : string) (lg : Logger) : Logger :=
  mk_Logger (m_logger lg) (m_context_stack lg ++ [context]) (m_current_level lg)
    (log_output lg) (log_flushes lg).

(** [pop_back] on a non-empty vector *)
Definition popContext (lg : Logger) : Logger :=
  mk_Logger (m_logger lg) (removelast (m_context_stack lg)) (m_current_level lg)
    (log_output lg) (log_flushes lg).

Definition withContext : string → Logger → Logger := pushContext.

(** The loop that builds the context prefix. *)
Fixpoint context_loop (l : list string) (i : nat) (context_str : string) : string :=
  match l with
  | [] => context_str
  | c :: l' =>
      let context_str := if (0 <? i)%nat then context_str +:+ "::" else context_str in
      context_loop l' (S i) (context_str +:+ c)
  end.

Definition log (level : LogLevel) (message : string) (lg : Logger) : Logger :=
  match m_logger lg with
  | None => lg
  | Some _ =>
      if level_number level <? level_number (m_current_level lg) then lg
      else
        let full_message :=
          match m_context_stack lg with
          | [] => message
          | st => (context_loop st 0 "[" +:+ "] ") +:+ message
          end in
        mk_Logger (m_logger lg) (m_context_stack lg) (m_current_level lg)
          (log_output lg ++ [(toSpdlogLevel level, full_message)]) (log_flushes lg)
  end.

(** [std::format]: every replacement field of the program is a plain "{}" and the
    arguments are given as their texts.  The compiler refuses a format string
    with a stray brace or too few arguments. *)
Fixpoint std_format (fmt : string) (args : list string) : string :=
  match fmt with
  | "" => ""
  | String c fmt' =>
      if decide (c = "{"%char) then
        match fmt' with
        | "" => ""
        | String d rest =>
            if decide (d = "{"%char) then String c (std_format rest args)
            else match args with
                 | a :: args' => a +:+ std_format rest args'
                 | [] => ""
                 end
        end
      else if decide (c = "}"%char) then
        match fmt' with "" => "" | String _ rest => String c (std_format rest args) end
      else String c (std_format fmt' args)
  end.

Definition trace (fmt : string) (args : list string) : Logger → Logger :=
  log Trace (std_format fmt args).

Definition debug (fmt : string) (args : list string) : Logger → Logger :=
  log Debug (std_format fmt args).

Definition info (fmt : string) (args : list string) : Logger → Logger :=
  log Info (std_format fmt args).

Definition warn (fmt : string) (args : list string) : Logger → Logger :=
  log Warn (std_format fmt args).

Definition error (fmt : string) (args : list string) : Logger → Logger :=
  log Error (std_format fmt args).

Definition critical (fmt : string) (args : list string) : Logger → Logger :=
  log Critical (std_format fmt args).

Definition init (config : Config) : Logger → Logger := setupSinks config.

Definition setLevel (level : LogLevel) (lg : Logger) : Logger :=
  mk_Logger (m_logger lg) (m_context_stack lg) level (log_output lg) (log_flushes lg).

Definition getLevel (lg : Logger) : LogLevel := m_current_level lg.

Definition flush (lg : Logger) : Logger :=
  match m_logger lg with
  | None => lg
  | Some _ => mk_Logger (m_logger lg) (m_context_stack lg) (m_current_level lg)
                (log_output lg) (S (log_flushes lg))
  end.

(** A block [{ LogContext c(name); body }]: the constructor pushes, the
    destructor pops. *)
Definition with_LogContext (name : string) (body : Logger → Logger) (lg : Logger) : Logger :=
  popContext (body (pushContext name lg)).

(** The macros [LOG_TRACE] to [LOG_CRITICAL]; [Off] has none, and goes to [log]
    itself. *)
Definition log_call (level : LogLevel) : string → list string → Logger → Logger :=
  match level with
  | Trace => trace
  | Debug => debug
  | Info => info
  | Warn => warn
  | Error => error
  | Critical => critical
  | Off => λ fmt args, log Off (std_format fmt args)
  end.

(** ** Reference definitions *)

(** A single-threaded program of nested context blocks and log calls. *)
Inductive log_prog :=
  | LogCall (level : LogLevel) (fmt : string) (args : list string)
  | LogBlock (name : string) (body : list log_prog).

Fixpoint run_prog (p : log_prog) : Logger → Logger :=
  match p with
  | LogCall l fmt args => log_call l fmt args
  | LogBlock n body =>
      with_LogContext n ((fix go (b : list log_prog) (lg : Logger) : Logger :=
        match b with [] => lg | q :: b' => go b' (run_prog q lg) end) body)
  end.

(** The records it should write inside the contexts [ctx]. *)
Definition render_context (ctx : list string) (m : string) : string :=
  match ctx with [] => m | _ => "[" +:+ join "::" ctx +:+ "] " +:+ m end.

Fixpoint expected (cur : LogLevel) (ctx : list string) (p : log_prog) : list (spd_level * string) :=
  match p with
  | LogCall l fmt args =>
      if level_number l <? level_number cur then []
      else [(toSpdlogLevel l, render_context ctx (std_format fmt args))]
  | LogBlock n body => flat_map (expected cur (ctx ++ [n])) body
  end.

Section LogProgInd.
Variable P : log_prog → Prop.
Hypothesis Pcall : ∀ l fmt args, P (LogCall l fmt args).
Hypothesis Pblock : ∀ n body, Forall P body → P (LogBlock n body).

Fixpoint log_prog_ind' (p : log_prog) : P p :=
  match p with
  | LogCall l fmt args => Pcall l fmt args
  | LogBlock n body =>
      Pblock n body ((fix go (b : list log_prog) : Forall P b :=
        match b with
        | [] => Forall_nil_2 _
        | q :: b' => Forall_cons_2 _ _ _ (log_prog_ind' q) (go b')
        end) body)
  end.

End LogProgInd.

(** ** Lemmas *)

Lemma context_loop_join l i s :
  (0 < i)%nat →
  context_loop l i s = match l with [] => s | _ => s +:+ "::" +:+ join "::" l end.
Proof.
  revert i s. induction l as [|c l IH]; intros i s Hi; [done|]. simpl.
  rewrite (proj2 (Nat.ltb_lt 0 i)) by done. rewrite IH by lia.
  destruct l; [by rewrite str_app_assoc|]. cbn [join]. by rewrite !str_app_assoc.
Qed.

Lemma log_spec level m lg sp :
  m_logger lg = Some sp → level_number (m_current_level lg) ≤ level_number level →
  log level m lg =
    mk_Logger (m_logger lg) (m_context_stack lg) (m_current_level lg)
      (log_output lg ++ [(toSpdlogLevel level, render_context (m_context_stack lg) m)])
      (log_flushes lg).
Proof.
  intros Hl Hlev. unfold log. rewrite Hl. rewrite (proj2 (Z.ltb_ge _ _)) by done.
  unfold render_context. destruct (m_context_stack lg) as [|c st] eqn:Hs; [done|].
  simpl. repeat f_equal. rewrite context_loop_join by lia.
  destruct st; simpl; by rewrite ?str_app_assoc.
Qed.

Lemma run_prog_spec p lg sp :
  m_logger lg = Some sp →
  run_prog p lg =
    mk_Logger (m_logger lg) (m_context_stack lg) (m_current_level lg)
      (log_output lg ++ expected (m_current_level lg) (m_context_stack lg) p) (log_flushes lg).
Proof.
  revert lg. induction p as [l fmt args|n body IH] using log_prog_ind'; intros lg Hsp.
  - replace (run_prog (LogCall l fmt args)) with (log l (std_format fmt args)) by by destruct l.
    simpl. case_match eqn:Hl.
    + unfold log. rewrite Hsp, Hl. rewrite app_nil_r, <- Hsp. by destruct lg.
    + apply Z.ltb_ge in Hl. by apply (log_spec _ _ _ sp).
  - simpl. unfold with_LogContext.
    assert (Hgo : ∀ lg', m_logger lg' = Some sp →
      (fix go (b : list log_prog) (lg : Logger) : Logger :=
        match b with [] => lg | q :: b' => go b' (run_prog q lg) end) body lg' =
      mk_Logger (m_logger lg') (m_context_stack lg') (m_current_level lg')
        (log_output lg' ++ flat_map (expected (m_current_level lg') (m_context_stack lg')) body)
        (log_flushes lg')).
    { clear Hsp lg. induction IH as [|q b Hq _ IHb]; intros lg' Hlg.
      - simpl. rewrite app_nil_r. by destruct lg'.
      - rewrite Hq by done. rewrite IHb by done. simpl. by rewrite <- app_assoc. }
    rewrite Hgo by done. unfold popContext, pushContext; simpl.
    by rewrite removelast_last.
Qed.

(** ** Properties *)

(** Scoped contexts: in a single thread, a program of nested [LogContext]
    blocks and log calls writes exactly the records at or above the current
    level, each formatted with its arguments and prefixed with the names of the
    blocks around it in square brackets, outermost first and joined with "::",
    and leaves the context stack as it found it. *)
Theorem log_contexts_scoped p lg sp :
  m_logger lg = Some sp →
  log_output (run_prog p lg) =
    log_output lg ++ expected (m_current_level lg) (m_context_stack lg) p ∧
  m_context_stack (run_prog p lg) = m_context_stack lg.
Proof. intros Hsp. by rewrite (run_prog_spec _ _ _ Hsp). Qed.

Lemma log_contexts_scoped_witness :
  log_output (run_prog (LogBlock "Main" [LogCall Info "up" []; LogBlock "Auth"
      [LogCall Warn "slow: {} ms" ["300"]; LogCall Debug "hidden" []]]) (setupSinks default_Config new_Logger))
  = [(spd_info, "[Main] up"); (spd_warn, "[Main::Auth] slow: 300 ms")].
Proof.
  rewrite (proj1 (log_contexts_scoped (LogBlock "Main" [LogCall Info "up" [];
      LogBlock "Auth" [LogCall Warn "slow: {} ms" ["300"]; LogCall Debug "hidden" []]])
      (setupSinks default_Config new_Logger) _ eq_refl)).
  vm_compute. reflexivity.
Defined.

(** The context stack is one per process, not one per thread: when a second
    thread opens a context before the first one closes its own, the first
    thread's destructor removes the second thread's entry, and the second
    thread, still inside its block, logs under the other thread's name. *)
Theorem log_contexts_not_per_thread lg sp a b m :
  m_logger lg = Some sp → m_context_stack lg = [] → m_current_level lg = Trace →
  let lg1 := pushContext b (pushContext a lg) in
  let lg2 := popContext lg1 in
  m_context_stack lg2 = [a] ∧
  log_output (log Info m lg2) = log_output lg ++ [(spd_info, "[" +:+ a +:+ "] " +:+ m)].
Proof.
  intros Hsp Hst Hlv lg1 lg2.
  assert (Hc : m_context_stack lg2 = [a]) by (unfold lg2, lg1; simpl; by rewrite Hst).
  split; [done|]. rewrite (log_spec _ _ _ sp); [|done|simpl; rewrite Hlv; simpl; lia].
  simpl. rewrite Hst. done.
Qed.

Lemma log_contexts_not_per_thread_witness :
  let lg := setLevel Trace (setupSinks default_Config new_Logger) in
  m_context_stack (popContext (pushContext "EventSub" (pushContext "AppState" lg))) = ["AppState"].
Proof.
  intros lg.
  exact (proj1 (log_contexts_not_per_thread lg _ "AppState" "EventSub" "x" eq_refl eq_refl eq_refl)).
Defined.
