(* ===== verification/AudioSystem.v ===== *)
(** * Audio: directory whitelist, audio system and player

    Models [src/core/audio_system.cpp], [src/core/miniaudio_player.cpp] and their
    headers.  miniaudio is outside the repository: each call into it is recorded
    in the player's [ma_trace], and whether a call succeeds is a parameter
    [ma_success] of the trace so far and the call.  The file system is a
    [FileSystem] snapshot. *)

From Stdlib Require Import SpecFloat.
From S2P Require Import Prelude Cxx.

(** ** [class DirectoryWhitelist] *)

Definition backslash_char : ascii := Ascii.ascii_of_nat 92.

(** [std::replace(begin, end, '\\', '/')] *)
Definition replace_backslash (s : string) : string :=
  str_map (λ c, if decide (c = backslash_char) then slash else c) s.

Definition normalizePath (path : string) : string :=
  let result := replace_backslash path in
  if negb (str_empty result) && negb (bool_decide (str_last result = Some slash))
  then push_char result slash else result.

Record DirectoryWhitelist := mk_Whitelist { m_whitelisted_paths : gset string }.

Definition addWhitelistedDirectory (fs : FileSystem) (directory : string)
    (w : DirectoryWhitelist) : DirectoryWhitelist :=
  match fs_weakly_canonical fs directory with
  | Ok canonical =>
      mk_Whitelist ({[normalizePath canonical]} ∪ m_whitelisted_paths w)
  | _ => w
  end.

Definition new_DirectoryWhitelist (fs : FileSystem) : DirectoryWhitelist :=
  addWhitelistedDirectory fs "./sfx"
    (addWhitelistedDirectory fs "./audio"
      (addWhitelistedDirectory fs "./sounds" (mk_Whitelist ∅))).

Definition isPathAllowed (fs : FileSystem) (w : DirectoryWhitelist) (path : string) : bool :=
  match fs_weakly_canonical fs path with
  | Ok canonical =>
      existsb (λ whitelisted, starts_with (normalizePath canonical) whitelisted)
              (elements (m_whitelisted_paths w))
  | _ => false
  end.

Definition getWhitelistedDirectories (w : DirectoryWhitelist) : list string :=
  elements (m_whitelisted_paths w).

(** ** [class MiniaudioPlayer] *)

Inductive ma_call :=
  | MaInit
  | MaUninit
  | MaPlay (path : string)
  | MaSetVolume (vol : spec_float)
  | MaStop.

Record MiniaudioPlayer := mk_Player {
  m_engine : bool;                  (* the pointer is not null *)
  m_master_volume : spec_float;
  m_initialized : bool;
  ma_trace : list ma_call;
}.

Definition new_MiniaudioPlayer : MiniaudioPlayer :=
  mk_Player false (f32_div (f32_of_Z 7) (f32_of_Z 10)) false [].

Definition ma_emit (c : ma_call) (p : MiniaudioPlayer) : MiniaudioPlayer :=
  mk_Player (m_engine p) (m_master_volume p) (m_initialized p) (ma_trace p ++ [c]).

Definition volumeToFloat (volume : Z) : spec_float :=
  f32_div (f32_of_Z (clamp volume 0 100)) (f32_of_Z 100).

Definition floatToVolume (volume : spec_float) : Z :=
  f32_to_Z (f32_mul (f32_clamp volume (f32_of_Z 0) (f32_of_Z 1)) (f32_of_Z 100)).

Section Miniaudio.
Variable ma_success : list ma_call → ma_call → bool.

Definition initialize (p : MiniaudioPlayer) : bool * MiniaudioPlayer :=
  if m_initialized p then (true, p)
  else
    let p' := ma_emit MaInit p in
    if ma_success (ma_trace p) MaInit
    then (true, mk_Player true (m_master_volume p) true (ma_trace p'))
    else (false, mk_Player false (m_master_volume p) (m_initialized p) (ma_trace p')).

Definition shutdown (p : MiniaudioPlayer) : MiniaudioPlayer :=
  if negb (m_initialized p) then p
  else
    let p' := if m_engine p then
                mk_Player false (m_master_volume p) (m_initialized p) (ma_trace p ++ [MaUninit])
              else p in
    mk_Player (m_engine p') (m_master_volume p') false (ma_trace p').

Definition player_playSound (fs : FileSystem) (filepath : string) (volume : Z)
    : M MiniaudioPlayer bool := λ p,
  if negb (m_initialized p) || negb (m_engine p) then (Ok false, p)
  else match fs_exists fs filepath with
       | Ok false => (Ok false, p)
       | Throw e => (Throw e, p)
       | Undefined => (Undefined, p)
       | Ok true =>
           let volume := clamp volume 0 100 in
           let vol := f32_mul (volumeToFloat volume) (m_master_volume p) in
           let ok := ma_success (ma_trace p) (MaPlay filepath) in
           let p := ma_emit (MaPlay filepath) p in
           if negb ok then (Ok false, p)
           else (Ok true, ma_emit (MaSetVolume vol) p)
       end.

Definition player_setMasterVolume (volume : Z) (p : MiniaudioPlayer) : MiniaudioPlayer :=
  let volume := clamp volume 0 100 in
  let p := mk_Player (m_engine p) (volumeToFloat volume) (m_initialized p) (ma_trace p) in
  if m_engine p then ma_emit (MaSetVolume (m_master_volume p)) p else p.

Definition player_getMasterVolume (p : MiniaudioPlayer) : Z :=
  floatToVolume (m_master_volume p).

Definition stopAll (p : MiniaudioPlayer) : MiniaudioPlayer :=
  if negb (m_initialized p) || negb (m_engine p) then p else ma_emit MaStop p.

(** ** [class AudioSystem] *)

Record AudioSystem := mk_AudioSystem {
  m_whitelist : DirectoryWhitelist;
  m_player : option MiniaudioPlayer;      (* a [std::unique_ptr] *)
}.

Definition new_AudioSystem (fs : FileSystem) : AudioSystem :=
  mk_AudioSystem (new_DirectoryWhitelist fs) (Some (snd (initialize new_MiniaudioPlayer))).

Definition getSupportedExtensions : list string := [".mp3"; ".wav"; ".flac"; ".ogg"].

Definition isSupportedAudioFile (path : string) : bool :=
  bool_decide (tolower (path_extension path) ∈ getSupportedExtensions).

Definition listAudioFiles (fs : FileSystem) (a : AudioSystem) (directory : string)
    : outcome (list string) :=
  if negb (isPathAllowed fs (m_whitelist a) directory) then Ok []
  else
    ex ← fs_exists fs directory;
    if negb ex then Ok []
    else
      isd ← fs_is_directory fs directory;
      if negb isd then Ok []
      else
        let '(entries, err) := fs_directory_iterator fs directory in
        let audio_files :=
          map (λ e : string * bool, path_stem (fst e))
            (base.filter (λ e : string * bool,
               is_true (snd e && isSupportedAudioFile (fst e))) entries) in
        match err with
        | None => Ok (sort_strings audio_files)
        | Some _ => Ok audio_files
        end.

(** The candidates of the extension loop of [findAudioFile]. *)
Fixpoint find_candidates (fs : FileSystem) (directory name : string) (exts : list string)
    : outcome (list string) :=
  match exts with
  | [] => Ok []
  | ext :: exts' =>
      let candidate := path_append directory (name +:+ ext) in
      ex ← fs_exists fs candidate;
      reg ← (if ex : bool then fs_is_regular_file fs candidate else Ok false);
      rest ← find_candidates fs directory name exts';
      Ok (if reg : bool then candidate :: rest else rest)
  end.

Definition findAudioFile (fs : FileSystem) (a : AudioSystem) (name directory : string)
    : outcome string :=
  if negb (isPathAllowed fs (m_whitelist a) directory) then Ok ""
  else
    ex ← fs_exists fs directory;
    if negb ex then Ok ""
    else match find_candidates fs directory name getSupportedExtensions with
         | Ok [] => Ok ""
         | Ok (f :: _) => Ok f
         | Throw _ => Ok ""
         | Undefined => Undefined
         end.

Definition playSound (fs : FileSystem) (filepath : string) (volume : Z)
    : M AudioSystem bool := λ a,
  match fs_exists fs filepath with
  | Throw e => (Throw e, a)
  | Undefined => (Undefined, a)
  | Ok false => (Ok false, a)
  | Ok true =>
      if negb (isPathAllowed fs (m_whitelist a) (path_parent filepath)) then (Ok false, a)
      else
        let volume := clamp volume 0 100 in
        match m_player a with
        | None => (Ok false, a)
        | Some p =>
            if negb (m_initialized p) then (Ok false, a)
            else
              let '(r, p') := player_playSound fs filepath volume p in
              (r, mk_AudioSystem (m_whitelist a) (Some p'))
        end
  end.

Definition setMasterVolume (volume : Z) (a : AudioSystem) : AudioSystem :=
  match m_player a with
  | Some p => if m_initialized p
              then mk_AudioSystem (m_whitelist a) (Some (player_setMasterVolume volume p))
              else a
  | None => a
  end.

Definition getMasterVolume (a : AudioSystem) : Z :=
  match m_player a with
  | Some p => if m_initialized p then player_getMasterVolume p else 70
  | None => 70
  end.

Definition stopAllSounds (a : AudioSystem) : AudioSystem :=
  match m_player a with
  | Some p => if m_initialized p
              then mk_AudioSystem (m_whitelist a) (Some (stopAll p))
              else a
  | None => a
  end.

End Miniaudio.

(** ** Reference definitions *)

(** The components of a path: the names between its slashes, without the empty one
    after a last slash.  An absolute path begins with the empty name before its first
    slash, which is all the root has; the empty path has none. *)
Definition posix_components (s : string) : list string :=
  if str_empty s then []
  else if bool_decide (last (split_slash s) = Some "")
       then removelast (split_slash s) else split_slash s.

(** The same with the backslash, an ordinary character of a POSIX name, read as a
    second separator. *)
Definition components (s : string) : list string := posix_components (replace_backslash s).

Definition no_backslash (s : string) : bool :=
  str_forall (λ c, negb (bool_decide (c = backslash_char))) s.

(** The directory [d] is the path [c] or one of the directories above it. *)
Definition within_directory (c d : string) : Prop :=
  posix_components d `prefix_of` posix_components c.
Definition within_read_as_slashes (c d : string) : Prop :=
  components d `prefix_of` components c.

(** A whitelist built by adding the directories of a list. *)
Definition whitelist_of (fs : FileSystem) (dirs : list string) : DirectoryWhitelist :=
  foldr (addWhitelistedDirectory fs) (mk_Whitelist ∅) dirs.

(** What miniaudio requires of its caller: an engine is initialised when there is
    none, and used or released only while it is initialised.  [ma_run] gives
    [None] when a call breaks that, else whether the engine is live at the end. *)
Fixpoint ma_run (ma_success : list ma_call → ma_call → bool) (hist : list ma_call)
    (alive : bool) (t : list ma_call) : option bool :=
  match t with
  | [] => Some alive
  | c :: t' =>
      let next := ma_run ma_success (hist ++ [c]) in
      match c, alive with
      | MaInit, false => next (ma_success hist MaInit) t'
      | MaUninit, true => next false t'
      | (MaPlay _ | MaSetVolume _ | MaStop), true => next true t'
      | _, _ => None
      end
  end.

Definition player_inv (ma_success : list ma_call → ma_call → bool) (p : MiniaudioPlayer) : Prop :=
  m_initialized p = m_engine p ∧
  ma_run ma_success [] false (ma_trace p) = Some (m_engine p).

(** The operations a client can call on the player, in any order. *)
Inductive player_op :=
  | OpInitialize | OpShutdown | OpStopAll
  | OpSetMasterVolume (v : Z)
  | OpPlaySound (fs : FileSystem) (path : string) (v : Z).

Definition player_step (ma_success : list ma_call → ma_call → bool) (p : MiniaudioPlayer)
    (o : player_op) : MiniaudioPlayer :=
  match o with
  | OpInitialize => snd (initialize ma_success p)
  | OpShutdown => shutdown p
  | OpStopAll => stopAll p
  | OpSetMasterVolume v => player_setMasterVolume v p
  | OpPlaySound fs path v => snd (player_playSound ma_success fs path v p)
  end.

(** ** Lemmas *)

Lemma replace_backslash_clean s : no_backslash s = true → replace_backslash s = s.
Proof.
  unfold replace_backslash, no_backslash. induction s as [|c s IH]; simpl; [done|].
  intros [Hc Hs]%andb_true_iff. apply negb_true_iff, bool_decide_eq_false in Hc.
  rewrite decide_False by done. by rewrite IH.
Qed.

Lemma components_clean s : no_backslash s = true → components s = posix_components s.
Proof. unfold components. by intros ->%replace_backslash_clean. Qed.

Lemma within_clean c d : no_backslash c = true → no_backslash d = true →
  within_read_as_slashes c d ↔ within_directory c d.
Proof. intros Hc Hd. unfold within_read_as_slashes. by rewrite !components_clean. Qed.

(** The closed form of a path: a slash after its components. *)
Lemma normalizePath_closed s :
  (normalizePath s = "" ∧ components s = []) ∨
  ∃ t, normalizePath s = t +:+ String slash "" ∧ components s = split_slash t.
Proof.
  unfold normalizePath, components, posix_components.
  generalize (replace_backslash s). clear s. intros s.
  destruct (str_snoc_cases s) as [->|(t & c & ->)]; [by left|]. right.
  pose proof (push_char_nonempty t c) as He. unfold push_char in He. rewrite He, str_last_snoc. clear He. destruct (decide (c = slash)) as [->|Hc].
  - exists t. rewrite !bool_decide_true.
    + split; [done|]. rewrite split_slash_app. apply removelast_last.
    + rewrite split_slash_app. apply last_snoc.
    + done.
  - exists (t +:+ String c ""). rewrite !bool_decide_false by (congruence || by apply split_slash_last).
    done.
Qed.

Lemma starts_with_within c d :
  starts_with (normalizePath c) (normalizePath d) = true ↔ within_read_as_slashes c d.
Proof.
  unfold within_read_as_slashes.
  destruct (normalizePath_closed d) as [[-> ->]|(td & -> & ->)].
  - split; [intros _; apply prefix_nil|]. intros _. by destruct (normalizePath c).
  - destruct (normalizePath_closed c) as [[-> ->]|(tc & -> & ->)]; [|apply starts_with_components].
    split; [by destruct td|]. intros ?%prefix_nil_inv. by apply split_slash_nonnil in H.
Qed.

Lemma elem_of_whitelist_of fs dirs x :
  x ∈ m_whitelisted_paths (whitelist_of fs dirs) ↔
  ∃ dir d, dir ∈ dirs ∧ fs_weakly_canonical fs dir = Ok d ∧ x = normalizePath d.
Proof.
  induction dirs as [|dir dirs IH]; cbn [foldr whitelist_of].
  - split; [by intros ?%elem_of_empty|]. intros (? & ? & []%not_elem_of_nil & _).
  - fold (whitelist_of fs dirs). unfold addWhitelistedDirectory. setoid_rewrite elem_of_cons.
    destruct (fs_weakly_canonical fs dir) eqn:E; cbn [m_whitelisted_paths];
      rewrite ?elem_of_union, ?elem_of_singleton, IH; clear IH.
    + split; [intros [->|(d0 & d & ? & ? & ?)]|intros (d0 & d & [->|] & ? & ->)];
        subst; eauto 10; first [congruence | left; congruence].
    + split; [intros (d0 & d & ? & ? & ?)|intros (d0 & d & [->|] & ? & ->)];
        subst; eauto 10; congruence.
    + split; [intros (d0 & d & ? & ? & ?)|intros (d0 & d & [->|] & ? & ->)];
        subst; eauto 10; congruence.
Qed.

Lemma isPathAllowed_true fs w p c :
  fs_weakly_canonical fs p = Ok c →
  isPathAllowed fs w p = true ↔
  ∃ x, x ∈ m_whitelisted_paths w ∧ starts_with (normalizePath c) x = true.
Proof.
  intros Hc. unfold isPathAllowed. rewrite Hc, existsb_exists.
  split; intros (x & Hx & Hs); exists x; split; try done.
  - by apply elem_of_elements, list_elem_of_In.
  - by apply list_elem_of_In, elem_of_elements.
Qed.

Lemma ma_run_snoc ok hist a t c :
  ma_run ok hist a (t ++ [c]) = b ← ma_run ok hist a t; ma_run ok (hist ++ t) b [c].
Proof.
  revert hist a. induction t as [|d t IH]; intros hist a; cbn [app].
  - cbn [ma_run mbind option_bind]. by rewrite app_nil_r.
  - cbn [ma_run]. destruct d, a; try done; rewrite IH, <- app_assoc; done.
Qed.

Lemma player_step_inv ok p o : player_inv ok p → player_inv ok (player_step ok p o).
Proof.
  intros [Hi Ht]. unfold player_inv in *.
  destruct o; simpl;
    unfold initialize, shutdown, stopAll, player_setMasterVolume, player_playSound, ma_emit;
    rewrite Hi; destruct (m_engine p) eqn:He; simpl; rewrite ?He, ?Hi; auto;
    repeat (case_match; simpl; rewrite ?He, ?Hi; auto);
    rewrite ?ma_run_snoc, ?Ht; simpl; auto; try congruence.
  all: try (split; [done|]; f_equal; congruence).
Qed.

Lemma find_candidates_spec fs dir name exts l :
  find_candidates fs dir name exts = Ok l →
  l = map (λ ext, path_append dir (name +:+ ext))
        (base.filter (λ ext, fs_exists fs (path_append dir (name +:+ ext)) = Ok true ∧
                        fs_is_regular_file fs (path_append dir (name +:+ ext)) = Ok true) exts).
Proof.
  revert l. induction exts as [|ext exts IH]; intros l; simpl; [by intros [= <-]|].
  set (cand := path_append dir (name +:+ ext)).
  destruct (fs_exists fs cand) as [[]| |] eqn:Ee; simpl; try done;
    [destruct (fs_is_regular_file fs cand) as [[]| |] eqn:Er; simpl; try done|];
    destruct (find_candidates fs dir name exts) as [rest| |] eqn:Ef; simpl; try done;
    intros [= <-]; specialize (IH _ eq_refl); rewrite filter_cons;
    fold cand; rewrite Ee, ?Er.
  - rewrite decide_True by done. simpl. by rewrite IH.
  - rewrite decide_False by naive_solver. done.
  - rewrite decide_False by naive_solver. done.
Qed.

Lemma isPathAllowed_within fs dirs p :
  isPathAllowed fs (whitelist_of fs dirs) p = true ↔
  ∃ c dir d, fs_weakly_canonical fs p = Ok c ∧ dir ∈ dirs ∧
    fs_weakly_canonical fs dir = Ok d ∧ within_read_as_slashes c d.
Proof.
  destruct (fs_weakly_canonical fs p) as [c| |] eqn:Hc;
    [|unfold isPathAllowed; rewrite Hc; naive_solver..].
  rewrite (isPathAllowed_true _ _ _ _ Hc). setoid_rewrite elem_of_whitelist_of. split.
  - intros (x & (dir & d & Hin & Hd & ->) & Hs%starts_with_within). by exists c, dir, d.
  - intros (c' & dir & d & [= <-] & Hin & Hd & Hw%starts_with_within). eauto 10.
Qed.

Lemma playSound_cases ok fs path v a :
  snd (playSound ok fs path v a) = a ∨
  fs_exists fs path = Ok true ∧
  isPathAllowed fs (m_whitelist a) (path_parent path) = true ∧
  ∃ p p', m_player a = Some p ∧ m_initialized p = true ∧ m_engine p = true ∧
    snd (playSound ok fs path v a) = mk_AudioSystem (m_whitelist a) (Some p') ∧
    ma_trace p' = ma_trace p ++
      if ok (ma_trace p) (MaPlay path)
      then [MaPlay path; MaSetVolume (f32_mul (volumeToFloat (clamp v 0 100)) (m_master_volume p))]
      else [MaPlay path].
Proof.
  unfold playSound. destruct (fs_exists fs path) as [[]| |] eqn:Ee; auto.
  destruct (isPathAllowed fs (m_whitelist a) (path_parent path)) eqn:Ea; auto; simpl.
  destruct (m_player a) as [p|] eqn:Ep; auto.
  unfold player_playSound. rewrite Ee.
  destruct (m_initialized p) eqn:Ei; auto; simpl.
  destruct (m_engine p) eqn:Eg; simpl.
  2:{ left. rewrite <- Ep. by destruct a. }
  assert (Hcl : clamp (clamp v 0 100) 0 100 = clamp v 0 100).
  { unfold clamp. repeat case_match; lia. }
  rewrite Hcl. right. split_and!; [done..|].
  exists p. destruct (ok (ma_trace p) (MaPlay path)) eqn:Eo; simpl; eexists;
    (split_and!; [done..|]); simpl; by rewrite <- ?app_assoc.
Qed.

(** ** Properties *)

(** C10.  The whitelist test is containment in a directory tree: for a whitelist
    built from any list of directories, on any file system, a path is allowed
    exactly when it has a canonical form, and the components of some whitelisted
    directory are the first components of that form, a backslash in a name being
    read as a separator.  In particular a sibling that shares a name prefix, such
    as "sounds-private" beside "sounds", is refused. *)
Theorem isPathAllowed_containment fs dirs p :
  isPathAllowed fs (whitelist_of fs dirs) p = true ↔
  ∃ c dir d, fs_weakly_canonical fs p = Ok c ∧ dir ∈ dirs ∧
    fs_weakly_canonical fs dir = Ok d ∧ within_read_as_slashes c d.
Proof. apply isPathAllowed_within. Qed.

(** C9.  Sandbox: whatever path and volume [AudioSystem::playSound] is given, and
    whatever miniaudio answers, the state of the audio system changes only when
    the file exists and its parent directory has a canonical form inside a
    whitelisted directory, a backslash in a name being read as a separator: when
    the two canonical names have no backslash the parent really lies in that
    directory.  The change is then one call that plays exactly that file, followed
    on success by one volume call. *)
Theorem playSound_sandboxed ok fs dirs path v a :
  m_whitelist a = whitelist_of fs dirs →
  snd (playSound ok fs path v a) ≠ a →
  fs_exists fs path = Ok true ∧
  (∃ c dir d, fs_weakly_canonical fs (path_parent path) = Ok c ∧
     dir ∈ dirs ∧ fs_weakly_canonical fs dir = Ok d ∧ within_read_as_slashes c d ∧
     (no_backslash c = true → no_backslash d = true → within_directory c d)) ∧
  ∃ p p', m_player a = Some p ∧ m_player (snd (playSound ok fs path v a)) = Some p' ∧
    ma_trace p' = ma_trace p ++
      if ok (ma_trace p) (MaPlay path)
      then [MaPlay path; MaSetVolume (f32_mul (volumeToFloat (clamp v 0 100)) (m_master_volume p))]
      else [MaPlay path].
Proof.
  intros Hw Hne.
  destruct (playSound_cases ok fs path v a) as [?|(He & Ha & p & p' & Hp & _ & _ & Hs & Ht)]; [done|].
  split; [done|]. split.
  - rewrite Hw in Ha. apply isPathAllowed_within in Ha as (c & dir & d & ? & ? & ? & Hin).
    exists c, dir, d. split_and!; try done. intros. by apply within_clean.
  - exists p, p'. by rewrite Hs.
Qed.

(** C38.  Life cycle of the miniaudio engine: in every sequence of player
    operations, starting from the constructor, the engine is initialised only
    when there is none, and played, stopped, set or released only while it is
    live: no use of a released engine and no double release. *)
Theorem player_lifecycle ok (ops : list player_op) :
  player_inv ok (foldl (player_step ok) new_MiniaudioPlayer ops).
Proof.
  assert (H : player_inv ok new_MiniaudioPlayer) by done. revert H.
  generalize new_MiniaudioPlayer. induction ops as [|o ops IH]; simpl; auto.
  intros p Hp. by apply IH, player_step_inv.
Qed.

(** Master volume in binary32 arithmetic: reading the master volume after
    setting it gives the value clamped to 0..100, except for 53 and 59, which
    read back as 52 and 58 because the product is truncated. *)
Theorem masterVolume_readback v p :
  player_getMasterVolume (player_setMasterVolume v p) =
    let c := clamp v 0 100 in if decide (c = 53 ∨ c = 59) then c - 1 else c.
Proof.
  assert (Hb : 0 ≤ clamp v 0 100 ≤ 100) by (unfold clamp; repeat case_match; lia).
  assert (Hcl : clamp (clamp v 0 100) 0 100 = clamp v 0 100).
  { unfold clamp. repeat case_match; lia. }
  unfold player_getMasterVolume, player_setMasterVolume. cbn [m_engine].
  replace (m_master_volume _) with (volumeToFloat (clamp v 0 100))
    by (by destruct (m_engine p)).
  unfold volumeToFloat. rewrite Hcl. clear Hcl. generalize dependent (clamp v 0 100).
  intros c Hb. cbv zeta.
  assert (Hall : forallb (λ n, let c := Z.of_nat n in
            floatToVolume (f32_div (f32_of_Z c) (f32_of_Z 100)) =?
            (if decide (c = 53 ∨ c = 59) then c - 1 else c)) (seq 0 101) = true)
    by (vm_compute; reflexivity).
  rewrite forallb_forall in Hall. specialize (Hall (Z.to_nat c)). cbv zeta in Hall.
  rewrite Z2Nat.id in Hall by lia. apply Z.eqb_eq, Hall, in_seq. lia.
Qed.

(** [listAudioFiles] on an allowed directory that iterates without an error
    returns, in ascending byte order, exactly the stems of the regular files
    with a supported extension (in any letter case). *)
Theorem listAudioFiles_sorted fs a dir entries :
  isPathAllowed fs (m_whitelist a) dir = true →
  fs_exists fs dir = Ok true → fs_is_directory fs dir = Ok true →
  fs_directory_iterator fs dir = (entries, None) →
  ∃ l, listAudioFiles fs a dir = Ok l ∧ Sorted str_le l ∧
    l ≡ₚ map (λ e, path_stem (fst e))
           (base.filter (λ e : string * bool,
              snd e = true ∧ tolower (path_extension (fst e)) ∈ getSupportedExtensions) entries).
Proof.
  intros Ha He Hd Hi. unfold listAudioFiles. rewrite Ha, He; simpl. rewrite Hd; simpl. rewrite Hi.
  eexists. split; [done|]. split; [apply sort_strings_Sorted|].
  rewrite sort_strings_Permutation. f_equiv. apply reflexive_eq, list_filter_iff.
  intros [f b]. unfold isSupportedAudioFile; simpl. unfold is_true.
  by rewrite andb_true_iff, bool_decide_eq_true.
Qed.

(** [findAudioFile] on an allowed, existing directory returns the first
    supported extension, in the order mp3, wav, flac, ogg, for which the
    directory has a regular file of the given name, and the empty string when
    there is none. *)
Theorem findAudioFile_first fs a name dir cands :
  isPathAllowed fs (m_whitelist a) dir = true → fs_exists fs dir = Ok true →
  find_candidates fs dir name getSupportedExtensions = Ok cands →
  findAudioFile fs a name dir = Ok (default "" (head
    (map (λ ext, path_append dir (name +:+ ext))
       (base.filter (λ ext, fs_exists fs (path_append dir (name +:+ ext)) = Ok true ∧
          fs_is_regular_file fs (path_append dir (name +:+ ext)) = Ok true)
          getSupportedExtensions)))).
Proof.
  intros Ha He Hc. rewrite <- (find_candidates_spec _ _ _ _ _ Hc).
  unfold findAudioFile. rewrite Ha, He, Hc; simpl. by destruct cands.
Qed.

(** ** A concrete file system for the witnesses: a working directory "/bot" with
    "sounds/airhorn.mp3", "sounds/Bell.WAV" and "sounds/notes.txt", and
    "secret.mp3" beside the whitelisted directories. *)

Definition demo_canonical (p : string) : outcome string :=
  if bool_decide (p = "sounds" ∨ p = "./sounds") then Ok "/bot/sounds"
  else if bool_decide (p = "./audio") then Ok "/bot/audio"
  else if bool_decide (p = "./sfx") then Ok "/bot/sfx"
  else if bool_decide (p = "sounds-private") then Ok "/bot/sounds-private"
  else if bool_decide (p = "sounds/memes") then Ok "/bot/sounds/memes"
  else if bool_decide (p = "sounds/..") then Ok "/bot"
  else Throw (mk_exn StdException "filesystem error").

Definition demo_fs : FileSystem := {|
  fs_exists p := Ok (bool_decide (p ∈ ["sounds"; "sounds/airhorn.mp3"; "sounds/Bell.WAV";
                                       "sounds/../secret.mp3"]));
  fs_is_directory p := Ok (bool_decide (p = "sounds"));
  fs_is_regular_file p := Ok (bool_decide (p ∈ ["sounds/airhorn.mp3"; "sounds/Bell.WAV";
                                                "sounds/../secret.mp3"]));
  fs_directory_iterator p :=
    ([("sounds/notes.txt", true); ("sounds/memes", false);
      ("sounds/airhorn.mp3", true); ("sounds/Bell.WAV", true)], None);
  fs_weakly_canonical := demo_canonical;
|}.

Definition demo_dirs : list string := ["./sfx"; "./audio"; "./sounds"].

Definition demo_audio : AudioSystem := new_AudioSystem (λ _ _, true) demo_fs.

Lemma playSound_sandboxed_witness :
  fs_exists demo_fs "sounds/airhorn.mp3" = Ok true ∧
  snd (playSound (λ _ _, true) demo_fs "sounds/airhorn.mp3" 250 demo_audio) ≠ demo_audio.
Proof.
  assert (Hne : snd (playSound (λ _ _, true) demo_fs "sounds/airhorn.mp3" 250 demo_audio)
                ≠ demo_audio) by (vm_compute; discriminate).
  split; [|exact Hne].
  exact (proj1 (playSound_sandboxed (λ _ _, true) demo_fs demo_dirs "sounds/airhorn.mp3" 250
                  demo_audio eq_refl Hne)).
Defined.

(** The components of the root, of directories, and of a name with a backslash. *)
Example components_examples :
  map posix_components ["/"; "/bot/sounds"; "/bot/sounds/"; ""; "/bot/sounds\evil"] =
    [[""]; [""; "bot"; "sounds"]; [""; "bot"; "sounds"]; []; [""; "bot"; "sounds\evil"]] ∧
  components "/bot/sounds\evil" = [""; "bot"; "sounds"; "evil"].
Proof. split; vm_compute; reflexivity. Qed.

Lemma listAudioFiles_sorted_witness :
  ∃ l, listAudioFiles demo_fs demo_audio "sounds" = Ok l ∧ l = ["Bell"; "airhorn"].
Proof.
  destruct (listAudioFiles_sorted demo_fs demo_audio "sounds" _ eq_refl eq_refl eq_refl eq_refl)
    as (l & Hl & _). exists l. split; [exact Hl|].
  vm_compute in Hl. by injection Hl as <-.
Defined.

Lemma findAudioFile_first_witness :
  findAudioFile demo_fs demo_audio "airhorn" "sounds" = Ok "sounds/airhorn.mp3".
Proof.
  rewrite (findAudioFile_first demo_fs demo_audio "airhorn" "sounds" ["sounds/airhorn.mp3"]
             eq_refl eq_refl eq_refl). reflexivity.
Defined.

(** [findAudioFile] checks the directory against the whitelist but not the
    name appended to it: with the name "../secret" it answers with a file
    outside every whitelisted directory, so a script can probe for files there;
    [playSound] then refuses that file and leaves the player untouched. *)
Theorem findAudioFile_escapes :
  findAudioFile demo_fs demo_audio "../secret" "sounds" = Ok "sounds/../secret.mp3" ∧
  isPathAllowed demo_fs (m_whitelist demo_audio) (path_parent "sounds/../secret.mp3") = false ∧
  playSound (λ _ _, true) demo_fs "sounds/../secret.mp3" 70 demo_audio = (Ok false, demo_audio).
Proof. split_and!; vm_compute; reflexivity. Qed.

(** A POSIX file system with a directory of the name "sounds\evil" beside "sounds". *)
Definition backslash_fs : FileSystem := {|
  fs_exists p := Ok (bool_decide (p = "/bot/sounds\evil/x.mp3"));
  fs_is_directory p := Ok (bool_decide (p = "/bot/sounds\evil"));
  fs_is_regular_file p := Ok (bool_decide (p = "/bot/sounds\evil/x.mp3"));
  fs_directory_iterator _ := ([], None);
  fs_weakly_canonical p :=
    if bool_decide (p = "/bot/sounds\evil") then Ok p else demo_canonical p;
|}.

(** The two readings of a backslash differ: the test takes the directory
    "sounds\evil" for a directory inside "sounds", so a file in it is played
    although its directory lies in no whitelisted one. *)
Theorem backslash_sibling_played :
  let a := new_AudioSystem (λ _ _, true) backslash_fs in
  let path := "/bot/sounds\evil/x.mp3" in
  fst (playSound (λ _ _, true) backslash_fs path 70 a) = Ok true ∧
  Forall (λ dir, ∀ d, fs_weakly_canonical backslash_fs dir = Ok d →
            ¬ within_directory (path_parent path) d) demo_dirs.
Proof.
  split; [vm_compute; reflexivity|].
  repeat constructor; intros d Hd; vm_compute in Hd; injection Hd as <-; intros [l Hl];
    vm_compute in Hl; discriminate Hl.
Qed.
