(* ===== verification/Cooldown.v ===== *)
(** * Command metadata, cooldowns and usage counters

    Models [CommandMetadata] and [CooldownTracker] of
    [include/seraphbot/core/lua_command_engine.hpp] and
    [src/core/lua_command_engine.cpp].  A [steady_clock::time_point] is a number
    of nanoseconds; the value of [steady_clock::now()] is an argument. *)

From S2P Require Import Prelude Cxx.

Record CommandMetadata := mk_Metadata {
  md_name : string;
  md_description : string;
  md_usage : string;
  md_aliases : list string;
  global_cooldown : Z;
  command_cooldown : Z;
  user_cooldown : Z;
  mod_only : bool;
  vip_only : bool;
  subscriber_only : bool;
  allowed_users : list string;
  enabled : bool;
  max_uses_per_stream : Z;
}.

(** The in-class initialisers. *)
Definition default_CommandMetadata : CommandMetadata :=
  mk_Metadata "" "" "" [] 0 0 0 false false false [] true (-1).

Record CooldownTracker := mk_Tracker {
  last_global_command : Z;
  last_command_use : gmap string Z;
  user_command_cooldowns : gmap string (gmap string Z);
  command_use_count : gmap string Z;
}.

Definition new_CooldownTracker : CooldownTracker := mk_Tracker 0 ∅ ∅ ∅.

Definition second : Z := 1000000000.

(** [duration_cast<seconds>(now - last).count()] *)
Definition seconds_since (now last : Z) : Z := Z.quot (now - last) second.

Definition isOnCooldown (t : CooldownTracker) (now : Z) (command user : string)
    (meta : CommandMetadata) : bool :=
  if (0 <? global_cooldown meta) &&
     (seconds_since now (last_global_command t) <? global_cooldown meta) then true
  else if (0 <? command_cooldown meta) &&
          match last_command_use t !! command with
          | Some last => seconds_since now last <? command_cooldown meta
          | None => false
          end then true
  else if (0 <? user_cooldown meta) &&
          match user_command_cooldowns t !! command with
          | Some m => match m !! user with
                      | Some last => seconds_since now last <? user_cooldown meta
                      | None => false
                      end
          | None => false
          end then true
  else false.

(** [recordUsage]; incrementing an [int] counter at [INT_MAX] is undefined. *)
Definition recordUsage (t : CooldownTracker) (now : Z) (command user : string)
    : outcome CooldownTracker :=
  let uses := default 0 (command_use_count t !! command) in
  if uses =? INT_MAX then Undefined
  else Ok (mk_Tracker now
             (<[command := now]> (last_command_use t))
             (<[command := <[user := now]> (default ∅ (user_command_cooldowns t !! command))]>
                (user_command_cooldowns t))
             (<[command := uses + 1]> (command_use_count t))).

Definition resetStreamCounters (t : CooldownTracker) : CooldownTracker :=
  mk_Tracker (last_global_command t) (last_command_use t) (user_command_cooldowns t) ∅.

(** ** Reference definitions *)

(** [now] is less than [cd] seconds after [last]. *)
Definition within_cooldown (cd now last : Z) : Prop := 0 < cd ∧ now < last + cd * second.

Definition user_last (t : CooldownTracker) (command user : string) : option Z :=
  m ← user_command_cooldowns t !! command; m !! user.

(** ** Lemmas *)

Lemma seconds_since_lt cd now last :
  0 < cd → (seconds_since now last <? cd) = true ↔ now < last + cd * second.
Proof.
  intros Hcd. unfold seconds_since, second. rewrite Z.ltb_lt.
  destruct (Z.le_gt_cases last now).
  - rewrite Z.quot_div_nonneg by lia. rewrite <- Z.le_succ_l, <- Z.lt_succ_r.
    split; intros H1.
    + assert (now - last < cd * 1000000000); [|lia].
      pose proof (Z.mul_succ_div_gt (now - last) 1000000000). lia.
    + assert ((now - last) / 1000000000 < cd); [|lia]. apply Z.div_lt_upper_bound; lia.
  - assert (Z.quot (now - last) 1000000000 ≤ 0); [|split; lia].
    pose proof (Z.quot_opp_l (last - now) 1000000000 ltac:(lia)).
    replace (now - last) with (- (last - now)) by lia.
    pose proof (Z.quot_pos (last - now) 1000000000). lia.
Qed.

Lemma guard_within cd now last :
  (0 <? cd) && (seconds_since now last <? cd) = true ↔ within_cooldown cd now last.
Proof.
  unfold within_cooldown. rewrite andb_true_iff, Z.ltb_lt.
  split; intros [Hc Hs]; split; auto; by apply seconds_since_lt in Hs || apply seconds_since_lt.
Qed.

Lemma guard_within_opt cd now (o : option Z) :
  (0 <? cd) && match o with Some last => seconds_since now last <? cd | None => false end = true ↔
  ∃ last, o = Some last ∧ within_cooldown cd now last.
Proof.
  destruct o as [last|]; [rewrite guard_within; naive_solver|].
  rewrite andb_false_r. naive_solver.
Qed.

Lemma isOnCooldown_spec t now command user meta :
  isOnCooldown t now command user meta = true ↔
  within_cooldown (global_cooldown meta) now (last_global_command t) ∨
  (∃ last, last_command_use t !! command = Some last ∧
           within_cooldown (command_cooldown meta) now last) ∨
  (∃ last, user_last t command user = Some last ∧
           within_cooldown (user_cooldown meta) now last).
Proof.
  rewrite <- guard_within, <- !guard_within_opt.
  unfold isOnCooldown, user_last.
  destruct (user_command_cooldowns t !! command); simpl;
    repeat match goal with |- context [if ?b then true else _] => destruct b end; tauto.
Qed.

Lemma recordUsage_user_last t t' now command user command' user' :
  recordUsage t now command user = Ok t' →
  user_last t' command' user' =
    if decide (command' = command ∧ user' = user) then Some now
    else user_last t command' user'.
Proof.
  unfold recordUsage, user_last. case_match; [done|]. intros [= <-]; simpl.
  destruct (decide (command' = command)) as [->|].
  - rewrite lookup_insert_eq; simpl.
    destruct (decide (user' = user)) as [->|].
    + rewrite lookup_insert_eq. by rewrite decide_True.
    + rewrite lookup_insert_ne, decide_False by naive_solver.
      by destruct (user_command_cooldowns t !! command).
  - rewrite lookup_insert_ne by done. by rewrite decide_False by naive_solver.
Qed.

(** ** Properties *)

(** C40.  [isOnCooldown] is exact to the nanosecond although it compares truncated
    seconds: a command is on cooldown precisely when the current time is less
    than the configured number of seconds after the last command of any kind,
    the last use of this command, or the last use of it by this user, for each
    of the three cooldowns that is positive. *)
Theorem isOnCooldown_exact t now command user meta :
  isOnCooldown t now command user meta = true ↔
  within_cooldown (global_cooldown meta) now (last_global_command t) ∨
  (∃ last, last_command_use t !! command = Some last ∧
           within_cooldown (command_cooldown meta) now last) ∨
  (∃ last, user_last t command user = Some last ∧
           within_cooldown (user_cooldown meta) now last).
Proof. apply isOnCooldown_spec. Qed.

(** Recording a use starts all three clocks for the command and user it
    names, and the user clock for nobody else: with only a user cooldown set,
    other users of the command are as free as before, and the command is free
    again for the same user exactly when the cooldown has elapsed. *)
Theorem recordUsage_user_isolation t t' now0 now command user user' meta :
  recordUsage t now0 command user = Ok t' →
  global_cooldown meta ≤ 0 → command_cooldown meta ≤ 0 → user' ≠ user →
  isOnCooldown t' now command user' meta = isOnCooldown t now command user' meta ∧
  (isOnCooldown t' now command user meta = true ↔
   within_cooldown (user_cooldown meta) now now0).
Proof.
  intros Hr Hg Hc Hu. split.
  - apply eq_iff_eq_true. rewrite !isOnCooldown_spec.
    rewrite (recordUsage_user_last _ _ _ _ _ _ _ Hr), decide_False by naive_solver.
    unfold within_cooldown. split; intros [?|[(?&?&?)|?]]; try lia; auto.
  - rewrite isOnCooldown_spec, (recordUsage_user_last _ _ _ _ _ _ _ Hr), decide_True by done.
    unfold within_cooldown. split.
    + intros [?|[(?&?&?)|(?&?&?)]]; try lia. naive_solver.
    + intros ?. right; right. eauto.
Qed.

Lemma recordUsage_user_isolation_witness :
  let meta := mk_Metadata "hello" "" "" [] 0 0 10 false false false [] true (-1) in
  let t' := mk_Tracker (5 * second) {["hello" := 5 * second]}
              {["hello" := {["ann" := 5 * second]}]} {["hello" := 1]} in
  isOnCooldown t' (6 * second) "hello" "bob" meta = false.
Proof.
  intros meta t'.
  rewrite (proj1 (recordUsage_user_isolation new_CooldownTracker t' (5 * second) (6 * second)
                    "hello" "ann" "bob" meta eq_refl
                    ltac:(vm_compute; discriminate) ltac:(vm_compute; discriminate)
                    ltac:(discriminate))).
  reflexivity.
Defined.
