(* ===== verification/LuaEngine.v ===== *)
(** * The Lua command engine

    Models [LuaCommandContext] and [LuaCommandEngine] of
    [include/seraphbot/core/lua_command_engine.hpp] and
    [src/core/lua_command_engine.cpp].

    sol2 and the Lua interpreter are outside the repository; [SolApi] lists the
    operations the engine calls.  A running Lua function is a [script]: the tree
    of the calls it makes on its [CommandContext] object (the usertype of
    [setupLuaEnvironment]), each continuing with the answer or with [None] when
    the call raised an error.  Everything else a script does is inside the Lua
    state it returns.  A script that never ends has no tree.

    The engine runs inside a larger program state [S], described by
    [EngineHost]: where the engine and the command parser are, the clock, and
    the file system. *)

From S2P Require Import Prelude Cxx CommandParser AudioSystem Cooldown.

(** ** The Lua interpreter (sol2) *)

(** The methods bound to the Lua usertype "CommandContext", and [log]. *)
Inductive CtxCall :=
  | GetUser | GetCommand | GetArgs
  | JoinArgs (start_index : option Z)
  | Reply (m : string)
  | GetMessageText
  | IsBroadcaster | IsFounder | IsModerator | IsVip | IsSubscriber
  | HasBadge (badge_name : string)
  | GetSubscriberMonths
  | ListAudioFiles (directory : string)
  | FindAudioFile (name directory : string)
  | PlaySound (filepath : string) (volume : option Z)
  | LogMessage (m : string).

Inductive CtxAnswer :=
  | AUnit
  | AString (s : string)
  | AStrings (l : list string)
  | ABool (b : bool)
  | AInt (z : Z).

Inductive script (L : Type) :=
  | SDone (lua : L) (error : option string)
  | SThrow (lua : L) (e : exn)
  | SCall (c : CtxCall) (k : option CtxAnswer → script L).
Arguments SDone {L}.
Arguments SThrow {L}.
Arguments SCall {L}.

(** The result of running a file: [result.valid()] or not. *)
Inductive ScriptResult (V : Type) :=
  | ScriptError (what : string)
  | ScriptValue (v : V).
Arguments ScriptError {V}.
Arguments ScriptValue {V}.

Class SolApi := {
  LuaState : Type;
  LuaValue : Type;
  sol_open : LuaState → LuaState;                      (* libraries, usertype, log *)
  sol_script_file : string → LuaState → outcome (ScriptResult LuaValue) * LuaState;
  sol_is_table : LuaValue → bool;
  sol_valid : LuaValue → bool;                         (* present and not nil *)
  sol_field : LuaState → LuaValue → string → LuaValue;
  sol_nth : LuaState → LuaValue → nat → LuaValue;
  sol_size : LuaState → LuaValue → nat;
  sol_as_string : LuaValue → outcome string;
  sol_as_table : LuaValue → outcome LuaValue;
  sol_as_function : LuaValue → outcome LuaValue;
  sol_get_or_string : LuaState → LuaValue → string → string → string;
  sol_get_or_int : LuaState → LuaValue → string → Z → Z;
  sol_get_or_bool : LuaState → LuaValue → string → bool → bool;
  sol_call : LuaState → LuaValue → list string → script LuaState;
}.

(** ** [class LuaCommandContext]: methods on the chat message *)

Section Context.
Context {St : Type}.
Implicit Types ctx : CommandContext St.

Definition has_any (l : list string) ctx : bool :=
  existsb (λ badge, bool_decide (badge ∈ l)) (badges (message ctx)).

Definition getUser ctx : string := user (message ctx).
Definition lua_joinArgs ctx (start_index : option Z) : string :=
  let idx := default 0 start_index in joinArgs ctx (Z.to_nat (Z.max 0 idx)).
Definition isBroadcaster ctx : bool := has_any ["broadcaster"] ctx.
Definition isModerator ctx : bool := has_any ["moderator"; "broadcaster"] ctx.
Definition isVip ctx : bool := has_any ["vip"; "moderator"; "broadcaster"] ctx.
Definition isSubscriber ctx : bool :=
  has_any ["subscriber"; "vip"; "moderator"; "broadcaster"] ctx.
Definition hasBadge ctx (badge_name : string) : bool := has_any [badge_name] ctx.
Definition isFounder ctx : bool := has_any ["founder"] ctx.
Definition getSubscriberMonths ctx : Z := if isSubscriber ctx then 5 else 0.

Definition hasPermission ctx (meta : CommandMetadata) : bool :=
  if bool_decide (user (message ctx) ∈ allowed_users meta) then true
  else if mod_only meta && negb (isModerator ctx) then false
  else if vip_only meta && negb (isVip ctx) then false
  else if subscriber_only meta && negb (isSubscriber ctx) then false
  else true.

End Context.

(** ** [class LuaCommandEngine] *)

Record LuaCommandEngine {sol : SolApi} := mk_Engine {
  m_lua : LuaState;
  m_command_files : gmap string string;
  m_command_metadata : gmap string CommandMetadata;
  m_cooldown_tracker : CooldownTracker;
  m_audio_system : AudioSystem;
  m_channel_owner : string;
  engine_initialized : bool;
}.

Section Engine.
Context {sol : SolApi}.
Variable ma_success : list ma_call → ma_call → bool.

Definition new_LuaCommandEngine (lua : LuaState) (fs : FileSystem) : LuaCommandEngine :=
  mk_Engine _ lua ∅ ∅ new_CooldownTracker (new_AudioSystem ma_success fs) "lagizur" false.

Definition set_lua (l : LuaState) (e : LuaCommandEngine) : LuaCommandEngine :=
  mk_Engine _ l (m_command_files e) (m_command_metadata e) (m_cooldown_tracker e)
    (m_audio_system e) (m_channel_owner e) (engine_initialized e).
Definition set_commands (f : gmap string string) (m : gmap string CommandMetadata)
    (e : LuaCommandEngine) : LuaCommandEngine :=
  mk_Engine _ (m_lua e) f m (m_cooldown_tracker e)
    (m_audio_system e) (m_channel_owner e) (engine_initialized e).
Definition set_tracker (t : CooldownTracker) (e : LuaCommandEngine) : LuaCommandEngine :=
  mk_Engine _ (m_lua e) (m_command_files e) (m_command_metadata e) t
    (m_audio_system e) (m_channel_owner e) (engine_initialized e).
Definition set_audio (a : AudioSystem) (e : LuaCommandEngine) : LuaCommandEngine :=
  mk_Engine _ (m_lua e) (m_command_files e) (m_command_metadata e) (m_cooldown_tracker e)
    a (m_channel_owner e) (engine_initialized e).

(** [initialize], with the environment set up by [setupLuaEnvironment]. *)
Definition engine_initialize (e : LuaCommandEngine) : LuaCommandEngine :=
  if engine_initialized e then e
  else mk_Engine _ (sol_open (m_lua e)) (m_command_files e) (m_command_metadata e)
         (m_cooldown_tracker e) (m_audio_system e) (m_channel_owner e) true.

(** The list fields of a command table: [for (i = 1; i <= t.size(); ++i)]. *)
Fixpoint lua_strings (l : LuaState) (t : LuaValue) (i n : nat) : outcome (list string) :=
  match n with
  | O => Ok []
  | S n' =>
      let v := sol_nth l t i in
      if sol_valid v then
        s ← sol_as_string v;
        rest ← lua_strings l t (S i) n';
        Ok (s :: rest)
      else lua_strings l t (S i) n'
  end.

Definition lua_string_list (l : LuaState) (t : LuaValue) (key : string)
    : outcome (list string) :=
  let v := sol_field l t key in
  if sol_valid v then
    lst ← sol_as_table v;
    lua_strings l lst 1 (sol_size l lst)
  else Ok [].

Definition parseCommandMetadata (l : LuaState) (command_table : LuaValue)
    (default_name : string) : outcome CommandMetadata :=
  let name := sol_get_or_string l command_table "name" default_name in
  let description := sol_get_or_string l command_table "description" "" in
  let usage := sol_get_or_string l command_table "usage" ("!" +:+ name) in
  aliases ← lua_string_list l command_table "aliases";
  let gcd := sol_get_or_int l command_table "global_cooldown" 0 in
  let ccd := sol_get_or_int l command_table "command_cooldown" 0 in
  let ucd := sol_get_or_int l command_table "user_cooldown" 0 in
  let mo := sol_get_or_bool l command_table "mod_only" false in
  let vo := sol_get_or_bool l command_table "vip_only" false in
  let so := sol_get_or_bool l command_table "subscriber_only" false in
  users ← lua_string_list l command_table "allowed_users";
  let en := sol_get_or_bool l command_table "enabled" true in
  let mu := sol_get_or_int l command_table "max_uses_per_stream" (-1) in
  Ok (mk_Metadata name description usage aliases gcd ccd ucd mo vo so users en mu).

(** The body of the [try] block of [loadLuaCommand]. *)
Definition load_body (file_path : string) : M LuaCommandEngine bool := λ e,
  let '(r, l) := sol_script_file file_path (m_lua e) in
  let e := set_lua l e in
  match r with
  | Throw x => (Throw x, e)
  | Undefined => (Undefined, e)
  | Ok (ScriptError _) => (Ok false, e)
  | Ok (ScriptValue v) =>
      if negb (sol_is_table v) then (Ok false, e)
      else if negb (sol_valid (sol_field l v "name")) then (Ok false, e)
      else if negb (sol_valid (sol_field l v "execute")) then (Ok false, e)
      else (command_name ← lift (sol_as_string (sol_field l v "name"));
            if str_empty command_name then mret false
            else
              metadata ← lift (parseCommandMetadata l v command_name);
              modify (λ e,
                set_commands (<[command_name := file_path]> (m_command_files e))
                             (<[command_name := metadata]> (m_command_metadata e)) e) ;;
              mfor (md_aliases metadata) (λ alias, modify (λ e,
                set_commands (<[alias := file_path]> (m_command_files e))
                             (<[alias := metadata]> (m_command_metadata e)) e)) ;;
              mret true) e
  end.

Definition loadLuaCommand (fs : FileSystem) (file_path : string) : M LuaCommandEngine bool := λ e,
  if negb (engine_initialized e) then (Ok false, e)
  else match fs_exists fs file_path with
       | Throw x => (Throw x, e)
       | Undefined => (Undefined, e)
       | Ok false => (Ok false, e)
       | Ok true => try_catch (load_body file_path) (λ _, mret false) e
       end.

(** The directory loop; an exception ends it and keeps the count. *)
Fixpoint load_entries (fs : FileSystem) (entries : list (string * bool)) (loaded_count : Z)
    : M LuaCommandEngine Z :=
  match entries with
  | [] => mret loaded_count
  | (path, regular) :: rest =>
      if regular && bool_decide (path_extension path = ".lua") then λ e,
        match loadLuaCommand fs path e with
        | (Ok b, e') => load_entries fs rest (if b : bool then loaded_count + 1 else loaded_count) e'
        | (Throw _, e') => (Ok loaded_count, e')
        | (Undefined, e') => (Undefined, e')
        end
      else load_entries fs rest loaded_count
  end.

Definition loadCommandsFromDirectory (fs : FileSystem) (directory : string)
    : M LuaCommandEngine Z :=
  ex ← lift (fs_exists fs directory);
  if negb ex then mret 0
  else
    isd ← lift (fs_is_directory fs directory);
    if negb isd then mret 0
    else load_entries fs (fst (fs_directory_iterator fs directory)) 0.

(** The iteration order of an [unordered_map] is unspecified: a parameter. *)
Variable map_order : gmap string string → list (string * string).

Definition reloadAllCommands (fs : FileSystem) : M LuaCommandEngine unit :=
  files_to_reload ← gets (λ e, map_order (m_command_files e));
  modify (λ e, set_commands ∅ (m_command_metadata e) e) ;;
  mfor files_to_reload (λ '(_, file_path), loadLuaCommand fs file_path ;; mret tt).

Definition getLoadedCommands (e : LuaCommandEngine) : list string :=
  map fst (map_order (m_command_files e)).

Definition getCommandMetadata (e : LuaCommandEngine) (command_name : string)
    : option CommandMetadata := m_command_metadata e !! command_name.

Definition engine_resetStreamCounters (e : LuaCommandEngine) : LuaCommandEngine :=
  set_tracker (resetStreamCounters (m_cooldown_tracker e)) e.

End Engine.

(** ** The program state around the engine *)

Class EngineHost {sol : SolApi} (H St : Type) := {
  engine_of : St → LuaCommandEngine;
  set_engine : LuaCommandEngine → St → St;
  host_parser : St → CommandParser H;
  set_host_parser : CommandParser H → St → St;
  host_fs : St → FileSystem;
  steady_now : M St Z;                       (* [steady_clock::now()] *)
  last_now : St → Z;                         (* the latest reading so far *)
}.

(** What the engine relies on: the fields are independent, and the clock is
    steady (readings never decrease). *)
Class EngineHostLaws {sol : SolApi} (H St : Type) {host : EngineHost H St} : Prop := {
  engine_set_engine e s : engine_of (set_engine e s) = e;
  parser_set_engine e s : host_parser (set_engine e s) = host_parser s;
  last_now_set_engine e s : last_now (set_engine e s) = last_now s;
  fs_set_engine e s : host_fs (set_engine e s) = host_fs s;
  engine_set_parser p s : engine_of (set_host_parser p s) = engine_of s;
  parser_set_parser p s : host_parser (set_host_parser p s) = p;
  fs_set_parser p s : host_fs (set_host_parser p s) = host_fs s;
  last_now_set_parser p s : last_now (set_host_parser p s) = last_now s;
  steady_now_spec s : ∃ t s', steady_now s = (Ok t, s') ∧ last_now s ≤ t ∧ last_now s' = t ∧
    engine_of s' = engine_of s ∧ host_parser s' = host_parser s ∧ host_fs s' = host_fs s;
}.

Section Hosted.
Context {sol : SolApi} {H St : Type} {host : EngineHost H St}.
Variable ma_success : list ma_call → ma_call → bool.
Variable map_order : gmap string string → list (string * string).
(** The closure built by [registerWithParser] for a command. *)
Variable lua_handler : string → LuaValue → H.

Definition on_engine {A} (m : M LuaCommandEngine A) : M St A := zoom engine_of set_engine m.

(** One call of a script on its context object. *)
Definition ctx_call (ctx : CommandContext St) (c : CtxCall) : M St CtxAnswer :=
  match c with
  | GetUser => mret (AString (getUser ctx))
  | GetCommand => mret (AString (command ctx))
  | GetArgs => mret (AStrings (args ctx))
  | JoinArgs start => mret (AString (lua_joinArgs ctx start))
  | Reply m => reply ctx m ;; mret AUnit
  | GetMessageText => mret (AString (text (message ctx)))
  | IsBroadcaster => mret (ABool (isBroadcaster ctx))
  | IsFounder => mret (ABool (isFounder ctx))
  | IsModerator => mret (ABool (isModerator ctx))
  | IsVip => mret (ABool (isVip ctx))
  | IsSubscriber => mret (ABool (isSubscriber ctx))
  | HasBadge b => mret (ABool (hasBadge ctx b))
  | GetSubscriberMonths => mret (AInt (getSubscriberMonths ctx))
  | ListAudioFiles d => λ s,
      (l ← listAudioFiles (host_fs s) (m_audio_system (engine_of s)) d; mret (AStrings l), s)
  | FindAudioFile n d => λ s,
      (f ← findAudioFile (host_fs s) (m_audio_system (engine_of s)) n d; mret (AString f), s)
  | PlaySound path vol => λ s,
      let '(r, a) := playSound ma_success (host_fs s) path (default 70 vol)
                       (m_audio_system (engine_of s)) in
      (b ← r; mret (ABool b), set_engine (set_audio a (engine_of s)) s)
  | LogMessage _ => mret AUnit
  end.

Fixpoint run_script (ctx : CommandContext St) (sc : script LuaState) : M St (option string) :=
  match sc with
  | SDone l err => on_engine (modify (set_lua l)) ;; mret err
  | SThrow l e => on_engine (modify (set_lua l)) ;; throw e
  | SCall c k => λ s,
      match ctx_call ctx c s with
      | (Ok a, s') => run_script ctx (k (Some a)) s'
      | (Throw _, s') => run_script ctx (k None) s'
      | (Undefined, s') => (Undefined, s')
      end
  end.

Definition executeLuaCommand (ctx : CommandContext St) (lua_func : LuaValue) : M St unit :=
  try_catch
    (sc ← gets (λ s, sol_call (m_lua (engine_of s)) lua_func (args ctx));
     result ← run_script ctx sc;
     match result with
     | None => mret tt
     | Some _ => reply ctx "Command error occured - check logs"
     end)
    (λ _, reply ctx "Command execution failed").

(** The call operator of the closure [handler] of [registerWithParser], with the call
    of [executeLuaCommand] in it as the argument [execute]. *)
Definition lua_handler_with (execute : M St unit) (command_name : string)
    (ctx : CommandContext St) : M St unit := λ s,
  match m_command_metadata (engine_of s) !! command_name with
  | None => reply ctx "Command configuration error" s
  | Some meta =>
      if negb (enabled meta) then (Ok tt, s)
      else if negb (hasPermission ctx meta) then
        reply ctx "You don't have permission to use this command." s
      else
        (now ← steady_now;
         cooldown ← gets (λ s, isOnCooldown (m_cooldown_tracker (engine_of s)) now command_name
                                 (user (message ctx)) meta);
         if cooldown : bool then reply ctx "Command is on cooldown."
         else
           current_uses ← gets (λ s,
             default 0 (command_use_count (m_cooldown_tracker (engine_of s)) !! command_name));
           if (0 <? max_uses_per_stream meta) && (max_uses_per_stream meta <=? current_uses)
           then reply ctx "Command has reached its usage limit for this stream."
           else
             execute ;;
             now2 ← steady_now;
             tracker ← gets (λ s, m_cooldown_tracker (engine_of s));
             tracker' ← lift (recordUsage tracker now2 command_name (user (message ctx)));
             on_engine (modify (set_tracker tracker'))) s
  end.

Definition lua_handler_body (command_name : string) (execute_func : LuaValue)
    (ctx : CommandContext St) : M St unit :=
  lua_handler_with (executeLuaCommand ctx execute_func) command_name ctx.

(** One iteration of the loop of [registerWithParser]: the file is run again and
    its [execute] function registered; an exception skips the command. *)
Definition register_one (command_name file_path : string) : M St unit :=
  try_catch
    (result ← on_engine (λ e,
       let '(r, l) := sol_script_file file_path (m_lua e) in (r, set_lua l e));
     match result with
     | ScriptError _ => mret tt
     | ScriptValue v =>
         command_table ← lift (sol_as_table v);
         l ← gets (λ s, m_lua (engine_of s));
         execute_func ← lift (sol_as_function (sol_field l command_table "execute"));
         if negb (sol_valid execute_func) then mret tt
         else modify (λ s,
           set_host_parser
             (registerCommand command_name (Some (lua_handler command_name execute_func))
                (host_parser s)) s)
     end)
    (λ _, mret tt).

Definition registerWithParser : M St unit := λ s,
  if negb (engine_initialized (engine_of s)) then (Ok tt, s)
  else mfor (map_order (m_command_files (engine_of s)))
         (λ '(command_name, file_path), register_one command_name file_path) s.

End Hosted.

(** ** Reference definitions for the theorems *)

Section Spec.
Context {sol : SolApi} {H St : Type} {host : EngineHost H St}.
Variable ma_success : list ma_call → ma_call → bool.

(** The reply callback of a context returns normally and touches neither the
    engine nor the parser. *)
Class ReplyOk (ctx : CommandContext St) : Prop :=
  reply_ok m s : ∃ s', reply ctx m s = (Ok tt, s') ∧ engine_of s' = engine_of s ∧
    host_parser s' = host_parser s ∧ host_fs s' = host_fs s ∧ last_now s ≤ last_now s'.

(** What running a script may change: the Lua state and the audio player. *)
Definition script_frame (e e' : LuaCommandEngine) : Prop :=
  m_command_files e' = m_command_files e ∧ m_command_metadata e' = m_command_metadata e ∧
  m_cooldown_tracker e' = m_cooldown_tracker e ∧ m_channel_owner e' = m_channel_owner e ∧
  engine_initialized e' = engine_initialized e ∧
  m_whitelist (m_audio_system e') = m_whitelist (m_audio_system e).

Definition sounds (e : LuaCommandEngine) : list ma_call :=
  match m_player (m_audio_system e) with Some p => ma_trace p | None => [] end.

(** Every sound of [e'] that [e] has not played is an existing file in an allowed
    directory. *)
Definition sounds_allowed (fs : FileSystem) (e e' : LuaCommandEngine) : Prop :=
  ∀ q, MaPlay q ∈ sounds e' → MaPlay q ∈ sounds e ∨
    (fs_exists fs q = Ok true ∧
     isPathAllowed fs (m_whitelist (m_audio_system e)) (path_parent q) = true).

Definition uses (e : LuaCommandEngine) (name : string) : Z :=
  default 0 (command_use_count (m_cooldown_tracker e) !! name).

(** Watching a call of a handler.  [script_start] is the state in which the handler
    calls [executeLuaCommand], if it does: the handler is run with a throw in the
    place of that call.  Nothing in the handler catches it, and the reply of a
    [ReplyOk] context does not throw. *)
Definition breakpoint : exn := mk_exn StdException "executeLuaCommand".

Definition script_start (name : string) (ctx : CommandContext St) (s : St) : option St :=
  match lua_handler_with (throw breakpoint) name ctx s with
  | (Throw _, s1) => Some s1
  | _ => None
  end.

(** A run of a script: the name it was called under, the user, and the clock when it
    started and when it ended. *)
Record script_run := mk_run {
  run_name : string;
  run_user : string;
  run_start : Z;
  run_end : Z;
}.

Definition script_runs (name : string) (fn : LuaValue) (ctx : CommandContext St) (s : St)
    : list script_run :=
  match script_start name ctx s with
  | Some s1 => [mk_run name (user (message ctx)) (last_now s1)
                  (last_now (snd (executeLuaCommand ma_success ctx fn s1)))]
  | None => []
  end.

(** What the rest of the program does between two calls: it leaves the cooldowns and
    the metadata as they are, and time passes. *)
Definition idle (s s' : St) : Prop :=
  m_cooldown_tracker (engine_of s') = m_cooldown_tracker (engine_of s) ∧
  m_command_metadata (engine_of s') = m_command_metadata (engine_of s) ∧
  last_now s ≤ last_now s'.

(** A history of calls of Lua handlers in any order, by any users, for any commands
    and functions, with the scripts that ran in it. *)
Inductive history : St → list script_run → St → Prop :=
  | history_nil s : history s [] s
  | history_call s s' s'' name fn ctx runs :
      ReplyOk ctx → lua_handler_body ma_success name fn ctx s = (Ok tt, s') →
      history s' runs s'' → history s (script_runs name fn ctx s ++ runs) s''
  | history_idle s s' s'' runs :
      idle s s' → history s' runs s'' → history s runs s''.

End Spec.
