(* ===== verification/LuaFacts.v ===== *)
(** * Lemmas on the Lua command engine

    What running a script, a handler of the parser, loading a file, registering and
    reloading may change of the program state, case by case; histories of handler
    calls.  The definitions are those of [LuaEngine]. *)

From S2P Require Import Prelude Cxx CommandParser AudioSystem Cooldown LuaEngine.

(** ** Lemmas *)

Lemma script_frame_refl {sol : SolApi} e : script_frame e e.
Proof. by repeat split. Qed.

Lemma script_frame_trans {sol : SolApi} e1 e2 e3 :
  script_frame e1 e2 → script_frame e2 e3 → script_frame e1 e3.
Proof. unfold script_frame. intros (?&?&?&?&?&?) (?&?&?&?&?&?). split_and!; congruence. Qed.

Lemma sounds_allowed_refl {sol : SolApi} fs e : sounds_allowed fs e e.
Proof. intros q Hq. by left. Qed.

Lemma sounds_allowed_trans {sol : SolApi} fs e1 e2 e3 :
  script_frame e1 e2 → sounds_allowed fs e1 e2 → sounds_allowed fs e2 e3 →
  sounds_allowed fs e1 e3.
Proof.
  intros (_&_&_&_&_&Hw) H12 H23 q Hq. destruct (H23 q Hq) as [?|[? Ha]]; [by apply H12|].
  right. by rewrite <- Hw.
Qed.

#[export] Hint Resolve script_frame_refl sounds_allowed_refl : sbot.

Section HostLemmas.
Context {sol : SolApi} {H St : Type} {host : EngineHost H St} {laws : EngineHostLaws H St}.
Variable ma_success : list ma_call → ma_call → bool.

(** What a step of a script keeps, as one relation on the program state. *)
Definition script_rel (s s' : St) : Prop :=
  script_frame (engine_of s) (engine_of s') ∧
  sounds_allowed (host_fs s) (engine_of s) (engine_of s') ∧
  host_parser s' = host_parser s ∧ host_fs s' = host_fs s ∧ last_now s ≤ last_now s'.

Lemma script_rel_refl s : script_rel s s.
Proof. repeat split; auto with sbot. lia. Qed.

Lemma script_rel_trans s1 s2 s3 : script_rel s1 s2 → script_rel s2 s3 → script_rel s1 s3.
Proof.
  intros (F1 & A1 & P1 & S1 & N1) (F2 & A2 & P2 & S2 & N2). rewrite S1 in A2.
  split_and!; eauto using script_frame_trans, sounds_allowed_trans; try congruence. lia.
Qed.

Lemma script_rel_set_engine e s :
  script_frame (engine_of s) e → sounds_allowed (host_fs s) (engine_of s) e →
  script_rel s (set_engine e s).
Proof.
  intros Hf Ha. unfold script_rel.
  rewrite engine_set_engine, parser_set_engine, fs_set_engine, last_now_set_engine.
  split_and!; auto. lia.
Qed.

Lemma script_rel_reply ctx `{!ReplyOk ctx} m s r s' :
  reply ctx m s = (r, s') → r = Ok tt ∧ script_rel s s' ∧ engine_of s' = engine_of s.
Proof.
  destruct (reply_ok m s) as (s1 & Hr & He & Hp & Hf & Hn). rewrite Hr. intros [= <- <-].
  split; [done|]. split; [|done]. unfold script_rel. rewrite He.
  split_and!; auto with sbot.
Qed.

Lemma playSound_sounds fs path v e :
  sounds_allowed fs e (set_audio (snd (playSound ma_success fs path v (m_audio_system e))) e) ∧
  m_whitelist (snd (playSound ma_success fs path v (m_audio_system e))) =
    m_whitelist (m_audio_system e).
Proof.
  unfold sounds_allowed, sounds.
  destruct (playSound_cases ma_success fs path v (m_audio_system e))
    as [->|(He & Ha & p & p' & Hp & _ & _ & -> & Ht)]; [by auto|]. split; [|done].
  cbn [m_audio_system set_audio m_player]. rewrite Hp. intros q.
  rewrite Ht, elem_of_app. intros [?|Hq]; [by left|]. right.
  assert (q = path) as ->; [|done].
  destruct (ma_success _ _); rewrite !elem_of_cons, elem_of_nil in Hq; naive_solver.
Qed.

Lemma ctx_call_rel ctx `{!ReplyOk ctx} c s r s' :
  ctx_call ma_success ctx c s = (r, s') → script_rel s s'.
Proof.
  destruct c; simpl; intros Hc;
    try (by injection Hc as _ <-; apply script_rel_refl).
  - unfold mbind, M_bind in Hc. destruct (reply ctx m s) as [r1 s1] eqn:Hr.
    apply script_rel_reply in Hr as (-> & Hr & _); [|done]. by injection Hc as _ <-.
  - pose proof (playSound_sounds (host_fs s) filepath (default 70 volume) (engine_of s)) as [Hs Hw].
    destruct (playSound _ _ _ _ _) as [r1 a]; simpl in *. injection Hc as _ <-.
    apply script_rel_set_engine; [|done]. by repeat split.
Qed.

Lemma on_engine_set_lua_rel l s : script_rel s (snd (on_engine (modify (set_lua l)) s)).
Proof. unfold on_engine, zoom, modify; simpl. apply script_rel_set_engine; [by repeat split|]. by left. Qed.

Lemma run_script_rel ctx `{!ReplyOk ctx} sc s r s' :
  run_script ma_success ctx sc s = (r, s') → script_rel s s'.
Proof.
  revert s. induction sc as [l err|l e|c k IH]; intros s Hr.
  - injection Hr as _ <-. apply on_engine_set_lua_rel.
  - injection Hr as _ <-. apply on_engine_set_lua_rel.
  - simpl in Hr. destruct (ctx_call ma_success ctx c s) as [rc s1] eqn:Hc.
    apply ctx_call_rel in Hc; [|done].
    destruct rc; eauto using script_rel_trans. injection Hr as _ <-. done.
Qed.

Lemma executeLuaCommand_rel ctx `{!ReplyOk ctx} fn s r s' :
  executeLuaCommand ma_success ctx fn s = (r, s') →
  script_rel s s' ∧ (r = Ok tt ∨ r = Undefined).
Proof.
  unfold executeLuaCommand, try_catch, mbind, M_bind, gets.
  destruct (run_script _ _ _ s) as [[[err|]|x|] s1] eqn:Hs; apply run_script_rel in Hs; try done.
  - destruct (reply ctx _ s1) as [r2 s2] eqn:Hr. apply script_rel_reply in Hr as (-> & Hr & _); [|done].
    intros [= <- <-]. eauto using script_rel_trans.
  - intros [= <- <-]. eauto.
  - intros Hr. apply script_rel_reply in Hr as (-> & Hr & _); [|done]. eauto using script_rel_trans.
  - intros [= <- <-]. eauto.
Qed.

(** A run of the handler that passes every guard at time [t1], runs the script
    and records the use at time [t2]. *)
Definition executes (name : string) (ctx : CommandContext St) (s : St) (t1 t2 : Z) (s' : St)
    : Prop :=
  let e := engine_of s in
  ∃ meta tracker',
    m_command_metadata e !! name = Some meta ∧ enabled meta = true ∧
    hasPermission ctx meta = true ∧
    isOnCooldown (m_cooldown_tracker e) t1 name (user (message ctx)) meta = false ∧
    (0 < max_uses_per_stream meta → uses e name < max_uses_per_stream meta) ∧
    last_now s ≤ t1 ∧ t1 ≤ t2 ∧ t2 ≤ last_now s' ∧
    recordUsage (m_cooldown_tracker e) t2 name (user (message ctx)) = Ok tracker' ∧
    script_frame (set_tracker tracker' e) (engine_of s').

(** A call of the handler runs no script and leaves the engine alone, or passes all
    guards and runs its script between the two times. *)
Definition handler_outcome (name : string) (fn : LuaValue) (ctx : CommandContext St)
    (s s' : St) : Prop :=
  (script_runs ma_success name fn ctx s = [] ∧ engine_of s' = engine_of s ∧
   last_now s ≤ last_now s') ∨
  ∃ t1 t2 te, script_runs ma_success name fn ctx s = [mk_run name (user (message ctx)) t1 te] ∧
    te ≤ t2 ∧ executes name ctx s t1 t2 s'.

Lemma refused_outcome name fn ctx `{!ReplyOk ctx} s m s1 r s' :
  script_start name ctx s = None → engine_of s1 = engine_of s → last_now s ≤ last_now s1 →
  reply ctx m s1 = (r, s') → r = Ok tt ∧ handler_outcome name fn ctx s s'.
Proof.
  intros Hss He Hn (-> & (_ & _ & _ & _ & Hn') & He')%script_rel_reply; [|done].
  split; [done|]. left. unfold script_runs. rewrite Hss. split_and!; [done|congruence|lia].
Qed.

(** The reply of a refusal returns, so a refused call starts no script. *)
Lemma reply_returns ctx `{!ReplyOk ctx} m s : ∃ s', reply ctx m s = (Ok tt, s').
Proof. destruct (reply_ok m s) as (s' & Hr & _). eauto. Qed.

Lemma handler_cases name fn ctx `{!ReplyOk ctx} s r s' :
  lua_handler_body ma_success name fn ctx s = (r, s') →
  r = Undefined ∨ (r = Ok tt ∧ handler_outcome name fn ctx s s').
Proof.
  unfold lua_handler_body.
  destruct (lua_handler_with (throw breakpoint) name ctx s) as [rw sw] eqn:Hw.
  assert (Hrep : ∀ m s1, reply ctx m s1 = (rw, sw) →
    engine_of s1 = engine_of s → last_now s ≤ last_now s1 →
    reply ctx m s1 = (r, s') → r = Undefined ∨ (r = Ok tt ∧ handler_outcome name fn ctx s s')).
  { intros m s1 Hrw He Hn Hr. right. apply (refused_outcome _ _ _ _ m s1); try done.
    unfold script_start. rewrite Hw. destruct (reply_returns ctx m s1) as [? Hok].
    rewrite Hok in Hrw. by injection Hrw as <- _. }
  pose proof Hw as Hstart. revert Hw. unfold lua_handler_with.
  destruct (m_command_metadata (engine_of s) !! name) as [meta|] eqn:Hm;
    [|intros Hrw; by apply (Hrep _ _ Hrw)].
  destruct (enabled meta) eqn:Hen; cbn [negb].
  2:{ intros [= <- <-] [= <- <-]. right. split; [done|]. left. unfold script_runs, script_start.
      rewrite Hstart. split_and!; [done|done|lia]. }
  destruct (hasPermission ctx meta) eqn:Hperm; cbn [negb]; [|intros Hrw; by apply (Hrep _ _ Hrw)].
  unfold mbind, M_bind, gets, lift.
  destruct (steady_now_spec s) as (t1 & s1 & -> & Hn1 & Hl1 & He1 & Hp1 & Hf1). rewrite He1.
  destruct (isOnCooldown _ _ _ _ _) eqn:Hcd; [intros Hrw; apply (Hrep _ _ Hrw); [done|lia]|].
  destruct ((0 <? _) && _) eqn:Hlim; [intros Hrw; apply (Hrep _ _ Hrw); [done|lia]|].
  unfold throw at 1. intros [= <- <-].
  destruct (executeLuaCommand ma_success ctx fn s1) as [rx s2] eqn:Hx.
  pose proof Hx as Hrel.
  apply executeLuaCommand_rel in Hrel as [(Hfr & _ & _ & _ & Hn2) [-> | -> ]]; [| |done].
  2:{ intros [= <- <-]. by left. }
  destruct (steady_now_spec s2) as (t2 & s3 & -> & Hn3 & Hl3 & He3 & Hp3 & Hf3). rewrite He3.
  rewrite He1 in Hfr. pose proof Hfr as (_ & _ & Htr & _). rewrite Htr.
  destruct (recordUsage _ t2 name _) as [tr| |] eqn:Hrec;
    [|by unfold recordUsage in Hrec; case_match|intros [= <- <-]; by left].
  unfold on_engine, zoom, modify. intros [= <- <-]. right. split; [done|]. right.
  exists t1, t2, (last_now s2). split_and!; [|lia|].
  { unfold script_runs, script_start. by rewrite Hstart, Hx, Hl1. }
  exists meta, tr. split_and!; try done; try lia.
  - intros Hpos. apply andb_false_iff in Hlim as [Hlim|Hlim].
    + apply Z.ltb_ge in Hlim. lia.
    + apply Z.leb_gt in Hlim. unfold uses. by rewrite <- He1.
  - rewrite last_now_set_engine. lia.
  - rewrite engine_set_engine, He3. destruct Hfr as (?&?&?&?&?&?). by repeat split.
Qed.

End HostLemmas.

(** ** Histories of handler calls *)

Section Histories.
Context {sol : SolApi} {H St : Type} {host : EngineHost H St} {laws : EngineHostLaws H St}.
Variable ma_success : list ma_call → ma_call → bool.
#[local] Abbreviation history := (history ma_success).

(** All recorded times lie in the past. *)
Definition tracker_wf (s : St) : Prop :=
  let t := m_cooldown_tracker (engine_of s) in
  last_global_command t ≤ last_now s ∧
  (∀ c x, last_command_use t !! c = Some x → x ≤ last_now s) ∧
  (∀ c u x, user_last t c u = Some x → x ≤ last_now s).

Definition same_metadata (s s' : St) : Prop :=
  m_command_metadata (engine_of s') = m_command_metadata (engine_of s).

Lemma executes_tracker name ctx s t1 t2 s' :
  executes name ctx s t1 t2 s' →
  recordUsage (m_cooldown_tracker (engine_of s)) t2 name (user (message ctx)) =
    Ok (m_cooldown_tracker (engine_of s')) ∧ same_metadata s s' ∧ t2 ≤ last_now s' ∧
  last_now s ≤ t1 ∧ t1 ≤ t2.
Proof.
  intros (meta & tr & _ & _ & _ & _ & _ & ? & ? & ? & Hr & (_ & Hm & Ht & _)).
  rewrite Ht. split_and!; done.
Qed.

Lemma recordUsage_fields t now c u t' :
  recordUsage t now c u = Ok t' →
  last_global_command t' = now ∧ last_command_use t' = <[c := now]> (last_command_use t) ∧
  command_use_count t' = <[c := default 0 (command_use_count t !! c) + 1]> (command_use_count t).
Proof. unfold recordUsage. case_match; [done|]. by intros [= <-]. Qed.

Lemma executes_wf name ctx s t1 t2 s' :
  executes name ctx s t1 t2 s' → tracker_wf s → tracker_wf s'.
Proof.
  intros Hx (Hg & Hc & Hu). apply executes_tracker in Hx as (Hr & _ & ? & ? & ?).
  unfold tracker_wf. pose proof (recordUsage_fields _ _ _ _ _ Hr) as (-> & Hlc & _).
  split_and!; [lia| |].
  - intros c x. rewrite Hlc, lookup_insert.
    case_decide; [intros [= <-]; lia|]. intros Hl. apply Hc in Hl. lia.
  - intros c u x. rewrite (recordUsage_user_last _ _ _ _ _ _ _ Hr).
    case_decide; [intros [= <-]; lia|]. intros Hl. apply Hu in Hl. lia.
Qed.

(** From a state on, no executed call is checked before the cooldowns running in
    that state have elapsed. *)
Definition respects (s : St) (ev : script_run) : Prop :=
  ∀ meta, m_command_metadata (engine_of s) !! run_name ev = Some meta →
  let t := m_cooldown_tracker (engine_of s) in
  ¬ within_cooldown (global_cooldown meta) (run_start ev) (last_global_command t) ∧
  (∀ x, last_command_use t !! run_name ev = Some x →
        ¬ within_cooldown (command_cooldown meta) (run_start ev) x) ∧
  (∀ x, user_last t (run_name ev) (run_user ev) = Some x →
        ¬ within_cooldown (user_cooldown meta) (run_start ev) x).

Lemma within_cooldown_mono cd now x y :
  x ≤ y → ¬ within_cooldown cd now y → ¬ within_cooldown cd now x.
Proof. unfold within_cooldown. lia. Qed.

Lemma respects_mono s s' name ctx t1 t2 ev :
  executes name ctx s t1 t2 s' → tracker_wf s → respects s' ev → respects s ev.
Proof.
  intros Hx (Hg & Hc & Hu) Hresp meta Hm. apply executes_tracker in Hx as (Hr & Hmd & ? & ? & ?).
  unfold same_metadata in Hmd. specialize (Hresp meta). rewrite Hmd in Hresp.
  specialize (Hresp Hm) as (R1 & R2 & R3). cbv zeta.
  pose proof (recordUsage_fields _ _ _ _ _ Hr) as (Hlg & Hlc & _).
  rewrite Hlg in R1. rewrite Hlc in R2. setoid_rewrite lookup_insert in R2.
  setoid_rewrite (recordUsage_user_last _ _ _ _ _ _ _ Hr) in R3.
  split_and!.
  - eapply within_cooldown_mono; [|exact R1]. lia.
  - intros x Hl. destruct (decide (name = run_name ev)).
    + apply (within_cooldown_mono _ _ _ t2); [apply Hc in Hl; lia|]. by apply R2.
    + by apply R2.
  - intros x Hl. destruct (decide (run_name ev = name ∧ run_user ev = user (message ctx))).
    + apply (within_cooldown_mono _ _ _ t2); [apply Hu in Hl; lia|]. by apply R3.
    + by apply R3.
Qed.

Lemma executes_respects name ctx s t1 t2 s' te :
  executes name ctx s t1 t2 s' → respects s (mk_run name (user (message ctx)) t1 te).
Proof.
  intros (meta & tr & Hm & _ & _ & Hcd & _) meta'. simpl. rewrite Hm. intros [= <-].
  apply not_true_iff_false in Hcd. rewrite isOnCooldown_spec in Hcd.
  split_and!; [tauto| |]; intros x Hl Hw; apply Hcd; eauto.
Qed.

Lemma refused_idle s s' : engine_of s' = engine_of s → last_now s ≤ last_now s' → idle s s'.
Proof. unfold idle. by intros ->. Qed.

Lemma idle_wf s s' : idle s s' → tracker_wf s → tracker_wf s'.
Proof.
  intros (Ht & _ & Hn) (Hg & Hc & Hu). unfold tracker_wf. rewrite Ht.
  split_and!; [lia|intros ? ? Hl; apply Hc in Hl; lia|intros ? ? ? Hl; apply Hu in Hl; lia].
Qed.

Lemma idle_respects s s' ev : idle s s' → respects s' ev → respects s ev.
Proof. intros (Ht & Hm & _). unfold respects. by rewrite Ht, Hm. Qed.

(** A history one script run at a time: the calls that run none are idle. *)
Inductive runs_of : St → list script_run → St → Prop :=
  | runs_nil s : runs_of s [] s
  | runs_exec s s' s'' name ctx t1 t2 te runs :
      executes name ctx s t1 t2 s' → te ≤ t2 → runs_of s' runs s'' →
      runs_of s (mk_run name (user (message ctx)) t1 te :: runs) s''
  | runs_idle s s' s'' runs : idle s s' → runs_of s' runs s'' → runs_of s runs s''.

Lemma history_runs s runs s' : history s runs s' → runs_of s runs s'.
Proof.
  induction 1 as [s|s s1 s2 name fn ctx runs Hok Hb _ IH|s s1 s2 runs Hi _ IH].
  - constructor.
  - apply handler_cases in Hb as [?|[_ [(-> & He & Hn)|(t1 & t2 & te & -> & Hte & Hx)]]]; try done.
    + eapply runs_idle; [by apply refused_idle|done].
    + by eapply runs_exec.
  - by eapply runs_idle.
Qed.

Lemma runs_respect s runs s' ev :
  runs_of s runs s' → tracker_wf s → ev ∈ runs → respects s ev.
Proof.
  induction 1 as [s|s s1 s2 name ctx t1 t2 te runs Hx Hte _ IH|s s1 s2 runs Hi _ IH];
    intros Hwf Hin.
  - by apply not_elem_of_nil in Hin.
  - apply elem_of_cons in Hin as [->|Hin]; [by eapply executes_respects|].
    eapply respects_mono; [done|done|]. eauto using executes_wf.
  - eauto using idle_wf, idle_respects.
Qed.

Lemma runs_split s l1 ev l2 s' :
  runs_of s (l1 ++ ev :: l2) s' → tracker_wf s →
  ∃ s1 s2 ctx t2, same_metadata s s2 ∧ tracker_wf s2 ∧ runs_of s2 l2 s' ∧
    user (message ctx) = run_user ev ∧ run_end ev ≤ t2 ∧
    executes (run_name ev) ctx s1 (run_start ev) t2 s2.
Proof.
  remember (l1 ++ ev :: l2) as runs eqn:Hruns. intros Hh. revert l1 Hruns.
  induction Hh as [s|s s1 s2 name ctx t1 t2 te runs Hx Hte Hh IH|s s1 s2 runs Hi Hh IH];
    intros l1 Hruns Hwf.
  - by destruct l1.
  - pose proof (executes_tracker _ _ _ _ _ _ Hx) as (_ & Hm & _). unfold same_metadata in *.
    destruct l1 as [|ev1 l1]; injection Hruns as <- ->.
    + exists s, s1, ctx, t2. split_and!; eauto using executes_wf.
    + destruct (IH l1 eq_refl (executes_wf _ _ _ _ _ _ Hx Hwf))
        as (sa & sb & ctx' & tr & Hmd & ? & ? & ? & ? & ?).
      exists sa, sb, ctx', tr. rewrite Hmd, Hm. done.
  - destruct (IH l1 Hruns (idle_wf _ _ Hi Hwf)) as (sa & sb & ctx' & tr & Hmd & ? & ? & ? & ? & ?).
    exists sa, sb, ctx', tr. unfold same_metadata in *. destruct Hi as (_ & Hm & _).
    rewrite Hmd, Hm. done.
Qed.

Definition count_name (name : string) (runs : list script_run) : Z :=
  Z.of_nat (length (base.filter (λ ev, run_name ev = name) runs)).

Lemma count_name_cons name ev runs :
  count_name name (ev :: runs) =
    (if decide (run_name ev = name) then 1 else 0) + count_name name runs.
Proof. unfold count_name. rewrite filter_cons. case_decide; simpl; lia. Qed.

Lemma executes_uses name ctx s t1 t2 s' n :
  executes name ctx s t1 t2 s' →
  uses (engine_of s') n = uses (engine_of s) n + (if decide (name = n) then 1 else 0).
Proof.
  intros (Hr & _)%executes_tracker. unfold uses.
  apply recordUsage_fields in Hr as (_ & _ & ->). rewrite lookup_insert.
  case_decide as Hn; [subst; simpl; lia|lia].
Qed.

Lemma idle_uses s s' name : idle s s' → uses (engine_of s') name = uses (engine_of s) name.
Proof. intros (Ht & _). unfold uses. by rewrite Ht. Qed.

Lemma runs_uses s runs s' name :
  runs_of s runs s' → uses (engine_of s') name = uses (engine_of s) name + count_name name runs.
Proof.
  induction 1 as [s|s s1 s2 nm ctx t1 t2 te runs Hx Hte _ IH|s s1 s2 runs Hi _ IH].
  - unfold count_name; simpl. lia.
  - rewrite count_name_cons. apply (executes_uses _ _ _ _ _ _ name) in Hx. simpl. lia.
  - by rewrite <- (idle_uses _ _ _ Hi).
Qed.

Lemma runs_limit s runs s' name meta :
  runs_of s runs s' → m_command_metadata (engine_of s) !! name = Some meta →
  0 < max_uses_per_stream meta →
  uses (engine_of s') name ≤ Z.max (uses (engine_of s) name) (max_uses_per_stream meta).
Proof.
  intros Hh Hm Hpos. revert Hm.
  induction Hh as [s|s s1 s2 nm ctx t1 t2 te runs Hx Hte _ IH|s s1 s2 runs Hi _ IH]; intros Hm.
  - lia.
  - pose proof (executes_tracker _ _ _ _ _ _ Hx) as (_ & Hmd & _). unfold same_metadata in Hmd.
    rewrite Hmd in IH. specialize (IH Hm).
    pose proof (executes_uses _ _ _ _ _ _ name Hx) as Hu.
    destruct Hx as (meta' & tr & Hm' & _ & _ & _ & Hl & _).
    destruct (decide (nm = name)) as [->|]; [|lia].
    rewrite Hm in Hm'. injection Hm' as <-. specialize (Hl Hpos). lia.
  - rewrite <- (idle_uses _ _ name Hi). apply IH. destruct Hi as (_ & Hmd & _). by rewrite Hmd.
Qed.

End Histories.

(** ** Loading, registering and reloading *)

Section Loading.
Context {sol : SolApi}.
Implicit Types e : LuaCommandEngine.

(** What loading a file may change: the Lua state and the two command maps. *)
Definition load_frame e e' : Prop :=
  m_cooldown_tracker e' = m_cooldown_tracker e ∧ m_audio_system e' = m_audio_system e ∧
  m_channel_owner e' = m_channel_owner e ∧ engine_initialized e' = engine_initialized e.

Definition same_commands e e' : Prop :=
  m_command_files e' = m_command_files e ∧ m_command_metadata e' = m_command_metadata e.

(** The maps after a successful load of [file] with metadata [md] under [name]. *)
Definition loaded_as (name file : string) (md : CommandMetadata) e e' : Prop :=
  (∀ k, m_command_files e' !! k =
     if decide (k ∈ name :: md_aliases md) then Some file else m_command_files e !! k) ∧
  (∀ k, m_command_metadata e' !! k =
     if decide (k ∈ name :: md_aliases md) then Some md else m_command_metadata e !! k).

Lemma alias_loop file md (l : list string) e :
  ∃ e', mfor l (λ alias, modify (λ e,
          set_commands (<[alias := file]> (m_command_files e))
                       (<[alias := md]> (m_command_metadata e)) e)) e = (Ok tt, e') ∧
    load_frame e e' ∧ m_lua e' = m_lua e ∧
    (∀ k, m_command_files e' !! k = if decide (k ∈ l) then Some file else m_command_files e !! k) ∧
    (∀ k, m_command_metadata e' !! k = if decide (k ∈ l) then Some md else m_command_metadata e !! k).
Proof.
  revert e. induction l as [|a l IH]; intros e.
  - exists e. repeat split; intros k; by rewrite decide_False by apply not_elem_of_nil.
  - cbn [mfor]. unfold mbind, M_bind, modify at 1.
    destruct (IH (set_commands (<[a := file]> (m_command_files e))
                    (<[a := md]> (m_command_metadata e)) e))
      as (e' & Hl & (?&?&?&?) & Hlua & Hf & Hm).
    exists e'. split; [exact Hl|]. split; [by repeat split|]. split; [done|].
    split; intros k; rewrite ?Hf, ?Hm; simpl; rewrite lookup_insert;
      destruct (decide (k ∈ l)) as [Hk|Hk]; destruct (decide (k ∈ a :: l)) as [Hk'|Hk'];
      rewrite elem_of_cons in Hk'; try tauto; case_decide; try done; naive_solver.
Qed.

Lemma load_body_cases file e r e' :
  load_body file e = (r, e') →
  load_frame e e' ∧
  ((r = Ok true ∧ ∃ name md, name ≠ "" ∧ loaded_as name file md e e') ∨
   (r ≠ Ok true ∧ same_commands e e')).
Proof.
  unfold load_body.
  destruct (sol_script_file file (m_lua e)) as [rs l].
  assert (Hbad : ∀ r0 : outcome bool, r0 ≠ Ok true → (r0, set_lua l e) = (r, e') →
    load_frame e e' ∧
    ((r = Ok true ∧ ∃ name md, name ≠ "" ∧ loaded_as name file md e e') ∨
     (r ≠ Ok true ∧ same_commands e e'))).
  { intros r0 Hr0 [= <- <-]. split; [by repeat split|]. right. by repeat split. }
  destruct rs as [[w|v]|x|]; try (apply Hbad; discriminate).
  destruct (sol_is_table v); [|apply Hbad; discriminate]; simpl.
  destruct (sol_valid (sol_field l v "name")); [|apply Hbad; discriminate]; simpl.
  destruct (sol_valid (sol_field l v "execute")); [|apply Hbad; discriminate]; simpl.
  unfold mbind at 1, M_bind at 1, lift at 1.
  destruct (sol_as_string _) as [name|x|]; try (apply Hbad; discriminate).
  destruct (str_empty name) eqn:Hn; [apply Hbad; discriminate|].
  unfold mbind at 1, M_bind at 1, lift at 1.
  destruct (parseCommandMetadata l v name) as [md|x|]; try (apply Hbad; discriminate).
  unfold mbind at 1, M_bind at 1, modify at 1. unfold mbind at 1, M_bind at 1.
  destruct (alias_loop file md (md_aliases md)
     (set_commands (<[name := file]> (m_command_files (set_lua l e)))
        (<[name := md]> (m_command_metadata (set_lua l e))) (set_lua l e)))
    as (e2 & -> & (?&?&?&?) & _ & Hf & Hm).
  intros [= <- <-]. split; [by repeat split|]. left. split; [done|].
  exists name, md. split; [by apply str_empty_false|].
  split; intros k; rewrite ?Hf, ?Hm; simpl; rewrite lookup_insert;
    destruct (decide (k ∈ md_aliases md)) as [Hk|Hk];
    destruct (decide (k ∈ name :: md_aliases md)) as [Hk'|Hk'];
    rewrite elem_of_cons in Hk'; try tauto; case_decide; try done; naive_solver.
Qed.

Lemma loadLuaCommand_cases fs file e r e' :
  loadLuaCommand fs file e = (r, e') →
  load_frame e e' ∧
  ((r = Ok true ∧ engine_initialized e = true ∧ fs_exists fs file = Ok true ∧
    ∃ name md, name ≠ "" ∧ loaded_as name file md e e') ∨
   (r ≠ Ok true ∧ same_commands e e')).
Proof.
  unfold loadLuaCommand, try_catch.
  assert (Hbad : ∀ r0 : outcome bool, r0 ≠ Ok true → (r0, e) = (r, e') →
    load_frame e e' ∧
    ((r = Ok true ∧ engine_initialized e = true ∧ fs_exists fs file = Ok true ∧
      ∃ name md, name ≠ "" ∧ loaded_as name file md e e') ∨
     (r ≠ Ok true ∧ same_commands e e'))).
  { intros r0 Hr0 [= <- <-]. split; [by repeat split|]. right. by repeat split. }
  destruct (engine_initialized e) eqn:Hi; [|apply Hbad; discriminate]; simpl.
  destruct (fs_exists fs file) as [[]|x|] eqn:He; try (apply Hbad; discriminate).
  destruct (load_body file e) as [rb eb] eqn:Hb.
  apply load_body_cases in Hb as [Hfr Hb].
  destruct rb as [b|x|]; intros [= <- <-]; (split; [done|]).
  - destruct Hb as [[[= ->] ?]|[? ?]]; [left|right]; eauto.
  - destruct Hb as [[? _]|[? ?]]; [done|right]. by split.
  - destruct Hb as [[? _]|[? ?]]; [done|right]. by split.
Qed.

(** Loading never removes a name from either map. *)
Definition commands_grow e e' : Prop :=
  dom (m_command_files e) ⊆ dom (m_command_files e') ∧
  dom (m_command_metadata e) ⊆ dom (m_command_metadata e').

Lemma loaded_as_grow name file md e e' : loaded_as name file md e e' → commands_grow e e'.
Proof.
  intros [Hf Hm]. split; intros k; rewrite !elem_of_dom, ?Hf, ?Hm; case_decide; eauto.
Qed.

Lemma loadLuaCommand_grow fs file e r e' :
  loadLuaCommand fs file e = (r, e') → commands_grow e e'.
Proof.
  intros [_ [(_ & _ & _ & name & md & _ & Hl)|[_ [Hf Hm]]]]%loadLuaCommand_cases.
  - by eapply loaded_as_grow.
  - unfold commands_grow. by rewrite Hf, Hm.
Qed.

End Loading.

Section Registering.
Context {sol : SolApi} {H St : Type} {host : EngineHost H St} {laws : EngineHostLaws H St}.
Variable map_order : gmap string string → list (string * string).
Variable lua_handler : string → LuaValue → H.

(** What registration may change: the Lua state and the parser. *)
Definition register_frame (s s' : St) : Prop :=
  load_frame (engine_of s) (engine_of s') ∧ same_commands (engine_of s) (engine_of s') ∧
  m_prefix (host_parser s') = m_prefix (host_parser s) ∧ host_fs s' = host_fs s.

Lemma register_frame_refl s : register_frame s s.
Proof. by repeat split. Qed.

Lemma register_frame_trans s1 s2 s3 :
  register_frame s1 s2 → register_frame s2 s3 → register_frame s1 s3.
Proof.
  unfold register_frame, load_frame, same_commands.
  intros ((?&?&?&?)&(?&?)&?&?) ((?&?&?&?)&(?&?)&?&?). split_and!; congruence.
Qed.

(** The file can be run again and still returns a table with a function. *)
Definition registrable (file : string) : Prop :=
  ∀ l, ∃ v t f l', sol_script_file file l = (Ok (ScriptValue v), l') ∧ sol_as_table v = Ok t ∧
    sol_as_function (sol_field l' t "execute") = Ok f ∧ sol_valid f = true.

Lemma register_one_cases name file s r s' :
  register_one lua_handler name file s = (r, s') →
  register_frame s s' ∧ (r = Ok tt ∨ r = Undefined) ∧
  ((∃ f, host_parser s' = registerCommand name (Some (lua_handler name f)) (host_parser s)) ∨
   host_parser s' = host_parser s) ∧
  (registrable file → r = Ok tt ∧
   ∃ f, host_parser s' = registerCommand name (Some (lua_handler name f)) (host_parser s)).
Proof.
  unfold register_one, try_catch, on_engine, zoom, lift, gets, modify, mbind, M_bind.
  destruct (sol_script_file file (m_lua (engine_of s))) as [rs l] eqn:Hs.
  set (s1 := set_engine _ s).
  assert (Hs1 : register_frame s s1 ∧ host_parser s1 = host_parser s).
  { subst s1. unfold register_frame. rewrite engine_set_engine, parser_set_engine, fs_set_engine.
    by repeat split. }
  destruct Hs1 as [Hf1 Hp1].
  assert (Hlua : m_lua (engine_of s1) = l) by (subst s1; by rewrite engine_set_engine).
  assert (Hbad : ∀ r0 : outcome unit, (r0 = Ok tt ∨ r0 = Undefined) → ¬ registrable file →
    (r0, s1) = (r, s') →
    register_frame s s' ∧ (r = Ok tt ∨ r = Undefined) ∧
    ((∃ f, host_parser s' = registerCommand name (Some (lua_handler name f)) (host_parser s)) ∨
     host_parser s' = host_parser s) ∧
    (registrable file → r = Ok tt ∧
     ∃ f, host_parser s' = registerCommand name (Some (lua_handler name f)) (host_parser s))).
  { intros r0 Hr0 Hnr [= <- <-]. split_and!; auto. by intros ?%Hnr. }
  assert (Hreg : registrable file → ∃ v t f, rs = Ok (ScriptValue v) ∧ sol_as_table v = Ok t ∧
            sol_as_function (sol_field l t "execute") = Ok f ∧ sol_valid f = true).
  { intros Hr. destruct (Hr (m_lua (engine_of s))) as (v & t & f & l' & Hs' & ? & ? & ?).
    rewrite Hs in Hs'. injection Hs' as -> ->. eauto 10. }
  destruct rs as [[w|v]|x|];
    try (apply Hbad; [by auto|]; intros (? & ? & ? & ? & ?)%Hreg; congruence).
  destruct (sol_as_table v) as [t|x|] eqn:Ht;
    try (apply Hbad; [by auto|]; intros (? & ? & ? & ? & ? & ?)%Hreg; congruence).
  rewrite Hlua.
  destruct (sol_as_function _) as [f|x|] eqn:Hf;
    try (apply Hbad; [by auto|]; intros (? & ? & ? & ? & ? & ? & ?)%Hreg; congruence).
  destruct (sol_valid f) eqn:Hv; simpl.
  2:{ apply Hbad; [by auto|]. intros (? & ? & ? & [= <-] & ? & ? & ?)%Hreg. congruence. }
  intros [= <- <-].
  assert (Hp : host_parser (set_host_parser (registerCommand name (Some (lua_handler name f))
             (host_parser s1)) s1) =
           registerCommand name (Some (lua_handler name f)) (host_parser s)).
  { by rewrite parser_set_parser, Hp1. }
  split_and!; eauto. eapply register_frame_trans; [exact Hf1|].
  unfold register_frame. rewrite engine_set_parser, parser_set_parser, fs_set_parser.
  repeat split; try done. unfold registerCommand. by destruct (str_empty name).
Qed.

(** The handlers the parser has after registering the entries of [l]. *)
Definition registered (l : list (string * string)) (s s' : St) : Prop :=
  register_frame s s' ∧
  (∀ k, m_commands (host_parser s') !! k = m_commands (host_parser s) !! k ∨
        ∃ name file f, (name, file) ∈ l ∧ tolower name = k ∧
          m_commands (host_parser s') !! k = Some (lua_handler name f)) ∧
  (∀ name file, (name, file) ∈ l → name ≠ "" → registrable file →
     ∃ name' file' f, (name', file') ∈ l ∧ tolower name' = tolower name ∧
       m_commands (host_parser s') !! tolower name = Some (lua_handler name' f)).

Lemma register_loop l s r s' :
  mfor l (λ '(name, file), register_one lua_handler name file) s = (r, s') → r ≠ Undefined →
  r = Ok tt ∧ registered l s s'.
Proof.
  revert s. induction l as [|[n1 f1] l IH]; intros s.
  - intros [= <- <-] _. unfold registered. split_and!; auto using register_frame_refl.
    intros name file Hin. by apply not_elem_of_nil in Hin.
  - cbn [mfor]. unfold mbind, M_bind at 1.
    destruct (register_one lua_handler n1 f1 s) as [r1 s1] eqn:H1.
    apply register_one_cases in H1 as (Hfr1 & [-> | ->] & Hp1 & Hreg1);
      [|by intros [= <- <-]].
    intros Hl Hr. apply IH in Hl as (-> & Hfr & Horig & Hall); [|done]. clear IH.
    assert (Hin1 : (n1, f1) ∈ (n1, f1) :: l) by apply list_elem_of_here.
    assert (Hin2 : ∀ x, x ∈ l → x ∈ (n1, f1) :: l) by (intros; by apply list_elem_of_further).
    split; [done|]. split; [by eapply register_frame_trans|]. split.
    + intros k. destruct (Horig k) as [->|(n & fl & f & ? & ? & ?)]; [|right; eauto 10].
      destruct Hp1 as [[f ->] | ->]; [|by left]. unfold registerCommand.
      destruct (str_empty n1); [by left|]. simpl. rewrite lookup_insert.
      case_decide; [right; eauto 10|by left].
    + intros name file [[= -> ->]|Hin]%elem_of_cons Hne Hreg.
      * destruct (Hreg1 Hreg) as (_ & f & Hpf).
        destruct (Horig (tolower n1)) as [->|(n & fl & f' & ? & ? & ?)]; [|eauto 10].
        rewrite Hpf. unfold registerCommand. apply str_empty_false in Hne as ->. simpl.
        rewrite lookup_insert_eq. eauto 10.
      * destruct (Hall name file Hin Hne Hreg) as (n & fl & f & ? & ? & ?). eauto 10.
Qed.

End Registering.

Section Reloading.
Context {sol : SolApi} (map_order : gmap string string → list (string * string)).

Lemma reload_loop fs (l : list (string * string)) e r e' :
  mfor l (λ '(_, file_path), loadLuaCommand fs file_path ;; mret tt) e = (r, e') →
  load_frame e e' ∧ commands_grow e e' ∧
  (∀ k p, m_command_files e' !! k = Some p →
          m_command_files e !! k = Some p ∨ fs_exists fs p = Ok true).
Proof.
  revert e. induction l as [|[n f] l IH]; intros e.
  - intros [= <- <-]. repeat split; auto.
  - cbn [mfor]. unfold mbind, M_bind. destruct (loadLuaCommand fs f e) as [r1 e1] eqn:H1.
    assert (Hstep : load_frame e e1 ∧ commands_grow e e1 ∧
      ∀ k p, m_command_files e1 !! k = Some p →
             m_command_files e !! k = Some p ∨ fs_exists fs p = Ok true).
    { pose proof (loadLuaCommand_grow _ _ _ _ _ H1) as Hg.
      apply loadLuaCommand_cases in H1 as [Hfr [(_ & _ & Hex & name & md & _ & [Hf _])|[_ [Hf _]]]];
        split_and!; auto; intros k p; rewrite Hf; [|by left].
      case_decide; [intros [= <-]; by right|by left]. }
    destruct Hstep as ((?&?&?&?) & [G1 G2] & Hk).
    destruct r1 as [b|x|]; [|intros [= <- <-]; by repeat split..].
    intros Hl. apply IH in Hl as ((?&?&?&?) & [G3 G4] & Hk').
    split; [repeat split; congruence|]. split; [split; set_solver|].
    intros k p Hp. destruct (Hk' k p Hp) as [Hp1|]; [|by right]. by apply Hk.
Qed.

Lemma reload_cases fs e r e' :
  reloadAllCommands map_order fs e = (r, e') →
  load_frame e e' ∧ dom (m_command_metadata e) ⊆ dom (m_command_metadata e') ∧
  (∀ k p, m_command_files e' !! k = Some p → fs_exists fs p = Ok true).
Proof.
  unfold reloadAllCommands, mbind at 1, M_bind at 1, gets, modify. cbn -[mfor].
  unfold mbind at 1, M_bind at 1.
  intros ((?&?&?&?) & [_ Hg] & Hk)%reload_loop.
  split; [by repeat split|]. split; [done|]. intros k p Hp.
  destruct (Hk k p Hp) as [Hf|?]; [|done].
  by change (m_command_files _) with (∅ : gmap string string) in Hf.
Qed.

End Reloading.
