(* ===== verification/ViewModels.v ===== *)
(** * View models

    Models [include/seraphbot/viewmodels/]: the objects between the panels of the
    GUI and the services.  They hold references, so their operations act on the
    program around the services ([ServiceHost], [DiscordHost]). *)

From S2P Require Import Prelude Net Coro Json TwitchService Discord.

(** ** [struct AuthVM] *)

Record AuthVM := mk_AuthVM { vm_state : State }.
Definition new_AuthVM : AuthVM := mk_AuthVM Disconnected.

Section Auth.
Context {CB St : Type} {host : ServiceHost CB St}.

Definition auth_syncFrom (s : St) (vm : AuthVM) : AuthVM := mk_AuthVM (getState (svc s)).
Definition auth_getState (vm : AuthVM) : State := vm_state vm.
Definition auth_login : M St unit := startLogin.
Definition auth_currentUser (s : St) : string := getCurrentUser (svc s).
Definition auth_connect : M St unit := modify (post TConnectToChat).
Definition auth_disconnect : M St unit := disconnect.

(** ** [struct ChatVM] *)

Definition chat_canSendMessages (s : St) : bool := canSendMessages (svc s).
Definition chat_sendMessage (msg : string) : M St unit := TwitchService.sendMessage msg.

End Auth.

(** ** [struct DiscordVM] *)

Record DiscordVM := mk_DiscordVM {
  webhook_url : string;              (* C strings in buffers of 512 bytes *)
  notification_text : string;
}.
Definition new_DiscordVM : DiscordVM := mk_DiscordVM "" "".
Definition discord_buffer_size : Z := 512.

Definition set_webhook_text (v : string) (vm : DiscordVM) : DiscordVM :=
  mk_DiscordVM v (notification_text vm).
Definition set_notification_text (v : string) (vm : DiscordVM) : DiscordVM :=
  mk_DiscordVM (webhook_url vm) v.

Section Discord.
Context {CB St : Type} {host : ServiceHost CB St} {dhost : DiscordHost St}.

Definition discord_syncTo (url : string) : M St unit :=
  modify (λ s, set_notifications (setWebhookUrl url (notifications s)) s).
Definition discord_syncFrom (s : St) : string := getWebhookUrl (notifications s).
(** The completion handler only writes to the log. *)
Definition discord_testMessage (text : string) : M St unit := modify (post (TDiscord text)).

End Discord.
