(* ===== verification/World.v ===== *)
(** * The whole program as one state

    A [World] holds every object that exists while [Application::run] runs
    ([include/seraphbot/application.hpp]), the heap of [EventSub] objects, the
    queue of the [io_context], and what the program sees of the outside: the
    file system, the clocks and the trace of GUI calls.  The instances below give
    each component the interface it was modelled against; the two callbacks of
    [Application::setupCallbacks] and the handlers of the command parser are
    defined here because they close the loop between the components. *)

From Stdlib Require Import SpecFloat.
From S2P Require Import Prelude Cxx CommandParser Coro Json Net EventSub TwitchService Discord.
From S2P Require Import AppState Gui Obs ViewModels AudioSystem Cooldown LuaEngine.

(** The callable objects registered with the command parser: the closure of a Lua
    command, and the two native commands of [Application::run]. *)
Inductive handler {sol : SolApi} :=
  | HLua (command_name : string) (execute_func : LuaValue)
  | HReload
  | HCommands.

(** The callbacks given to the Twitch service: the lambdas of [setupCallbacks],
    which only capture the application. *)
Inductive app_callback := AppCallback.

(** What lies outside of the repository besides the interpreter and the GUI. *)
Class Platform := {
  ma_success : list ma_call → ma_call → bool;                  (* miniaudio *)
  map_order : gmap string string → list (string * string);     (* [unordered_map] iteration *)
  make_directories : string → FileSystem → outcome unit * FileSystem;
}.

Record World {sol : SolApi} := mk_World {
  w_cfg : ClientConfig;
  w_conn : ConnectionManager;
  w_app_state : AppState;
  w_parser : CommandParser handler;
  w_engine : LuaCommandEngine;
  w_service : TwitchService app_callback;
  w_discord : Notifications;
  w_obs : OBSService;
  w_manager : ImGuiManager;
  w_auth_vm : AuthVM;
  w_discord_vm : DiscordVM;
  w_objects : gmap nat (EventSub eventsub_callback);
  w_queue : list task;
  w_fs : FileSystem;
  w_steady : Z;                       (* the latest reading of the steady clock *)
  w_elapsed : list N;                 (* the time that passes before each further reading *)
  w_system_time : Z;                  (* the system clock, seconds *)
  w_trace : list gui_event;
}.

Section Updates.
Context {sol : SolApi}.
Implicit Types w : World.

Definition upd_cfg (x : ClientConfig) w : World :=
  mk_World _ x (w_conn w) (w_app_state w) (w_parser w) (w_engine w) (w_service w) (w_discord w)
    (w_obs w) (w_manager w) (w_auth_vm w) (w_discord_vm w) (w_objects w) (w_queue w) (w_fs w)
    (w_steady w) (w_elapsed w) (w_system_time w) (w_trace w).
Definition upd_app_state (x : AppState) w : World :=
  mk_World _ (w_cfg w) (w_conn w) x (w_parser w) (w_engine w) (w_service w) (w_discord w)
    (w_obs w) (w_manager w) (w_auth_vm w) (w_discord_vm w) (w_objects w) (w_queue w) (w_fs w)
    (w_steady w) (w_elapsed w) (w_system_time w) (w_trace w).
Definition upd_parser (x : CommandParser handler) w : World :=
  mk_World _ (w_cfg w) (w_conn w) (w_app_state w) x (w_engine w) (w_service w) (w_discord w)
    (w_obs w) (w_manager w) (w_auth_vm w) (w_discord_vm w) (w_objects w) (w_queue w) (w_fs w)
    (w_steady w) (w_elapsed w) (w_system_time w) (w_trace w).
Definition upd_engine (x : LuaCommandEngine) w : World :=
  mk_World _ (w_cfg w) (w_conn w) (w_app_state w) (w_parser w) x (w_service w) (w_discord w)
    (w_obs w) (w_manager w) (w_auth_vm w) (w_discord_vm w) (w_objects w) (w_queue w) (w_fs w)
    (w_steady w) (w_elapsed w) (w_system_time w) (w_trace w).
Definition upd_service (x : TwitchService app_callback) w : World :=
  mk_World _ (w_cfg w) (w_conn w) (w_app_state w) (w_parser w) (w_engine w) x (w_discord w)
    (w_obs w) (w_manager w) (w_auth_vm w) (w_discord_vm w) (w_objects w) (w_queue w) (w_fs w)
    (w_steady w) (w_elapsed w) (w_system_time w) (w_trace w).
Definition upd_discord (x : Notifications) w : World :=
  mk_World _ (w_cfg w) (w_conn w) (w_app_state w) (w_parser w) (w_engine w) (w_service w) x
    (w_obs w) (w_manager w) (w_auth_vm w) (w_discord_vm w) (w_objects w) (w_queue w) (w_fs w)
    (w_steady w) (w_elapsed w) (w_system_time w) (w_trace w).
Definition upd_manager (x : ImGuiManager) w : World :=
  mk_World _ (w_cfg w) (w_conn w) (w_app_state w) (w_parser w) (w_engine w) (w_service w)
    (w_discord w) (w_obs w) x (w_auth_vm w) (w_discord_vm w) (w_objects w) (w_queue w) (w_fs w)
    (w_steady w) (w_elapsed w) (w_system_time w) (w_trace w).
Definition upd_auth_vm (x : AuthVM) w : World :=
  mk_World _ (w_cfg w) (w_conn w) (w_app_state w) (w_parser w) (w_engine w) (w_service w)
    (w_discord w) (w_obs w) (w_manager w) x (w_discord_vm w) (w_objects w) (w_queue w) (w_fs w)
    (w_steady w) (w_elapsed w) (w_system_time w) (w_trace w).
Definition upd_discord_vm (x : DiscordVM) w : World :=
  mk_World _ (w_cfg w) (w_conn w) (w_app_state w) (w_parser w) (w_engine w) (w_service w)
    (w_discord w) (w_obs w) (w_manager w) (w_auth_vm w) x (w_objects w) (w_queue w) (w_fs w)
    (w_steady w) (w_elapsed w) (w_system_time w) (w_trace w).
Definition upd_objects (x : gmap nat (EventSub eventsub_callback)) w : World :=
  mk_World _ (w_cfg w) (w_conn w) (w_app_state w) (w_parser w) (w_engine w) (w_service w)
    (w_discord w) (w_obs w) (w_manager w) (w_auth_vm w) (w_discord_vm w) x (w_queue w) (w_fs w)
    (w_steady w) (w_elapsed w) (w_system_time w) (w_trace w).
Definition upd_queue (x : list task) w : World :=
  mk_World _ (w_cfg w) (w_conn w) (w_app_state w) (w_parser w) (w_engine w) (w_service w)
    (w_discord w) (w_obs w) (w_manager w) (w_auth_vm w) (w_discord_vm w) (w_objects w) x (w_fs w)
    (w_steady w) (w_elapsed w) (w_system_time w) (w_trace w).
Definition upd_fs (x : FileSystem) w : World :=
  mk_World _ (w_cfg w) (w_conn w) (w_app_state w) (w_parser w) (w_engine w) (w_service w)
    (w_discord w) (w_obs w) (w_manager w) (w_auth_vm w) (w_discord_vm w) (w_objects w) (w_queue w)
    x (w_steady w) (w_elapsed w) (w_system_time w) (w_trace w).
Definition upd_clock (t : Z) (l : list N) w : World :=
  mk_World _ (w_cfg w) (w_conn w) (w_app_state w) (w_parser w) (w_engine w) (w_service w)
    (w_discord w) (w_obs w) (w_manager w) (w_auth_vm w) (w_discord_vm w) (w_objects w) (w_queue w)
    (w_fs w) t l (w_system_time w) (w_trace w).
Definition upd_trace (x : list gui_event) w : World :=
  mk_World _ (w_cfg w) (w_conn w) (w_app_state w) (w_parser w) (w_engine w) (w_service w)
    (w_discord w) (w_obs w) (w_manager w) (w_auth_vm w) (w_discord_vm w) (w_objects w) (w_queue w)
    (w_fs w) (w_steady w) (w_elapsed w) (w_system_time w) x.

End Updates.

(** ** The interfaces of the components *)

Section Instances.
Context {sol : SolApi} {plat : Platform}.

(** [steady_clock::now()]: some time passes, never a negative amount. *)
Definition world_now : M World Z := λ w,
  let t := w_steady w + Z.of_N (hd 0%N (w_elapsed w)) in
  (Ok t, upd_clock t (tl (w_elapsed w)) w).

#[global] Instance World_engine : EngineHost handler World := {|
  engine_of := w_engine;
  set_engine := upd_engine;
  host_parser := w_parser;
  set_host_parser := upd_parser;
  host_fs := w_fs;
  steady_now := world_now;
  last_now := w_steady;
|}.

#[global] Instance World_engine_laws : EngineHostLaws handler World.
Proof. split; try done. intros w. do 2 eexists. split; [done|]. simpl. split_and!; lia || done. Qed.

#[global] Instance World_discord : DiscordHost World := {|
  notifications := w_discord;
  set_notifications := upd_discord;
  discord_cfg := w_cfg;
  system_now := w_system_time;
|}.

#[global] Instance World_gui : GuiHost World := {|
  gui_trace := w_trace;
  set_gui_trace := upd_trace;
|}.

(** The service of the application, for a given message callback. *)
Definition service_host (on_message : ChatMessage → M World unit) : ServiceHost app_callback World := {|
  svc := w_service;
  set_svc := upd_service;
  config := w_cfg;
  set_config := upd_cfg;
  objects := w_objects;
  set_objects := upd_objects;
  queue := w_queue;
  post t w := upd_queue (w_queue w ++ [t]) w;
  call_message _ msg := on_message msg;
  call_status _ status := modify (λ w, upd_app_state (set_last_status status (w_app_state w)) w);
|}.

(** The native commands of [Application::run]. *)
Definition reload_command (ctx : CommandContext World) : M World unit :=
  reply ctx "Reloading Lua commands..." ;;
  fs ← gets w_fs;
  on_engine (reloadAllCommands map_order fs) ;;
  registerWithParser map_order HLua ;;
  reply ctx "Lua commands reloaded!".

(** The loop [for (i = 0; i < loaded_commands.size(); ++i)]. *)
Fixpoint commands_loop (l : list string) (i : nat) (response : string) : string :=
  match l with
  | [] => response
  | c :: l' =>
      let response := if (0 <? i)%nat then response +:+ ", " else response in
      commands_loop l' (S i) (response +:+ c)
  end.

Definition commands_command (ctx : CommandContext World) : M World unit :=
  loaded_commands ← gets (λ w, getLoadedCommands map_order (w_engine w));
  match loaded_commands with
  | [] => reply ctx "No Lua commands loaded"
  | _ => reply ctx (commands_loop loaded_commands 0 "Loaded commands: ")
  end.

(** The call operator of a registered handler. *)
Definition invoke_handler (h : handler) (ctx : CommandContext World) : M World unit :=
  match h with
  | HLua name fn => lua_handler_body ma_success name fn ctx
  | HReload => reload_command ctx
  | HCommands => commands_command ctx
  end.

(** The message callback: [sendMessage] does not call callbacks, so the host it is
    used at here does not matter. *)
Definition reply_fn (text : string) : M World unit :=
  TwitchService.sendMessage (host := service_host (λ _, mret tt)) text.

Definition on_chat_message (msg : ChatMessage) : M World unit :=
  modify (λ w, upd_app_state (pushChatMessage msg (w_app_state w)) w) ;;
  _ ← parseAndExecute w_parser invoke_handler msg reply_fn;
  mret tt.

#[global] Instance World_service : ServiceHost app_callback World := service_host on_chat_message.

#[global] Instance World_service_laws : ServiceHostLaws app_callback World.
Proof. by split. Qed.

#[global] Instance World_status : StatusOk app_callback World.
Proof. intros f m w. by eexists. Qed.

#[global] Instance World_eventsub_laws {J : JsonApi} : EventSubHostLaws eventsub_callback World.
Proof.
  split. intros p es w Hp. cbn in *. rewrite insert_id by done. by destruct w.
Qed.

End Instances.

(** ** The operations of the service, on a [World] *)

Section Equations.
Context {sol : SolApi} {plat : Platform}.
Implicit Types w : World.

Definition show_status (msg : string) w : World :=
  match m_status_callback (w_service w) with
  | Some _ => if str_empty msg then w else upd_app_state (set_last_status msg (w_app_state w)) w
  | None => w
  end.

Lemma setState_world st msg w :
  setState st msg w = (Ok tt, show_status msg (upd_service (set_state st (w_service w)) w)).
Proof.
  unfold setState, show_status, mbind, M_bind, on_svc, modify, gets. cbn.
  destruct (m_status_callback (w_service w)); [|done]. by destruct (str_empty msg).
Qed.

Lemma startLogin_world w :
  startLogin w =
    if bool_decide (m_state (w_service w) ≠ Disconnected) then (Ok tt, w)
    else let w1 := show_status "Starting login process..."
                     (upd_service (set_state LoggingIn (w_service w)) w) in
         (Ok tt, upd_queue (w_queue w1 ++ [TLogin]) w1).
Proof.
  unfold startLogin. cbn [svc World_service service_host]. case_bool_decide; [done|].
  unfold mbind, M_bind. by rewrite setState_world.
Qed.

Lemma collect_none w :
  m_eventsub (w_service w) = None → m_chat_read (w_service w) = None → collect w = upd_objects ∅ w.
Proof.
  intros He Hr. unfold collect. cbn. f_equal. apply map_empty_filter_2.
  intros q es _. cbn. rewrite He, Hr. by intros [|].
Qed.

Lemma disconnect_world w :
  disconnect w =
    let w1 := show_status "Disconnected" (upd_service (set_state Disconnected (w_service w)) w) in
    let t := set_services None None None (w_service w1) in
    (Ok tt, upd_service (set_current_user "" t) (upd_objects ∅ (upd_service t w1))).
Proof.
  unfold disconnect. unfold mbind at 1, M_bind at 1. rewrite setState_world. cbv zeta.
  unfold mbind, M_bind, modify, on_svc. by rewrite collect_none.
Qed.

Lemma sendMessage_world m w :
  TwitchService.sendMessage m w =
    (Ok tt, if bool_decide (m_state (w_service w) = ChatConnected)
            then upd_queue (w_queue w ++ [TSend m]) w else w).
Proof.
  unfold TwitchService.sendMessage. cbn [svc World_service service_host].
  by destruct (m_state (w_service w)).
Qed.

(** [show_status] writes the last status only. *)
Lemma show_status_fields msg w :
  let w' := show_status msg w in
  w_service w' = w_service w ∧ w_objects w' = w_objects w ∧ w_queue w' = w_queue w ∧
  w_cfg w' = w_cfg w ∧ w_trace w' = w_trace w ∧ w_manager w' = w_manager w ∧
  chat_log (w_app_state w') = chat_log (w_app_state w) ∧
  m_pending_messages (w_app_state w') = m_pending_messages (w_app_state w).
Proof. unfold show_status. by destruct (m_status_callback _); [destruct (str_empty msg)|]. Qed.

End Equations.
