(* ===== verification/Ui.v ===== *)
(** * The panels of the GUI

    Models the panels of [ImGuiManager] ([src/ui/imgui_manager.cpp]): docking and
    status windows, and the Auth, Chat and Discord panels, which read and drive
    the services through their view models. *)

From Stdlib Require Import SpecFloat.
From S2P Require Import Prelude Cxx CommandParser Coro Json Net EventSub TwitchService Discord.
From S2P Require Import AppState Gui ViewModels World LuaEngine.

Definition f32_add : spec_float → spec_float → spec_float := SFadd f32_prec f32_emax.
Definition f32_sub : spec_float → spec_float → spec_float := SFsub f32_prec f32_emax.
Definition vec2_of_Z (x y : Z) : ImVec2 := mk_vec2 (f32_of_Z x) (f32_of_Z y).

(** A C string in a buffer of [size] bytes. *)
Definition fit (size : Z) (s : string) : string :=
  c_str (String.substring 0 (Z.to_nat (size - 1)) s).

Definition set_message_input (v : string) (m : ImGuiManager) : ImGuiManager :=
  mk_ImGuiManager (m_backend m) (m_window m) (m_context m) v.

Section Panels.
Context {sol : SolApi} {plat : Platform} {gui : GuiApi}.

(** [ImGui::InputText] on a buffer: the content may change; the answer says
    whether the user is done. *)
Definition input_text (label : string) (size : Z) (flags : list input_flag) (old : string)
    : M World (bool * string) := λ w,
  let edited := fit size (gui_edit (w_trace w) label old) in
  (r ← ask (InputText label size flags); mret (r, edited)) w.

Definition manageDocking : M World unit :=
  viewport ← gets (λ w, gui_viewport (w_trace w));
  emit (SetNextWindowPos (vp_pos viewport)) ;;
  emit (SetNextWindowSize (vp_size viewport)) ;;
  emit (SetNextWindowViewport (vp_id viewport)) ;;
  emit (PushStyleVar WindowRounding f32_zero) ;;
  emit (PushStyleVar WindowBorderSize f32_zero) ;;
  emit (Begin "DockSpace" [MenuBar; NoDocking; NoTitleBar; NoCollapse; NoResize; NoMove;
                           NoBringToFrontOnFocus; NoNavFocus]) ;;
  emit (PopStyleVar 2) ;;
  emit (DockSpace "MyDockSpace" (mk_vec2 f32_zero f32_zero)) ;;
  bar ← ask BeginMenuBar;
  (if bar : bool then
     file ← ask (BeginMenu "File");
     (if file : bool then
        emit Separator ;;
        exit ← ask (MenuItem "Exit");
        (if exit : bool then emit (GlfwSetWindowShouldClose true) else mret tt) ;;
        emit EndMenu
      else mret tt) ;;
     view ← ask (BeginMenu "View");
     (if view : bool then emit EndMenu else mret tt) ;;
     emit EndMenuBar
   else mret tt) ;;
  emit End.

Definition manageFloating : M World unit :=
  viewport ← gets (λ w, gui_viewport (w_trace w));
  let window_size := vec2_of_Z 200 20 in
  let padding := f32_of_Z 10 in
  let corner p s x := f32_sub (f32_sub (f32_add p s) x) padding in
  let pos := mk_vec2
    (corner (vec_x (vp_pos viewport)) (vec_x (vp_size viewport)) (vec_x window_size))
    (corner (vec_y (vp_pos viewport)) (vec_y (vp_size viewport)) (vec_y window_size)) in
  emit (SetNextWindowPos pos) ;;
  emit (SetNextWindowSize window_size) ;;
  emit (Begin "StatusBar" [NoTitleBar; NoResize; NoMove; NoScrollbar; NoSavedSettings;
                           NoFocusOnAppearing; NoDocking]) ;;
  fps ← gets (λ w, gui_framerate (w_trace w));
  emit (TextFps fps) ;;
  emit End.

(** [if (ImGui::Button(label)) action();] *)
Definition on_button (label : string) (action : M World unit) : M World unit :=
  b ← ask (Button label);
  if b : bool then action else mret tt.

Definition manageAuth : M World unit :=
  emit (Begin "Auth" []) ;;
  modify (λ w, upd_auth_vm (auth_syncFrom w (w_auth_vm w)) w) ;;
  st ← gets (λ w, auth_getState (w_auth_vm w));
  (match st with
   | Disconnected => on_button "Login to Twitch" auth_login
   | LoggingIn => emit (Text "Logging in...")
   | LoggedIn =>
       user ← gets auth_currentUser;
       emit (Text ("Logged in as: " +:+ c_str user)) ;;
       on_button "Connect to Chat" auth_connect ;;
       on_button "Logout" auth_disconnect
   | ConnectingToChat => emit (Text "Connecting to chat...")
   | ChatConnected =>
       user ← gets auth_currentUser;
       emit (Text ("Connected! User: " +:+ c_str user)) ;;
       on_button "Disconnect" auth_disconnect
   | Error =>
       emit (TextColored (mk_vec4 f32_one f32_zero f32_zero f32_one) "Error occurred") ;;
       on_button "Reset" auth_disconnect
   end) ;;
  emit End.

(** One line of the chat log; the text of the message is the format string. *)
Definition draw_message (msg : ChatMessage) : M World unit :=
  color ← lift_exn (hexToImVec4 (color msg));
  emit (TextColored color (c_str (user msg) +:+ ": ")) ;;
  emit SameLine ;;
  line ← lift (printf_noargs (c_str (text msg)));
  emit (TextWrapped line).

(** Send the content of the input line, if any, and clear it. *)
Definition send_input : M World unit :=
  msg ← gets (λ w, c_str (m_message_input (w_manager w)));
  if negb (str_empty msg) then
    chat_sendMessage msg ;;
    modify (λ w, upd_manager (set_message_input "" (w_manager w)) w)
  else mret tt.

(** The scrolling region with the chat log. *)
Definition chat_log_region : M World unit :=
  modify (λ w, upd_app_state (processPendingMessages (w_app_state w)) w) ;;
  height ← gets (λ w, gui_frame_height (w_trace w));
  emit (BeginChild "ScrollingRegion" (mk_vec2 f32_zero (SFopp height)) true
          [HorizontalScrollbar]) ;;
  emit (PushTextWrapPos f32_zero) ;;
  log ← gets (λ w, chat_log (w_app_state w));
  mfor log draw_message ;;
  emit PopTextWrapPos ;;
  bottom ← gets (λ w, gui_at_bottom (w_trace w));
  (if bottom : bool then emit (SetScrollHereY f32_one) else mret tt) ;;
  emit EndChild.

(** The input line and the Send button. *)
Definition chat_input_line : M World unit :=
  emit (SetNextItemWidth (f32_of_Z (-80))) ;;
  old ← gets (λ w, m_message_input (w_manager w));
  '(entered, content) ← input_text "##message" message_input_size
                           [EnterReturnsTrue; CtrlEnterForNewLine] old;
  modify (λ w, upd_manager (set_message_input content (w_manager w)) w) ;;
  (if entered : bool then send_input else mret tt) ;;
  emit SameLine ;;
  on_button "Send" send_input.

Definition manageChat : M World unit :=
  emit (Begin "Chat" []) ;;
  can ← gets chat_canSendMessages;
  (if can : bool then chat_log_region ;; chat_input_line
   else emit (Text "Connect to chat to send messages")) ;;
  emit End.

Definition manageDiscord : M World unit :=
  emit (Begin "Discord Settings" []) ;;
  emit (Text "Discord WebHook URL") ;;
  emit SameLine ;;
  emit (SetNextItemWidth (f32_of_Z (-1))) ;;
  old ← gets (λ w, webhook_url (w_discord_vm w));
  '(_, url) ← input_text "##webhookurl" discord_buffer_size [] old;
  modify (λ w, upd_discord_vm (set_webhook_text url (w_discord_vm w)) w) ;;
  on_button "Apply" (discord_syncTo (c_str url)) ;;
  emit SameLine ;;
  shown ← gets discord_syncFrom;
  line ← lift (printf_noargs (c_str shown));
  emit (Text line) ;;
  old ← gets (λ w, notification_text (w_discord_vm w));
  '(_, content) ← input_text "##notification_message" discord_buffer_size [] old;
  modify (λ w, upd_discord_vm (set_notification_text content (w_discord_vm w)) w) ;;
  emit SameLine ;;
  on_button "Test" (discord_testMessage (c_str content)) ;;
  emit End.

End Panels.

(** ** Reference definitions: nesting

    Dear ImGui requires its calls to nest: windows, children, menus and text-wrap
    positions are opened inside a frame and closed in the opposite order, and the
    style variables pushed are popped before the frame ends. *)

Inductive scope := ScFrame | ScWindow | ScChild | ScMenuBar | ScMenu | ScWrap.
Definition nesting : Type := list scope * nat.       (* open scopes; pushed style variables *)

(** Calls that draw into the current window. *)
Definition widget (c : gui_call) : bool :=
  match c with
  | DockSpace _ _ | Separator | Text _ | TextFps _ | TextColored _ _ | TextWrapped _ | SameLine
  | SetScrollHereY _ | SetNextItemWidth _ | InputText _ _ _ | Button _ | BeginMenuBar => true
  | _ => false
  end.

Definition in_window (l : list scope) : bool :=
  match l with [] | [ScFrame] => false | _ => true end.

Definition push_scope (sc : scope) (st : nesting) : option nesting :=
  if in_window (fst st) then Some (sc :: fst st, snd st) else None.
Definition pop_scope (sc : scope) (st : nesting) : option nesting :=
  match sc, fst st with
  | ScWindow, ScWindow :: l | ScChild, ScChild :: l | ScMenuBar, ScMenuBar :: l
  | ScMenu, ScMenu :: l | ScWrap, ScWrap :: l => Some (l, snd st)
  | _, _ => None
  end.

Definition call_step (st : nesting) (c : gui_call) : option nesting :=
  match c with
  | NewFrame => match st with ([], O) => Some ([ScFrame], O) | _ => None end
  | Render => match st with ([ScFrame], O) => Some ([], O) | _ => None end
  | Begin _ _ => match fst st with [] => None | l => Some (ScWindow :: l, snd st) end
  | End => pop_scope ScWindow st
  | BeginChild _ _ _ _ => push_scope ScChild st
  | EndChild => pop_scope ScChild st
  | PushTextWrapPos _ => push_scope ScWrap st
  | PopTextWrapPos => pop_scope ScWrap st
  | EndMenuBar => pop_scope ScMenuBar st
  | EndMenu => pop_scope ScMenu st
  | PushStyleVar _ _ => Some (fst st, S (snd st))
  | PopStyleVar k => if (k <=? snd st)%nat then Some (fst st, (snd st - k)%nat) else None
  | MenuItem _ => match fst st with ScMenu :: _ => Some st | _ => None end
  | BeginMenu _ => match fst st with ScMenuBar :: _ | ScMenu :: _ => Some st | _ => None end
  | c => if widget c && negb (in_window (fst st)) then None else Some st
  end.

Definition nest_step (st : nesting) (ev : gui_event) : option nesting :=
  match ev with
  | Did c => call_step st c
  | Asked c answer =>
      st ← call_step st c;
      if answer : bool then
        match c with
        | BeginMenuBar => push_scope ScMenuBar st
        | BeginMenu _ => push_scope ScMenu st
        | _ => Some st
        end
      else Some st
  end.

(** An automaton that reads the trace of GUI calls. *)
Class Automaton (X : Type) := {
  auto_start : X;
  auto_step : X → gui_event → option X;
}.

Definition state_of {X} {auto : Automaton X} (trace : list gui_event) : option X :=
  foldl (λ st ev, st ← st; auto_step st ev) (Some auto_start) trace.

#[global] Arguments state_of : simpl never.

#[global] Instance nesting_automaton : Automaton nesting := {|
  auto_start := ([], O); auto_step := nest_step;
|}.
Definition nesting_of (trace : list gui_event) : option nesting := state_of trace.

(** The user chose Exit and the window has not been told to close yet. *)
Inductive exit_wish := NoWish | Wish.
#[global] Instance exit_automaton : Automaton exit_wish := {|
  auto_start := NoWish;
  auto_step st ev := Some (match ev with
                           | Asked (MenuItem l) true => if String.eqb l "Exit" then Wish else st
                           | Did (GlfwSetWindowShouldClose true) => NoWish
                           | _ => st
                           end);
|}.

Section Nesting.
Context {sol : SolApi} {plat : Platform} {gui : GuiApi} {X : Type} {auto : Automaton X}.

(** [m], when it returns normally, takes the automaton from [P] to [Q]. *)
Definition scoped {A} (P Q : X) (m : M World A) : Prop :=
  ∀ w a w', m w = (Ok a, w') → state_of (w_trace w) = Some P → state_of (w_trace w') = Some Q.

(** [m] makes no GUI call. *)
Definition quiet {A} (m : M World A) : Prop := ∀ w, w_trace (snd (m w)) = w_trace w.

Lemma state_of_snoc l ev : state_of (l ++ [ev]) = (st ← state_of l; auto_step st ev).
Proof. unfold state_of. by rewrite foldl_app. Qed.

Lemma scoped_bind {A B} P Q R (m : M World A) (f : A → M World B) :
  scoped P Q m → (∀ a, scoped Q R (f a)) → scoped P R (m ≫= f).
Proof.
  intros Hm Hf w b w' Hr HP. unfold mbind, M_bind in Hr.
  destruct (m w) as [[a|e|] w1] eqn:Hw; [|done..]. eapply Hf; eauto.
Qed.

Lemma scoped_quiet {A} P (m : M World A) : quiet m → scoped P P m.
Proof. intros Hq w a w' Hw HP. specialize (Hq w). rewrite Hw in Hq. simpl in Hq. by rewrite Hq. Qed.

Lemma scoped_emit P Q c : auto_step P (Did c) = Some Q → scoped P Q (emit c).
Proof.
  intros HQ w [] w' [= <-] HP. cbn. rewrite state_of_snoc, HP. exact HQ.
Qed.

Lemma scoped_ask {A} P R (Q : bool → X) c (f : bool → M World A) :
  (∀ b, auto_step P (Asked c b) = Some (Q b)) → (∀ b, scoped (Q b) R (f b)) →
  scoped P R (b ← ask c; f b).
Proof.
  intros HQ Hf w a w' Hr HP. unfold mbind, M_bind, ask in Hr. eapply Hf; [exact Hr|].
  cbn. rewrite state_of_snoc, HP. apply HQ.
Qed.

Lemma scoped_mfor {A} P (l : list A) (f : A → M World unit) :
  (∀ x, scoped P P (f x)) → scoped P P (mfor l f).
Proof.
  intros Hf. induction l as [|x l IH]; simpl; [by apply scoped_quiet; intros ?|].
  by eapply scoped_bind.
Qed.

(** The operations of the view models make no GUI call. *)
Lemma quiet_login : quiet auth_login.
Proof.
  intros w. unfold auth_login. rewrite startLogin_world. case_bool_decide; [done|]. cbn.
  by destruct (show_status_fields "Starting login process..."
    (upd_service (set_state LoggingIn (w_service w)) w)) as (_ & _ & _ & _ & -> & _).
Qed.

Lemma quiet_disconnect : quiet auth_disconnect.
Proof.
  intros w. unfold auth_disconnect. rewrite disconnect_world. cbn.
  by destruct (show_status_fields "Disconnected"
    (upd_service (set_state Disconnected (w_service w)) w)) as (_ & _ & _ & _ & -> & _).
Qed.

Lemma quiet_send m : quiet (chat_sendMessage m).
Proof. intros w. unfold chat_sendMessage. rewrite sendMessage_world. cbn. by case_bool_decide. Qed.

Lemma quiet_send_input : quiet send_input.
Proof.
  intros w. unfold send_input, mbind, M_bind, gets. destruct (negb _); [|done].
  pose proof (quiet_send (c_str (m_message_input (w_manager w))) w) as Hq.
  destruct (chat_sendMessage _ w) as [[[]| |] w1]; done.
Qed.

End Nesting.

#[export] Hint Resolve scoped_quiet quiet_login quiet_disconnect quiet_send quiet_send_input : sbot.

(** Check the nesting of a panel, one call at a time. *)
Ltac quiet_tac :=
  apply scoped_quiet; first
    [ by auto with sbot
    | intros ?; unfold lift_exn, lift, gets, modify, auth_connect, discord_testMessage, discord_syncTo;
      simpl; by repeat case_match ].
Ltac scoped_step :=
  lazymatch goal with
  | |- scoped _ _ (ask _ ≫= _) =>
      eapply (scoped_ask _ _ (λ b, if b : bool then _ else _)); [intros []; reflexivity|intros []]
  | |- scoped _ _ (_ ≫= _) => eapply scoped_bind; [|intros ?]
  | |- scoped _ _ (emit _) => apply scoped_emit; first [reflexivity|simpl; case_match; done]
  | |- scoped _ _ (mfor _ _) => apply scoped_mfor; intros ?
  | |- scoped _ _ (match ?x with _ => _ end) => destruct x
  | |- scoped _ _ _ => quiet_tac
  end.

Section PanelsNest.
Context {sol : SolApi} {plat : Platform} {gui : GuiApi}.

Lemma scoped_draw_message msg l n :
  in_window l = true → scoped (l, n) (l, n) (draw_message msg).
Proof.
  intros Hl. unfold draw_message. assert (Hs : ∀ c, widget c = true →
    match c with BeginMenuBar => False | _ => True end → call_step (l, n) c = Some (l, n)).
  { intros [] Hw ?; try discriminate Hw; cbn; rewrite Hl; try done. }
  eapply scoped_bind; [quiet_tac|intros v].
  eapply scoped_bind; [by apply scoped_emit, Hs|intros ?].
  eapply scoped_bind; [by apply scoped_emit, Hs|intros ?].
  eapply scoped_bind; [quiet_tac|intros ?]. by apply scoped_emit, Hs.
Qed.

Lemma scoped_on_button label (action : M World unit) (P : nesting) :
  in_window (fst P) = true → quiet action → scoped P P (on_button label action).
Proof.
  intros HP Ha. eapply (scoped_ask _ _ (λ _, P)); [intros b; cbn; rewrite HP; by destruct P, b|].
  intros []; [by apply scoped_quiet|quiet_tac].
Qed.

(** Each panel leaves the nesting it found inside a frame. *)
Definition in_frame : nesting := ([ScFrame], O).

Lemma scoped_manageDocking : scoped in_frame in_frame manageDocking.
Proof. unfold manageDocking. repeat scoped_step. Qed.

Lemma scoped_manageFloating : scoped in_frame in_frame manageFloating.
Proof. unfold manageFloating. repeat scoped_step. Qed.

Ltac panel_step :=
  lazymatch goal with
  | |- scoped _ _ (on_button _ _) => apply scoped_on_button; [reflexivity|by auto with sbot]
  | _ => scoped_step
  end.

Lemma scoped_manageAuth : scoped in_frame in_frame manageAuth.
Proof. unfold manageAuth. repeat panel_step. Qed.

Lemma scoped_input_text label size flags old (P : nesting) :
  in_window (fst P) = true → scoped P P (input_text label size flags old).
Proof.
  intros HP w a w' Hr Hn. unfold input_text, ask, mbind, M_bind in Hr. injection Hr as _ <-.
  cbn. rewrite state_of_snoc, Hn. cbn. rewrite HP. destruct P. by case_match.
Qed.

Lemma scoped_manageChat : scoped in_frame in_frame manageChat.
Proof.
  unfold manageChat, chat_log_region, chat_input_line.
  repeat lazymatch goal with
  | |- scoped _ _ (draw_message _) => by apply scoped_draw_message
  | |- scoped _ _ (input_text _ _ _ _) => by apply scoped_input_text
  | _ => panel_step
  end.
Qed.

Lemma scoped_manageDiscord : scoped in_frame in_frame manageDiscord.
Proof.
  unfold manageDiscord.
  repeat lazymatch goal with
  | |- scoped _ _ (input_text _ _ _ _) => by apply scoped_input_text
  | |- scoped _ _ (on_button _ _) => apply scoped_on_button; [reflexivity|by intros ?]
  | _ => panel_step
  end.
Qed.

End PanelsNest.

(** *** Exit: no panel but the menu bar can leave the wish pending *)

Section Exit.
Context {sol : SolApi} {plat : Platform} {gui : GuiApi}.

Lemma exit_on_button label (action : M World unit) :
  quiet action → scoped NoWish NoWish (on_button label action).
Proof.
  intros Ha. eapply (scoped_ask _ _ (λ _, NoWish)); [by intros []|].
  intros []; [by apply scoped_quiet|quiet_tac].
Qed.

Lemma exit_input_text label size flags old :
  scoped NoWish NoWish (input_text label size flags old).
Proof.
  intros w a w' Hr Hn. unfold input_text, ask, mbind, M_bind in Hr. injection Hr as _ <-.
  cbn. by rewrite state_of_snoc, Hn.
Qed.

Ltac exit_step :=
  lazymatch goal with
  | |- scoped _ _ (on_button _ _) =>
      apply exit_on_button; first [by auto with sbot|by intros ?]
  | |- scoped _ _ (input_text _ _ _ _) => apply exit_input_text
  | |- scoped _ _ (draw_message _) => unfold draw_message
  | _ => scoped_step
  end.

Lemma exit_panels :
  scoped NoWish NoWish manageDocking ∧ scoped NoWish NoWish manageFloating ∧
  scoped NoWish NoWish manageAuth ∧ scoped NoWish NoWish manageDiscord ∧
  scoped NoWish NoWish manageChat.
Proof.
  split_and!.
  - unfold manageDocking. repeat exit_step.
  - unfold manageFloating. repeat exit_step.
  - unfold manageAuth. repeat exit_step.
  - unfold manageDiscord. repeat exit_step.
  - unfold manageChat, chat_log_region, chat_input_line. repeat exit_step.
Qed.

End Exit.

(** ** What the chat panel does *)

(** The outcome of drawing a message, and a log: the first message that cannot be
    drawn decides. *)
Definition draw_one (msg : ChatMessage) : outcome unit :=
  match hexToImVec4 (color msg) with
  | inl e => Throw e
  | inr _ => _ ← printf_noargs (c_str (text msg)); Ok tt
  end.
Fixpoint draw_all (log : list ChatMessage) : outcome unit :=
  match log with [] => Ok tt | msg :: log' => draw_one msg ;; draw_all log' end.

(** The calls that show a message: its user in its colour and, on the same line, its
    text. *)
Definition shows (msg : ChatMessage) (calls : list gui_event) : Prop :=
  ∃ v s, hexToImVec4 (color msg) = inr v ∧ printf_noargs (c_str (text msg)) = Ok s ∧
    calls = [Did (TextColored v (c_str (user msg) +:+ ": ")); Did SameLine; Did (TextWrapped s)].

(** The calls of a list of messages, in the order of the list. *)
Definition shows_log (log : list ChatMessage) (calls : list gui_event) : Prop :=
  ∃ blocks, Forall2 shows log blocks ∧ calls = concat blocks.

(** A call that draws text. *)
Definition is_text (ev : gui_event) : bool :=
  match ev with Did (Text _ | TextColored _ _ | TextWrapped _) => true | _ => false end.

(** A line the user may send from the GUI. *)
Definition sendable (m : string) : Prop :=
  m ≠ "" ∧ Z.of_nat (String.length m) < message_input_size ∧ c_str m = m.

Section ChatPanel.
Context {sol : SolApi} {plat : Platform} {gui : GuiApi}.
Implicit Types w : World.

Lemma emit_bind {A} c (f : unit → M World A) w :
  (emit c ≫= f) w = f tt (upd_trace (w_trace w ++ [Did c]) w).
Proof. done. Qed.

Lemma draw_message_world msg w :
  ∃ t, draw_message msg w = (draw_one msg, upd_trace t w) ∧
    (draw_one msg = Ok tt → ∃ calls, shows msg calls ∧ t = w_trace w ++ calls).
Proof.
  unfold draw_message, draw_one, shows, mbind, M_bind, lift_exn.
  destruct (hexToImVec4 (color msg)) as [e|v]; [exists (w_trace w); split; [by destruct w|done]|].
  unfold lift. cbn. destruct (printf_noargs (c_str (text msg))) as [l|e|]; cbn; eexists;
    (split; [done|]); try done.
  intros _. eexists. split; [by exists v, l|]. cbn. by rewrite <- !app_assoc.
Qed.

Lemma draw_log_world log w :
  ∃ t, mfor log draw_message w = (draw_all log, upd_trace t w) ∧
    (draw_all log = Ok tt → ∃ calls, shows_log log calls ∧ t = w_trace w ++ calls).
Proof.
  revert w. induction log as [|msg log IH]; intros w; cbn [mfor draw_all].
  - exists (w_trace w). split; [by destruct w|]. intros _. exists [].
    rewrite app_nil_r. split; [by exists []|done].
  - unfold mbind at 1, M_bind at 1. destruct (draw_message_world msg w) as (t & -> & Ht).
    destruct (draw_one msg) as [[]|e|]; cbn; [|by eexists..].
    destruct (Ht eq_refl) as (calls & Hc & ->).
    destruct (IH (upd_trace (w_trace w ++ calls) w)) as (t' & -> & Ht').
    exists t'. split; [done|]. intros (more & (blocks & Hb & ->) & ->)%Ht'.
    exists (calls ++ concat blocks). split; [exists (calls :: blocks); by split; [constructor|]|].
    cbn. by rewrite app_assoc.
Qed.

Lemma c_str_idemp s : c_str (c_str s) = c_str s.
Proof. induction s as [|c s IH]; simpl; [done|]. case_decide; [done|]. simpl. by rewrite decide_False, IH. Qed.

Lemma c_str_length s : (String.length (c_str s) ≤ String.length s)%nat.
Proof. induction s as [|c s IH]; simpl; [done|]. case_decide; simpl; lia. Qed.

Lemma substring_length n s : (String.length (String.substring 0 n s) ≤ n)%nat.
Proof. revert n. induction s as [|c s IH]; intros [|n]; simpl; try lia. specialize (IH n). lia. Qed.

Lemma fit_spec size s : 0 < size →
  Z.of_nat (String.length (fit size s)) < size ∧ c_str (fit size s) = fit size s.
Proof.
  intros Hs. unfold fit. rewrite c_str_idemp. split; [|done].
  pose proof (c_str_length (String.substring 0 (Z.to_nat (size - 1)) s)).
  pose proof (substring_length (Z.to_nat (size - 1)) s). lia.
Qed.

Lemma send_input_world w :
  m_state (w_service w) = ChatConnected →
  send_input w =
    (Ok tt, let m := c_str (m_message_input (w_manager w)) in
            if str_empty m then w
            else upd_manager (set_message_input "" (w_manager w)) (upd_queue (w_queue w ++ [TSend m]) w)).
Proof.
  intros Hst. unfold send_input, mbind, M_bind, gets. cbv zeta.
  destruct (str_empty _); cbn [negb]; [done|].
  unfold chat_sendMessage. rewrite sendMessage_world, bool_decide_true by done. done.
Qed.

(** The calls of the region before the log. *)
Definition log_opening (t : list gui_event) : list gui_event :=
  [Did (BeginChild "ScrollingRegion" (mk_vec2 f32_zero (SFopp (gui_frame_height t))) true
          [HorizontalScrollbar]);
   Did (PushTextWrapPos f32_zero)].

Lemma chat_log_region_world w :
  let app := processPendingMessages (w_app_state w) in
  ∃ t, chat_log_region w = (draw_all (chat_log app), upd_trace t (upd_app_state app w)) ∧
    (draw_all (chat_log app) = Ok tt → ∃ calls rest, shows_log (chat_log app) calls ∧
       t = w_trace w ++ log_opening (w_trace w) ++ calls ++ Did PopTextWrapPos :: rest ∧
       existsb is_text rest = false).
Proof.
  intros app. unfold chat_log_region, mbind at 1, M_bind at 1, modify. fold app.
  unfold mbind at 1, M_bind at 1, gets at 1. rewrite !emit_bind.
  unfold mbind at 1, M_bind at 1, gets at 1.
  unfold mbind at 1, M_bind at 1. cbn [w_app_state upd_trace upd_app_state].
  match goal with |- context [mfor _ draw_message ?x] =>
    destruct (draw_log_world (chat_log app) x) as (t & -> & Ht) end.
  destruct (draw_all (chat_log app)) as [[]|e|]; [|by eexists..].
  destruct (Ht eq_refl) as (calls & Hc & ->).
  rewrite emit_bind. unfold mbind at 1, M_bind at 1, gets at 1.
  unfold mbind, M_bind. destruct (gui_at_bottom _); eexists; (split; [done|]); intros _;
    eexists calls, _; (split; [done|]); cbn; rewrite <- !app_assoc; done.
Qed.

(** The world after GUI calls, with this input line and these messages posted. *)
Definition chat_at (w : World) (t : list gui_event) (input : string) (sent : list string) : World :=
  upd_trace t (upd_manager (set_message_input input (w_manager w))
    (upd_queue (w_queue w ++ map TSend sent) w)).

Lemma chat_at_start w t input :
  chat_at w t input [] = upd_trace t (upd_manager (set_message_input input (w_manager w)) w).
Proof. unfold chat_at. cbn [map]. rewrite app_nil_r. by destruct w. Qed.

Lemma chat_at_traced w t t0 t1 t2 app input sent :
  set_gui_trace t (chat_at (upd_trace t1 (upd_app_state app (upd_trace t0 w))) t2 input sent) =
    chat_at (upd_app_state app w) t input sent.
Proof. done. Qed.

(** At most one message was sent, and then the input line is empty. *)
Definition chat_inv (input : string) (sent : list string) : Prop :=
  Z.of_nat (String.length input) < message_input_size ∧ c_str input = input ∧
  (sent = [] ∨ ∃ m, sent = [m] ∧ sendable m ∧ input = "").

Lemma send_input_inv (b : bool) w t input sent :
  m_state (w_service w) = ChatConnected → chat_inv input sent →
  ∃ input' sent', (if b then send_input else mret tt) (chat_at w t input sent) =
    (Ok tt, chat_at w t input' sent') ∧ chat_inv input' sent'.
Proof.
  intros Hst (Hlen & Hc & Hs). destruct b; [|by exists input, sent].
  rewrite send_input_world by done. cbn. rewrite Hc.
  destruct (str_empty input) eqn:He; [by exists input, sent|]. apply str_empty_false in He.
  destruct Hs as [->|(m & -> & _ & ->)]; [|done].
  exists "", [input]. split; [by rewrite app_nil_r|]. split_and!; [done..|]. right. by exists input.
Qed.

Lemma chat_input_line_world w :
  m_state (w_service w) = ChatConnected →
  ∃ rest input sent, chat_input_line w = (Ok tt, chat_at w (w_trace w ++ rest) input sent) ∧
    existsb is_text rest = false ∧ chat_inv input sent.
Proof.
  intros Hst. unfold chat_input_line. rewrite emit_bind.
  unfold mbind at 1, M_bind at 1, gets at 1. unfold mbind at 1, M_bind at 1.
  unfold input_text, ask at 1. unfold mbind at 1, M_bind at 1, mret, M_ret. cbv zeta.
  match goal with |- context [fit ?n ?x] =>
    pose proof (fit_spec n x eq_refl) as [Hlen Hc]; set (content := fit n x) in * end.
  match goal with |- context [gui_answer ?x ?c] => generalize (gui_answer x c) as entered end.
  intros entered. unfold mbind at 1, M_bind at 1, modify.
  match goal with |- context [((if entered then _ else _) ≫= ?k) ?x] =>
    replace x with (chat_at w (w_trace x) content []) by (by rewrite chat_at_start) end.
  match goal with |- context [chat_at w ?x content []] => remember x as t eqn:Ht end.
  destruct (send_input_inv entered w t content []) as (input & sent & Hs & Hinv);
    [done|by split_and!; auto|].
  unfold mbind at 1, M_bind at 1. unfold mret, M_ret in Hs. rewrite Hs. rewrite emit_bind.
  unfold on_button, mbind at 1, M_bind at 1, ask.
  match goal with |- context [gui_answer ?x ?c] => generalize (gui_answer x c) as pressed end.
  intros pressed.
  match goal with |- context [(if pressed then _ else _) (set_gui_trace ?tr _)] =>
    destruct (send_input_inv pressed w tr input sent) as (input' & sent' & Hs' & Hinv'); [done..|];
    cut (tr = w_trace w ++ [Did (SetNextItemWidth (f32_of_Z (-80)));
           Asked (InputText "##message" message_input_size [EnterReturnsTrue; CtrlEnterForNewLine]) entered;
           Did SameLine; Asked (Button "Send") pressed]) end.
  - intros Htr. eexists _, input', sent'. rewrite <- Htr. split; [exact Hs'|done].
  - cbn. rewrite Ht. cbn. by rewrite <- !app_assoc.
Qed.

(** The outcome of the panel when chat is connected. *)
Lemma manageChat_draws w :
  m_state (w_service w) = ChatConnected →
  fst (manageChat w) = draw_all (chat_log (processPendingMessages (w_app_state w))).
Proof.
  intros Hst. unfold manageChat. rewrite emit_bind. unfold mbind at 1, M_bind at 1, gets at 1.
  unfold chat_canSendMessages, canSendMessages. cbn [svc World_service service_host w_service upd_trace].
  rewrite bool_decide_true by done. unfold mbind at 1, M_bind at 1. unfold mbind at 1, M_bind at 1.
  match goal with |- context [upd_trace ?t w] =>
    pose proof (chat_log_region_world (upd_trace t w)) as (t1 & Hlog & Ht1); cbn in Hlog end.
  rewrite Hlog. destruct (draw_all _) as [[]|e|]; [|done..].
  match goal with |- context [chat_input_line ?x] =>
    destruct (chat_input_line_world x Hst) as (rest & input & sent & -> & Htext & Hinv) end.
  done.
Qed.

(** C18.  The chat panel.  Unless chat is connected it shows one line of text and does
    nothing else.  When chat is connected it takes over the pending messages and
    draws the log: its outcome is decided by the first message that cannot be drawn.
    When all can, the calls it makes show every message of the log once, in order,
    the user in the message's colour and the text after it, and no other text; and it
    posts at most one message per frame, and only one that is not empty, shorter than
    the 256-byte input buffer and free of NUL bytes; after sending, the input line is
    empty. *)
Theorem manageChat_outcome w :
  let '(r, w') := manageChat w in
  (m_state (w_service w) ≠ ChatConnected →
     r = Ok tt ∧ w' = upd_trace (w_trace w ++
       [Did (Begin "Chat" []); Did (Text "Connect to chat to send messages"); Did End]) w) ∧
  (m_state (w_service w) = ChatConnected →
    let app := processPendingMessages (w_app_state w) in
    let t0 := w_trace w ++ [Did (Begin "Chat" [])] in
    r = draw_all (chat_log app) ∧
    (r = Ok tt → ∃ calls rest input sent,
       shows_log (chat_log app) calls ∧ existsb is_text rest = false ∧ chat_inv input sent ∧
       w' = chat_at (upd_app_state app w)
              (t0 ++ log_opening t0 ++ calls ++ Did PopTextWrapPos :: rest) input sent)).
Proof.
  unfold manageChat. rewrite emit_bind. unfold mbind at 1, M_bind at 1, gets at 1.
  unfold chat_canSendMessages, canSendMessages. cbn [svc World_service service_host w_service upd_trace].
  unfold mbind at 1, M_bind at 1.
  case_bool_decide as Hst.
  2:{ split; [|done]. intros _. split; [done|]. cbn. by rewrite <- !app_assoc. }
  match goal with |- context [upd_trace ?t w] =>
    pose proof (chat_log_region_world (upd_trace t w)) as (t1 & Hlog & Ht1); cbn in Hlog, Ht1 end.
  unfold mbind at 1, M_bind at 1. rewrite Hlog. set (app := processPendingMessages (w_app_state w)) in *.
  destruct (draw_all (chat_log app)) as [[]|e|] eqn:Hd; [|by split; [done|intros _; split]..].
  destruct (Ht1 eq_refl) as (calls & rest1 & Hcalls & -> & Htext1).
  match goal with |- context [chat_input_line ?x] =>
    destruct (chat_input_line_world x Hst) as (rest & input & sent & -> & Htext & Hinv) end.
  split; [done|]. intros _. cbv zeta. split; [done|]. intros _.
  exists calls, (rest1 ++ rest ++ [Did End]), input, sent. split_and!; [done| |done|].
  - by rewrite !existsb_app, Htext1, Htext.
  - etrans; [apply chat_at_traced|]. f_equal. cbn [chat_at gui_trace World_gui w_trace upd_trace].
    unfold log_opening. do 2 (rewrite <- ?app_assoc; cbn [Datatypes.app]). done.
Qed.

End ChatPanel.

(** ** What the Auth panel does *)

Section AuthPanel.
Context {sol : SolApi} {plat : Platform} {gui : GuiApi}.
Implicit Types w : World.

Definition logged_out (t : TwitchService app_callback) : TwitchService app_callback :=
  set_current_user "" (set_services None None None (set_state Disconnected t)).

(** The moves of the user: nothing, connect (posted, only when logged in), log in
    (only when disconnected), or leave (only when logged in, connected or failed). *)
Definition auth_move w w' : Prop :=
  w_cfg w' = w_cfg w ∧
  let st := m_state (w_service w) in
  let connect_or_not := w_queue w' = w_queue w ∨
    (st = LoggedIn ∧ w_queue w' = w_queue w ++ [TConnectToChat]) in
  (w_service w' = w_service w ∧ w_objects w' = w_objects w ∧ connect_or_not) ∨
  (st = Disconnected ∧ w_service w' = set_state LoggingIn (w_service w) ∧
   w_objects w' = w_objects w ∧ w_queue w' = w_queue w ++ [TLogin]) ∨
  (st ∈ [LoggedIn; ChatConnected; Error] ∧ w_service w' = logged_out (w_service w) ∧
   w_objects w' = ∅ ∧ connect_or_not).

Lemma auth_login_world w :
  m_state (w_service w) = Disconnected →
  ∃ w', auth_login w = (Ok tt, w') ∧ w_cfg w' = w_cfg w ∧ w_objects w' = w_objects w ∧
    w_service w' = set_state LoggingIn (w_service w) ∧ w_queue w' = w_queue w ++ [TLogin].
Proof.
  intros Hst. unfold auth_login. rewrite startLogin_world, bool_decide_false by (by intros []).
  eexists; split; [done|]. cbn.
  destruct (show_status_fields "Starting login process..."
    (upd_service (set_state LoggingIn (w_service w)) w)) as (-> & -> & -> & -> & _). done.
Qed.

Lemma auth_disconnect_world w :
  ∃ w', auth_disconnect w = (Ok tt, w') ∧ w_cfg w' = w_cfg w ∧ w_objects w' = ∅ ∧
    w_service w' = logged_out (w_service w) ∧ w_queue w' = w_queue w.
Proof.
  unfold auth_disconnect. rewrite disconnect_world. eexists; split; [done|]. cbn.
  destruct (show_status_fields "Disconnected"
    (upd_service (set_state Disconnected (w_service w)) w)) as (-> & _ & -> & -> & _). done.
Qed.

Lemma on_button_bind {A} label action (f : unit → M World A) w :
  (on_button label action ≫= f) w =
    let b := gui_answer (w_trace w) (Button label) in
    ((if b then action else mret tt) ≫= f) (upd_trace (w_trace w ++ [Asked (Button label) b]) w).
Proof. done. Qed.

Lemma auth_move_end (m : M World unit) w w0 :
  (∃ w1, m w0 = (Ok tt, w1) ∧ auth_move w w1) →
  let '(r, w') := (m ;; emit End) w0 in r = Ok tt ∧ auth_move w w'.
Proof. intros (w1 & Hm & Hmove). unfold mbind, M_bind. rewrite Hm. done. Qed.

(** The Connect button before another one. *)
Lemma connect_button_world (k : unit → M World unit) w :
  ∃ w', (on_button "Connect to Chat" auth_connect ≫= k) w = k tt w' ∧
    w_cfg w' = w_cfg w ∧ w_service w' = w_service w ∧ w_objects w' = w_objects w ∧
    (w_queue w' = w_queue w ∨ w_queue w' = w_queue w ++ [TConnectToChat]).
Proof.
  rewrite on_button_bind. cbv zeta. unfold mbind, M_bind.
  destruct (gui_answer _ _); eexists; (split; [done|]); cbn; auto.
Qed.

Lemma leave_button_world label w :
  ∃ w', on_button label auth_disconnect w = (Ok tt, w') ∧ w_cfg w' = w_cfg w ∧
    w_queue w' = w_queue w ∧
    ((w_service w' = w_service w ∧ w_objects w' = w_objects w) ∨
     (w_service w' = logged_out (w_service w) ∧ w_objects w' = ∅)).
Proof.
  unfold on_button, mbind, M_bind, ask. cbv zeta.
  match goal with |- context [set_gui_trace ?t w] =>
    destruct (auth_disconnect_world (upd_trace t w)) as (w1 & Hw & Hc & Ho & Hs & Hq) end.
  destruct (gui_answer _ _) eqn:Hb; [exists w1; split; [exact Hw|]; auto|].
  eexists; split; [done|]. cbn. auto.
Qed.

(** A state that only offers to leave. *)
Lemma leave_only label w w0 st :
  w_cfg w0 = w_cfg w → w_service w0 = w_service w → w_objects w0 = w_objects w →
  w_queue w0 = w_queue w → st = ChatConnected ∨ st = Error →
  ∃ w1, on_button label auth_disconnect w0 = (Ok tt, w1) ∧ w_cfg w1 = w_cfg w ∧
    let connect_or_not := w_queue w1 = w_queue w ∨
      (st = LoggedIn ∧ w_queue w1 = w_queue w ++ [TConnectToChat]) in
    (w_service w1 = w_service w ∧ w_objects w1 = w_objects w ∧ connect_or_not) ∨
    (st = Disconnected ∧ w_service w1 = set_state LoggingIn (w_service w) ∧
     w_objects w1 = w_objects w ∧ w_queue w1 = w_queue w ++ [TLogin]) ∨
    (st ∈ [LoggedIn; ChatConnected; Error] ∧ w_service w1 = logged_out (w_service w) ∧
     w_objects w1 = ∅ ∧ connect_or_not).
Proof.
  intros Hc Hs Ho Hq Hst. destruct (leave_button_world label w0) as (w1 & -> & Hc1 & Hq1 & H1).
  exists w1. split; [done|]. split; [by rewrite Hc1|]. cbv zeta. rewrite Hq1, Hq.
  destruct H1 as [(-> & ->)|(-> & ->)]; rewrite Hs, ?Ho; [by left; auto|right; right].
  split_and!; [|by auto..]. destruct Hst as [-> | ->]; set_solver.
Qed.

Lemma manageAuth_cases w :
  let '(r, w') := manageAuth w in r = Ok tt ∧ auth_move w w'.
Proof.
  unfold manageAuth. rewrite emit_bind. unfold mbind at 1, M_bind at 1, modify.
  unfold mbind at 1, M_bind at 1, gets at 1. unfold auth_getState, auth_syncFrom, getState.
  cbn [w_auth_vm upd_auth_vm vm_state svc World_service service_host w_service upd_trace].
  apply auth_move_end. unfold auth_move.
  destruct (m_state (w_service w)) eqn:Hst.
  - unfold on_button, mbind, M_bind, ask. cbv zeta.
    destruct (gui_answer _ _); [|by eexists; split; [done|]; split; [done|left; auto]].
    match goal with |- context [auth_login ?x] =>
      destruct (auth_login_world x Hst) as (w1 & -> & Hc & Ho & Hs & Hq) end.
    exists w1. split; [done|]. split; [done|]. right; left. done.
  - eexists; split; [done|]. split; [done|]. left; auto.
  - unfold mbind at 1, M_bind at 1, gets. rewrite emit_bind.
    match goal with |- context [(on_button _ _ ≫= ?k) ?x] =>
      destruct (connect_button_world k x) as (w1 & -> & Hc & Hs & Ho & Hq) end.
    destruct (leave_button_world "Logout" w1) as (w2 & -> & Hc2 & Hq2 & H2).
    exists w2. split; [done|]. split; [by rewrite Hc2, Hc|].
    rewrite Hq2. cbn in Hq, Hs, Ho.
    destruct H2 as [(-> & ->)|(-> & ->)]; rewrite Hs, ?Ho; [left|right; right];
      (split_and!; [set_solver|done|done|]) || split_and!; try done;
      destruct Hq as [->| ->]; auto.
  - eexists; split; [done|]. split; [done|]. left; auto.
  - unfold mbind at 1, M_bind at 1, gets. rewrite emit_bind.
    match goal with |- context [on_button _ _ ?x] => apply (leave_only "Disconnect" w x) end; auto.
  - rewrite emit_bind.
    match goal with |- context [on_button _ _ ?x] => apply (leave_only "Reset" w x) end; auto.
Qed.

(** C17.  The Auth panel: a frame always ends normally, and makes one of the moves
    that the state of the service allows. *)
Theorem manageAuth_moves w :
  let '(r, w') := manageAuth w in r = Ok tt ∧ auth_move w w'.
Proof. apply manageAuth_cases. Qed.

End AuthPanel.
