(* ===== verification/Application.v ===== *)
(** * The application

    Models [Application] of [include/seraphbot/application.hpp] and
    [src/application.cpp], and [main] of [src/main.cpp].

    An [Application] is its smart pointers.  While it is being built, and after
    [shutdown], some are null, and dereferencing those is undefined ([Startup]);
    [run] enters the [World] of the objects they point to.  A frame of the GUI
    runs without interruption here; what the network threads do between two frames
    is the parameter [others] of [run]. *)

From Stdlib Require Import SpecFloat.
From S2P Require Import Prelude Cxx CommandParser Coro Json Net Auth EventSub TwitchService Discord.
From S2P Require Import AppState Logging Gui Obs ViewModels AudioSystem Cooldown LuaEngine World Ui.

(** ** The pointers *)

Record Application {sol : SolApi} := mk_Application {
  m_thread_count : nat;
  app_cfg : ClientConfig;
  app_conn : bool;                                   (* a shared pointer: null or not *)
  app_state : option AppState;
  app_parser : option (CommandParser handler);
  app_engine : option LuaCommandEngine;
  app_service : option (TwitchService app_callback);
  app_discord : option Notifications;
  app_obs : option OBSService;
  app_ui_backend : bool;
  app_ui_manager : option ImGuiManager;
  app_auth_vm : option AuthVM;
  app_discord_vm : option DiscordVM;
  app_chat_vm : bool;
}.

(** The application and the machine it runs on. *)
Record Startup {sol : SolApi} := mk_Startup {
  st_app : Application;
  st_conn : option ConnectionManager;                (* the object behind [m_conn] *)
  st_lua : LuaState;                                 (* a new interpreter *)
  st_fs : FileSystem;
  st_steady : Z;
  st_elapsed : list N;
  st_system_time : Z;
  st_trace : list gui_event;
}.

Section Building.
Context {sol : SolApi} {plat : Platform} {gui : GuiApi}.

(** The constructors; the default number of threads is 3. *)
Definition new_Application (thread_count : nat) : Application :=
  mk_Application _ thread_count default_ClientConfig false None None None None None None
    false None None None false.
Definition default_Application : Application := new_Application 3.

Definition set_app (a : Application) (s : Startup) : Startup :=
  mk_Startup _ a (st_conn s) (st_lua s) (st_fs s) (st_steady s) (st_elapsed s) (st_system_time s)
    (st_trace s).
Definition set_conn (c : option ConnectionManager) (s : Startup) : Startup :=
  mk_Startup _ (st_app s) c (st_lua s) (st_fs s) (st_steady s) (st_elapsed s) (st_system_time s)
    (st_trace s).

#[global] Instance Startup_gui : GuiHost Startup := {|
  gui_trace := st_trace;
  set_gui_trace t s := mk_Startup _ (st_app s) (st_conn s) (st_lua s) (st_fs s) (st_steady s)
                         (st_elapsed s) (st_system_time s) t;
|}.

Definition on_app (f : Application → Application) : M Startup unit :=
  modify (λ s, set_app (f (st_app s)) s).

(** [*pointer] *)
Definition deref {A} (p : Application → option A) : M Startup A := λ s,
  match p (st_app s) with Some a => (Ok a, s) | None => (Undefined, s) end.
Definition deref_conn : M Startup unit := λ s,
  if app_conn (st_app s) then (Ok tt, s) else (Undefined, s).

(** The constructors succeed: there is memory, the threads can be started and the
    default certificates can be read. *)
Definition initializeServices : M Startup bool :=
  modify (λ s, set_conn (Some (new_ConnectionManager (m_thread_count (st_app s)))) s) ;;
  modify (λ s, set_app
    (let a := st_app s in
     mk_Application _ (m_thread_count a) (app_cfg a) true (Some new_AppState)
       (Some new_CommandParser) (Some (new_LuaCommandEngine ma_success (st_lua s) (st_fs s)))
       (Some new_TwitchService) (app_discord a) (app_obs a) (app_ui_backend a) (app_ui_manager a)
       (app_auth_vm a) (app_discord_vm a) (app_chat_vm a)) s) ;;
  mret true.

Definition initializeDiscord : M Startup bool :=
  on_app (λ a, mk_Application _ (m_thread_count a) (app_cfg a) (app_conn a) (app_state a)
    (app_parser a) (app_engine a) (app_service a) (Some (mk_Notifications ""))
    (Some (new_OBSService "testpassword")) (app_ui_backend a) (app_ui_manager a)
    (app_auth_vm a) (app_discord_vm a) (app_chat_vm a)) ;;
  mret true.

Definition initializeViewmodels : M Startup bool :=
  _ ← deref app_service;
  deref_conn ;;
  _ ← deref app_discord;
  on_app (λ a, mk_Application _ (m_thread_count a) (app_cfg a) (app_conn a) (app_state a)
    (app_parser a) (app_engine a) (app_service a) (app_discord a) (app_obs a) (app_ui_backend a)
    (app_ui_manager a) (Some new_AuthVM) (Some new_DiscordVM) true) ;;
  mret true.

Definition set_ui (backend : bool) (m : option ImGuiManager) (a : Application) : Application :=
  mk_Application _ (m_thread_count a) (app_cfg a) (app_conn a) (app_state a)
    (app_parser a) (app_engine a) (app_service a) (app_discord a) (app_obs a) backend m
    (app_auth_vm a) (app_discord_vm a) (app_chat_vm a).

(** The backend is moved into the manager. *)
Definition initializeUi : M Startup bool :=
  on_app (λ a, set_ui true (app_ui_manager a) a) ;;
  _ ← deref app_state;
  on_app (λ a, set_ui false (app_ui_manager a) a) ;;
  manager ← new_ImGuiManager;
  on_app (λ a, set_ui (app_ui_backend a) (Some manager) a) ;;
  mret true.

Definition set_app_service (t : option (TwitchService app_callback)) (a : Application)
    : Application :=
  mk_Application _ (m_thread_count a) (app_cfg a) (app_conn a) (app_state a)
    (app_parser a) (app_engine a) t (app_discord a) (app_obs a) (app_ui_backend a)
    (app_ui_manager a) (app_auth_vm a) (app_discord_vm a) (app_chat_vm a).

Definition setupCallbacks : M Startup unit :=
  t ← deref app_service;
  on_app (set_app_service (Some (setMessageCallback AppCallback t))) ;;
  t ← deref app_service;
  on_app (set_app_service (Some (setStatusCallback AppCallback t))).

Definition initialize : M Startup bool :=
  _ ← initializeServices;
  _ ← initializeDiscord;
  _ ← initializeViewmodels;
  _ ← initializeUi;
  setupCallbacks ;;
  mret true.

(** The world [run] works in: every pointer it follows is there. *)
Definition enter (s : Startup) : option World :=
  let a := st_app s in
  conn ← st_conn s; app ← app_state a; parser ← app_parser a; engine ← app_engine a;
  service ← app_service a; discord ← app_discord a; obs ← app_obs a; manager ← app_ui_manager a;
  auth ← app_auth_vm a; disc ← app_discord_vm a;
  if negb (app_chat_vm a) then None else
  Some (mk_World _ (app_cfg a) conn app parser engine service discord obs manager auth disc ∅ []
          (st_fs s) (st_steady s) (st_elapsed s) (st_system_time s) (st_trace s)).

(** The owners of the connection manager: the application, the service (with its
    parts) and the notifications.  Without one it is destroyed. *)
Definition release_conn : M Startup unit := λ s,
  let a := st_app s in
  match st_conn s, app_conn a, app_service a, app_discord a with
  | Some c, false, None, None =>
      match delete_ConnectionManager c with
      | Some _ => (Ok tt, set_conn None s)
      | None => (Ok tt, s)                           (* joins for ever *)
      end
  | _, _, _, _ => (Ok tt, s)
  end.

Definition shutdown : M Startup unit :=
  m ← gets (λ s, app_ui_manager (st_app s));
  (match m with Some m => delete_ImGuiManager m | None => mret tt end) ;;
  on_app (set_ui false None) ;;
  on_app (set_app_service None) ;;
  release_conn ;;
  on_app (λ a, mk_Application _ (m_thread_count a) (app_cfg a) false None
    (app_parser a) (app_engine a) (app_service a) (app_discord a) (app_obs a) (app_ui_backend a)
    (app_ui_manager a) (app_auth_vm a) (app_discord_vm a) (app_chat_vm a)) ;;
  release_conn.

End Building.

(** ** [Application::run] *)

Section Run.
Context {sol : SolApi} {plat : Platform} {gui : GuiApi}.

Definition commands_dir : string := "commands".

Definition load_commands : M World unit :=
  fs ← gets w_fs;
  ex ← lift (fs_exists fs commands_dir);
  if ex : bool then
    _ ← on_engine (loadCommandsFromDirectory fs commands_dir);
    mret tt
  else λ w, let '(r, fs') := make_directories commands_dir (w_fs w) in (r, upd_fs fs' w).

Definition register_native (name : string) (h : handler) : M World unit :=
  modify (λ w, upd_parser (registerCommand name (Some h) (w_parser w)) w).

(** Everything before the loop. *)
Definition run_setup : M World unit :=
  on_engine (modify engine_initialize) ;;
  load_commands ;;
  registerWithParser map_order HLua ;;
  register_native "reload" HReload ;;
  register_native "commands" HCommands.

(** The body of the loop. *)
Definition frame : M World unit :=
  poll ;;
  beginFrame ;;
  manageDocking ;;
  manageFloating ;;
  manageAuth ;;
  manageDiscord ;;
  manageChat ;;
  endFrame ;;
  render ;;
  swapBuffers.

(** [while (!shouldClose())], at most [fuel] frames; [None] when it is still
    running.  [others i] is what the network threads do before the [i]-th test. *)
Fixpoint run_loop (fuel : nat) (others : nat → World → World) (i : nat) : M World (option Z) :=
  modify (others i) ;;
  close ← shouldClose;
  if close : bool then mret (Some 0)
  else match fuel with
       | O => mret None
       | S fuel' => frame ;; run_loop fuel' others (S i)
       end.

Definition run (fuel : nat) (others : nat → World → World) : M World (option Z) :=
  run_setup ;; run_loop fuel others 0.

End Run.

(** ** The destructor of [Application] *)

Definition is_lua {sol : SolApi} (h : handler) : bool :=
  match h with HLua _ _ => true | HReload | HCommands => false end.

Section Destroying.
Context {sol : SolApi} {plat : Platform} {gui : GuiApi}.

(** A handler of a Lua command owns a [sol::protected_function], whose destructor
    releases it in the interpreter: sol2 requires that the state outlives it. *)
Definition delete_CommandParser (engine : option LuaCommandEngine) (p : CommandParser handler)
    : outcome unit :=
  match engine with
  | Some _ => Ok tt
  | None => if existsb is_lua (map snd (map_to_list (m_commands p))) then Undefined else Ok tt
  end.

Definition drop_viewmodels (a : Application) : Application :=
  mk_Application _ (m_thread_count a) (app_cfg a) (app_conn a) (app_state a) (app_parser a)
    (app_engine a) (app_service a) (app_discord a) (app_obs a) (app_ui_backend a)
    (app_ui_manager a) None None false.
Definition drop_integrations (a : Application) : Application :=
  mk_Application _ (m_thread_count a) (app_cfg a) (app_conn a) (app_state a) (app_parser a)
    (app_engine a) (app_service a) None None (app_ui_backend a) (app_ui_manager a)
    (app_auth_vm a) (app_discord_vm a) (app_chat_vm a).
Definition drop_engine (a : Application) : Application :=
  mk_Application _ (m_thread_count a) (app_cfg a) (app_conn a) (app_state a) (app_parser a)
    None (app_service a) (app_discord a) (app_obs a) (app_ui_backend a) (app_ui_manager a)
    (app_auth_vm a) (app_discord_vm a) (app_chat_vm a).
Definition drop_core (a : Application) : Application :=
  mk_Application _ (m_thread_count a) (app_cfg a) false None None
    (app_engine a) (app_service a) (app_discord a) (app_obs a) (app_ui_backend a)
    (app_ui_manager a) (app_auth_vm a) (app_discord_vm a) (app_chat_vm a).

(** The members, in the opposite order of their declaration; the body only logs. *)
Definition delete_Application : M Startup unit :=
  on_app drop_viewmodels ;;
  m ← gets (λ s, app_ui_manager (st_app s));
  (match m with Some m => delete_ImGuiManager m | None => mret tt end) ;;
  on_app (set_ui false None) ;;
  on_app drop_integrations ;;
  release_conn ;;
  on_app (set_app_service None) ;;
  release_conn ;;
  on_app drop_engine ;;
  p ← gets (λ s, app_parser (st_app s));
  e ← gets (λ s, app_engine (st_app s));
  (match p with Some p => lift (delete_CommandParser e p) | None => mret tt end) ;;
  on_app drop_core ;;
  release_conn.

(** The application after [run]: what its pointers lead to is the final world. *)
Definition leave (w : World) (s : Startup) : Startup :=
  let a := st_app s in
  mk_Startup _
    (mk_Application _ (m_thread_count a) (w_cfg w) (app_conn a) (Some (w_app_state w))
       (Some (w_parser w)) (Some (w_engine w)) (Some (w_service w)) (Some (w_discord w))
       (Some (w_obs w)) (app_ui_backend a) (Some (w_manager w)) (Some (w_auth_vm w))
       (Some (w_discord_vm w)) (app_chat_vm a))
    (Some (w_conn w)) (st_lua s) (w_fs w) (w_steady w) (w_elapsed w) (w_system_time w) (w_trace w).

End Destroying.

(** ** [main] *)

Inductive exit_status :=
  | Exited (code : Z)
  | StillRunning
  | Terminated (e : exn)             (* [std::terminate] *)
  | Crashed.                         (* undefined behaviour *)

(** The classes derived from [std::runtime_error]. *)
Definition is_runtime_error (e : exn) : bool :=
  match exn_kind_of e with
  | RuntimeError | SystemError _ | LuaError => true
  | StdException | InvalidArgument | JsonError => false
  end.

Section Main.
Context {sol : SolApi} {plat : Platform} {gui : GuiApi}.

(** The [catch] clause of [main]. *)
Definition main_catch (e : exn) : exit_status :=
  if is_runtime_error e then Exited 0 else Terminated e.

(** Returning from [main] destroys [app]; [std::terminate] does not. *)
Definition main_exit (status : exit_status) (s : Startup) : exit_status :=
  match status with
  | Exited code => match fst (delete_Application s) with Ok _ => Exited code | _ => Crashed end
  | _ => status
  end.

Definition main_run (fuel : nat) (others : nat → World → World) (s : Startup) : exit_status :=
  match enter s with
  | None => Crashed
  | Some w =>
      match run fuel others w with
      | (Ok (Some code), w') => main_exit (Exited code) (leave w' s)
      | (Ok None, _) => StillRunning
      | (Throw e, w') => main_exit (main_catch e) (leave w' s)
      | (Undefined, _) => Crashed
      end
  end.

Definition main (fuel : nat) (others : nat → World → World) (s : Startup) : exit_status :=
  match initialize (set_app default_Application s) with
  | (Ok true, s') => main_run fuel others s'
  | (Ok false, s') => main_exit (Exited (-1)) s'
  | (Throw e, s') => main_exit (main_catch e) s'
  | (Undefined, _) => Crashed
  end.

(** The logger [main] sets up. *)
Definition main_logger : Logger :=
  trace "Check" [] (pushContext "Main" (setLevel Trace (init Logging.default_Config new_Logger))).

End Main.

(** ** Lemmas *)

Section Lemmas.
Context {sol : SolApi} {plat : Platform} {gui : GuiApi}.
Implicit Types w : World.

(** A chat message that does not start with the command prefix is only queued for
    the chat panel. *)
Lemma on_chat_message_plain msg w :
  starts_with (text msg) (m_prefix (w_parser w)) = false →
  on_chat_message msg w = (Ok tt, upd_app_state (pushChatMessage msg (w_app_state w)) w).
Proof.
  intros Hp. unfold on_chat_message, mbind, M_bind, modify, parseAndExecute.
  cbn [w_parser upd_app_state]. unfold isCommand. by rewrite Hp, andb_false_r.
Qed.

(** A message that is a single registered command word. *)
Lemma on_chat_message_command msg rest word a h w :
  m_prefix (w_parser w) = "!" → text msg = "!" +:+ rest → tokenize rest = word :: a →
  m_commands (w_parser w) !! tolower word = Some h → word ≠ "" →
  let w1 := upd_app_state (pushChatMessage msg (w_app_state w)) w in
  on_chat_message msg w =
    (_ ← try_catch (invoke_handler h (mk_CommandContext msg word a reply_fn) ;; mret true)
           (λ _, mret false); mret tt) w1.
Proof.
  intros Hp Ht Htok Hh Hw w1. unfold on_chat_message. unfold mbind at 1, M_bind at 1, modify.
  fold w1. unfold mbind at 1, M_bind at 1, mbind at 2, M_bind at 2.
  unfold parseAndExecute, parseCommand, isCommand. cbn [w_parser upd_app_state w1].
  rewrite Ht, Hp, starts_with_app. cbn [String.append str_empty negb andb].
  change (String "!" rest) with ("!" +:+ rest). rewrite str_drop_app, Htok.
  apply str_empty_false in Hw as ->. by rewrite Hh.
Qed.

Lemma draw_all_app l1 l2 :
  draw_all (l1 ++ l2) = (draw_all l1 ;; draw_all l2).
Proof.
  induction l1 as [|m l1 IH]; [done|]. cbn [app draw_all]. rewrite IH. by destruct (draw_one m) as [[]| |].
Qed.

(** A message delivered by Twitch and then drawn after messages that can be drawn. *)
Lemma delivered_then_drawn {J : JsonApi} {laws : JsonLaws} msg j cm w :
  json_parse msg = inr j → describes_chat j cm →
  m_message_callback (w_service w) = Some AppCallback → m_state (w_service w) = ChatConnected →
  starts_with (text cm) (m_prefix (w_parser w)) = false →
  draw_all (chat_log (w_app_state w) ++ m_pending_messages (w_app_state w)) = Ok tt →
  ∃ w', handleEventSubMessage msg w = (Ok tt, w') ∧ m_state (w_service w') = ChatConnected ∧
    fst (manageChat w') = draw_one cm.
Proof.
  intros Hp Hd Hcb Hst Htext Hdraw.
  exists (upd_app_state (pushChatMessage cm (w_app_state w)) w). split; [|split; [exact Hst|]].
  - rewrite (handle_described (host := World_service) msg j cm AppCallback w Hp Hd Hcb). unfold try_catch.
    cbn [call_message World_service service_host]. by rewrite on_chat_message_plain.
  - rewrite manageChat_draws by done. rewrite processPendingMessages_spec.
    cbn [chat_log w_app_state upd_app_state pushChatMessage m_pending_messages].
    rewrite app_assoc, draw_all_app, Hdraw. cbn. by destruct (draw_one cm) as [[]| |].
Qed.

Lemma scoped_frame : scoped ([], O) ([], O) frame.
Proof.
  unfold frame, poll, beginFrame, endFrame, render, swapBuffers, backend_newFrame,
    backend_renderDrawData, ImGuiBackendOpenGL.
  repeat lazymatch goal with
  | |- scoped _ _ (manageDocking) => apply scoped_manageDocking
  | |- scoped _ _ (manageFloating) => apply scoped_manageFloating
  | |- scoped _ _ (manageAuth) => apply scoped_manageAuth
  | |- scoped _ _ (manageChat) => apply scoped_manageChat
  | |- scoped _ _ (manageDiscord) => apply scoped_manageDiscord
  | _ => scoped_step
  end.
Qed.

(** The same frame seen by the automaton of the Exit item. *)
Lemma exit_frame : scoped NoWish NoWish frame.
Proof.
  destruct exit_panels as (Hd & Hf & Ha & Hn & Hc).
  unfold frame, poll, beginFrame, endFrame, render, swapBuffers, backend_newFrame,
    backend_renderDrawData, ImGuiBackendOpenGL.
  repeat lazymatch goal with
  | |- scoped _ _ (manageDocking) => exact Hd
  | |- scoped _ _ (manageFloating) => exact Hf
  | |- scoped _ _ (manageAuth) => exact Ha
  | |- scoped _ _ (manageChat) => exact Hc
  | |- scoped _ _ (manageDiscord) => exact Hn
  | _ => scoped_step
  end.
Qed.

(** A wish that is not pending has been carried out. *)
Lemma exit_granted tr :
  state_of tr = Some NoWish → Asked (MenuItem "Exit") true ∈ tr →
  Did (GlfwSetWindowShouldClose true) ∈ tr.
Proof.
  induction tr as [|ev tr IH] using rev_ind; [by intros _ ?%elem_of_nil|].
  rewrite state_of_snoc. destruct (state_of tr) as [st|]; [|done]. cbn.
  intros Hst Hin. rewrite elem_of_app. rewrite elem_of_app, list_elem_of_singleton in Hin.
  destruct Hin as [Hin|<-]; [|done].
  destruct ev as [c|c answer]; destruct c; try (left; by apply IH).
  - destruct b; [right; by left|left; by apply IH].
  - destruct answer; [destruct (String.eqb l "Exit"); [done|]|]; left; by apply IH.
Qed.

(** The replies of the command list. *)
Lemma commands_loop_join l i s :
  (0 < i)%nat → commands_loop l i s = match l with [] => s | _ => s +:+ ", " +:+ join ", " l end.
Proof.
  revert i s. induction l as [|c l IH]; intros i s Hi; [done|]. simpl.
  rewrite (proj2 (Nat.ltb_lt 0 i)) by done. rewrite IH by lia.
  destruct l; [by rewrite str_app_assoc|]. cbn [join]. by rewrite !str_app_assoc.
Qed.

End Lemmas.

(** ** Properties *)

Section Properties.
Context {sol : SolApi} {plat : Platform} {gui : GuiApi}.
Implicit Types w : World.

(** C19.  Nesting: a frame that ends normally, started between two frames, makes only
    properly nested GUI calls: widgets only inside windows, every window, child,
    menu and wrap position opened is closed in the opposite order, every style
    variable pushed is popped, and the frame itself is begun and rendered once. *)
Theorem frame_nested w w' :
  nesting_of (w_trace w) = Some ([], O) → frame w = (Ok tt, w') →
  nesting_of (w_trace w') = Some ([], O).
Proof. intros Hn Hf. by eapply scoped_frame. Qed.

(** C20.  Unchecked text: the chat panel passes the text of a chat message as a format
    string.  A viewer's message with a percent sign that is not doubled, which
    Twitch delivers while chat is connected, makes the next drawing of the panel
    undefined. *)
Theorem chat_text_is_format {J : JsonApi} {laws : JsonLaws} msg j cm color a c b w :
  json_parse msg = inr j → describes_chat j cm →
  m_message_callback (w_service w) = Some AppCallback → m_state (w_service w) = ChatConnected →
  starts_with (text cm) (m_prefix (w_parser w)) = false →
  draw_all (chat_log (w_app_state w) ++ m_pending_messages (w_app_state w)) = Ok tt →
  hexToImVec4 (CommandParser.color cm) = inr color →
  c_str (text cm) = a +:+ String percent (String c b) →
  str_forall (λ x, bool_decide (x ≠ percent)) a = true → c ≠ percent →
  ∃ w', handleEventSubMessage msg w = (Ok tt, w') ∧ fst (manageChat w') = Undefined.
Proof.
  intros Hp Hd Hcb Hst Htext Hdraw Hcol Ht Ha Hc.
  destruct (delivered_then_drawn msg j cm w) as (w' & Hw & _ & Hdr); [done..|].
  exists w'. split; [done|]. rewrite Hdr. unfold draw_one. rewrite Hcol, Ht.
  by rewrite printf_noargs_stray.
Qed.

(** C21.  Unchecked colours: a chat message whose colour is a number sign followed by
    something that is no hexadecimal number makes the next drawing of the panel
    throw [std::invalid_argument], which the [catch] clause of [main] does not
    handle: the program terminates. *)
Theorem chat_color_terminates {J : JsonApi} {laws : JsonLaws} msg j cm c rest w :
  json_parse msg = inr j → describes_chat j cm →
  m_message_callback (w_service w) = Some AppCallback → m_state (w_service w) = ChatConnected →
  starts_with (text cm) (m_prefix (w_parser w)) = false →
  draw_all (chat_log (w_app_state w) ++ m_pending_messages (w_app_state w)) = Ok tt →
  CommandParser.color cm = String hash (String c rest) →
  hex_value c = None → isspace c = false → c ≠ Ascii.ascii_of_nat 45 → c ≠ Ascii.ascii_of_nat 43 →
  (5 ≤ String.length rest)%nat →
  ∃ w' e, handleEventSubMessage msg w = (Ok tt, w') ∧ fst (manageChat w') = Throw e ∧
    main_catch e = Terminated e.
Proof.
  intros Hp Hd Hcb Hst Htext Hdraw Hcol Hc Hs Hm Hpl Hl.
  destruct (delivered_then_drawn msg j cm w) as (w' & Hw & _ & Hdr); [done..|].
  exists w', (mk_exn InvalidArgument "stoul"). split; [done|]. rewrite Hdr.
  unfold draw_one. by rewrite Hcol, hexToImVec4_malformed.
Qed.

(** Leaving: GLFW reports that the window should close once it was told so.
    When the user chose Exit in the menu of a frame, [run] ends with status 0 at
    the next test, whatever the network threads do in between. *)
Theorem exit_ends_run others w w' :
  (∀ tr, Did (GlfwSetWindowShouldClose true) ∈ tr → gui_answer tr GlfwWindowShouldClose = true) →
  (∀ i w, w_trace (others i w) = w_trace w) →
  state_of (w_trace w) = Some NoWish → frame w = (Ok tt, w') →
  Asked (MenuItem "Exit") true ∈ w_trace w' →
  ∀ fuel i, fst (run_loop fuel others i w') = Ok (Some 0).
Proof.
  intros Hglfw Hothers Hst Hf Hin fuel i.
  assert (Hclose : Did (GlfwSetWindowShouldClose true) ∈ w_trace w').
  { apply exit_granted; [|done]. by eapply exit_frame. }
  assert (Ha : gui_answer (w_trace (others i w')) GlfwWindowShouldClose = true)
    by (apply Hglfw; by rewrite Hothers).
  destruct fuel; cbn; unfold mbind, M_bind, shouldClose, ask, modify; cbn; by rewrite Ha.
Qed.

(** The answer to the command list. *)
Definition commands_text w : string :=
  match getLoadedCommands map_order (w_engine w) with
  | [] => "No Lua commands loaded"
  | l => "Loaded commands: " +:+ join ", " l
  end.

(** C14.  From a frame to a reply: when a viewer writes "!commands", the frame Twitch
    delivers puts the message into the queue of the chat panel and posts exactly
    one reply, the list of the loaded commands; nothing else changes. *)
Theorem commands_replied {J : JsonApi} {laws : JsonLaws} msg j cm w :
  json_parse msg = inr j → describes_chat j cm → text cm = "!commands" →
  m_message_callback (w_service w) = Some AppCallback → m_state (w_service w) = ChatConnected →
  m_prefix (w_parser w) = "!" → m_commands (w_parser w) !! "commands" = Some HCommands →
  handleEventSubMessage msg w =
    (Ok tt, upd_queue (w_queue w ++ [TSend (commands_text w)])
              (upd_app_state (pushChatMessage cm (w_app_state w)) w)).
Proof.
  intros Hp Hd Ht Hcb Hst Hpre Hcmd.
  rewrite (handle_described (host := World_service) msg j cm AppCallback w Hp Hd Hcb).
  unfold try_catch at 1. cbn [call_message World_service service_host].
  rewrite (on_chat_message_command cm "commands" "commands" [] HCommands) by done.
  unfold mbind at 1, M_bind at 1, try_catch, invoke_handler, commands_command.
  unfold mbind at 1, M_bind at 1. unfold mbind at 1, M_bind at 1, gets at 1.
  unfold commands_text. cbn [w_engine upd_app_state reply].
  set (l := getLoadedCommands map_order (w_engine w)).
  assert (Hl : commands_loop l 0 "Loaded commands: " = "Loaded commands: " +:+ join ", " l).
  { destruct l as [|c l']; [done|]. cbn [commands_loop Nat.ltb Nat.leb]. rewrite commands_loop_join by lia.
    destruct l'; [done|]. cbn [join]. by rewrite str_app_assoc. }
  destruct l as [|c l']; [|rewrite Hl]; unfold reply_fn, TwitchService.sendMessage;
    cbn [svc service_host w_service upd_app_state]; rewrite Hst; done.
Qed.

(** Shutting down: [shutdown] destroys the window and the service but not the
    network: the notifications still own the connection manager, whose threads
    keep running. *)
Theorem shutdown_keeps_network (s : Startup) c d m :
  st_conn s = Some c → app_discord (st_app s) = Some d → app_ui_manager (st_app s) = Some m →
  ∃ s', shutdown s = (Ok tt, s') ∧ st_conn s' = Some c ∧ app_service (st_app s') = None ∧
    app_conn (st_app s') = false ∧ enter s' = None.
Proof.
  intros Hc Hd Hm. unfold shutdown.
  assert (∃ t, delete_ImGuiManager m s = (Ok tt, set_gui_trace t s)) as [t Ht].
  { unfold delete_ImGuiManager, mbind, M_bind, emit, modify.
    destruct s; destruct (app_ui_manager _), (m_backend m), (m_context m), (m_window m); cbn; by eexists. }
  unfold mbind at 1, M_bind at 1, gets. rewrite Hm. unfold mbind at 1, M_bind at 1. rewrite Ht.
  unfold mbind, M_bind, on_app, modify, release_conn. cbn. rewrite Hc, Hd.
  destruct (app_conn (st_app s)); cbn; rewrite Hd; by eexists.
Qed.

(** The hints given before the window is created. *)
Definition window_hints : list gui_event :=
  [Asked GlfwInit true; Did (GlfwWindowHint HintPlatformWayland);
   Did (GlfwWindowHint (HintVersionMajor 4)); Did (GlfwWindowHint (HintVersionMinor 6));
   Did (GlfwWindowHint HintCoreProfile)].

Definition window_opens (tr : list gui_event) : bool :=
  gui_answer tr GlfwInit &&
  gui_answer (tr ++ window_hints) (GlfwCreateWindow 1280 720 "SeraphBot").

Definition started w : Prop :=
  m_message_callback (w_service w) = Some AppCallback ∧
  m_status_callback (w_service w) = Some AppCallback ∧ m_state (w_service w) = Disconnected ∧
  m_eventsub (w_service w) = None ∧ w_cfg w = default_ClientConfig ∧ w_objects w = ∅ ∧ w_queue w = [] ∧
  m_thread_pool (w_conn w) = replicate 3 ThreadRunning ∧ m_commands (w_parser w) = ∅.

(** The constructor of the window manager. *)
Lemma new_ImGuiManager_cases (s : Startup) :
  if window_opens (st_trace s) then
    ∃ t, new_ImGuiManager s = (Ok (mk_ImGuiManager true true true ""), set_gui_trace t s)
  else ∃ what t, new_ImGuiManager s = (Throw (runtime_error what), set_gui_trace t s).
Proof.
  unfold window_opens, new_ImGuiManager, initWindow, mbind, M_bind, ask, emit, modify. cbn.
  destruct (gui_answer (st_trace s) GlfwInit) eqn:Hi; cbn; [|by do 2 eexists].
  rewrite <- !app_assoc. cbn.
  destruct (gui_answer (st_trace s ++ window_hints) _) eqn:Hw; unfold window_hints in Hw;
    rewrite Hw; cbn; by repeat eexists.
Qed.

(** [initialize] up to the window: the manager decides. *)
Definition before_window (s : Startup) : Startup :=
  snd ((_ ← initializeServices; _ ← initializeDiscord; _ ← initializeViewmodels;
        on_app (set_ui false None)) (set_app default_Application s)).

Lemma initialize_eq (s : Startup) :
  initialize (set_app default_Application s) =
    (manager ← new_ImGuiManager;
     on_app (λ a, set_ui (app_ui_backend a) (Some manager) a) ;;
     setupCallbacks ;; mret true) (before_window s).
Proof.
  unfold initialize, initializeServices, initializeDiscord, initializeViewmodels, initializeUi.
  unfold mbind, M_bind. cbn.
  match goal with |- context [new_ImGuiManager ?x] => change x with (before_window s) end.
  by destruct (new_ImGuiManager (before_window s)) as [[m|e|] s'].
Qed.

Lemma after_window_gen n cfg app parser engine service discord obs auth disc conn lua fs now el sys
    t m :
  let s1 := mk_Startup _ (mk_Application _ n cfg true (Some app) (Some parser) (Some engine)
    (Some service) (Some discord) (Some obs) false None (Some auth) (Some disc) true)
    (Some conn) lua fs now el sys t in
  ∃ s2, (on_app (λ a, set_ui (app_ui_backend a) (Some m) a) ;; setupCallbacks ;; mret true) s1 =
    (Ok true, s2) ∧
    enter s2 = Some (mk_World _ cfg conn app parser engine
      (setStatusCallback AppCallback (setMessageCallback AppCallback service)) discord obs m auth disc
      ∅ [] fs now el sys t).
Proof. eexists. split; reflexivity. Qed.

(** The world of a program just built, with the window manager [m]. *)
Definition first_world (s : Startup) (t : list gui_event) (m : ImGuiManager) : World :=
  mk_World _ default_ClientConfig (new_ConnectionManager 3) new_AppState new_CommandParser
    (new_LuaCommandEngine ma_success (st_lua s) (st_fs s))
    (setStatusCallback AppCallback (setMessageCallback AppCallback new_TwitchService))
    (mk_Notifications "") (new_OBSService "testpassword") m new_AuthVM new_DiscordVM
    ∅ [] (st_fs s) (st_steady s) (st_elapsed s) (st_system_time s) t.

Lemma after_window (s : Startup) t m : ∃ s2,
  (on_app (λ a, set_ui (app_ui_backend a) (Some m) a) ;; setupCallbacks ;; mret true)
    (set_gui_trace t (before_window s)) = (Ok true, s2) ∧ enter s2 = Some (first_world s t m).
Proof.
  destruct (after_window_gen 3 default_ClientConfig new_AppState new_CommandParser
    (new_LuaCommandEngine ma_success (st_lua s) (st_fs s)) new_TwitchService (mk_Notifications "")
    (new_OBSService "testpassword") new_AuthVM new_DiscordVM (new_ConnectionManager 3)
    (st_lua s) (st_fs s) (st_steady s) (st_elapsed s) (st_system_time s) t m) as (s2 & Hr & He).
  exists s2. split; [exact Hr|exact He].
Qed.

Lemma first_world_started s t m : started (first_world s t m).
Proof. unfold started. split_and!; reflexivity. Qed.

(** [initialize], up to what [run] enters. *)
Lemma initialize_cases (s : Startup) :
  (∃ t s', initialize (set_app default_Application s) = (Ok true, s') ∧
     window_opens (st_trace s) = true ∧
     enter s' = Some (first_world s t (mk_ImGuiManager true true true ""))) ∨
  ∃ what s', initialize (set_app default_Application s) = (Throw (runtime_error what), s') ∧
     window_opens (st_trace s) = false ∧ app_parser (st_app s') = Some new_CommandParser.
Proof.
  pose proof (new_ImGuiManager_cases (before_window s)) as Hn.
  change (st_trace (before_window s)) with (st_trace s) in Hn.
  pose proof (initialize_eq s) as Hi. unfold mbind at 1, M_bind at 1 in Hi.
  destruct (window_opens (st_trace s)).
  - destruct Hn as [t Hn]. rewrite Hn in Hi. left. exists t.
    destruct (after_window s t (mk_ImGuiManager true true true "")) as (s2 & He & Hw).
    exists s2. split_and!; [by rewrite Hi|done|done].
  - destruct Hn as (what & t & Hn). rewrite Hn in Hi. right. exists what. eexists.
    split_and!; [exact Hi|done|reflexivity].
Qed.

(** Destroying the application. *)
Lemma release_conn_ok (s : Startup) : ∃ s', release_conn s = (Ok tt, s') ∧ st_app s' = st_app s.
Proof. unfold release_conn. repeat case_match; eauto. Qed.

Lemma delete_ImGuiManager_ok m (s : Startup) : ∃ t, delete_ImGuiManager m s = (Ok tt, set_gui_trace t s).
Proof.
  unfold delete_ImGuiManager, backend_shutdown, emit, modify, mbind, M_bind. cbn.
  destruct (m_backend m), (m_context m), (m_window m); cbn; by eexists.
Qed.

Lemma delete_Application_outcome (s : Startup) :
  fst (delete_Application s) = match app_parser (st_app s) with
                               | Some p => delete_CommandParser None p
                               | None => Ok tt
                               end.
Proof.
  unfold delete_Application. rewrite (bind_run (on_app _) _ s tt _ eq_refl).
  set (s1 := set_app (drop_viewmodels (st_app s)) s). rewrite (bind_run (gets _) _ s1 _ s1 eq_refl).
  assert (Hui : ∃ s2, st_app s2 = st_app s1 ∧
    (match app_ui_manager (st_app s1) with Some m => delete_ImGuiManager m | None => mret tt end) s1 =
      (Ok tt, s2)).
  { destruct (app_ui_manager (st_app s1)) as [m|]; [|by exists s1].
    destruct (delete_ImGuiManager_ok m s1) as [t ->]. eexists. split; [|reflexivity]. done. }
  destruct Hui as (s2 & H2 & Hui). rewrite (bind_run _ _ _ _ _ Hui).
  do 2 rewrite (bind_run (on_app _) _ _ tt _ eq_refl).
  match goal with |- context [(release_conn ≫= _) ?x] => destruct (release_conn_ok x) as (s3 & Hr3 & H3) end.
  rewrite (bind_run _ _ _ _ _ Hr3), (bind_run (on_app _) _ _ tt _ eq_refl).
  match goal with |- context [(release_conn ≫= _) ?x] => destruct (release_conn_ok x) as (s4 & Hr4 & H4) end.
  rewrite (bind_run _ _ _ _ _ Hr4), (bind_run (on_app _) _ _ tt _ eq_refl).
  do 2 rewrite (bind_run (gets _) _ _ _ _ eq_refl).
  assert (Hp : app_parser (st_app s4) = app_parser (st_app s)).
  { rewrite H4. cbn. rewrite H3. cbn. by rewrite H2. }
  cbn [app_parser app_engine st_app set_app drop_engine]. rewrite Hp.
  destruct (app_parser (st_app s)) as [p|]; cbn [delete_CommandParser].
  - unfold lift, mbind, M_bind, on_app, modify. destruct (existsb _ _); [done|].
    by match goal with |- context [release_conn ?x] => destruct (release_conn_ok x) as (s5 & -> & _) end.
  - unfold mbind, M_bind, on_app, modify. cbn [mret M_ret].
    by match goal with |- context [release_conn ?x] => destruct (release_conn_ok x) as (s5 & -> & _) end.
Qed.

(** C23.  Starting up: when the window opens, [initialize] succeeds, every pointer
    [run] follows is there, and the program is logged out with both callbacks set,
    nothing queued and three network threads.  When GLFW or the window fails,
    [main] reports it in the log only: it exits with status 0. *)
Theorem initialize_outcome (s : Startup) :
  if window_opens (st_trace s) then
    ∃ s' w, initialize (set_app default_Application s) = (Ok true, s') ∧ enter s' = Some w ∧ started w
  else ∀ fuel others, main fuel others s = Exited 0.
Proof.
  destruct (initialize_cases s) as [(t & s' & Hi & -> & He)|(what & s' & Hi & -> & Hp)].
  - exists s'. eexists. split_and!; [exact Hi|exact He|apply first_world_started].
  - intros fuel others. unfold main, main_exit. rewrite Hi. cbn [main_catch is_runtime_error exn_kind_of runtime_error].
    by rewrite delete_Application_outcome, Hp.
Qed.

(** C22.  Leaving: the engine, and with it the Lua state, is destroyed before the command
    parser, whose handlers release their Lua functions in that state.  A program
    whose main loop ends normally therefore has undefined behaviour as soon as one
    Lua command was registered, and exits with the status of the loop when none
    was. *)
Theorem exit_outcome fuel others s w w' code :
  enter s = Some w → run fuel others w = (Ok (Some code), w') →
  ((∃ key name fn, m_commands (w_parser w') !! key = Some (HLua name fn)) →
   main_run fuel others s = Crashed) ∧
  (map_Forall (λ _ h, is_lua h = false) (m_commands (w_parser w')) →
   main_run fuel others s = Exited code).
Proof.
  intros He Hr. unfold main_run, main_exit. rewrite He, Hr, delete_Application_outcome.
  cbn [leave st_app app_parser delete_CommandParser]. split.
  - intros (key & name & fn & Hk). replace (existsb _ _) with true; [done|]. symmetry.
    apply existsb_exists. exists (HLua name fn). split; [|done]. apply list_elem_of_In.
    apply list_elem_of_fmap. exists (key, HLua name fn). split; [done|]. by apply elem_of_map_to_list.
  - intros Hall. replace (existsb _ _) with false; [done|]. symmetry. apply not_true_iff_false.
    rewrite existsb_exists. intros (h & Hin & Hh). apply list_elem_of_In, list_elem_of_fmap in Hin as ([k h'] & -> & Hin).
    apply elem_of_map_to_list, Hall in Hin. cbn in *. congruence.
Qed.

End Properties.
