(* ===== verification/Interference.v ===== *)
(** * Interference: what the components leave alone

    The facts about single coroutines, handlers and panels on which the lifetime
    properties of [Scheduler] rest: which coroutines follow no pointer and change
    nothing but their own object ([Careful]), and what the message handler, the
    Lua scripts and a frame of the GUI keep of the Twitch service ([keeps calm],
    [frame_move]). *)

From Stdlib Require Import SpecFloat.
From S2P Require Import Prelude Cxx CommandParser Coro Json Net Auth EventSub TwitchService Discord.
From S2P Require Import AppState Gui ViewModels AudioSystem Cooldown LuaEngine World Ui Application.

(** ** Careful coroutines *)

Section NetCareful.
Context {St X : Type} (view : St → X).

Lemma Careful_tls_shutdown : Careful view tls_shutdown.
Proof. unfold tls_shutdown. careful. Qed.

Lemma Careful_makeSslStream host port : Careful view (makeSslStreamAsync host port).
Proof. unfold makeSslStreamAsync. careful. Qed.

#[local] Hint Resolve Careful_tls_shutdown Careful_makeSslStream : sbot.

Lemma Careful_httpsPost host port target body headers :
  Careful view (httpsPostAsync host port target body headers).
Proof. unfold httpsPostAsync. careful. Qed.

Lemma Careful_httpsGet host port target headers :
  Careful view (httpsGetAsync host port target headers).
Proof. unfold httpsGetAsync. careful. Qed.

End NetCareful.

#[export] Hint Resolve Careful_tls_shutdown Careful_makeSslStream Careful_httpsPost
  Careful_httpsGet : sbot.

Section Careful.
Context {J : JsonApi}.

(** The objects a coroutine of [Auth] or [EventSub] changes are its own. *)
Definition nothing {S} (s : S) : unit := tt.

Lemma Careful_getHttp url : Careful nothing (getHttpAsync url).
Proof. unfold getHttpAsync. careful. Qed.

Lemma Careful_generate_chars {St X} (view : St → X) n : Careful view (generate_chars n).
Proof. induction n as [|n IH]; cbn [generate_chars]; careful. Qed.

#[local] Hint Resolve Careful_getHttp Careful_generate_chars : sbot.

Lemma Careful_requestToken : Careful nothing requestTokenAsync.
Proof. unfold requestTokenAsync. careful. Qed.

#[local] Hint Resolve Careful_requestToken : sbot.

Lemma Careful_poll_token fuel got attempts : Careful nothing (poll_token fuel got attempts).
Proof.
  revert got attempts. induction fuel as [|fuel IH]; intros got attempts; cbn [poll_token]; careful.
Qed.

#[local] Hint Resolve Careful_poll_token : sbot.

Lemma Careful_loginAsync : Careful nothing loginAsync.
Proof. unfold loginAsync, fetchClientIdAsync, getAuthUrlAsync, generateState. careful. Qed.

Lemma Careful_fetchUserInfo : Careful nothing fetchUserInfoAsync.
Proof. unfold fetchUserInfoAsync. careful. Qed.

Lemma Careful_connect {CB} : Careful (St := EventSub CB) nothing connect.
Proof. unfold connect. careful. Qed.

Lemma Careful_subscribe {CB} type version :
  Careful (St := EventSub CB) nothing (subscribe type version).
Proof. unfold subscribe. careful. Qed.

Lemma Careful_start {CB} (f : CB) : Careful nothing (start f).
Proof. unfold start. careful. Qed.

Lemma Careful_send_message {St} snd m sender : Careful (St := St) id (send_message snd m sender).
Proof. unfold send_message. careful. Qed.

(** Local variables are not part of the state others see. *)
Lemma Careful_local {L St A} (l : L) (c : coro (L * St) A) :
  Careful snd c → Careful id (co_local l c).
Proof.
  intros Hc s. specialize (Hc (l, s)). revert l s Hc.
  induction c as [a|e|u|k IH|[l1 s1] c IH|op k IH|k IH|k IH|n k IH]; intros l s; simpl; auto.
  intros [-> Hc]. split; [done|]. auto.
Qed.

Lemma Careful_discord {St} {host : DiscordHost St} message :
  Careful (St := St) id (Discord.sendMessage message).
Proof.
  unfold Discord.sendMessage. apply Careful_local.
  unfold send_body, stream_block, game_block, has_data, first_data, assign, local, cfg. careful.
Qed.

End Careful.

#[export] Hint Resolve Careful_loginAsync Careful_fetchUserInfo Careful_connect Careful_subscribe
  Careful_start Careful_send_message Careful_discord : sbot.

(** ** What handlers leave alone *)

Section Calm.
Context {sol : SolApi} {plat : Platform} {J : JsonApi}.
Implicit Types w : World.

(** Nothing happens to the service and the heap; only notifications and, while
    chat is connected, messages are posted. *)
Definition outgoing (st : State) (t : task) : Prop :=
  match t with TSend _ => st = ChatConnected | TDiscord _ => True | _ => False end.

Definition calm w w' : Prop :=
  w_service w' = w_service w ∧ w_objects w' = w_objects w ∧
  ∃ l, w_queue w' = w_queue w ++ l ∧ Forall (outgoing (m_state (w_service w))) l.

#[export] Instance calm_preorder : PreOrder calm.
Proof.
  split.
  - intros w. split_and!; [done..|]. exists []. by rewrite app_nil_r.
  - intros w1 w2 w3 (Hs1 & Ho1 & l1 & Hq1 & Hl1) (Hs2 & Ho2 & l2 & Hq2 & Hl2).
    split_and!; [congruence..|]. exists (l1 ++ l2). rewrite Hs1 in Hl2.
    split; [by rewrite Hq2, Hq1, app_assoc|by apply Forall_app].
Qed.

Lemma calm_same w w' :
  w_service w' = w_service w → w_objects w' = w_objects w → w_queue w' = w_queue w → calm w w'.
Proof. intros. split_and!; [done..|]. exists []. by rewrite app_nil_r. Qed.

Lemma calm_engine {A} (m : M LuaCommandEngine A) : keeps calm (on_engine m).
Proof. apply keeps_zoom. intros. by apply calm_same. Qed.

Lemma calm_now : keeps calm steady_now.
Proof. intros w. by apply calm_same. Qed.

Lemma calm_reply m : keeps calm (reply_fn m).
Proof.
  intros w. unfold reply_fn, TwitchService.sendMessage. cbn [svc service_host].
  case_bool_decide as Hst; [reflexivity|]. split_and!; [done..|]. exists [TSend m]. split; [done|].
  apply Forall_singleton. by destruct (m_state _).
Qed.

Hint Resolve calm_engine calm_now calm_reply : sbot.

Section Handler.
Context (ctx : CommandContext World) (Hreply : ∀ m, keeps calm (reply ctx m)).
Hint Resolve Hreply : sbot.

Lemma calm_ctx_call c : keeps calm (ctx_call ma_success ctx c).
Proof.
  destruct c; cbn [ctx_call]; try (by intros w; apply calm_same); [keeps|].
  intros w. destruct (playSound _ _ _ _ _). by apply calm_same.
Qed.

Lemma calm_run_script sc : keeps calm (run_script ma_success ctx sc).
Proof.
  induction sc as [l err|l e|c k IH]; cbn [run_script]; [keeps..|].
  intros w. pose proof (calm_ctx_call c w) as Hc.
  destruct (ctx_call _ _ _ w) as [[a|e|] w1]; simpl in *; [| |done]; (etrans; [exact Hc|]); apply IH.
Qed.

Hint Resolve calm_run_script : sbot.

Lemma calm_executeLuaCommand fn : keeps calm (executeLuaCommand ma_success ctx fn).
Proof. unfold executeLuaCommand. keeps. Qed.

Hint Resolve calm_executeLuaCommand : sbot.

Lemma calm_lua_handler name fn : keeps calm (lua_handler_body ma_success name fn ctx).
Proof.
  intros w. unfold lua_handler_body, lua_handler_with. destruct (_ !! name) as [meta|]; [|apply Hreply].
  destruct (negb (enabled meta)); [reflexivity|].
  destruct (negb (hasPermission ctx meta)); [apply Hreply|].
  match goal with |- calm w (snd (?m w)) => enough (keeps calm m) by auto end. keeps.
Qed.

End Handler.

Hint Resolve calm_lua_handler : sbot.

Lemma calm_register_one name file : keeps calm (register_one HLua name file).
Proof. unfold register_one. keeps. Qed.

Hint Resolve calm_register_one : sbot.

Lemma calm_registerWithParser : keeps calm (registerWithParser map_order HLua).
Proof.
  intros w. unfold registerWithParser. destruct (negb _); [reflexivity|].
  match goal with |- calm w (snd (?m w)) => enough (keeps calm m) by auto end. keeps.
Qed.

Hint Resolve calm_registerWithParser : sbot.

Lemma calm_invoke h ctx : (∀ m, keeps calm (reply ctx m)) → keeps calm (invoke_handler h ctx).
Proof.
  intros Hreply. destruct h; cbn [invoke_handler]; [by auto with sbot| |].
  - unfold reload_command. keeps.
  - unfold commands_command. keeps.
Qed.

Lemma calm_on_chat_message msg : keeps calm (on_chat_message msg).
Proof.
  unfold on_chat_message. apply keeps_bind; [typeclasses eauto|by intros w; apply calm_same|intros _].
  apply keeps_bind; [typeclasses eauto| |by auto with sbot].
  intros w. unfold parseAndExecute. destruct (negb _); [reflexivity|].
  destruct (parseCommand _ _) as [cmd a]. destruct (str_empty cmd); [reflexivity|].
  destruct (_ !! _) as [h|]; [|reflexivity].
  match goal with |- calm w (snd (?m w)) => enough (keeps calm m) by auto end.
  keeps. by apply calm_invoke, calm_reply.
Qed.

Lemma calm_message f msg : keeps calm (call_message f msg).
Proof. apply calm_on_chat_message. Qed.

Hint Resolve calm_message : sbot.

Lemma calm_badge_ids bs : keeps calm (badge_ids bs).
Proof. induction bs as [|b bs IH]; cbn [badge_ids]; keeps. Qed.

Hint Resolve calm_badge_ids : sbot.

Lemma calm_chat_message f j : keeps calm (chat_message_block f j).
Proof. unfold chat_message_block. keeps. Qed.

Hint Resolve calm_chat_message : sbot.

(** A frame from Twitch, with every command it may run. *)
Lemma calm_callback msg : keeps calm (es_call HandleMessage msg).
Proof.
  cbn [es_call service_eventsub_host]. unfold handleEventSubMessage, handle_body. keeps.
Qed.

Lemma calm_run_setup : keeps calm run_setup.
Proof.
  unfold run_setup, load_commands, register_native. keeps.
  intros w. destruct (make_directories _ _). by apply calm_same.
Qed.

Lemma calm_status st msg : keeps calm (call_status st msg).
Proof. intros w. by apply calm_same. Qed.

(** ** What a frame of the GUI does to the service *)

Section Frame.
Context {gui : GuiApi}.

Lemma calm_emit c : keeps calm (emit c).
Proof. intros w. by apply calm_same. Qed.

Lemma calm_ask c : keeps calm (ask c).
Proof. intros w. by apply calm_same. Qed.

Hint Resolve calm_emit calm_ask : sbot.

Lemma calm_on_button label (m : M World unit) : keeps calm m → keeps calm (on_button label m).
Proof. intros Hm. unfold on_button. keeps. Qed.

Lemma calm_chat_sendMessage m : keeps calm (chat_sendMessage m).
Proof. apply calm_reply. Qed.

Lemma calm_input_text label size flags old : keeps calm (input_text label size flags old).
Proof. unfold input_text. keeps. Qed.

Lemma calm_draw_message msg : keeps calm (draw_message msg).
Proof. unfold draw_message. keeps. Qed.

Hint Resolve calm_chat_sendMessage calm_input_text calm_draw_message : sbot.

Ltac calm_same :=
  lazymatch goal with
  | |- keeps calm (on_button _ _) => apply calm_on_button
  | |- keeps calm (modify _) => by intros ?; apply calm_same
  | |- _ => keeps_step
  end.

Lemma calm_panels :
  keeps calm manageDocking ∧ keeps calm manageFloating ∧ keeps calm manageDiscord ∧
  keeps calm manageChat.
Proof.
  split_and!.
  - unfold manageDocking. repeat calm_same.
  - unfold manageFloating. repeat calm_same.
  - unfold manageDiscord. repeat calm_same.
    intros w. split_and!; [done..|]. eexists [_]. split; [done|]. by apply Forall_singleton.
  - unfold manageChat, chat_log_region, chat_input_line, send_input. repeat calm_same.
Qed.

(** A frame: what the Auth panel does, between panels that are calm. *)
Lemma frame_move w w' :
  frame w = (Ok tt, w') → ∃ w1 w2, calm w w1 ∧ auth_move w1 w2 ∧ calm w2 w'.
Proof.
  destruct calm_panels as (Hdock & Hfloat & Hdisc & Hchat).
  assert (Hpoll : keeps calm poll ∧ keeps calm beginFrame ∧ keeps calm endFrame ∧
    keeps calm Gui.render ∧ keeps calm swapBuffers).
  { unfold poll, beginFrame, endFrame, Gui.render, swapBuffers. split_and!; repeat calm_same. }
  destruct Hpoll as (Hpoll & Hbegin & Hend & Hrender & Hswap).
  unfold frame. intros Hf.
  apply bind_ok in Hf as (? & w1 & H1 & Hf). apply (keeps_run _ _ _ _ _ Hpoll) in H1.
  apply bind_ok in Hf as (? & w2 & H2 & Hf). apply (keeps_run _ _ _ _ _ Hbegin) in H2.
  apply bind_ok in Hf as (? & w3 & H3 & Hf). apply (keeps_run _ _ _ _ _ Hdock) in H3.
  apply bind_ok in Hf as (? & w4 & H4 & Hf). apply (keeps_run _ _ _ _ _ Hfloat) in H4.
  apply bind_ok in Hf as (? & w5 & H5 & Hf).
  pose proof (manageAuth_cases w4) as Hauth. rewrite H5 in Hauth. destruct Hauth as [_ Hauth].
  exists w4, w5. split; [by do 3 (etrans; [eassumption|])|]. split; [done|].
  refine (keeps_run _ _ _ _ _ _ Hf). repeat calm_same.
Qed.

End Frame.
End Calm.
