(* ===== verification/Scheduler.v ===== *)
(** * The io_context: interleaving of the network coroutines and the GUI

    The program runs its detached coroutines on the threads of the
    [ConnectionManager] while the main thread draws frames.  A [system] is the
    [World] and the pool of the coroutines that wait for an operation; a step
    starts the next coroutine of the queue, resumes a waiting one with any answer
    of its operation, or draws a frame.  A coroutine runs without interruption
    from one [co_await] to the next, and a frame runs without interruption: data
    races inside these pieces are not modelled. *)

From S2P Require Import Prelude Coro Json Net Auth EventSub TwitchService Discord.
From S2P Require Import AppState Gui ViewModels LuaEngine World Ui Application Interference.

(** ** The system *)

Section System.
Context {sol : SolApi} {plat : Platform} {gui : GuiApi} {J : JsonApi}.

Record system := mk_system {
  sys_world : World;
  sys_pool : list (task * coro World unit);      (* the coroutines that wait *)
}.

(** The coroutine given to [co_spawn]; [fuel] bounds the frames a read loop may
    receive. *)
Definition task_coro (fuel : nat) (t : task) : coro World unit :=
  run_task fuel Discord.sendMessage t.

(** A coroutine that has ended leaves the pool; the completion handlers drop an
    exception ([asio::detached]) or only log it. *)
Definition park (t : task) (c : coro World unit) (pool : list (task * coro World unit))
    : list (task * coro World unit) :=
  match c with co_return _ | co_throw _ => pool | _ => (t, c) :: pool end.

Definition runs_on (c : coro World unit) : Prop :=
  match c with co_undefined _ => False | _ => True end.

(** A step of the network threads. *)
Inductive network_step (fuel : nat) : system → system → Prop :=
  | net_start w pool t rest c w' :
      w_queue w = t :: rest →
      advance (task_coro fuel t) (upd_queue rest w) = (c, w') → runs_on c →
      network_step fuel (mk_system w pool) (mk_system w' (park t c pool))
  | net_resume w l1 t c l2 c1 c' w' :
      answers c c1 → advance c1 w = (c', w') → runs_on c' →
      network_step fuel (mk_system w (l1 ++ (t, c) :: l2)) (mk_system w' (l1 ++ park t c' l2)).

(** A step of the network threads or of the main thread. *)
Inductive sys_step (fuel : nat) : system → system → Prop :=
  | step_network s s' : network_step fuel s s' → sys_step fuel s s'
  | step_frame w pool w' :
      frame w = (Ok tt, w') → sys_step fuel (mk_system w pool) (mk_system w' pool).

(** The next step of the system is undefined behaviour of this kind. *)
Inductive crashes (fuel : nat) : system → ub → Prop :=
  | crash_start w pool t rest u w' :
      w_queue w = t :: rest →
      advance (task_coro fuel t) (upd_queue rest w) = (co_undefined u, w') →
      crashes fuel (mk_system w pool) u
  | crash_resume w l1 t c l2 c1 u w' :
      answers c c1 → advance c1 w = (co_undefined u, w') →
      crashes fuel (mk_system w (l1 ++ (t, c) :: l2)) u.

(** The states in which there may be an [EventSub] object. *)
Definition in_chat (st : State) : Prop := st ∈ [ConnectingToChat; ChatConnected; Error].

(** Destroying an [EventSub] object with the Auth panel: Disconnect, or Reset of the
    error state after a connection to the chat was begun. *)
Definition leaves (s s' : system) : Prop :=
  is_Some (m_eventsub (w_service (sys_world s))) ∧
  m_state (w_service (sys_world s')) = Disconnected.
Definition staying_step (fuel : nat) (s s' : system) : Prop := sys_step fuel s s' ∧ ¬ leaves s s'.

End System.

(** ** What the coroutines rely on *)

Section Guarantee.
Context {sol : SolApi} {plat : Platform} {gui : GuiApi} {J : JsonApi}.
Implicit Types w : World.

Definition task_valid (p : option nat) (t : task) : Prop :=
  match t with
  | TStart q | TSubscribe q _ _ | TConnect q => p = Some q
  | TDoRead | TSend _ => is_Some p
  | TLogin | TConnectToChat | TDiscord _ => True
  end.

(** Every pointer of the service and of the queue leads to an object; there are
    pointers only once connecting has begun. *)
Definition pointers_valid w : Prop :=
  let t := w_service w in
  (∀ p, m_eventsub t = Some p → m_chat_read t = Some p ∧ is_Some (m_chat_send t) ∧
     is_Some (w_objects w !! p) ∧ in_chat (m_state t)) ∧
  (m_state t = ChatConnected → is_Some (m_eventsub t)) ∧
  Forall (task_valid (m_eventsub t)) (w_queue w).

Definition logging_in w : Prop := m_state (w_service w) = LoggingIn.

(** What a coroutine may do to the others: it keeps the pointers valid and where
    they are, starts no login, and only the login coroutine ends the login. *)
Definition guarantee (login : bool) w w' : Prop :=
  pointers_valid w →
  pointers_valid w' ∧
  (∀ p, m_eventsub (w_service w) = Some p → m_eventsub (w_service w') = Some p) ∧
  (∃ l, w_queue w' = w_queue w ++ l ∧ TLogin ∉ l) ∧
  (login = false → logging_in w → logging_in w').

(** What a coroutine claims while it waits. *)
Definition holds (login : bool) (cl : option nat) w : Prop :=
  pointers_valid w ∧ (login = true → logging_in w) ∧
  match cl with Some p => m_eventsub (w_service w) = Some p | None => True end.

#[export] Instance guarantee_preorder login : PreOrder (guarantee login).
Proof.
  split.
  - intros w Hw. split_and!; [done|done| |done]. exists []. rewrite app_nil_r. set_solver.
  - intros w1 w2 w3 H12 H23 Hw1. destruct (H12 Hw1) as (Hw2 & Hp2 & (l2 & Hq2 & Hl2) & Hs2).
    destruct (H23 Hw2) as (Hw3 & Hp3 & (l3 & Hq3 & Hl3) & Hs3).
    split_and!; [done|by auto| |by auto]. exists (l2 ++ l3).
    rewrite Hq3, Hq2, app_assoc. set_solver.
Qed.

Lemma no_pointer w : pointers_valid w → ¬ in_chat (m_state (w_service w)) →
  m_eventsub (w_service w) = None.
Proof.
  intros (Hp & _) Hn. destruct (m_eventsub (w_service w)) as [p|]; [|done].
  by destruct (Hp p eq_refl) as (_ & _ & _ & Hc).
Qed.

Lemma logging_in_no_pointer w : pointers_valid w → logging_in w → m_eventsub (w_service w) = None.
Proof.
  intros Hw Hl. apply no_pointer; [done|]. unfold logging_in in Hl. rewrite Hl.
  unfold in_chat. set_solver.
Qed.

Lemma calm_guarantee login w w' : calm w w' → guarantee login w w'.
Proof.
  intros (Hs & Ho & l & Hq & Hl) (Hp & Hc & Ht). unfold pointers_valid, logging_in.
  rewrite Hs, Ho, Hq. split_and!; try done.
  - apply Forall_app. split; [done|]. eapply Forall_impl; [exact Hl|].
    by intros [].
  - exists l. split; [done|]. intros Hin. rewrite Forall_forall in Hl. by apply Hl in Hin.
Qed.

Lemma holds_guarantee cl w w' : holds false cl w → guarantee false w w' → holds false cl w'.
Proof.
  intros (Hw & _ & Hcl) HG. destruct (HG Hw) as (Hw' & Hp & _). split_and!; [done..|].
  destruct cl; auto.
Qed.

End Guarantee.

(** ** The coroutines that hold the [EventSub] object [p] *)

#[local] Abbreviation held p := (claimed (eq Dangling) (guarantee false) (holds false) (Some p)).

#[export] Instance EventSub_inhabited {CB} : Inhabited (EventSub CB) :=
  populate (new_EventSub default_ClientConfig).
#[export] Instance Auth_inhabited : Inhabited Auth := populate (new_Auth "").

Section Held.
Context {sol : SolApi} {plat : Platform} {gui : GuiApi} {J : JsonApi}.
Implicit Types w : World.

Lemma held_calm p {A} (m : M World A) : keeps calm m → held p (co_sync m).
Proof.
  intros Hm. apply claimed_sync; [done| |].
  - intros w. apply calm_guarantee, Hm.
  - intros w w' Hw. by apply holds_guarantee.
Qed.

(** [*m_eventsub] and [*m_chat_read] lead to [p]. *)
Lemma held_eventsub_ptr p {A} (f : nat → coro World A) :
  held p (f p) → held p (eventsub_ptr ≫= f).
Proof.
  intros Hf w Hw. pose proof Hw as (_ & _ & Hp). simpl. rewrite Hp. by apply Hf.
Qed.

Lemma held_chat_read_ptr p {A} (f : nat → coro World A) :
  held p (f p) → held p (chat_read_ptr ≫= f).
Proof.
  intros Hf w Hw. pose proof Hw as ((Hv & _) & _ & Hp). simpl.
  destruct (Hv p Hp) as (-> & _). by apply Hf.
Qed.

Lemma post_guarantee p t w : holds false (Some p) w → task_valid (Some p) t → t ≠ TLogin →
  guarantee false w (post t w).
Proof.
  intros (_ & _ & Hp) Ht Hn (Hv & Hc & Hq). split_and!; [|done| |done].
  - split_and!; [done..|]. cbn. apply Forall_app. rewrite Hp in *. by rewrite Forall_singleton.
  - exists [t]. split; [done|]. set_solver.
Qed.

Lemma held_post p t : task_valid (Some p) t → t ≠ TLogin → held p (co_modify (post t)).
Proof.
  intros Ht Hn w Hw. pose proof (post_guarantee p t w Hw Ht Hn).
  apply safe_modify; [done|]. by apply (holds_guarantee _ w).
Qed.

Lemma held_spawn p type version : held p (spawn_subscribe type version).
Proof. apply held_eventsub_ptr. by apply held_post. Qed.

(** Every coroutine of the object itself. *)
Lemma held_on_eventsub p {A} (c : coro (EventSub eventsub_callback) A) :
  Careful nothing c → held p (on_eventsub p c).
Proof.
  intros Hc w Hw. unfold on_eventsub. apply (safe_zoom _ _ _ nothing); [by intros|..|done|done].
  - intros w1 ((Hv & _) & _ & Hp). left. by apply Hv in Hp as (_ & _ & ? & _).
  - intros es w1 Hw1. pose proof Hw1 as ((Hv & Hcn & Hq) & _ & Hp). cbn.
    assert (HG : guarantee false w1 (upd_objects (<[p:=es]> (w_objects w1)) w1)).
    { intros _. split_and!; [|done| |done].
      - split_and!; [|done..]. cbn. intros q Hp'. assert (q = p) as -> by congruence.
        destruct (Hv p Hp) as (? & ? & _ & ?). rewrite lookup_insert_eq. split_and!; done.
      - exists []. cbn. rewrite app_nil_r. set_solver. }
    split_and!; [done|by apply (holds_guarantee _ w1)|]. by rewrite lookup_insert_eq.
Qed.

Hint Resolve claimed_ret claimed_await claimed_await_ws held_spawn held_on_eventsub : sbot.

Ltac held_step :=
  lazymatch goal with
  | |- held _ (eventsub_ptr ≫= _) => apply held_eventsub_ptr
  | |- held _ (chat_read_ptr ≫= _) => apply held_chat_read_ptr
  | |- held _ (_ ≫= _) => apply claimed_bind; [|intros ?]
  | |- held _ (co_catch _ _ _) => apply claimed_catch; [|intros ?]
  | |- held _ (co_modify (post _)) => by apply held_post
  | |- held _ (let _ := _ in _) => cbv zeta
  | |- held _ (match ?x with _ => _ end) => destruct x
  | |- held _ _ => solve [auto with sbot]
  end.
Ltac held := repeat held_step.

Lemma held_read_loop fuel p : held p (read_loop fuel p).
Proof.
  induction fuel as [|fuel IH]; cbn [read_loop]; held.
  all: try (apply held_on_eventsub; careful).
  all: try (apply held_calm; match goal with f : eventsub_callback |- _ => destruct f end;
            apply calm_callback).
  all: try by intros w.
Qed.

Lemma held_doRead fuel p : held p (doRead fuel p).
Proof.
  unfold doRead. held; try apply held_read_loop; apply held_on_eventsub; careful.
Qed.

End Held.

(** ** Every coroutine of the queue *)

Section Tasks.
Context {sol : SolApi} {plat : Platform} {gui : GuiApi} {J : JsonApi}.
Implicit Types w : World.

(** Changing the state, when the pointers allow the new one. *)
Lemma setState_pointers st msg w :
  pointers_valid w → (in_chat st ∨ m_eventsub (w_service w) = None) →
  (st = ChatConnected → is_Some (m_eventsub (w_service w))) →
  let w' := snd (setState st msg w) in
  pointers_valid w' ∧ m_eventsub (w_service w') = m_eventsub (w_service w) ∧
  w_queue w' = w_queue w ∧ m_state (w_service w') = st.
Proof.
  intros (Hv & Hc & Hq) Hst Hcon. rewrite setState_world. cbn [snd].
  destruct (show_status_fields msg (upd_service (set_state st (w_service w)) w))
    as (Hs & Ho & Hqu & _). unfold pointers_valid. rewrite Hs, Ho, Hqu. cbn.
  split_and!; try done. intros p Hp. destruct (Hv p Hp) as (? & ? & ? & _).
  split_and!; [done..|]. destruct Hst as [|Hn]; [done|]. by rewrite Hp in Hn.
Qed.

Lemma setState_guarantee login st msg w :
  (in_chat st ∨ m_eventsub (w_service w) = None) →
  (st = ChatConnected → is_Some (m_eventsub (w_service w))) →
  (login = false → ¬ logging_in w) →
  guarantee login w (snd (setState st msg w)).
Proof.
  intros Hst Hcon Hl Hw. destruct (setState_pointers st msg w Hw Hst Hcon) as (? & Hp & Hq & _).
  split_and!; [done|by rewrite Hp| |by intros ? ?%Hl].
  exists []. rewrite app_nil_r. set_solver.
Qed.

(** Inside the chat states nobody is logging in. *)
Lemma held_setState p st msg : in_chat st → held p (co_sync (setState st msg)).
Proof.
  intros Hst w Hw. pose proof Hw as (Hv & _ & Hp).
  assert (HG : guarantee false w (snd (setState st msg w))).
  { apply setState_guarantee; [by left|by rewrite Hp; eauto|]. intros _ Hl.
    apply (logging_in_no_pointer _ Hv) in Hl. congruence. }
  apply safe_sync; [done|done|]. intros _. by apply (holds_guarantee _ w).
Qed.

(** *** Logging in *)

Lemma login_error w e : holds true None w →
  safe (eq Dangling) (guarantee true) (holds true)
    (co_sync (setState Error ("Login failed: " +:+ exn_what e))) w (λ _ w', pointers_valid w').
Proof.
  intros (Hw & _ & _).
  assert (HG : guarantee true w (snd (setState Error ("Login failed: " +:+ exn_what e) w))).
  { apply setState_guarantee; [|done|done]. left. unfold in_chat. set_solver. }
  apply safe_sync; [done|done|]. intros _. by apply HG.
Qed.

Lemma login_done_guarantee u w : holds true None w → guarantee true w (snd (login_done u w)).
Proof.
  intros (Hv & Hl & _) _. pose proof (logging_in_no_pointer _ Hv (Hl eq_refl)) as Hn.
  unfold login_done, on_svc, gets, modify, mbind, M_bind.
  match goal with |- context [setState LoggedIn ?m ?x] => set (msg := m); set (w1 := x) end.
  assert (Hw1 : pointers_valid w1) by exact Hv.
  destruct (setState_pointers LoggedIn msg w1 Hw1 (or_intror Hn)) as (? & Hp & Hq & _); [done|].
  split_and!; [done|by rewrite Hp| |done]. exists []. rewrite app_nil_r. split; [exact Hq|set_solver].
Qed.

Lemma safe_on_auth {A} (c : coro Auth A) w : Careful nothing c → holds true None w →
  safe (eq Dangling) (guarantee true) (holds true) (on_auth c) w (λ _ w', holds true None w').
Proof.
  intros Hc Hw. unfold on_auth. apply (safe_zoom _ _ _ nothing); [by intros|by intros; left; eexists| |done|done].
  intros a w1 Hw1. split_and!; [|exact Hw1|done]. intros Hv.
  split_and!; [exact Hv|done| |done]. exists []. cbn. rewrite app_nil_r. set_solver.
Qed.

Lemma safe_login w : holds true None w →
  safe (eq Dangling) (guarantee true) (holds true) login_task w (λ _ w', pointers_valid w').
Proof.
  intros Hw. unfold login_task. apply safe_catch, safe_bind.
  eapply safe_mono; [by apply safe_on_auth; [auto with sbot|]|].
  intros [[]|e|] w1 Hw1; [|by apply login_error|done]. apply safe_bind.
  eapply safe_mono; [by apply safe_on_auth; [auto with sbot|]|].
  intros [u|e|] w2 Hw2; [|by apply login_error|done].
  pose proof (login_done_guarantee u w2 Hw2) as HG. pose proof (HG (proj1 Hw2)) as (Hv & _).
  apply safe_sync; [done|done|]. unfold login_done, on_svc, gets, modify, mbind, M_bind in *.
  rewrite setState_world in *. done.
Qed.

(** *** Connecting *)

Lemma held_subscriptions p : held p
  (spawn_subscribe "channel.update" "2" ;;
   spawn_subscribe "channel.ad_break.begin" "1" ;;
   spawn_subscribe "channel.chat.clear" "1" ;;
   spawn_subscribe "channel.chat.clear_user_messages" "1" ;;
   spawn_subscribe "channel.chat.message_delete" "1" ;;
   spawn_subscribe "channel.chat.notification" "1" ;;
   spawn_subscribe "stream.online" "1" ;;
   co_sync (setState ChatConnected "Connected to chat")).
Proof.
  repeat (apply claimed_bind; [apply held_spawn|intros ?]).
  apply held_setState. unfold in_chat. set_solver.
Qed.

(** The new objects, on a service that has none. *)
Lemma setupChatServices_holds w :
  pointers_valid w → m_state (w_service w) = ConnectingToChat → m_eventsub (w_service w) = None →
  ∃ p w', setupChatServices w = (Ok tt, w') ∧ guarantee false w w' ∧ holds false (Some p) w'.
Proof.
  intros (Hv & Hc & Hq) Hst Hn. exists (fresh (dom (w_objects w))). eexists. split; [done|].
  set (p := fresh (dom (w_objects w))). cbn.
  match goal with |- guarantee _ _ ?x ∧ _ => set (w' := x) end.
  assert (Hw' : pointers_valid w').
  { split_and!; [|done|].
    - cbn. intros q [= <-]. split_and!; [done|by eexists| |rewrite Hst; unfold in_chat; set_solver].
      exists (new_EventSub (w_cfg w)). apply map_lookup_filter_Some. cbn.
      rewrite lookup_insert_eq. auto.
    - cbn. eapply Forall_impl; [exact Hq|]. rewrite Hn. intros []; simpl; try done; by intros [].  }
  split; [|by split_and!].
  intros _. split_and!; [done|by rewrite Hn| |by unfold logging_in; rewrite Hst].
  exists []. cbn. rewrite app_nil_r. set_solver.
Qed.

Lemma safe_connectToChat w : pointers_valid w →
  safe (eq Dangling) (guarantee false) (holds false) connectToChat w (λ _ w', pointers_valid w').
Proof.
  intros Hw. unfold connectToChat. apply safe_bind, safe_gets. cbn beta iota.
  case_bool_decide as Hst; [done|]. cbn [svc World_service service_host] in Hst.
  assert (Hn : m_eventsub (w_service w) = None).
  { apply no_pointer; [done|]. rewrite Hst. unfold in_chat. set_solver. }
  assert (Hcc : in_chat ConnectingToChat) by (unfold in_chat; set_solver).
  destruct (setState_pointers ConnectingToChat "Connecting to chat..." w Hw) as (Hw1 & Hp1 & _ & Hs1);
    [by left|done|].
  rewrite Hn in Hp1. apply safe_bind, safe_sync; [done|..].
  { apply setState_guarantee; [by left|done|]. unfold logging_in. by rewrite Hst. }
  intros _. rewrite setState_world in *. cbn [fst snd] in *.
  match goal with |- context [safe _ _ _ _ ?x _] => set (w1 := x) in * end.
  destruct (setupChatServices_holds w1 Hw1 Hs1 Hp1) as (p & w2 & Hset & HG & Hh).
  eapply (safe_mono _ _ _ _ _ (λ _ w', holds false (Some p) w')); [|by intros o w' [? _]].
  apply safe_catch, safe_bind, safe_sync; rewrite ?Hset; [done|done|]. intros _. cbn [fst snd].
  match goal with |- safe _ _ _ ?c _ _ => enough (Hheld : held p c) end.
  { eapply safe_mono; [by apply Hheld|]. intros [a|e|] w' Hw'; [done| |done].
    apply held_setState; [unfold in_chat; set_solver|done]. }
  apply held_eventsub_ptr. apply claimed_bind; [apply held_on_eventsub, Careful_connect|intros ?].
  apply claimed_bind; [apply held_post; simpl; by eauto|intros ?]. apply held_eventsub_ptr.
  apply claimed_bind; [apply held_post; simpl; by eauto|intros ?]. apply claimed_bind; [apply claimed_await|intros ?].
  apply held_chat_read_ptr. apply claimed_bind; [|intros ?; apply held_subscriptions].
  apply held_on_eventsub. unfold requestSubscription. auto with sbot.
Qed.

Lemma safe_send message w : pointers_valid w → is_Some (m_eventsub (w_service w)) →
  safe (eq Dangling) (guarantee false) (holds false) (send_task message) w (λ _ w', pointers_valid w').
Proof.
  intros Hw [p Hp]. assert (Hh : holds false (Some p) w) by by split_and!.
  eapply (safe_mono _ _ _ _ _ (λ _ w', holds false (Some p) w')); [|by intros o w' [? _]].
  unfold send_task. apply safe_catch, safe_bind, safe_gets. cbn beta iota.
  destruct Hw as (Hv & _). destruct (Hv p Hp) as (_ & [snd Hsnd] & _).
  cbn [svc World_service service_host]. rewrite Hsnd.
  apply safe_bind, safe_gets. cbn beta iota. eapply safe_mono.
  { apply (safe_careful _ _ _ _ (Some p)); [by intros|apply Careful_send_message|done]. }
  intros [a|e|] w1 Hw1; [done| |done]. cbn [any_exception]. apply held_calm; [|done].
  keeps; apply calm_status.
Qed.

Definition is_login (t : task) : bool := match t with TLogin => true | _ => false end.

(** Every task of the queue runs safely from a world where it is valid. *)
Lemma safe_task fuel t w :
  pointers_valid w → task_valid (m_eventsub (w_service w)) t → (t = TLogin → logging_in w) →
  safe (eq Dangling) (guarantee (is_login t)) (holds (is_login t)) (task_coro fuel t) w
    (λ _ w', pointers_valid w').
Proof.
  intros Hw Ht Hl.
  assert (Hheld : ∀ p (c : coro World unit), m_eventsub (w_service w) = Some p → held p c →
    safe (eq Dangling) (guarantee false) (holds false) c w (λ _ w', pointers_valid w')).
  { intros p c Hp Hc. eapply safe_mono; [by apply Hc|]. by intros o w' [? _]. }
  destruct t; cbn [task_coro run_task is_login task_valid] in *.
  - apply safe_login. split_and!; auto.
  - by apply safe_connectToChat.
  - destruct Ht as [p Hp]. apply (Hheld p); [done|]. unfold read_task.
    apply claimed_catch; [|by intros e w'].
    apply held_eventsub_ptr, held_doRead.
  - apply (Hheld p); [done|]. apply held_on_eventsub, Careful_start.
  - apply (Hheld p); [done|]. apply held_on_eventsub, Careful_subscribe.
  - apply (Hheld p); [done|]. apply held_on_eventsub, Careful_connect.
  - by apply safe_send.
  - eapply safe_mono; [apply (safe_careful _ _ _ _ None); [by intros|apply Careful_discord|by split_and!]|].
    by intros o w' [? _].
Qed.

End Tasks.

(** ** The invariant of the system *)

Section Invariant.
Context {sol : SolApi} {plat : Platform} {gui : GuiApi} {J : JsonApi}.
Implicit Types w : World.

Definition logins (l : list task) : nat := length (filter (λ t, is_login t = true) l).

Definition waiting w (tc : task * coro World unit) : Prop :=
  suspended (snd tc) ∧
  safe (eq Dangling) (guarantee (is_login (fst tc))) (holds (is_login (fst tc))) (snd tc) w
    (λ _ w', pointers_valid w').

(** At most one login is queued or waiting, and then the service is logging in. *)
Definition one_login w (pool : list (task * coro World unit)) : Prop :=
  let n := (logins (w_queue w) + logins (map fst pool))%nat in
  (n ≤ 1)%nat ∧ (n = 1%nat → logging_in w).

Definition system_valid (s : system) : Prop :=
  pointers_valid (sys_world s) ∧ Forall (waiting (sys_world s)) (sys_pool s) ∧
  one_login (sys_world s) (sys_pool s).

Lemma logins_app l1 l2 : logins (l1 ++ l2) = (logins l1 + logins l2)%nat.
Proof. unfold logins. by rewrite filter_app, length_app. Qed.

Lemma logins_cons t l : logins (t :: l) = ((if is_login t then 1 else 0) + logins l)%nat.
Proof. unfold logins. rewrite filter_cons. by destruct t. Qed.

Lemma logins_none l : TLogin ∉ l → logins l = O.
Proof.
  induction l as [|t l IH]; intros Hn; [done|].
  rewrite logins_cons, IH by set_solver. destruct t; try done. set_solver.
Qed.

(** The coroutines that wait survive what keeps the pointers and the login. *)
Lemma waiting_stable w w' tc :
  pointers_valid w' →
  (∀ p, m_eventsub (w_service w) = Some p → m_eventsub (w_service w') = Some p) →
  (is_login (fst tc) = true → logging_in w → logging_in w') →
  waiting w tc → waiting w' tc.
Proof.
  intros Hw' Hp Hst [Hc Hs]. split; [done|].
  eapply safe_stable; [done| |done]. intros cl (_ & Hlog & Hcl). split_and!; [done|by auto|].
  destruct cl; auto.
Qed.

(** What one coroutine leaves behind when it stops. *)
Lemma stop_valid t c w c' w' :
  pointers_valid w → safe (eq Dangling) (guarantee (is_login t)) (holds (is_login t)) c w (λ _ w', pointers_valid w') →
  advance c w = (c', w') →
  guarantee (is_login t) w w' ∧
  ((runs_on c' ∧ park t c' [] = []) ∨
   (park t c' [] = [(t, c')] ∧ waiting w' (t, c') ∧ (is_login t = true → logging_in w')) ∨
   ∃ u, c' = co_undefined u ∧ Dangling ≠ u).
Proof.
  intros Hw Hs Ha. destruct (safe_advance _ _ _ _ _ _ _ _ Ha Hs) as (HG & Hs' & Hend).
  split; [done|]. destruct Hend as [Hsus|[(a & ->)|[(e & ->)|(u & -> & Hu)]]]; [|by left; split..|by eauto].
  right; left. split; [by destruct c'|]. split; [by split|]. intros Ht.
  destruct c'; try done; destruct Hs' as (cl & (_ & Hl & _) & _); auto.
Qed.

Lemma logins_in (l : list (task * coro World unit)) tc :
  tc ∈ l → is_login (fst tc) = true → (1 ≤ logins (map fst l))%nat.
Proof.
  intros Hin Ht. apply list_elem_of_split in Hin as (l1 & l2 & ->).
  rewrite map_app, logins_app. cbn [map]. rewrite logins_cons, Ht. lia.
Qed.

(** One coroutine runs to its next suspension or its end, while [l1 ++ l2] wait. *)
Lemma coroutine_step t c w c' w' l1 l2 :
  pointers_valid w →
  safe (eq Dangling) (guarantee (is_login t)) (holds (is_login t)) c w (λ _ w', pointers_valid w') →
  advance c w = (c', w') → runs_on c' →
  Forall (waiting w) (l1 ++ l2) → one_login w ((t, c) :: l1 ++ l2) →
  system_valid (mk_system w' (l1 ++ park t c' l2)).
Proof.
  intros Hw Hs Ha Hrun Hpool [Hn Hlog].
  destruct (stop_valid t c w c' w' Hw Hs Ha) as (HG & Hstop).
  destruct (HG Hw) as (Hw' & Hp & (lq & Hq & Hlq) & Hst).
  cbn [map fst] in Hn, Hlog. rewrite logins_cons in Hn, Hlog.
  assert (Hpool' : Forall (waiting w') (l1 ++ l2)).
  { rewrite Forall_forall in Hpool |- *. intros tc Hin. eapply waiting_stable; [done|done| |by auto].
    intros Hl. pose proof (logins_in _ _ Hin Hl). apply Hst. destruct (is_login t); [lia|done]. }
  assert (Hpark : park t c' l2 = park t c' [] ++ l2) by by destruct c'.
  rewrite Hpark. apply Forall_app in Hpool' as [Hl1 Hl2].
  unfold system_valid, one_login. cbn [sys_world sys_pool].
  rewrite Hq, logins_app, (logins_none _ Hlq), !map_app, !logins_app.
  rewrite map_app, logins_app in Hn, Hlog.
  destruct Hstop as [[_ ->]|[(-> & Hwait & Hlt)|(u & -> & _)]]; [| |done];
    cbn [map fst app]; rewrite ?logins_cons; change (logins []) with O.
  - split_and!; [done|by apply Forall_app|lia|]. intros H1.
    destruct (is_login t) eqn:Ht; [lia|]. apply Hst; [done|]. apply Hlog. lia.
  - split_and!; [done|apply Forall_app; split; [done|by apply Forall_cons]|cbn; lia|].
    intros H1. cbn in H1. destruct (is_login t) eqn:Ht; [by apply Hlt|].
    apply Hst; [done|]. apply Hlog. lia.
Qed.

Lemma guarantee_valid w w' pool :
  guarantee false w w' → system_valid (mk_system w pool) → system_valid (mk_system w' pool).
Proof.
  intros HG (Hw & Hpool & Hn & Hlog). destruct (HG Hw) as (Hw' & Hp & (l & Hq & Hl) & Hst).
  cbn [sys_world sys_pool] in *. split; [done|]. cbn [sys_world sys_pool]. split.
  - rewrite Forall_forall in Hpool |- *. intros tc Hin. eapply waiting_stable; eauto.
  - unfold one_login. rewrite Hq, logins_app, (logins_none _ Hl), Nat.add_0_r. auto.
Qed.

(** A change of state while there is no object and nobody is logging in. *)
Lemma idle_valid w w' l pool :
  system_valid (mk_system w pool) → m_eventsub (w_service w) = None → ¬ logging_in w →
  m_eventsub (w_service w') = None → w_queue w' = w_queue w ++ l →
  m_state (w_service w') ≠ ChatConnected → Forall (task_valid None) l →
  (logins l ≤ 1)%nat → (logins l = 1%nat → logging_in w') →
  system_valid (mk_system w' pool).
Proof.
  intros (Hw & Hpool & Hn & Hlog) Hnw Hnl Hnone Hq Hcon Hl Hl1 Hl2.
  cbn [sys_world sys_pool] in *.
  assert (Hw' : pointers_valid w').
  { destruct Hw as (_ & _ & Ht). unfold pointers_valid. rewrite Hnone, Hq. rewrite Hnw in Ht.
    split_and!; [done|done|by apply Forall_app]. }
  assert (H0 : (logins (w_queue w) + logins (map fst pool) = 0)%nat).
  { destruct (decide (logins (w_queue w) + logins (map fst pool) = 1)%nat) as [H1|]; [|lia].
    by apply Hlog in H1. }
  split; [done|]. cbn [sys_world sys_pool]. split.
  - rewrite Forall_forall in Hpool |- *. intros tc Hin.
    apply (waiting_stable w); [done|by rewrite Hnw|by intros _ ?|by auto].
  - unfold one_login. rewrite Hq, logins_app. split; [lia|]. intros. apply Hl2. lia.
Qed.

Lemma auth_valid w w' pool :
  system_valid (mk_system w pool) → auth_move w w' →
  ¬ (is_Some (m_eventsub (w_service w)) ∧ m_state (w_service w') = Disconnected) →
  system_valid (mk_system w' pool).
Proof.
  intros Hs (_ & Hmove) Hstay.
  assert (Hconn : ∀ o : Prop, (w_queue w' = w_queue w ∨ (o ∧ w_queue w' = w_queue w ++ [TConnectToChat])) →
    ∃ l, w_queue w' = w_queue w ++ l ∧ Forall (λ t, t = TConnectToChat) l).
  { intros o [Hq|[_ Hq]]; [exists []|exists [TConnectToChat]]; rewrite ?app_nil_r; split; auto using Forall_nil_2. }
  destruct Hmove as [(Hsv & Ho & Hq)|[(Hst & Hsv & Ho & Hq)|(Hst & Hsv & Ho & Hq)]].
  - apply Hconn in Hq as (l & Hq & Hl). rewrite Forall_forall in Hl.
    apply (guarantee_valid w); [|done]. intros (Hv & Hc & Ht).
    unfold pointers_valid, logging_in. rewrite Hsv, Ho, Hq. split_and!; try done.
    + apply Forall_app. split; [done|]. apply Forall_forall. by intros t ->%Hl.
    + exists l. split; [done|]. by intros ?%Hl.
  - assert (Hnw : m_eventsub (w_service w) = None).
    { apply no_pointer; [apply Hs|]. rewrite Hst. unfold in_chat. set_solver. }
    apply (idle_valid w _ [TLogin]); rewrite ?Hsv; unfold logging_in; try done.
    + by rewrite Hst.
    + by apply Forall_singleton.
    + by rewrite Hsv.
  - apply Hconn in Hq as (l & Hq & Hl). rewrite Forall_forall in Hl. rewrite Hsv in Hstay.
    assert (Hnw : m_eventsub (w_service w) = None).
    { destruct (m_eventsub (w_service w)); [|done]. destruct Hstay. split; [by eexists|done]. }
    apply (idle_valid w _ l); rewrite ?Hsv; unfold logging_in; try done.
    + intros Hl'. rewrite Hl' in Hst. set_solver.
    + apply Forall_forall. by intros t ->%Hl.
    + rewrite logins_none; [lia|]. by intros ?%Hl.
    + rewrite logins_none; [lia|]. by intros ?%Hl.
Qed.

(** A frame that is no leave. *)
Lemma frame_valid w w' pool :
  system_valid (mk_system w pool) → frame w = (Ok tt, w') →
  ¬ leaves (mk_system w pool) (mk_system w' pool) → system_valid (mk_system w' pool).
Proof.
  intros Hs Hf Hno. apply frame_move in Hf as (w1 & w2 & H1 & Hauth & H2).
  unfold leaves in Hno. cbn [sys_world] in Hno.
  rewrite <- (proj1 H1), (proj1 H2) in Hno.
  apply (guarantee_valid w2); [by apply calm_guarantee|].
  apply (auth_valid w1); [|done|done].
  by apply (guarantee_valid w); [apply calm_guarantee|].
Qed.

Lemma network_valid fuel s s' : system_valid s → network_step fuel s s' → system_valid s'.
Proof.
  intros Hs Hstep. destruct Hstep as [w pool t rest c w' Hq Ha Hrun|w l1 t c l2 c1 c' w' Hans Ha Hrun].
  - destruct Hs as (Hw & Hpool & Hone). cbn [sys_world sys_pool] in *.
    pose proof Hw as (Hv & Hc & Htasks). rewrite Hq in Htasks. apply Forall_cons in Htasks as [Ht Hrest].
    assert (Hw0 : pointers_valid (upd_queue rest w)) by by split_and!.
    apply (coroutine_step t (task_coro fuel t) (upd_queue rest w) c w' [] pool); try done.
    + apply safe_task; [done|done|]. intros ->. apply Hone. destruct Hone as [Hn _].
      rewrite Hq, logins_cons in *. cbn [is_login] in *. lia.
    + cbn [app]. rewrite Forall_forall in Hpool |- *. intros tc Hin.
      by apply (waiting_stable w); auto.
    + unfold one_login in *. rewrite Hq, logins_cons in Hone. cbn [app map fst w_queue upd_queue].
      rewrite logins_cons. destruct Hone as [Hn Hlog]. split; [lia|]. intros. apply Hlog. lia.
  - destruct Hs as (Hw & Hpool & Hone). cbn [sys_world sys_pool] in *.
    apply Forall_app in Hpool as [Hl1 Hl2]. apply Forall_cons in Hl2 as [[Hsus Hsafe] Hl2].
    apply (coroutine_step t c1 w); try done.
    + by apply (safe_answers _ _ _ c).
    + by apply Forall_app.
    + unfold one_login in *. rewrite map_app in Hone. cbn [map fst] in *.
      rewrite logins_app in Hone. rewrite !logins_cons, map_app, logins_app in *.
      destruct Hone as [Hn Hlog]. split; [lia|]. intros. apply Hlog. lia.
Qed.

Lemma step_valid fuel s s' : system_valid s → staying_step fuel s s' → system_valid s'.
Proof.
  intros Hs [Hstep Hno].
  destruct Hstep as [s s' Hnet|w pool w' Hf]; [by eapply network_valid|by eapply frame_valid].
Qed.

Lemma steps_valid fuel s s' : system_valid s → rtc (staying_step fuel) s s' → system_valid s'.
Proof. intros Hs. induction 1 as [|s1 s2 s3 H12 _ IH]; [done|]. eauto using step_valid. Qed.

Lemma valid_no_crash fuel s u : system_valid s → crashes fuel s u → u ≠ Dangling.
Proof.
  intros (Hw & Hpool & Hone) Hc. destruct Hc as [w pool t rest u w' Hq Ha|w l1 t c l2 c1 u w' Hans Ha];
    cbn [sys_world sys_pool] in *.
  - pose proof Hw as (Hv & Hc & Htasks). rewrite Hq in Htasks. apply Forall_cons in Htasks as [Ht Hrest].
    apply (safe_advance (eq Dangling) (guarantee (is_login t)) (holds (is_login t)) _ _ (λ _ w', pointers_valid w'))
      in Ha as (_ & Hu & _); [done|].
    apply safe_task; [by split_and!|done|]. intros ->. destruct Hone as [Hn Hlog].
    rewrite Hq, logins_cons in *. apply Hlog. cbn [is_login] in *. lia.
  - apply Forall_app in Hpool as [_ Hl2]. apply Forall_cons in Hl2 as [[Hsus Hsafe] _].
    apply (safe_advance (eq Dangling) (guarantee (is_login t)) (holds (is_login t)) _ _ (λ _ w', pointers_valid w'))
      in Ha as (_ & Hu & _); [done|]. by apply (safe_answers _ _ _ c).
Qed.

Lemma started_valid w w' : started w → run_setup w = (Ok tt, w') → system_valid (mk_system w' []).
Proof.
  intros (_ & _ & Hst & Hp & _ & _ & Hq & _) Hr.
  apply (guarantee_valid w).
  { apply calm_guarantee. exact (keeps_run _ _ _ _ _ calm_run_setup Hr). }
  split; cbn [sys_world sys_pool].
  - unfold pointers_valid. rewrite Hst, Hp, Hq. by split_and!.
  - split; [done|]. unfold one_login. rewrite Hq. split; [cbn; lia|done].
Qed.

End Invariant.

(** ** Leaving while a subscription is under way *)

Section Leaving.
Context {sol : SolApi} {plat : Platform} {gui : GuiApi} {J : JsonApi}.
Implicit Types w : World.

(** A frame that leaves the chat destroys the objects. *)
Lemma leave_destroys w w' :
  frame w = (Ok tt, w') → in_chat (m_state (w_service w)) →
  m_state (w_service w') = Disconnected → w_objects w' = ∅.
Proof.
  intros Hf Hin Hout. apply frame_move in Hf as (w1 & w2 & (Hs1 & _) & (_ & Hm) & (Hs2 & -> & _)).
  rewrite Hs2 in Hout. rewrite Hs1 in Hm.
  destruct Hm as [(Hs & _)|[(Hst & _)|(_ & _ & ? & _)]]; [..|done].
  - rewrite Hs in Hout. unfold in_chat in Hin. rewrite Hout in Hin. set_solver.
  - unfold in_chat in Hin. rewrite Hst in Hin. set_solver.
Qed.

(** A waiting coroutine is resumed and waits again, without touching the world. *)
Lemma resume_quiet fuel w t c c1 c' pool :
  answers c c1 → advance c1 w = (c', w) → suspended c' →
  sys_step fuel (mk_system w ((t, c) :: pool)) (mk_system w ((t, c') :: pool)).
Proof.
  intros Ha Hadv Hs. replace ((t, c') :: pool) with (park t c' pool) by by destruct c'.
  apply step_network, (net_resume fuel w [] t c pool c1 c' w); [done..|]. by destruct c'.
Qed.

End Leaving.

(** ** Properties *)

Section Properties.
Context {sol : SolApi} {plat : Platform} {gui : GuiApi} {J : JsonApi}.

(** C1.  Lifetimes: from the start of the main loop, in every interleaving of the
    network coroutines, of everything the network may answer, and of frames with
    any user input, no coroutine ever dereferences a null pointer or an object
    that was destroyed, as long as the user does not destroy an [EventSub] object
    with the Auth panel, by Disconnect or by Reset of the error state after a
    connection to the chat was begun (Logout, and Reset after a failed login, are
    allowed); at most one login is under way, and only in state LoggingIn. *)
Theorem no_dangling_pointer fuel w w' s :
  started w → run_setup w = (Ok tt, w') →
  rtc (staying_step fuel) (mk_system w' []) s →
  ¬ crashes fuel s Dangling ∧ one_login (sys_world s) (sys_pool s).
Proof.
  intros Hstart Hrun Hsteps.
  assert (Hs : system_valid s) by (by eapply steps_valid; [eapply started_valid|]).
  split; [by intros ?%valid_no_crash|apply Hs].
Qed.

(** C2.  Use after free: when the user leaves the chat in a frame while a
    subscription of [connectToChat] has been started, the network only has to
    answer it, and the coroutine goes on in the [EventSub] object the frame has
    destroyed. *)
Theorem leaving_dangles fuel p es type version rest body resp j w w' pool :
  w_queue w = TSubscribe p type version :: rest → w_objects w !! p = Some es →
  json_dump (subscription_request (m_cfg es) (m_session_id es) type version) = inr body →
  json_parse resp = inr j → json_contains j "error" = false →
  frame (upd_queue rest w) = (Ok tt, w') → in_chat (m_state (w_service w)) →
  m_state (w_service w') = Disconnected →
  ∃ s, rtc (sys_step fuel) (mk_system w pool) s ∧ crashes fuel s Dangling.
Proof.
  intros Hq Hes Hdump Hparse Herr Hf Hin Hout.
  pose proof (leave_destroys _ _ Hf Hin Hout) as Hempty.
  eexists. split.
  { eapply rtc_l.
    { eapply step_network, net_start; [exact Hq| |].
      - cbn. rewrite Hes. cbn. rewrite Hes. cbn. rewrite Hdump. cbn. reflexivity.
      - done. }
    eapply rtc_l; [by apply step_frame|]. cbn [park].
    do 5 (eapply rtc_l; [eapply resume_quiet; [apply (answers_do _ _ None)|reflexivity|done]|]).
    eapply rtc_l; [|apply rtc_refl]. eapply resume_quiet;
      [apply (answers_http _ (inr (mk_response 200 "" resp)))|reflexivity|done]. }
  eapply (crash_resume _ _ []); [apply (answers_do _ _ None)|].
  cbn. rewrite Hparse. cbn. rewrite Herr. cbn. rewrite Hempty. cbn. reflexivity.
Qed.

End Properties.
