(* ===== verification/Session.v ===== *)
(** * The session: an abstract machine that the interleaved program refines

    [TwitchService::State] is written by the login and connect coroutines on the
    network threads and by the Auth panel on the main thread.  The specification is
    a state machine with the moves of the network and those of the user; every step
    of the [system], in every interleaving, is a path of it, also when the user
    leaves the chat.  A dangling pointer ends an interleaving ([Scheduler]); it is
    not a step. *)

From S2P Require Import Prelude Coro Json Net Auth EventSub TwitchService Discord.
From S2P Require Import AppState Gui ViewModels LuaEngine World Ui Application Interference Scheduler.

(** ** The specification *)

Inductive network_move : State → State → Prop :=
  | logged_in : network_move LoggingIn LoggedIn
  | login_failed : network_move LoggingIn Error
  | connecting : network_move LoggedIn ConnectingToChat
  | connected : network_move ConnectingToChat ChatConnected
  | connection_failed : network_move ConnectingToChat Error.

Inductive user_move : State → State → Prop :=
  | asks_login : user_move Disconnected LoggingIn
  | logs_out : user_move LoggedIn Disconnected
  | disconnects : user_move ChatConnected Disconnected
  | resets : user_move Error Disconnected.

(** ** Roles: which coroutine moves the session *)

Inductive role := RLogin | RConnect | ROther.

#[export] Instance role_eq_dec : EqDecision role.
Proof. solve_decision. Defined.

Definition role_of (t : task) : role :=
  match t with TLogin => RLogin | TConnectToChat => RConnect | _ => ROther end.

(** While a coroutine waits, the session is in the phase of its role. *)
Definition phase (r : role) (st : State) : Prop :=
  match r with RLogin => st = LoggingIn | RConnect => st = ConnectingToChat | ROther => True end.

Definition role_moves (r : role) (a b : State) : Prop :=
  a = b ∨
  match r with
  | RLogin => a = LoggingIn ∧ (b = LoggedIn ∨ b = Error)
  | RConnect => (a = LoggedIn ∧ (b = ConnectingToChat ∨ b = ChatConnected ∨ b = Error)) ∨
                (a = ConnectingToChat ∧ (b = ChatConnected ∨ b = Error))
  | ROther => False
  end.

Lemma role_moves_path r a b : role_moves r a b → rtc network_move a b.
Proof.
  assert (H1 : ∀ a b, network_move a b → rtc network_move a b) by (intros; by apply rtc_once).
  intros [->|H]; [done|]. destruct r; [| |done].
  - destruct H as (-> & [-> | ->]); apply H1; constructor.
  - destruct H as [(-> & [->|[-> | ->]])|(-> & [-> | ->])]; try (apply H1; constructor);
      (eapply rtc_l; [apply connecting|]); apply H1; constructor.
Qed.

Section Roles.
Context {sol : SolApi} {plat : Platform} {gui : GuiApi} {J : JsonApi}.
Implicit Types w : World.

Definition session w : State := m_state (w_service w).

Definition moves (r : role) w w' : Prop :=
  role_moves r (session w) (session w') ∧ ∃ l, w_queue w' = w_queue w ++ l ∧ TLogin ∉ l.

Definition in_phase (r : role) (_ : unit) w : Prop := phase r (session w).

(** Undefined behaviour is not excluded here. *)
Definition tolerant (_ : ub) : Prop := False.

#[local] Abbreviation safely r := (safe tolerant (moves r) (in_phase r)).
#[local] Abbreviation in_role r := (claimed tolerant (moves r) (in_phase r) tt).

#[export] Instance moves_preorder r : PreOrder (moves r).
Proof.
  split.
  - intros w. split; [by left|]. exists []. rewrite app_nil_r. set_solver.
  - intros w1 w2 w3 (H12 & l2 & Hq2 & Hl2) (H23 & l3 & Hq3 & Hl3). split.
    + unfold role_moves in *. destruct r; naive_solver congruence.
    + exists (l2 ++ l3). rewrite Hq3, Hq2, app_assoc. set_solver.
Qed.

Lemma moves_same r w w' l :
  session w' = session w → w_queue w' = w_queue w ++ l → TLogin ∉ l → moves r w w'.
Proof. intros Hs Hq Hl. split; [by left|]. by exists l. Qed.

Lemma moves_quiet r w w' : session w' = session w → w_queue w' = w_queue w → moves r w w'.
Proof. intros Hs Hq. apply (moves_same r w w' []); [done|by rewrite app_nil_r|set_solver]. Qed.

Lemma calm_moves r w w' : calm w w' → moves r w w'.
Proof.
  intros (Hs & _ & l & Hq & Hl). apply (moves_same r w w' l); [by unfold session; rewrite Hs|done|].
  intros Hin. rewrite Forall_forall in Hl. by apply Hl in Hin.
Qed.

Lemma moves_setState r st msg w :
  role_moves r (session w) st → moves r w (snd (setState st msg w)).
Proof.
  intros Hm. rewrite setState_world. cbn [snd].
  destruct (show_status_fields msg (upd_service (set_state st (w_service w)) w)) as (Hs & _ & Hq & _).
  split; [unfold session at 2; by rewrite Hs|]. exists []. rewrite app_nil_r. set_solver.
Qed.

(** ** Coroutines inside a phase *)

Lemma in_role_quiet r (f : World → World) :
  (∀ w, session (f w) = session w) → (∀ w, w_queue (f w) = w_queue w) → in_role r (co_modify f).
Proof.
  intros Hs Hq w Hw. apply safe_modify; [by apply moves_quiet|].
  unfold in_phase in *. by rewrite Hs.
Qed.

Lemma in_role_post r t : t ≠ TLogin → in_role r (co_modify (post t)).
Proof.
  intros Ht w Hw. apply safe_modify; [|exact Hw]. apply (moves_same r w _ [t]); [done..|]. set_solver.
Qed.

Lemma in_role_calm r {A} (m : M World A) : keeps calm m → in_role r (co_sync m).
Proof.
  intros Hm w Hw. pose proof (Hm w) as Hc. apply safe_sync; [intros []|by apply calm_moves|].
  intros _. unfold in_phase, session in *. by rewrite (proj1 Hc).
Qed.

Lemma in_role_careful r {A} (c : coro World A) : Careful id c → in_role r c.
Proof. intros Hc w Hw. apply (safe_careful tolerant (moves r) (in_phase r) c tt); [by intros ? []|apply Hc|done]. Qed.

Lemma in_role_gets r {A} (f : World → A) : in_role r (co_gets f).
Proof. by intros w. Qed.

Lemma in_role_undefined r {A} u : in_role r (co_undefined (A := A) u).
Proof. intros w Hw. simpl. intros []. Qed.

Lemma in_role_eventsub_ptr r : in_role r eventsub_ptr.
Proof. intros w Hw. simpl. case_match; [done|intros []]. Qed.

Lemma in_role_chat_read_ptr r : in_role r chat_read_ptr.
Proof. intros w Hw. simpl. case_match; [done|intros []]. Qed.

Lemma in_role_on_eventsub r p {A} (c : coro (EventSub eventsub_callback) A) :
  Careful nothing c → in_role r (on_eventsub p c).
Proof.
  intros Hc w Hw. unfold on_eventsub.
  apply (safe_zoom _ _ _ nothing); [by intros ? []|by intros; right; intros []| |done|done].
  intros es w1 Hw1. split_and!; [by apply moves_quiet|done|]. cbn. by rewrite lookup_insert_eq.
Qed.

Lemma in_role_on_auth r {A} (c : coro Auth A) : Careful nothing c → in_role r (on_auth c).
Proof.
  intros Hc w Hw. unfold on_auth.
  apply (safe_zoom _ _ _ nothing); [by intros ? []|by intros; right; intros []| |done|done].
  intros a w1 Hw1. split_and!; [by apply moves_quiet|done|done].
Qed.

Hint Resolve claimed_ret claimed_await claimed_await_ws in_role_gets in_role_undefined
  in_role_eventsub_ptr in_role_chat_read_ptr in_role_on_eventsub in_role_on_auth : sbot.

Ltac role_step :=
  lazymatch goal with
  | |- in_role _ (_ ≫= _) => apply claimed_bind; [|intros ?]
  | |- in_role _ (co_catch _ _ _) => apply claimed_catch; [|intros ?]
  | |- in_role _ (co_modify (post _)) => by apply in_role_post
  | |- in_role _ (co_sync (es_call ?f _)) => apply in_role_calm; destruct f; apply calm_callback
  | |- in_role _ (on_eventsub _ (co_modify _)) => apply in_role_on_eventsub; careful
  | |- in_role _ (let _ := _ in _) => cbv zeta
  | |- in_role _ (match ?x with _ => _ end) => destruct x
  | |- in_role _ _ => solve [auto with sbot]
  end.
Ltac in_role := repeat role_step.

Lemma in_role_read_loop r fuel p : in_role r (read_loop fuel p).
Proof. induction fuel as [|fuel IH]; cbn [read_loop]; in_role. Qed.

Lemma in_role_send r message : in_role r (send_task message).
Proof.
  unfold send_task. in_role.
  - apply in_role_careful, Careful_send_message.
  - apply in_role_calm. keeps; apply calm_status.
Qed.

(** The tasks that do not move the session. *)
Lemma in_role_others fuel t : role_of t = ROther → in_role ROther (task_coro fuel t).
Proof.
  destruct t; cbn [role_of task_coro run_task]; try done; intros _.
  - unfold read_task, doRead. in_role. apply in_role_read_loop.
  - apply in_role_on_eventsub, Careful_start.
  - apply in_role_on_eventsub, Careful_subscribe.
  - apply in_role_on_eventsub, Careful_connect.
  - apply in_role_send.
  - apply in_role_careful, Careful_discord.
Qed.

(** ** The two coroutines that do *)

(** A coroutine that ends has left the phase of its role. *)
Definition ended (r : role) (_ : outcome unit) w : Prop := r ≠ ROther → ¬ phase r (session w).

Lemma setState_session st msg w :
  fst (setState st msg w) = Ok tt ∧ session (snd (setState st msg w)) = st.
Proof. rewrite setState_world. unfold session. cbn. by rewrite (proj1 (show_status_fields _ _)). Qed.

Lemma safely_setState r st msg w :
  role_moves r (session w) st → ¬ phase r st → safely r (co_sync (setState st msg)) w (ended r).
Proof.
  intros Hm Hst. apply safe_sync; [intros []|by apply moves_setState|]. intros _ _.
  by rewrite (proj2 (setState_session st msg w)).
Qed.

(** A role up to the last move of the session. *)
Definition finishes (r : role) (c : coro World unit) : Prop :=
  ∀ w, in_phase r tt w → safely r c w (λ o w', match o with
                                             | Throw _ => in_phase r tt w'
                                             | _ => ended r o w'
                                             end).

Lemma finishes_bind r {A} (c : coro World A) (f : A → coro World unit) :
  in_role r c → (∀ a, finishes r (f a)) → finishes r (c ≫= f).
Proof.
  intros Hc Hf w Hw. apply safe_bind. eapply safe_mono; [by apply Hc|].
  intros [a|e|] w' Hw'; [by apply Hf|done|done].
Qed.

Lemma finishes_setState r st msg :
  (∀ a, phase r a → role_moves r a st) → ¬ phase r st → finishes r (co_sync (setState st msg)).
Proof.
  intros Hm Hst w Hw. apply safe_sync; [intros []|by apply moves_setState, Hm|]. intros _.
  destruct (setState_session st msg w) as [-> Hs]. intros _. by rewrite Hs.
Qed.

(** A catch clause that reports the failure. *)
Lemma finishes_catch r (c : coro World unit) (msg : exn → string) w :
  finishes r c → r ≠ ROther → (∀ a, phase r a → role_moves r a Error) → in_phase r tt w →
  safely r (co_catch any_exception (λ e, co_sync (setState Error (msg e))) c) w (ended r).
Proof.
  intros Hc Hr Herr Hw. apply safe_catch. eapply safe_mono; [by apply Hc|].
  intros [a|e|] w' Hw'; [done| |done]. apply safely_setState; [by apply Herr|]. by destruct r.
Qed.

Lemma login_done_moves u : ∀ w, in_phase RLogin tt w → moves RLogin w (snd (login_done u w)).
Proof.
  intros w Hw. unfold login_done, on_svc, gets, modify, mbind, M_bind.
  match goal with |- context [setState LoggedIn ?m ?x] =>
    transitivity x; [by apply moves_quiet|]; apply moves_setState end.
  right. split; [exact Hw|by left].
Qed.

Lemma login_role w : in_phase RLogin tt w → safely RLogin login_task w (ended RLogin).
Proof.
  intros Hw. unfold login_task. apply (finishes_catch RLogin _ (λ e, "Login failed: " +:+ exn_what e));
    [|done|by intros a ->; right; split; [|right]|done].
  apply finishes_bind; [auto with sbot|intros _]. apply finishes_bind; [auto with sbot|intros u].
  intros w1 Hw1. apply safe_sync; [intros []|by apply login_done_moves|].
  intros _. unfold login_done, on_svc, gets, modify, mbind, M_bind.
  match goal with |- context [setState LoggedIn ?m ?x] =>
    destruct (setState_session LoggedIn m x) as [-> Hs] end.
  intros _. by rewrite Hs.
Qed.

Lemma in_role_spawn r type version : in_role r (spawn_subscribe type version).
Proof. unfold spawn_subscribe. in_role. Qed.

Lemma in_role_setup : in_role RConnect (co_sync setupChatServices).
Proof.
  intros w Hw. apply safe_sync; [intros []|by apply moves_quiet|by intros _].
Qed.

Lemma connect_role w : session w = LoggedIn → safely RConnect connectToChat w (ended RConnect).
Proof.
  intros Hst. unfold connectToChat. apply safe_bind, safe_gets. cbn beta iota.
  rewrite bool_decide_false by (intros Hn; by apply Hn). apply safe_bind, safe_sync; [intros []| |].
  { apply moves_setState. right. left. auto. }
  intros _. rewrite setState_world. cbn [fst snd].
  match goal with |- safe _ _ _ _ ?x _ => set (w1 := x) end.
  assert (Hw1 : in_phase RConnect tt w1).
  { unfold in_phase, session, w1. by rewrite (proj1 (show_status_fields _ _)). }
  apply (finishes_catch RConnect _ (λ e, "Chat connection failed: " +:+ exn_what e));
    [|done|by intros a ->; right; right; auto|done].
  apply finishes_bind; [apply in_role_setup|intros _].
  apply finishes_bind; [by in_role|intros p].
  apply finishes_bind; [apply in_role_on_eventsub, Careful_connect|intros _].
  do 5 (apply finishes_bind; [by in_role|intros ?]).
  apply finishes_bind; [apply in_role_on_eventsub, Careful_subscribe|intros _].
  do 7 (apply finishes_bind; [apply in_role_spawn|intros _]).
  apply finishes_setState; [by intros st ->; right; right; auto|done].
Qed.

(** ** The invariant *)

#[local] Abbreviation pool := (list (task * coro World unit)).

Definition in_step w (tc : task * coro World unit) : Prop :=
  suspended (snd tc) ∧ safely (role_of (fst tc)) (snd tc) w (ended (role_of (fst tc))).

Definition count_role (r : role) (l : pool) : nat :=
  length (filter (λ tc, role_of (fst tc) = r) l).

(** At most one login and one connect coroutine wait, and at most one login is
    under way at all. *)
Definition session_valid (s : system) : Prop :=
  Forall (in_step (sys_world s)) (sys_pool s) ∧
  (∀ r, r ≠ ROther → (count_role r (sys_pool s) ≤ 1)%nat) ∧
  one_login (sys_world s) (sys_pool s).

Lemma count_role_cons r tc l :
  count_role r (tc :: l) = ((if decide (role_of (fst tc) = r) then 1 else 0) + count_role r l)%nat.
Proof. unfold count_role. rewrite filter_cons. by case_decide. Qed.

Lemma count_role_app r l1 l2 : count_role r (l1 ++ l2) = (count_role r l1 + count_role r l2)%nat.
Proof. unfold count_role. by rewrite filter_app, length_app. Qed.

Lemma count_role_in l tc : tc ∈ l → (1 ≤ count_role (role_of (fst tc)) l)%nat.
Proof.
  intros Hin. apply list_elem_of_split in Hin as (l1 & l2 & ->).
  rewrite count_role_app, count_role_cons, decide_True by done. lia.
Qed.

Lemma in_step_phase w tc : in_step w tc → phase (role_of (fst tc)) (session w).
Proof. intros [Hs Hsafe]. destruct (snd tc); try done; by destruct Hsafe as ([] & Hph & _). Qed.

Lemma in_step_stable w w' tc :
  (phase (role_of (fst tc)) (session w) → phase (role_of (fst tc)) (session w')) →
  in_step w tc → in_step w' tc.
Proof.
  intros Hph [Hs Hsafe]. split; [done|]. eapply safe_stable; [done| |done]. by intros [].
Qed.

(** A coroutine of role [r] does not disturb the phases of the other roles. *)
Lemma role_moves_phase r r' a b :
  role_moves r a b → r' ≠ r ∨ r' = ROther → phase r' a → phase r' b.
Proof. intros [->|Hm] Hr; destruct r, r'; simpl; naive_solver congruence. Qed.

(** What one coroutine leaves behind when it stops. *)
Lemma role_stop t c w c' w' :
  safely (role_of t) c w (ended (role_of t)) → advance c w = (c', w') → runs_on c' →
  moves (role_of t) w w' ∧
  ((park t c' [] = [] ∧ ended (role_of t) (Ok tt) w') ∨
   (park t c' [] = [(t, c')] ∧ in_step w' (t, c'))).
Proof.
  intros Hs Ha Hrun. destruct (safe_advance _ _ _ _ _ _ _ _ Ha Hs) as (Hm & Hs' & Hend).
  split; [done|]. destruct Hend as [Hsus|[(a & ->)|[(e & ->)|(u & -> & _)]]]; [|by left|by left|done].
  right. split; [by destruct c'|by split].
Qed.

Lemma park_app t c (l : pool) : park t c l = park t c [] ++ l.
Proof. by destruct c. Qed.

(** One coroutine runs to its next suspension or its end, while [l1 ++ l2] wait. *)
Lemma session_coroutine t c w c' w' l1 l2 :
  safely (role_of t) c w (ended (role_of t)) → advance c w = (c', w') → runs_on c' →
  Forall (in_step w) (l1 ++ l2) →
  (∀ r, r ≠ ROther → (count_role r ((t, c) :: l1 ++ l2) ≤ 1)%nat) →
  one_login w ((t, c) :: l1 ++ l2) →
  session_valid (mk_system w' (l1 ++ park t c' l2)) ∧ role_moves (role_of t) (session w) (session w').
Proof.
  intros Hs Ha Hrun Hpool Hcount Hone.
  destruct (role_stop _ _ _ _ _ Hs Ha Hrun) as ((Hm & lq & Hq & Hlq) & Hend). split; [|done].
  assert (Hstable : ∀ r, r ≠ role_of t ∨ r = ROther → phase r (session w) → phase r (session w'))
    by (intros r; by apply role_moves_phase).
  assert (Hpool' : Forall (in_step w') (l1 ++ l2)).
  { rewrite Forall_forall in Hpool |- *. intros tc Hin. apply (in_step_stable w); [|by auto].
    apply Hstable. destruct (decide (role_of (fst tc) = ROther)) as [|Hn]; [by right|left].
    intros Heq. pose proof (count_role_in _ _ Hin). specialize (Hcount _ Hn).
    rewrite count_role_cons, decide_True in Hcount by done. lia. }
  assert (Hlog : role_of t ≠ RLogin → logging_in w → logging_in w').
  { intros Hr. apply (Hstable RLogin). by left. }
  assert (Hend' : park t c' [] = [] ∨
    (park t c' [] = [(t, c')] ∧ in_step w' (t, c') ∧ (role_of t = RLogin → logging_in w'))).
  { destruct Hend as [[? _]|[Hp Hstep]]; [by left|]. right. split_and!; [done|done|]. intros Hr.
    apply in_step_phase in Hstep. cbn in Hstep. by rewrite Hr in Hstep. }
  rewrite park_app. apply Forall_app in Hpool' as [Hl1 Hl2].
  destruct Hone as [Hn Hn1]. cbn [map fst] in Hn, Hn1. rewrite logins_cons, map_app, logins_app in *.
  assert (Hrole : is_login t = bool_decide (role_of t = RLogin)) by by destruct t.
  unfold session_valid, one_login. cbn [sys_world sys_pool].
  rewrite Hq, logins_app, (logins_none _ Hlq), !map_app, !logins_app.
  setoid_rewrite count_role_app. setoid_rewrite count_role_app.
  setoid_rewrite count_role_cons in Hcount. setoid_rewrite count_role_app in Hcount.
  destruct Hend' as [->|(-> & Hstep & Hlt)]; cbn [map fst]; rewrite ?logins_cons;
    change (logins []) with O.
  - split_and!; [by apply Forall_app| |lia|].
    + intros r Hr. specialize (Hcount r Hr). change (count_role r []) with O. lia.
    + rewrite Hrole in *. case_bool_decide; [lia|]. intros. apply Hlog; [done|]. apply Hn1. lia.
  - split_and!; [by repeat (apply Forall_app; split); [|apply Forall_singleton|]| |lia|].
    + intros r Hr. specialize (Hcount r Hr). rewrite count_role_cons.
      change (count_role r []) with O. cbn [fst] in *. lia.
    + rewrite Hrole in *. case_bool_decide as Hr; [auto|]. intros. apply Hlog; [done|]. apply Hn1. lia.
Qed.

(** Starting the next coroutine of the queue. *)
Lemma count_role_none r (l : pool) : (∀ tc, tc ∈ l → role_of (fst tc) ≠ r) → count_role r l = O.
Proof.
  induction l as [|tc l IH]; intros Hn; [done|].
  rewrite count_role_cons, decide_False by (apply Hn; by left). apply IH.
  intros tc' Hin. apply Hn. by right.
Qed.

Lemma count_role_logins (l : pool) : count_role RLogin l = logins (map fst l).
Proof.
  induction l as [|[t c] l IH]; [done|].
  rewrite count_role_cons. cbn [map fst]. rewrite logins_cons, IH. by destruct t.
Qed.

Lemma connect_ignored w c w' :
  session w ≠ LoggedIn → advance connectToChat w = (c, w') → c = co_return tt ∧ w' = w.
Proof.
  intros Hst. unfold connectToChat. cbn [mbind coro_bind co_bind co_gets advance].
  rewrite bool_decide_true by exact Hst. cbn. by intros [= <- <-].
Qed.

(** The login and the queue, while the session and the pool stay. *)
Lemma session_same w w' p :
  session_valid (mk_system w p) → session w' = session w →
  (logins (w_queue w') ≤ logins (w_queue w))%nat → session_valid (mk_system w' p).
Proof.
  intros (Hp & Hc & Hn & Hlog) Hs Hq. cbn [sys_world sys_pool] in *. split_and!; cbn [sys_world sys_pool].
  - rewrite Forall_forall in Hp |- *. intros tc Hin. apply (in_step_stable w); [by rewrite Hs|auto].
  - done.
  - unfold one_login, logging_in in *. change (session w' = LoggingIn) with (session w' = LoggingIn).
    split; [lia|]. intros H1. fold (session w'). rewrite Hs. apply Hlog. lia.
Qed.

(** Every task, started when the session is where its role begins. *)
Lemma task_role fuel t w :
  (role_of t = RLogin → session w = LoggingIn) → (role_of t = RConnect → session w = LoggedIn) →
  safely (role_of t) (task_coro fuel t) w (ended (role_of t)).
Proof.
  intros Hl Hc. destruct (role_of t) eqn:Hr.
  - destruct t; try done. by apply login_role, Hl.
  - destruct t; try done. by apply connect_role, Hc.
  - eapply safe_mono; [by apply in_role_others|]. by intros ? ? _ [].
Qed.

Lemma session_start fuel w p t rest c w' :
  session_valid (mk_system w p) → w_queue w = t :: rest →
  advance (task_coro fuel t) (upd_queue rest w) = (c, w') → runs_on c →
  session_valid (mk_system w' (park t c p)) ∧ rtc network_move (session w) (session w').
Proof.
  intros Hv Hq Ha Hrun.
  destruct (decide (role_of t = RConnect ∧ session w ≠ LoggedIn)) as [[Hr Hst]|Hcon].
  { destruct t; try done. apply connect_ignored in Ha as [-> ->]; [|done]. cbn [park].
    split; [|done]. apply (session_same w); [done|done|]. rewrite Hq, logins_cons. cbn [w_queue upd_queue is_login]. lia. }
  pose proof Hv as (Hp & Hcount & Hn & Hlog). cbn [sys_world sys_pool] in *.
  rewrite Hq, logins_cons in Hn, Hlog.
  assert (Hphase : role_of t = RLogin → session w = LoggingIn).
  { intros Hr. destruct t; try done. apply Hlog. cbn [is_login] in *. lia. }
  destruct (session_coroutine t (task_coro fuel t) (upd_queue rest w) c w' [] p) as [Hv' Hm];
    [|done|done| | | |].
  - apply task_role; [done|]. intros Hr.
    destruct (decide (session w = LoggedIn)); [done|]. by destruct Hcon.
  - cbn [app]. rewrite Forall_forall in Hp |- *. intros tc Hin. by apply (in_step_stable w); auto.
  - intros r Hr. rewrite count_role_cons. cbn [app fst]. specialize (Hcount r Hr).
    case_decide as Heq; [|lia]. subst r. enough (count_role (role_of t) p = 0)%nat by lia.
    destruct (role_of t) eqn:Hrt; [| |done].
    + rewrite count_role_logins. destruct t; try done. cbn in Hn. lia.
    + apply count_role_none. intros tc Hin Htc. rewrite Forall_forall in Hp.
      apply Hp, in_step_phase in Hin. rewrite Htc in Hin. cbn in Hin.
      apply Hcon. split; [done|]. by rewrite Hin.
  - unfold one_login. cbn [app map fst w_queue upd_queue]. rewrite logins_cons.
    split; [lia|]. intros. apply Hlog. lia.
  - split; [done|]. by eapply role_moves_path.
Qed.

(** A move of the user, which happens when no coroutine has a phase to lose. *)
Lemma session_user w w' l p :
  session_valid (mk_system w p) → user_move (session w) (session w') →
  w_queue w' = w_queue w ++ l → (logins l ≤ 1)%nat → (logins l = 1%nat → logging_in w') →
  session_valid (mk_system w' p).
Proof.
  intros (Hp & Hc & Hn & Hlog) Hm Hq Hl Hl1. cbn [sys_world sys_pool] in *.
  assert (Hno : session w ≠ LoggingIn ∧ session w ≠ ConnectingToChat) by by destruct Hm.
  assert (H0 : (logins (w_queue w) + logins (map fst p) = 0)%nat).
  { destruct (decide (logins (w_queue w) + logins (map fst p) = 1)%nat) as [H1|]; [|lia].
    apply Hlog in H1. by destruct Hno. }
  split_and!; cbn [sys_world sys_pool].
  - rewrite Forall_forall in Hp |- *. intros tc Hin. apply (in_step_stable w); [|by auto].
    destruct (role_of (fst tc)); cbn; naive_solver.
  - done.
  - unfold one_login. rewrite Hq, logins_app. split; [lia|]. intros. apply Hl1. lia.
Qed.

Lemma auth_user_move w w' : auth_move w w' →
  (session w' = session w ∧ ∃ l, w_queue w' = w_queue w ++ l ∧ TLogin ∉ l) ∨
  (user_move (session w) (session w') ∧
   ∃ l, w_queue w' = w_queue w ++ l ∧ (logins l ≤ 1)%nat ∧ (logins l = 1%nat ↔ logging_in w')).
Proof.
  intros (_ & Hmove). unfold session.
  destruct Hmove as [(Hsv & Ho & Hq)|[(Hst & Hsv & Ho & Hq)|(Hst & Hsv & Ho & Hq)]].
  - left. rewrite Hsv. split; [done|].
    destruct Hq as [Hq|[_ Hq]]; [exists []|exists [TConnectToChat]]; rewrite ?app_nil_r; set_solver.
  - right. rewrite Hst, Hsv. split; [constructor|]. exists [TLogin]. unfold logging_in. by rewrite Hsv.
  - right. rewrite Hsv. split.
    + cbn. rewrite !elem_of_cons, elem_of_nil in Hst. destruct Hst as [->|[->|[->|[]]]]; constructor.
    + destruct Hq as [Hq|[_ Hq]]; [exists []|exists [TConnectToChat]]; rewrite ?app_nil_r;
        (split; [done|]); change (logins []) with O || change (logins [TConnectToChat]) with O;
        (split; [lia|]); unfold logging_in; by rewrite Hsv.
Qed.

Lemma session_frame w w' p :
  session_valid (mk_system w p) → frame w = (Ok tt, w') →
  session_valid (mk_system w' p) ∧ (session w' = session w ∨ user_move (session w) (session w')).
Proof.
  intros Hv Hf. apply frame_move in Hf as (w1 & w2 & H1 & Hauth & H2).
  apply (calm_moves ROther) in H1 as ([Hs1|[]] & l1 & Hq1 & Hl1), H2 as ([Hs2|[]] & l2 & Hq2 & Hl2).
  assert (Hv1 : session_valid (mk_system w1 p)).
  { apply (session_same w); [done|done|]. rewrite Hq1, logins_app, (logins_none l1) by done. lia. }
  enough (session_valid (mk_system w2 p) ∧ (session w2 = session w1 ∨ user_move (session w1) (session w2)))
    as [Hv2 Hm].
  { rewrite Hs1, <- Hs2. split; [|done]. apply (session_same w2); [done|done|].
    rewrite Hq2, logins_app, (logins_none l2) by done. lia. }
  apply auth_user_move in Hauth as [(Hs & l & Hq & Hl)|(Hm & l & Hq & Hl & Hlog)].
  - split; [|by left]. apply (session_same w1); [done|done|].
    rewrite Hq, logins_app, (logins_none l) by done. lia.
  - split; [|by right]. apply (session_user w1 _ l); [done..|]. apply Hlog.
Qed.

(** A step and the move of the session it makes. *)
Definition session_step (a b : State) : Prop := rtc network_move a b ∨ user_move a b.

Lemma session_valid_step fuel s s' :
  session_valid s → sys_step fuel s s' →
  session_valid s' ∧ session_step (session (sys_world s)) (session (sys_world s')).
Proof.
  intros Hv Hstep. destruct Hstep as [s s' [w p t rest c w' Hq Ha Hrun|w l1 t c l2 c1 c' w' Hans Ha Hrun]|w p w' Hf];
    cbn [sys_world].
  - destruct (session_start fuel w p t rest c w') as [? ?]; [done..|]. by split; [|left].
  - destruct Hv as (Hp & Hcount & Hone). cbn [sys_world sys_pool] in *.
    apply Forall_app in Hp as [Hl1 Hl2]. apply Forall_cons in Hl2 as [[Hsus Hsafe] Hl2].
    destruct (session_coroutine t c1 w c' w' l1 l2) as [Hv' Hm]; [|done|done| | | |].
    + by apply (safe_answers _ _ _ c).
    + by apply Forall_app.
    + intros r Hr. specialize (Hcount r Hr). rewrite count_role_app, !count_role_cons in *.
      rewrite count_role_app. cbn [fst] in *. lia.
    + unfold one_login in *. rewrite map_app in Hone. cbn [map fst] in *.
      rewrite logins_app in Hone. rewrite !logins_cons, map_app, logins_app in *.
      destruct Hone as [Hn Hlog]. split; [lia|]. intros. apply Hlog. lia.
    + split; [done|]. left. by eapply role_moves_path.
  - destruct (session_frame w w' p Hv Hf) as [? [Hs|?]]; split; try done; [left|by right].
    by rewrite Hs.
Qed.

Lemma session_started w w' : started w → run_setup w = (Ok tt, w') → session_valid (mk_system w' []).
Proof.
  intros (_ & _ & _ & _ & _ & _ & Hq & _) Hr.
  pose proof (keeps_run _ _ _ _ _ calm_run_setup Hr) as Hc.
  apply (calm_moves ROther) in Hc as ([Hs|[]] & l & Hq' & Hl).
  split_and!; [done| |]; cbn [sys_world sys_pool].
  - intros r _. cbn. lia.
  - unfold one_login. rewrite Hq', Hq, logins_app, (logins_none l) by done. split; [cbn; lia|done].
Qed.

(** ** Properties *)

(** C3.  Refinement: in every interleaving of the network coroutines and the frames,
    with any answers of the network and any input, also when the user leaves the
    chat, every step of the program is a path of the moves of the network or one
    move of the user in the session machine.  A login coroutine waits only in
    state LoggingIn, a connect coroutine only in ConnectingToChat, and there is
    never a second one. *)
Theorem session_refines fuel w w' s s' :
  started w → run_setup w = (Ok tt, w') →
  rtc (sys_step fuel) (mk_system w' []) s → sys_step fuel s s' →
  session_step (session (sys_world s)) (session (sys_world s')) ∧
  (∀ r c t, (t, c) ∈ sys_pool s → role_of t = r → phase r (session (sys_world s))) ∧
  (∀ r, r ≠ ROther → (count_role r (sys_pool s) ≤ 1)%nat).
Proof.
  intros Hstart Hrun Hsteps Hstep. pose proof (session_started _ _ Hstart Hrun) as Hv0.
  assert (Hv : session_valid s).
  { clear Hstart Hrun Hstep. induction Hsteps as [|s1 s2 s3 H12 _ IH]; [done|].
    apply IH. by eapply session_valid_step. }
  split; [by eapply session_valid_step|]. destruct Hv as (Hp & Hcount & _). split; [|done].
  intros r c t Hin <-. rewrite Forall_forall in Hp. by apply Hp, in_step_phase in Hin.
Qed.

End Roles.
