(* ===== verification/Invariants.v ===== *)
(** * Invariants of the program state

    The part of the [World] that the network coroutines do not own is changed only
    by the commands of the chat and by the panels.  An invariant of that part that
    both keep holds in every interleaving ([invariant_reachable]); the type
    invariant [well_typed] is one. *)

From Stdlib Require Import SpecFloat.
From S2P Require Import Prelude Cxx CommandParser Coro Json Net Auth EventSub TwitchService Discord.
From S2P Require Import AppState Gui Obs ViewModels AudioSystem Cooldown LuaEngine LuaFacts World Ui.
From S2P Require Import Application Interference Scheduler.

(** ** What the network coroutines leave alone *)

Section Rest.
Context {sol : SolApi} {plat : Platform}.
Implicit Types w : World.

(** Everything but the service, its objects and queue, the configuration and the
    application state. *)
Definition same_rest w w' : Prop :=
  w_parser w' = w_parser w ∧ w_engine w' = w_engine w ∧ w_manager w' = w_manager w ∧
  w_discord w' = w_discord w ∧ w_discord_vm w' = w_discord_vm w ∧ w_steady w' = w_steady w ∧
  w_conn w' = w_conn w.

#[export] Instance same_rest_preorder : PreOrder same_rest.
Proof.
  split; [by intros w; unfold same_rest; split_and!|].
  intros w1 w2 w3 (?&?&?&?&?&?&?) (?&?&?&?&?&?&?). unfold same_rest. split_and!; congruence.
Qed.

End Rest.

Ltac same_rest := unfold same_rest; split_and!; reflexivity.

Section Network.
Context {sol : SolApi} {plat : Platform} {gui : GuiApi} {J : JsonApi}.
Implicit Types w : World.

Lemma rest_on_svc f : keeps same_rest (on_svc f).
Proof. by intros w. Qed.
Lemma rest_status f msg : keeps same_rest (call_status f msg).
Proof. by intros w. Qed.

Hint Resolve rest_on_svc rest_status : sbot.

Lemma rest_setState st msg : keeps same_rest (setState st msg).
Proof. unfold setState. keeps. Qed.

Hint Resolve rest_setState : sbot.

Lemma rest_login_done u : keeps same_rest (login_done u).
Proof. unfold login_done. keeps. by intros w. Qed.

Lemma rest_setupChatServices : keeps same_rest setupChatServices.
Proof. by intros w. Qed.

Lemma rest_disconnect : keeps same_rest disconnect.
Proof. unfold disconnect. keeps. by intros w. Qed.

Lemma rest_startLogin : keeps same_rest startLogin.
Proof.
  intros w. unfold startLogin. case_bool_decide; [reflexivity|].
  match goal with |- same_rest w (snd (?m w)) => enough (keeps same_rest m) by auto end.
  keeps. by intros w1.
Qed.

(** ** Invariants that the chat commands keep *)

Class NetworkFree (I : World → Prop) : Prop :=
  network_free w w' : same_rest w w' → I w → I w'.

Definition stable (I : World → Prop) : relation World := λ w w', I w → I w'.

#[export] Instance stable_preorder I : PreOrder (stable I).
Proof. split; unfold stable; intros w **; auto. Qed.

(** Undefined behaviour ends a run; it is not excluded here. *)
Definition permissive (_ : ub) : Prop := False.

Definition always (I : World → Prop) (_ : unit) w : Prop := I w.

#[local] Abbreviation stays I := (claimed permissive (stable I) (always I) tt).

Section Stays.
Context (I : World → Prop) `{!NetworkFree I}.
Hypothesis I_message : ∀ msg, keeps (stable I) (es_call HandleMessage msg).

Lemma stays_sync {A} (m : M World A) : keeps (stable I) m → stays I (co_sync m).
Proof. intros Hm. apply claimed_sync; [intros []|done|]. intros w w' Hw HG. by apply HG. Qed.

Lemma rest_inv w w' : I w → same_rest w w' → I w'.
Proof. intros Hw Hr. exact (network_free w w' Hr Hw). Qed.

Lemma rest_keeps {A} (m : M World A) : keeps same_rest m → keeps (stable I) m.
Proof. intros Hm w Hw. apply (rest_inv w); [done|]. apply Hm. Qed.

Lemma stays_rest {A} (m : M World A) : keeps same_rest m → stays I (co_sync m).
Proof. intros Hm. by apply stays_sync, rest_keeps. Qed.

Lemma stays_post t : stays I (co_modify (post t)).
Proof. intros w Hw. assert (I (post t w)) by (apply (rest_inv w); [done|same_rest]).
  apply safe_modify; [by intros _|done]. Qed.

Lemma stays_gets {A} (f : World → A) : stays I (co_gets f).
Proof. by intros w. Qed.

Lemma stays_undefined {A} u : stays I (co_undefined (A := A) u).
Proof. intros w Hw. simpl. intros []. Qed.

Lemma stays_eventsub_ptr : stays I eventsub_ptr.
Proof. intros w Hw. simpl. case_match; [done|intros []]. Qed.

Lemma stays_chat_read_ptr : stays I chat_read_ptr.
Proof. intros w Hw. simpl. case_match; [done|intros []]. Qed.

Lemma stays_careful {A} (c : coro World A) : Careful id c → stays I c.
Proof.
  intros Hc w Hw. apply (safe_careful permissive (stable I) (always I) c tt);
    [by intros ? []|apply Hc|done].
Qed.

Lemma stays_on_eventsub p {A} (c : coro (EventSub eventsub_callback) A) :
  Careful nothing c → stays I (on_eventsub p c).
Proof.
  intros Hc w Hw. unfold on_eventsub.
  apply (safe_zoom _ _ _ nothing); [by intros ? []|by intros; right; intros []| |done|done].
  intros es w1 Hw1. assert (I (es_set p es w1)) by (apply (rest_inv w1); [done|same_rest]).
  split_and!; [by intros _|done|]. cbn. by rewrite lookup_insert_eq.
Qed.

Lemma stays_on_auth {A} (c : coro Auth A) : Careful nothing c → stays I (on_auth c).
Proof.
  intros Hc w Hw. unfold on_auth.
  apply (safe_zoom _ _ _ nothing); [by intros ? []|by intros; right; intros []| |done|done].
  intros a w1 Hw1. assert (I (upd_service (set_auth a (w_service w1)) w1)) by (apply (rest_inv w1); [done|same_rest]).
  split_and!; [by intros _|done|done].
Qed.

Hint Resolve claimed_ret claimed_await claimed_await_ws stays_gets stays_undefined stays_post
  stays_eventsub_ptr stays_chat_read_ptr stays_on_eventsub stays_on_auth : sbot.

Ltac stays_step :=
  lazymatch goal with
  | |- stays _ (_ ≫= _) => apply claimed_bind; [|intros ?]
  | |- stays _ (co_catch _ _ _) => apply claimed_catch; [|intros ?]
  | |- stays _ (co_sync (es_call ?f _)) => apply stays_sync; destruct f; apply I_message
  | |- stays _ (co_sync (setState _ _)) => apply stays_rest, rest_setState
  | |- stays _ (on_eventsub _ (co_modify _)) => apply stays_on_eventsub; careful
  | |- stays _ (let _ := _ in _) => cbv zeta
  | |- stays _ (match ?x with _ => _ end) => destruct x
  | |- stays _ _ => solve [auto with sbot]
  end.
Ltac stays := repeat stays_step.

Lemma stays_read_loop fuel p : stays I (read_loop fuel p).
Proof. induction fuel as [|fuel IH]; cbn [read_loop]; stays. Qed.

Hint Resolve stays_read_loop : sbot.

Lemma stays_task fuel t : stays I (task_coro fuel t).
Proof.
  destruct t; cbn [task_coro run_task].
  - unfold login_task. stays. apply stays_rest, rest_login_done.
  - unfold connectToChat, spawn_subscribe, requestSubscription. stays.
    apply stays_rest, rest_setupChatServices.
  - unfold read_task, doRead. stays.
  - auto with sbot.
  - auto with sbot.
  - auto with sbot.
  - unfold send_task. stays; [apply stays_careful; auto with sbot|].
    apply stays_rest. keeps.
  - apply stays_careful, Careful_discord.
Qed.

(** ** Every interleaving keeps such an invariant *)

Hypothesis I_frame : keeps (stable I) frame.

Definition keeping w (tc : task * coro World unit) : Prop :=
  suspended (snd tc) ∧ safe permissive (stable I) (always I) (snd tc) w (λ _ w', I w').

Definition invariant_in (s : system) : Prop :=
  I (sys_world s) ∧ Forall (keeping (sys_world s)) (sys_pool s).

Lemma keeping_stable w w' tc : I w' → keeping w tc → keeping w' tc.
Proof. intros Hw' [Hs Hc]. split; [done|]. by eapply safe_stable; [done|intros []|]. Qed.

Lemma keeping_pool w w' l : I w' → Forall (keeping w) l → Forall (keeping w') l.
Proof. intros Hw' Hl. eapply Forall_impl; [exact Hl|]. intros tc. by apply keeping_stable. Qed.

Lemma keeping_park t c w c' w' l :
  I w → safe permissive (stable I) (always I) c w (λ _ w', I w') → advance c w = (c', w') →
  I w' ∧ (Forall (keeping w') l → runs_on c' → Forall (keeping w') (park t c' l)).
Proof.
  intros Hw Hc Ha. destruct (safe_advance _ _ _ _ _ _ _ _ Ha Hc) as (HG & Hc' & Hend).
  split; [by apply HG|]. intros Hl Hrun. unfold park.
  destruct Hend as [Hsus|[(a & ->)|[(e & ->)|(u & -> & _)]]]; [|done|done|done].
  assert (keeping w' (t, c')) by by split. destruct c'; try done; by apply Forall_cons.
Qed.

Lemma invariant_step fuel s s' : invariant_in s → sys_step fuel s s' → invariant_in s'.
Proof.
  intros [Hw Hpool] Hstep.
  destruct Hstep as [s s' [w pool t rest c w' Hq Ha Hrun|w l1 t c l2 c1 c' w' Hans Ha Hrun]|w pool w' Hf];
    cbn [sys_world sys_pool] in *.
  - assert (Hw0 : I (upd_queue rest w)) by (apply (rest_inv w); [done|same_rest]).
    destruct (keeping_park t (task_coro fuel t) (upd_queue rest w) c w' pool) as [Hw' Hpark];
      [done|by apply stays_task|done|].
    split; cbn [sys_world sys_pool]; [done|]. apply Hpark; [|done]. by apply (keeping_pool w).
  - apply Forall_app in Hpool as [Hl1 [[Hsus Hc] Hl2]%Forall_cons].
    destruct (keeping_park t c1 w c' w' l2) as [Hw' Hpark];
      [done|by apply (safe_answers _ _ _ c)|done|].
    split; cbn [sys_world sys_pool]; [done|]. apply Forall_app.
    split; [by apply (keeping_pool w)|]. apply Hpark; [|done]. by apply (keeping_pool w).
  - assert (Hw' : I w') by (by apply (keeps_run _ _ _ _ _ I_frame Hf)).
    split; cbn [sys_world sys_pool]; [done|]. by apply (keeping_pool w).
Qed.

Lemma invariant_reachable fuel w s :
  I w → rtc (sys_step fuel) (mk_system w []) s → I (sys_world s).
Proof.
  intros Hw Hsteps. enough (invariant_in s) as [? _] by done.
  assert (H0 : invariant_in (mk_system w [])) by by split. revert H0.
  induction Hsteps as [|s1 s2 s3 H12 _ IH]; [done|]. eauto using invariant_step.
Qed.

End Stays.
End Network.
