(* ===== verification/Typing.v ===== *)
(** * The type invariant of the program state

    What the C++ types do not say but every operation keeps: the keys of the
    command parser are lower-cased names, every Lua command in it has metadata, the
    counters fit in an [int] and the recorded times lie in the past, the text
    buffers hold terminated C strings, and the sandbox of the audio system is the
    one the program started with. *)

From Stdlib Require Import SpecFloat.
From S2P Require Import Prelude Cxx CommandParser Coro Json Net Auth EventSub TwitchService Discord.
From S2P Require Import AppState Gui Obs ViewModels AudioSystem Cooldown LuaEngine LuaFacts World Ui.
From S2P Require Import Application Interference Scheduler Invariants.

(** ** The invariant *)

(** The content of a [char] buffer of [size] bytes. *)
Definition c_buffer (size : Z) (s : string) : Prop :=
  Z.of_nat (String.length s) < size ∧ c_str s = s.

Definition counts_typed (t : CooldownTracker) : Prop :=
  map_Forall (λ _ n, 0 < n ≤ INT_MAX) (command_use_count t).

(** All recorded times lie in the past of [now]. *)
Definition times_typed (now : Z) (t : CooldownTracker) : Prop :=
  last_global_command t ≤ now ∧
  (∀ c x, last_command_use t !! c = Some x → x ≤ now) ∧
  (∀ c u x, user_last t c u = Some x → x ≤ now).

Section Types.
Context {sol : SolApi} {plat : Platform}.
Implicit Types (w : World) (e : LuaCommandEngine).

(** A handler is registered under its lower-cased name, and a Lua command is known
    to the engine. *)
Definition handler_typed (metadata : gmap string CommandMetadata) (key : string) (h : handler)
    : Prop :=
  key ≠ "" ∧ tolower key = key ∧
  match h with
  | HLua name _ => key = tolower name ∧ name ∈ dom metadata
  | HReload | HCommands => True
  end.

Definition parser_typed (metadata : gmap string CommandMetadata) (p : CommandParser handler)
    : Prop :=
  m_prefix p = "!" ∧ map_Forall (handler_typed metadata) (m_commands p).

(** [wl] is the whitelist of the program's start. *)
Definition engine_typed (wl : DirectoryWhitelist) e : Prop :=
  dom (m_command_files e) ⊆ dom (m_command_metadata e) ∧
  counts_typed (m_cooldown_tracker e) ∧
  m_whitelist (m_audio_system e) = wl ∧
  match m_player (m_audio_system e) with Some p => player_inv ma_success p | None => False end.

Record well_typed (wl : DirectoryWhitelist) w : Prop := mk_typed {
  typed_parser : parser_typed (m_command_metadata (w_engine w)) (w_parser w);
  typed_engine : engine_typed wl (w_engine w);
  typed_times : times_typed (w_steady w) (m_cooldown_tracker (w_engine w));
  typed_input : c_buffer message_input_size (m_message_input (w_manager w));
  typed_url : c_buffer discord_buffer_size (webhook_url (w_discord_vm w));
  typed_text : c_buffer discord_buffer_size (notification_text (w_discord_vm w));
}.

End Types.

(** ** Lemmas on the parts *)

(** What [InputText] leaves in a buffer. *)
Lemma fit_buffer size s : 0 < size → c_buffer size (fit size s).
Proof. apply fit_spec. Qed.

Lemma times_typed_mono now now' t : times_typed now t → now ≤ now' → times_typed now' t.
Proof.
  intros (Hg & Hc & Hu) Hn. split_and!; [lia| |].
  - intros c x Hx. apply Hc in Hx. lia.
  - intros c u x Hx. apply Hu in Hx. lia.
Qed.

Lemma recordUsage_typed t now c u t' :
  recordUsage t now c u = Ok t' → counts_typed t → times_typed now t →
  counts_typed t' ∧ times_typed now t'.
Proof.
  intros Hr Hn (Hg & Hc & Hu). pose proof (recordUsage_fields _ _ _ _ _ Hr) as (Hlg & Hlc & Hcount).
  split.
  - unfold counts_typed. rewrite Hcount. apply map_Forall_insert_2; [|done].
    unfold recordUsage in Hr. destruct (_ =? INT_MAX) eqn:Hmax; [done|]. apply Z.eqb_neq in Hmax.
    destruct (command_use_count t !! c) as [n|] eqn:Hl; simpl in *; [apply Hn in Hl; lia|].
    unfold INT_MAX. lia.
  - split_and!; [lia| |].
    + intros c1 x. rewrite Hlc, lookup_insert. case_decide; [intros [= <-]; lia|apply Hc].
    + intros c1 u1 x. rewrite (recordUsage_user_last _ _ _ _ _ _ _ Hr).
      case_decide; [intros [= <-]; lia|apply Hu].
Qed.

Lemma tolower_nonempty s : s ≠ "" → tolower s ≠ "".
Proof. by destruct s. Qed.

Section Parts.
Context {sol : SolApi} {plat : Platform}.

Lemma handler_typed_grow md md' key h :
  dom md ⊆ dom md' → handler_typed (sol := sol) md key h → handler_typed md' key h.
Proof. intros Hd (Hn & Hl & Hh). split_and!; [done..|]. destruct h; [|done..]. set_solver. Qed.

Lemma parser_typed_grow md md' (p : CommandParser handler) :
  dom md ⊆ dom md' → parser_typed (sol := sol) md p → parser_typed md' p.
Proof.
  intros Hd [Hp Hc]. split; [done|]. eapply map_Forall_impl; [done|].
  intros key h. by apply handler_typed_grow.
Qed.

Lemma registerCommand_typed md name h (p : CommandParser handler) :
  match h with HLua n _ => n = name ∧ n ∈ dom md | _ => True end →
  parser_typed (sol := sol) md p → parser_typed md (registerCommand name (Some h) p).
Proof.
  intros Hh [Hp Hc]. unfold registerCommand. destruct (str_empty name) eqn:Hn; [done|].
  apply str_empty_false in Hn. split; [done|]. apply map_Forall_insert_2; [|done].
  split_and!; [by apply tolower_nonempty|apply tolower_idemp|]. destruct h; [|done..].
  by destruct Hh as [-> ?].
Qed.

Lemma playSound_typed wl fs path v (e : LuaCommandEngine) :
  engine_typed wl e →
  engine_typed wl (set_audio (snd (playSound ma_success fs path v (m_audio_system e))) e).
Proof.
  intros (Hf & Hc & Hw & Hp). split_and!; [done|done| |]; cbn [m_audio_system set_audio].
  - by rewrite (proj2 (playSound_sounds ma_success fs path v e)).
  - destruct (playSound_cases ma_success fs path v (m_audio_system e)) as [->|Hplay]; [done|].
    unfold playSound. repeat case_match; simplify_eq/=; try done.
    match goal with H : player_playSound _ ?f ?q ?x ?p = _ |- _ =>
      pose proof (player_step_inv ma_success p (OpPlaySound f q x)) as Hinv; cbn in Hinv;
      rewrite H in Hinv; auto end.
Qed.

End Parts.

(** ** The engine *)

Section Engine.
Context {sol : SolApi} {plat : Platform} (wl : DirectoryWhitelist).
Implicit Types e : LuaCommandEngine.

(** The engine keeps its type, forgets no metadata and leaves the tracker alone. *)
Definition engine_step e e' : Prop :=
  (engine_typed wl e → engine_typed wl e') ∧
  dom (m_command_metadata e) ⊆ dom (m_command_metadata e') ∧
  m_cooldown_tracker e' = m_cooldown_tracker e.

#[export] Instance engine_step_preorder : PreOrder engine_step.
Proof.
  split; [by intros e|]. intros e1 e2 e3 (?&?&?) (?&?&?). split_and!; [by auto|by etrans|congruence].
Qed.

Lemma step_set_lua l : keeps engine_step (modify (set_lua l)).
Proof. by intros e. Qed.

Lemma step_load fs file : keeps engine_step (loadLuaCommand fs file).
Proof.
  intros e. destruct (loadLuaCommand fs file e) as [r e'] eqn:Hl. cbn [snd].
  pose proof (loadLuaCommand_grow _ _ _ _ _ Hl) as [_ Hg].
  apply loadLuaCommand_cases in Hl as [(Htr & Ha & _) Hcases].
  split_and!; [|done|done]. unfold engine_typed. rewrite Htr, Ha. intros (Hf & ? & ? & ?).
  split_and!; [|done..].
  destruct Hcases as [(_ & _ & _ & name & md & _ & Hfiles & Hmd)|[_ [-> ->]]]; [|done].
  intros k. rewrite !elem_of_dom, Hfiles, Hmd. case_decide; [by eauto|].
  intros Hk. by apply elem_of_dom, Hf, elem_of_dom.
Qed.

Hint Resolve step_set_lua step_load : sbot.

Lemma step_load_entries fs entries n : keeps engine_step (load_entries fs entries n).
Proof.
  revert n. induction entries as [|[path regular] rest IH]; intros n; cbn [load_entries]; [keeps|].
  destruct (_ && _); [|apply IH]. intros e. pose proof (step_load fs path e) as Hl.
  destruct (loadLuaCommand fs path e) as [[b|x|] e']; cbn [snd] in *; [|done..].
  etrans; [exact Hl|]. apply IH.
Qed.

Hint Resolve step_load_entries : sbot.

Lemma step_loadCommands fs dir : keeps engine_step (loadCommandsFromDirectory fs dir).
Proof. unfold loadCommandsFromDirectory. keeps. Qed.

Lemma step_reload fs : keeps engine_step (reloadAllCommands map_order fs).
Proof.
  unfold reloadAllCommands. keeps. intros e. split_and!; [|done|done].
  intros (_ & ? & ? & ?). split_and!; [|done..]. cbn. set_solver.
Qed.

Lemma step_initialize : keeps engine_step (modify engine_initialize).
Proof.
  intros e. cbn. unfold engine_initialize. by destruct (engine_initialized e).
Qed.

End Engine.

#[export] Hint Resolve step_set_lua step_load step_loadCommands step_reload
  step_initialize : sbot.

(** ** The chat commands *)

(** Iterating over an [unordered_map] visits every entry once, in some order. *)
Class PlatformLaws {plat : Platform} : Prop :=
  map_order_perm m : map_order m ≡ₚ map_to_list m.

Section Commands.
Context {sol : SolApi} {plat : Platform} {J : JsonApi} (wl : DirectoryWhitelist).
Implicit Types w : World.

#[local] Abbreviation typed := (stable (well_typed wl)).

#[export] Instance well_typed_network : NetworkFree (well_typed wl).
Proof.
  intros w w' (Hp & He & Hm & _ & Hv & Hn & _) []. by split; rewrite ?Hp, ?He, ?Hm, ?Hv, ?Hn.
Qed.

Lemma typed_engine_step w e : engine_step wl (w_engine w) e → typed w (upd_engine e w).
Proof.
  intros (Het & Hgrow & Htr) []. split; cbn; auto; [|by rewrite Htr].
  by eapply parser_typed_grow.
Qed.

Lemma typed_on_engine {A} (m : M LuaCommandEngine A) :
  keeps (engine_step wl) m → keeps typed (on_engine m).
Proof.
  intros Hm w. unfold on_engine, zoom. specialize (Hm (w_engine w)). cbn.
  destruct (m (w_engine w)) as [r e]. by apply typed_engine_step.
Qed.

Lemma typed_now : keeps typed steady_now.
Proof.
  intros w []. split; cbn; try done. eapply times_typed_mono; [done|]. lia.
Qed.

Lemma typed_rest {A} (m : M World A) : keeps same_rest m → keeps typed m.
Proof. apply rest_keeps, _. Qed.

Lemma typed_reply m : keeps typed (reply_fn m).
Proof.
  apply typed_rest. intros w. unfold reply_fn, TwitchService.sendMessage.
  case_bool_decide; [reflexivity|]. cbn. same_rest.
Qed.

Hint Resolve typed_on_engine typed_now typed_reply : sbot.

Section Handler.
Context (ctx : CommandContext World) (Hreply : ∀ m, keeps typed (reply ctx m)).
Hint Resolve Hreply : sbot.

Lemma typed_ctx_call c : keeps typed (ctx_call ma_success ctx c).
Proof.
  destruct c; cbn [ctx_call]; try (by intros w); [keeps|].
  intros w. pose proof (playSound_typed wl (w_fs w) filepath (default 70 volume) (w_engine w)) as Hs.
  cbn. destruct (playSound _ _ _ _ _) as [r a]. cbn [snd] in *. by apply typed_engine_step.
Qed.

Lemma typed_run_script sc : keeps typed (run_script ma_success ctx sc).
Proof.
  induction sc as [l err|l e|c k IH]; cbn [run_script]; [keeps..|].
  intros w. pose proof (typed_ctx_call c w) as Hc.
  destruct (ctx_call _ _ _ w) as [[a|e|] w1]; cbn [snd] in *; [| |done]; (etrans; [exact Hc|]); apply IH.
Qed.

Hint Resolve typed_run_script : sbot.

Lemma typed_executeLuaCommand fn : keeps typed (executeLuaCommand ma_success ctx fn).
Proof. unfold executeLuaCommand. keeps. Qed.

Hint Resolve typed_executeLuaCommand : sbot.

(** Recording a use: the new times are those of the reading just made. *)
Lemma typed_record name u : keeps typed
  (now2 ← steady_now;
   tracker ← gets (λ s, m_cooldown_tracker (engine_of s));
   tracker' ← lift (recordUsage tracker now2 name u);
   on_engine (modify (set_tracker tracker'))).
Proof.
  intros w Hw. apply (typed_now w) in Hw. unfold mbind, M_bind, gets, lift. cbn [steady_now World_engine] in *.
  destruct (world_now w) as [[now2|e|] w1] eqn:Hnow; cbn [snd] in *; [|done..].
  assert (Hn : w_steady w1 = now2) by (by injection Hnow as <- <-).
  destruct (recordUsage _ _ _ _) as [t|e|] eqn:Hr; [|done..].
  destruct Hw as [Hp He Ht ???]. cbn in Hr. rewrite Hn in Ht.
  destruct (recordUsage_typed _ _ _ _ _ Hr (proj1 (proj2 He)) Ht) as [Hc Ht'].
  split; cbn; try done; [|by rewrite Hn]. by destruct He as (?&?&?&?).
Qed.

Hint Resolve typed_record : sbot.

Lemma typed_lua_handler name fn : keeps typed (lua_handler_body ma_success name fn ctx).
Proof.
  intros w. unfold lua_handler_body, lua_handler_with. destruct (_ !! name) as [meta|]; [|apply Hreply].
  destruct (negb (enabled meta)); [reflexivity|].
  destruct (negb (hasPermission ctx meta)); [apply Hreply|].
  match goal with |- _ w (snd (?m w)) => enough (keeps typed m) by auto end.
  repeat (apply typed_record || keeps_step).
Qed.

End Handler.

Hint Resolve typed_lua_handler : sbot.

(** Registering a command the engine knows. *)
Definition knowing (name : string) w w' : Prop :=
  name ∈ dom (m_command_metadata (w_engine w)) →
  typed w w' ∧ dom (m_command_metadata (w_engine w)) ⊆ dom (m_command_metadata (w_engine w')).

#[local] Instance knowing_preorder name : PreOrder (knowing name).
Proof.
  split; [by intros w|]. intros w1 w2 w3 H12 H23 Hn. destruct (H12 Hn) as [T12 D12].
  destruct (H23 (D12 _ Hn)) as [T23 D23]. split; by etrans.
Qed.

Lemma knowing_register_one name file : keeps (knowing name) (register_one HLua name file).
Proof.
  unfold register_one. keeps.
  - intros w Hn. unfold on_engine, zoom. cbn.
    destruct (sol_script_file file (m_lua (w_engine w))) as [r l].
    pose proof (step_set_lua wl l (w_engine w)) as Hs.
    split; [by apply typed_engine_step|apply Hs].
  - intros w Hn. split; [|done]. intros []. split; cbn; try done. by apply registerCommand_typed.
Qed.

Lemma typed_register_loop l w :
  Forall (λ nf, nf.1 ∈ dom (m_command_metadata (w_engine w))) l →
  typed w (snd (mfor l (λ '(name, file), register_one HLua name file) w)).
Proof.
  revert w. induction l as [|[name file] l IH]; intros w Hl; [done|]. cbn [mfor].
  apply Forall_cons in Hl as [Hn Hl]. unfold mbind, M_bind.
  destruct (knowing_register_one name file w Hn) as [Ht Hd].
  destruct (register_one HLua name file w) as [[a|e|] w1]; cbn [snd] in *; [|done..].
  etrans; [exact Ht|]. apply IH. eapply Forall_impl; [exact Hl|]. set_solver.
Qed.

Lemma typed_registerWithParser {laws : PlatformLaws} : keeps typed (registerWithParser map_order HLua).
Proof.
  intros w Hw. unfold registerWithParser. destruct (negb _); [done|].
  apply typed_register_loop; [|done]. apply Forall_forall. intros [name file] Hin. cbn [fst].
  apply (proj1 (typed_engine _ _ Hw)). rewrite (map_order_perm _) in Hin.
  apply elem_of_map_to_list in Hin. by apply elem_of_dom_2 in Hin.
Qed.

Hint Resolve typed_registerWithParser step_reload : sbot.

Section Invoke.
Context {laws : PlatformLaws}.

Lemma typed_invoke h ctx : (∀ m, keeps typed (reply ctx m)) → keeps typed (invoke_handler h ctx).
Proof.
  intros Hreply. destruct h; cbn [invoke_handler]; [by apply typed_lua_handler| |].
  - unfold reload_command. keeps.
  - unfold commands_command. keeps.
Qed.

Lemma typed_on_chat_message msg : keeps typed (on_chat_message msg).
Proof.
  unfold on_chat_message. apply keeps_bind; [typeclasses eauto|by apply typed_rest; intros w|intros _].
  apply keeps_bind; [typeclasses eauto| |by intros b; keeps].
  intros w. unfold parseAndExecute. destruct (negb _); [reflexivity|].
  destruct (parseCommand _ _) as [cmd a]. destruct (str_empty cmd); [reflexivity|].
  destruct (_ !! _) as [h|]; [|reflexivity].
  match goal with |- _ w (snd (?m w)) => enough (keeps typed m) by auto end.
  keeps. by apply typed_invoke, typed_reply.
Qed.

Lemma typed_message f msg : keeps typed (call_message f msg).
Proof. apply typed_on_chat_message. Qed.

Hint Resolve typed_message : sbot.

Lemma typed_badge_ids bs : keeps typed (badge_ids bs).
Proof. induction bs as [|b bs IH]; cbn [badge_ids]; keeps. Qed.

Hint Resolve typed_badge_ids : sbot.

Lemma typed_chat_message f j : keeps typed (chat_message_block f j).
Proof. unfold chat_message_block. keeps. Qed.

Hint Resolve typed_chat_message : sbot.

Lemma typed_callback msg : keeps typed (es_call HandleMessage msg).
Proof. cbn [es_call service_eventsub_host]. unfold handleEventSubMessage, handle_body. keeps. Qed.

(** [run_setup], after the constructors. *)
Lemma typed_run_setup : keeps typed run_setup.
Proof.
  unfold run_setup, load_commands, register_native. keeps.
  - intros w. destruct (make_directories _ _). apply (rest_keeps (well_typed wl) (modify (upd_fs _))).
    by intros w1.
  - intros w []. split; try done. by apply registerCommand_typed.
  - intros w []. split; try done. by apply registerCommand_typed.
Qed.

End Invoke.
End Commands.

(** ** The panels *)

Section Frame.
Context {sol : SolApi} {plat : Platform} {gui : GuiApi} (wl : DirectoryWhitelist).
Implicit Types w : World.

#[local] Abbreviation typed := (stable (well_typed wl)).

Lemma typed_emit c : keeps typed (emit c).
Proof. by apply typed_rest; intros w. Qed.
Lemma typed_ask c : keeps typed (ask c).
Proof. by apply typed_rest; intros w. Qed.

Hint Resolve typed_emit typed_ask : sbot.

(** What an input line leaves in its buffer fits. *)
Lemma typed_input_text {A} label size flags old (f : bool * string → M World A) :
  0 < size → (∀ r s, c_buffer size s → keeps typed (f (r, s))) →
  keeps typed (input_text label size flags old ≫= f).
Proof.
  intros Hs Hf w. unfold input_text, mbind, M_bind. cbn.
  etrans; [apply (typed_ask (InputText label size flags) w)|].
  apply Hf. by apply fit_buffer.
Qed.

Lemma typed_on_button label (m : M World unit) : keeps typed m → keeps typed (on_button label m).
Proof. intros Hm. unfold on_button. keeps. Qed.

Lemma typed_chat_sendMessage m : keeps typed (chat_sendMessage m).
Proof. apply typed_reply. Qed.

Lemma typed_draw_message msg : keeps typed (draw_message msg).
Proof. unfold draw_message. keeps. Qed.

Lemma typed_set_input s : c_buffer message_input_size s →
  keeps typed (modify (λ w, upd_manager (set_message_input s (w_manager w)) w)).
Proof. by intros Hs w []. Qed.

Lemma typed_set_url s : c_buffer discord_buffer_size s →
  keeps typed (modify (λ w, upd_discord_vm (set_webhook_text s (w_discord_vm w)) w)).
Proof. by intros Hs w []. Qed.

Lemma typed_set_text s : c_buffer discord_buffer_size s →
  keeps typed (modify (λ w, upd_discord_vm (set_notification_text s (w_discord_vm w)) w)).
Proof. by intros Hs w []. Qed.

Hint Resolve typed_chat_sendMessage typed_draw_message typed_set_input typed_set_url
  typed_set_text : sbot.

Ltac typed_step :=
  lazymatch goal with
  | |- keeps _ (on_button _ _) => apply typed_on_button
  | |- keeps _ (input_text _ _ _ _ ≫= _) => apply typed_input_text; [done|intros ? ? ?]
  | |- keeps _ (let '(_, _) := (_, _) in _) => cbv iota
  | |- keeps _ auth_login => apply typed_rest, rest_startLogin
  | |- keeps _ auth_disconnect => apply typed_rest, rest_disconnect
  | |- keeps _ auth_connect => by apply typed_rest; intros ?
  | |- _ => keeps_step
  end.

Lemma typed_send_input : keeps typed send_input.
Proof. unfold send_input. repeat typed_step. by apply typed_set_input. Qed.

Hint Resolve typed_send_input : sbot.

Lemma typed_frame : keeps typed frame.
Proof.
  unfold frame, poll, beginFrame, endFrame, Gui.render, swapBuffers, manageDocking, manageFloating,
    manageAuth, manageDiscord, manageChat, chat_log_region, chat_input_line.
  repeat typed_step; try (by cbn; repeat typed_step); by intros w [].
Qed.

End Frame.

(** ** The start *)

Section Start.
Context {sol : SolApi} {plat : Platform}.

Lemma first_world_typed (s : Startup) t m :
  m_message_input m = "" → 0 ≤ st_steady s →
  well_typed (new_DirectoryWhitelist (st_fs s)) (first_world s t m).
Proof.
  intros Hm Hs. split; cbn.
  - by split.
  - split_and!; [done|done|done|].
    by apply (player_step_inv ma_success new_MiniaudioPlayer OpInitialize).
  - by split_and!.
  - by rewrite Hm.
  - done.
  - done.
Qed.

End Start.

(** ** Properties *)

Section Properties.
Context {sol : SolApi} {plat : Platform} {gui : GuiApi} {J : JsonApi} {laws : PlatformLaws}.

(** C5.  Types: from the start of the program on, in every interleaving of the network
    coroutines and the frames, with any scripts, network and input: the keys of
    the command parser are lower-cased and not empty, every Lua command it can call
    has metadata (so "Command configuration error" is never the answer), every file
    the engine will register has metadata too, use counts stay in the range of
    [int], recorded times lie in the past, the text buffers hold terminated strings
    shorter than their size, the sound player's flags agree with what it told
    miniaudio, and the whitelist of sound directories is the one of the start. *)
Theorem world_typed fuel (s s' : Startup) w w' sys :
  initialize (set_app default_Application s) = (Ok true, s') → enter s' = Some w →
  0 ≤ st_steady s → run_setup w = (Ok tt, w') → rtc (sys_step fuel) (mk_system w' []) sys →
  well_typed (new_DirectoryWhitelist (st_fs s)) (sys_world sys).
Proof.
  intros Hi He Hs Hrun Hsteps. set (wl := new_DirectoryWhitelist (st_fs s)).
  destruct (initialize_cases s) as [(t & s2 & Hi2 & _ & He2)|(what & s2 & Hi2 & _)];
    rewrite Hi2 in Hi; [|done].
  injection Hi as ->. rewrite He in He2. injection He2 as ->.
  assert (Hw : well_typed wl w').
  { refine (keeps_run _ _ _ _ _ (typed_run_setup wl) Hrun _). by apply first_world_typed. }
  revert Hw Hsteps. apply (invariant_reachable (well_typed wl));
    [exact (typed_callback wl)|apply typed_frame].
Qed.

End Properties.
