(* ===== verification/Ends.v ===== *)
(** * Ends: how a coroutine ends

    [ends_in n c]: the coroutine [c] ends after at most [n] answers; [task_cost] is
    such a bound for every coroutine of the program.  [sturdy]: when the operations
    it awaits fail, a coroutine has no undefined behaviour but a dangling pointer. *)

From S2P Require Import Prelude Coro Json Net Auth EventSub TwitchService Discord.
From S2P Require Import AppState Gui ViewModels LuaEngine World Ui Application Interference Scheduler.
From S2P Require Import Session.

(** ** Coroutines that need at most [n] answers *)

(** Every random number has at least one possible value. *)
Fixpoint ends_in {St A} (n : nat) (c : coro St A) : Prop :=
  match c with
  | co_return _ | co_throw _ | co_undefined _ => True
  | co_get k => ∀ s, ends_in n (k s)
  | co_put _ c' => ends_in n c'
  | co_do _ k => match n with O => False | S n' => ∀ r, ends_in n' (k r) end
  | co_http_read k => match n with O => False | S n' => ∀ r, ends_in n' (k r) end
  | co_ws_read k => match n with O => False | S n' => ∀ r, ends_in n' (k r) end
  | co_random b k => (0 < b)%nat ∧ match n with O => False | S n' => ∀ r, ends_in n' (k r) end
  end.

Section EndsIn.
Context {St : Type}.

Lemma ends_mono {A} (c : coro St A) n m : (n ≤ m)%nat → ends_in n c → ends_in m c.
Proof.
  revert n m. induction c as [a|e|u|k IH|s1 c IH|op k IH|k IH|k IH|b k IH]; intros n m Hnm; simpl;
    try done; [by eauto..| | | |].
  1-3: destruct n; [done|]; destruct m; [lia|]; intros Hk r; apply (IH r n); [lia|auto].
  destruct n; [by intros []|]. destruct m; [lia|]. intros [Hb Hk]. split; [done|].
  intros r. apply (IH r n); [lia|auto].
Qed.

Lemma ends_bind {A B} (c : coro St A) (f : A → coro St B) n m :
  ends_in n c → (∀ a, ends_in m (f a)) → ends_in (n + m) (c ≫= f).
Proof.
  unfold mbind, coro_bind. intros Hc Hf. revert n Hc.
  induction c as [a|e|u|k IH|s1 c IH|op k IH|k IH|k IH|b k IH]; intros n; simpl; auto.
  - intros _. apply (ends_mono _ m); [lia|auto].
  - destruct n; [done|]. simpl. auto.
  - destruct n; [done|]. simpl. auto.
  - destruct n; [done|]. simpl. auto.
  - destruct n; [by intros []|]. simpl. intros []. auto.
Qed.

Lemma ends_catch {A} p (g : exn → coro St A) (c : coro St A) n m :
  ends_in n c → (∀ e, ends_in m (g e)) → ends_in (n + m) (co_catch p g c).
Proof.
  intros Hc Hg. revert n Hc.
  induction c as [a|e|u|k IH|s1 c IH|op k IH|k IH|k IH|b k IH]; intros n; simpl; auto.
  - intros _. destruct (p e); [|done]. apply (ends_mono _ m); [lia|auto].
  - destruct n; [done|]. simpl. auto.
  - destruct n; [done|]. simpl. auto.
  - destruct n; [done|]. simpl. auto.
  - destruct n; [by intros []|]. simpl. intros []. auto.
Qed.

(** With the rest of a budget. *)
Lemma ends_then {A B} (c : coro St A) (f : A → coro St B) n1 n :
  ends_in n1 c → (n1 ≤ n)%nat → (∀ a, ends_in (n - n1) (f a)) → ends_in n (c ≫= f).
Proof. intros Hc Hn Hf. replace n with (n1 + (n - n1))%nat by lia. by apply ends_bind. Qed.

(** A handler that does not wait. *)
Lemma ends_caught {A} p (g : exn → coro St A) (c : coro St A) n :
  ends_in n c → (∀ e, ends_in 0 (g e)) → ends_in n (co_catch p g c).
Proof. intros Hc Hg. rewrite <- (Nat.add_0_r n). by apply ends_catch. Qed.

Lemma ends_ret {A} (a : A) : ends_in 0 (mret (M := coro St) a).
Proof. done. Qed.
Lemma ends_throw {A} e : ends_in 0 (co_throw (St := St) (A := A) e).
Proof. done. Qed.
Lemma ends_undefined {A} u : ends_in 0 (co_undefined (St := St) (A := A) u).
Proof. done. Qed.
Lemma ends_gets {A} (f : St → A) : ends_in 0 (co_gets f).
Proof. done. Qed.
Lemma ends_modify (f : St → St) : ends_in 0 (co_modify f).
Proof. done. Qed.
Lemma ends_lift {A} (r : exn + A) : ends_in 0 (co_lift (St := St) r).
Proof. by destruct r. Qed.
Lemma ends_sync {A} (m : M St A) : ends_in 0 (co_sync m).
Proof. intros s. simpl. by destruct (m s) as [[a|e|] s']. Qed.
Lemma ends_await op : ends_in 1 (await (St := St) op).
Proof. by intros [e|]. Qed.
Lemma ends_await_http : ends_in 1 (await_http (St := St)).
Proof. by intros [e|r]. Qed.
Lemma ends_await_ws : ends_in 1 (await_ws (St := St)).
Proof. by intros [e|r]. Qed.

Lemma ends_zoom {T A} (get : St → option T) (set : T → St → St) (c : coro T A) n :
  ends_in n c → ends_in n (co_zoom get set c).
Proof.
  revert n. induction c as [a|e|u|k IH|s1 c IH|op k IH|k IH|k IH|b k IH]; intros n; simpl; auto.
  - intros Hk s. destruct (get s); [auto|done].
  - intros Hc s. destruct (get s); [by apply IH|done].
  - destruct n; auto.
  - destruct n; auto.
  - destruct n; auto.
  - destruct n; naive_solver.
Qed.

Lemma ends_local {L A} (l : L) (c : coro (L * St) A) n : ends_in n c → ends_in n (co_local l c).
Proof.
  revert l n. induction c as [a|e|u|k IH|[l1 s1] c IH|op k IH|k IH|k IH|b k IH]; intros l n; simpl; auto.
  - destruct n; auto.
  - destruct n; auto.
  - destruct n; auto.
  - destruct n; naive_solver.
Qed.

Lemma ends_advance {A} (c : coro St A) s c' s' n : advance c s = (c', s') → ends_in n c → ends_in n c'.
Proof.
  revert s. induction c as [a|e|u|k IH|s1 c IH|op k IH|k IH|k IH|b k IH]; intros s; simpl;
    try (by intros [= <- <-]); eauto.
Qed.

(** An answer is always possible, and brings the end nearer. *)
Lemma ends_answers {A} (c c' : coro St A) n : answers c c' → ends_in n c → ∃ m, n = S m ∧ ends_in m c'.
Proof. intros []; simpl; destruct n; naive_solver. Qed.

Lemma ends_answerable {A} (c : coro St A) n : suspended c → ends_in n c → ∃ c', answers c c'.
Proof.
  destruct c as [a|e|u|k|s1 c|op k|k|k|b k]; simpl; try done; intros _ Hk.
  - exists (k None). constructor.
  - exists (k (inl (runtime_error ""))). constructor.
  - exists (k (inl (runtime_error ""))). constructor.
  - destruct Hk as [Hb _]. exists (k O). by constructor.
Qed.

End EndsIn.

Create HintDb ends.
#[export] Hint Resolve ends_ret ends_throw ends_undefined ends_gets ends_modify ends_lift ends_sync
  ends_await ends_await_http ends_await_ws : ends.

(** Spend the budget of a straight-line coroutine from left to right. *)
Ltac ends_step :=
  lazymatch goal with
  | |- ends_in _ (match ?x with _ => _ end ≫= _) => destruct x
  | |- ends_in _ (_ ≫= _) =>
      eapply ends_then; [solve [eauto with ends]|exact (Nat.le_0_l _) || by apply Nat.leb_le
                       |intros ?; cbn [Nat.sub]]
  | |- ends_in _ (co_catch _ _ _) => apply ends_caught; [|intros ?]
  | |- ends_in _ (match ?x with _ => _ end) => destruct x
  | |- ends_in _ (let _ := _ in _) => cbv zeta
  | |- ends_in _ _ => eapply ends_mono; [|solve [eauto with ends]]; by apply Nat.leb_le
  end.
Ltac ends := repeat ends_step.

(** ** What each coroutine costs *)

Section Requests.
Context {St : Type}.

Lemma ends_makeSslStream host port : ends_in 3 (makeSslStreamAsync (St := St) host port).
Proof. unfold makeSslStreamAsync. ends. by intros [e|]. Qed.

Lemma ends_tls_shutdown : ends_in 1 (tls_shutdown (St := St)).
Proof. unfold tls_shutdown. ends. Qed.

#[local] Hint Resolve ends_makeSslStream ends_tls_shutdown : ends.

Lemma ends_httpsPost host port target body headers :
  ends_in 7 (httpsPostAsync (St := St) host port target body headers).
Proof. unfold httpsPostAsync. ends. Qed.

Lemma ends_httpsGet host port target headers :
  ends_in 7 (httpsGetAsync (St := St) host port target headers).
Proof. unfold httpsGetAsync. ends. Qed.

Lemma ends_generate_chars n : ends_in n (generate_chars (St := St) n).
Proof.
  induction n as [|n IH]; cbn [generate_chars]; [ends|]. split; [apply Nat.ltb_lt; reflexivity|].
  intros r. destruct (String.get r c_alphanum); [|done].
  apply (ends_then _ _ n); [done|done|]. intros rest. by apply (ends_mono _ 0); [lia|].
Qed.

End Requests.

#[export] Hint Resolve ends_makeSslStream ends_tls_shutdown ends_httpsPost ends_httpsGet
  ends_generate_chars : ends.

Section Costs.
Context {J : JsonApi}.

Lemma ends_getHttp url : ends_in 7 (getHttpAsync url).
Proof. unfold getHttpAsync. ends. Qed.

#[local] Hint Resolve ends_getHttp : ends.

Lemma ends_fetchClientId : ends_in 7 fetchClientIdAsync.
Proof. unfold fetchClientIdAsync. ends. Qed.

Lemma ends_getAuthUrl : ends_in (c_state_length + 7) getAuthUrlAsync.
Proof. unfold getAuthUrlAsync, generateState. ends. Qed.

Lemma ends_requestToken : ends_in 7 (requestTokenAsync ;; mret true).
Proof.
  assert (ends_in 7 requestTokenAsync) by (unfold requestTokenAsync; ends). ends.
Qed.

Lemma ends_fetchUserInfo : ends_in 7 fetchUserInfoAsync.
Proof. unfold fetchUserInfoAsync. ends. Qed.

(** A round of the polling loop: two timers and a request. *)
Lemma ends_poll_token fuel got attempts : 0 ≤ attempts →
  ends_in (9 * Z.to_nat (max_attempts - attempts)) (poll_token fuel got attempts).
Proof.
  revert got attempts. induction fuel as [|fuel IH]; intros got attempts Ha; cbn [poll_token];
    destruct (negb got && (attempts <? max_attempts)) eqn:Hgo; try done.
  apply andb_true_iff in Hgo as [_ Hgo]. apply Z.ltb_lt in Hgo.
  replace (9 * Z.to_nat (max_attempts - attempts))%nat
    with (1 + (7 + (1 + 9 * Z.to_nat (max_attempts - (attempts + 1)))))%nat by lia.
  apply ends_bind; [apply ends_await|intros _]. apply ends_bind.
  { apply ends_caught; [apply ends_requestToken|done]. }
  intros [|]; cbn [negb]; [by destruct fuel|]. apply ends_bind; [by destruct (4 <=? _); intros [e|]|].
  intros _. apply IH. lia.
Qed.

Lemma ends_login : ends_in (c_state_length + 105) loginAsync.
Proof.
  unfold loginAsync.
  replace (c_state_length + 105)%nat with (7 + (c_state_length + 7 + (1 + (90 + 0))))%nat by lia.
  apply ends_bind; [apply ends_caught; [apply ends_fetchClientId|done]|intros _].
  apply ends_bind; [apply ends_getAuthUrl|intros url].
  apply ends_bind; [apply ends_await|intros _].
  apply ends_bind; [by apply (ends_poll_token 11 false 0)|]. by intros [].
Qed.

Lemma ends_connect {CB} : ends_in 6 (connect (CB := CB)).
Proof. unfold connect. ends. Qed.

Lemma ends_subscribe {CB} type version : ends_in 8 (subscribe (CB := CB) type version).
Proof.
  unfold subscribe. apply ends_caught; [|done].
  do 3 ends_step. change 8%nat with (7 + 1)%nat. apply ends_bind; [|intros _; ends]. ends.
Qed.

Lemma ends_send_message {St} snd msg sender : ends_in 7 (send_message (St := St) snd msg sender).
Proof. unfold send_message. ends. Qed.

Section DiscordCosts.
Context {St : Type} {host : DiscordHost St}.

Lemma ends_cfg : ends_in 0 (Discord.cfg (St := St)).
Proof. done. Qed.
Lemma ends_locals {A} (f : Locals → A) : ends_in 0 (local (St := St) f).
Proof. done. Qed.
Lemma ends_assign f : ends_in 0 (assign (St := St) f).
Proof. done. Qed.
Lemma ends_has_data j : ends_in 0 (has_data (St := St) j).
Proof. unfold has_data. ends. Qed.
Lemma ends_first_data j : ends_in 0 (first_data (St := St) j).
Proof. unfold first_data. ends. Qed.

#[local] Hint Resolve ends_cfg ends_locals ends_assign ends_has_data ends_first_data : ends.

Lemma ends_game_block url headers : ends_in 7 (game_block (St := St) url headers).
Proof. unfold game_block. ends. Qed.

Lemma ends_stream_block url headers : ends_in 14 (stream_block (St := St) url headers).
Proof. pose proof ends_game_block. unfold stream_block. ends. Qed.

Lemma ends_discord message : ends_in 21 (Discord.sendMessage (St := St) message).
Proof.
  unfold Discord.sendMessage. apply ends_local. unfold send_body. ends_step. cbv zeta.
  change 21%nat with (14 + 7)%nat.
  apply ends_bind; [apply ends_caught; [apply ends_stream_block|done]|intros _]. ends.
Qed.

End DiscordCosts.
End Costs.

(** ** The coroutines of the program *)

(** The answers a coroutine needs at most; [fuel] bounds the frames of a read loop. *)
Definition task_cost (fuel : nat) (t : task) : nat :=
  match t with
  | TLogin => c_state_length + 112
  | TConnectToChat => 15
  | TDoRead => fuel
  | TStart _ => 0
  | TSubscribe _ _ _ => 8
  | TConnect _ => 6
  | TSend _ => 7
  | TDiscord _ => 21
  end.

Section Tasks.
Context {sol : SolApi} {plat : Platform} {gui : GuiApi} {J : JsonApi}.
Implicit Types w : World.

Lemma ends_read_loop fuel p : ends_in fuel (read_loop (St := World) fuel p).
Proof.
  induction fuel as [|fuel IH]; cbn [read_loop]; unfold on_eventsub.
  - apply (ends_then _ _ 0); [by apply ends_zoom|done|]. by intros [[]|].
  - apply (ends_then _ _ 0); [by apply ends_zoom|lia|]. intros [[]|]; try (by apply (ends_mono _ 0); [lia|]).
    apply (ends_bind _ _ 1 fuel); [apply ends_await_ws|intros frame].
    do 3 (apply (ends_then _ _ 0); [by apply ends_zoom|lia|]; intros ?; rewrite Nat.sub_0_r).
    apply (ends_then _ _ 0); [|lia|intros _; by rewrite Nat.sub_0_r].
    case_match; [apply ends_sync|done].
Qed.

Lemma ends_on_eventsub p {A} (c : coro (EventSub eventsub_callback) A) n :
  ends_in n c → ends_in n (on_eventsub (St := World) p c).
Proof. apply ends_zoom. Qed.

Lemma ends_eventsub_ptr : ends_in 0 (eventsub_ptr (St := World)).
Proof. intros w. by destruct (m_eventsub _). Qed.
Lemma ends_chat_read_ptr : ends_in 0 (chat_read_ptr (St := World)).
Proof. intros w. by destruct (m_chat_read _). Qed.

#[local] Hint Resolve ends_eventsub_ptr ends_chat_read_ptr ends_on_eventsub ends_connect
  ends_subscribe : ends.

Lemma ends_spawn type version : ends_in 0 (spawn_subscribe (St := World) type version).
Proof. unfold spawn_subscribe. ends. Qed.

#[local] Hint Resolve ends_spawn : ends.

Lemma ends_connectToChat : ends_in 15 (connectToChat (St := World)).
Proof.
  unfold connectToChat, requestSubscription. ends_step. case_bool_decide; [done|].
  ends.
Qed.

Lemma ends_task fuel t : ends_in (task_cost fuel t) (task_coro fuel t).
Proof.
  destruct t; cbn [task_cost task_coro run_task].
  - unfold login_task. apply ends_caught; [|intros e; apply ends_sync].
    replace (c_state_length + 112)%nat with (c_state_length + 105 + (7 + 0))%nat by lia.
    apply ends_bind; [apply ends_zoom, ends_login|intros _].
    apply ends_bind; [apply ends_zoom, ends_fetchUserInfo|intros u]. apply ends_sync.
  - apply ends_connectToChat.
  - unfold read_task, doRead. apply ends_caught; [|done].
    apply (ends_then _ _ 0); [apply ends_eventsub_ptr|lia|intros p]. rewrite Nat.sub_0_r.
    apply (ends_then _ _ 0); [by apply ends_zoom|lia|intros [ws|]]; rewrite Nat.sub_0_r;
      [|by apply (ends_mono _ 0); [lia|]].
    do 2 (apply ends_caught; [|done]). apply ends_read_loop.
  - by apply ends_zoom.
  - apply ends_zoom, ends_subscribe.
  - apply ends_zoom, ends_connect.
  - unfold send_task. apply ends_caught; [|intros e; apply ends_sync].
    pose proof (@ends_send_message J World). ends.
  - apply ends_discord.
Qed.

End Tasks.

(** ** Failing operations

    [sturdy true c]: when the operations [c] awaits fail, [c] has no undefined
    behaviour but a dangling pointer; [sturdy false c]: neither once its present
    piece, an answer that succeeded, is over. *)

Fixpoint sturdy {St A} (now : bool) (c : coro St A) : Prop :=
  match c with
  | co_return _ | co_throw _ => True
  | co_undefined u => now = true → u = Dangling
  | co_get k => ∀ s, sturdy now (k s)
  | co_put _ c' => sturdy now c'
  | co_do _ k => ∀ r, sturdy true (k r)
  | co_http_read k => ∀ r, sturdy (bool_decide (is_Some (maybe inl r))) (k r)
  | co_ws_read k => ∀ r, sturdy (bool_decide (is_Some (maybe inl r))) (k r)
  | co_random b k => ∀ r, sturdy (bool_decide (r < b)%nat) (k r)
  end.

Section Sturdy.
Context {St : Type}.

Lemma sturdy_weaken {A} now (c : coro St A) : sturdy true c → sturdy now c.
Proof. induction c; simpl; naive_solver. Qed.

(** The mark only speaks of the present piece. *)
Lemma sturdy_suspended {A} now (c : coro St A) : suspended c → sturdy now c → sturdy true c.
Proof. by destruct c. Qed.

Lemma sturdy_bind {A B} now (c : coro St A) (f : A → coro St B) :
  sturdy now c → (∀ a, sturdy true (f a)) → sturdy now (c ≫= f).
Proof.
  unfold mbind, coro_bind. intros Hc Hf. revert now Hc.
  induction c; intros now; simpl; auto using sturdy_weaken.
Qed.

(** A part that does not wait. *)
Lemma sturdy_instant {A B} now (c : coro St A) (f : A → coro St B) :
  ends_in 0 c → sturdy now c → (∀ a, sturdy now (f a)) → sturdy now (c ≫= f).
Proof.
  unfold mbind, coro_bind. intros He Hc Hf. revert He Hc. induction c; simpl; naive_solver.
Qed.

Lemma sturdy_catch {A} now p (g : exn → coro St A) (c : coro St A) :
  sturdy now c → (∀ e, sturdy true (g e)) → sturdy now (co_catch p g c).
Proof.
  intros Hc Hg. revert now Hc. induction c as [a|e|u|k IH|s1 c IH|op k IH|k IH|k IH|b k IH];
    intros now; simpl; auto.
  destruct (p e); auto using sturdy_weaken.
Qed.

Lemma sturdy_ret {A} now (a : A) : sturdy now (mret (M := coro St) a).
Proof. done. Qed.
Lemma sturdy_throw {A} now e : sturdy now (co_throw (St := St) (A := A) e).
Proof. done. Qed.
Lemma sturdy_dangling {A} now : sturdy now (co_undefined (St := St) (A := A) Dangling).
Proof. done. Qed.
Lemma sturdy_gets {A} now (f : St → A) : sturdy now (co_gets f).
Proof. done. Qed.
Lemma sturdy_modify now (f : St → St) : sturdy now (co_modify f).
Proof. done. Qed.
Lemma sturdy_lift {A} now (r : exn + A) : sturdy now (co_lift (St := St) r).
Proof. by destruct r. Qed.
Lemma sturdy_await now op : sturdy now (await (St := St) op).
Proof. by intros [e|]. Qed.
Lemma sturdy_await_http now : sturdy now (await_http (St := St)).
Proof. by intros [e|r]. Qed.
Lemma sturdy_await_ws now : sturdy now (await_ws (St := St)).
Proof. by intros [e|r]. Qed.

(** A synchronous call with defined behaviour; any one after a success. *)
Lemma sturdy_sync {A} now (m : M St A) : (∀ s, fst (m s) ≠ Undefined) → sturdy now (co_sync m).
Proof. intros Hm s. simpl. specialize (Hm s). by destruct (m s) as [[a|e|] s']. Qed.
Lemma sturdy_sync_after {A} (m : M St A) : sturdy false (co_sync m).
Proof. intros s. simpl. by destruct (m s) as [[a|e|] s']. Qed.

Lemma sturdy_zoom {T A} now (get : St → option T) (set : T → St → St) (c : coro T A) :
  sturdy now c → sturdy now (co_zoom get set c).
Proof.
  revert now. induction c as [a|e|u|k IH|s1 c IH|op k IH|k IH|k IH|b k IH]; intros now; simpl; auto;
    intros Hk s; destruct (get s); simpl; auto.
Qed.

Lemma sturdy_local {L A} now (l : L) (c : coro (L * St) A) : sturdy now c → sturdy now (co_local l c).
Proof. revert l now. induction c as [| | | |[l1 s1] c IH| | | |]; intros l now; simpl; auto. Qed.

Lemma sturdy_advance {A} now (c : coro St A) s c' s' :
  advance c s = (c', s') → sturdy now c → sturdy now c'.
Proof.
  revert s. induction c as [a|e|u|k IH|s1 c IH|op k IH|k IH|k IH|b k IH]; intros s; simpl;
    try (by intros [= <- <-]); eauto.
Qed.

Lemma sturdy_answers {A} now (c c' : coro St A) : answers c c' → sturdy now c → ∃ now', sturdy now' c'.
Proof. intros []; simpl; naive_solver. Qed.

(** A failure is always a possible answer. *)
Lemma sturdy_failure {A} now n (c : coro St A) :
  suspended c → ends_in n c → sturdy now c → ∃ c', answers c c' ∧ sturdy true c'.
Proof.
  destruct c as [a|e|u|k|s1 c|op k|k|k|b k]; simpl; try done; intros _ Hn Hk.
  - exists (k None). split; [constructor|auto].
  - exists (k (inl (runtime_error ""))). split; [constructor|]. apply (Hk (inl _)).
  - exists (k (inl (runtime_error ""))). split; [constructor|]. apply (Hk (inl _)).
  - destruct Hn as [Hb _]. exists (k O). split; [by constructor|].
    specialize (Hk O). by rewrite bool_decide_true in Hk.
Qed.

End Sturdy.

Create HintDb sturdy.
#[export] Hint Resolve sturdy_ret sturdy_throw sturdy_dangling sturdy_gets sturdy_modify sturdy_lift
  sturdy_await sturdy_await_http sturdy_await_ws : sturdy.

Ltac sturdy_step :=
  lazymatch goal with
  | |- sturdy _ (match ?x with _ => _ end ≫= _) => destruct x
  | |- sturdy _ (_ ≫= _) => apply sturdy_bind; [|intros ?]
  | |- sturdy _ (co_catch _ _ _) => apply sturdy_catch; [|intros ?]
  | |- sturdy _ (match ?x with _ => _ end) => destruct x
  | |- sturdy _ (let _ := _ in _) => cbv zeta
  | |- sturdy _ _ => solve [eauto with sturdy]
  end.
Ltac sturdy := repeat sturdy_step.

Section SturdyRequests.
Context {St : Type}.

Lemma sturdy_makeSslStream now host port : sturdy now (makeSslStreamAsync (St := St) host port).
Proof. unfold makeSslStreamAsync. sturdy. by intros [e|]. Qed.

Lemma sturdy_tls_shutdown now : sturdy now (tls_shutdown (St := St)).
Proof. unfold tls_shutdown. sturdy. Qed.

#[local] Hint Resolve sturdy_makeSslStream sturdy_tls_shutdown : sturdy.

Lemma sturdy_httpsPost now host port target body headers :
  sturdy now (httpsPostAsync (St := St) host port target body headers).
Proof. unfold httpsPostAsync. sturdy. Qed.

Lemma sturdy_httpsGet now host port target headers :
  sturdy now (httpsGetAsync (St := St) host port target headers).
Proof. unfold httpsGetAsync. sturdy. Qed.

Lemma sturdy_generate_chars now n : sturdy now (generate_chars (St := St) n).
Proof.
  revert now. induction n as [|n IH]; intros now; cbn [generate_chars]; [sturdy|]. intros r.
  case_bool_decide as Hb.
  - apply alphanum_get in Hb as (c & -> & _). apply sturdy_bind; [apply IH|done].
  - destruct (String.get r c_alphanum); [apply sturdy_bind; [apply IH|done]|done].
Qed.

End SturdyRequests.

#[export] Hint Resolve sturdy_makeSslStream sturdy_tls_shutdown sturdy_httpsPost sturdy_httpsGet
  sturdy_generate_chars : sturdy.

Section SturdyOperations.
Context {J : JsonApi}.

Lemma sturdy_getHttp now url : sturdy now (getHttpAsync url).
Proof. unfold getHttpAsync. sturdy. Qed.

#[local] Hint Resolve sturdy_getHttp : sturdy.

Lemma sturdy_fetchUserInfo now : sturdy now fetchUserInfoAsync.
Proof. unfold fetchUserInfoAsync. sturdy. Qed.

Lemma sturdy_requestToken now : sturdy now requestTokenAsync.
Proof. unfold requestTokenAsync. sturdy. Qed.

#[local] Hint Resolve sturdy_fetchUserInfo sturdy_requestToken : sturdy.

(** The fuel of the polling loop is enough. *)
Lemma sturdy_poll_token now fuel got attempts : max_attempts - attempts < Z.of_nat fuel →
  sturdy now (poll_token fuel got attempts).
Proof.
  revert now got attempts. induction fuel as [|fuel IH]; intros now got attempts Hf; cbn [poll_token];
    destruct (negb got && (attempts <? max_attempts)) eqn:Hgo; try done;
    apply andb_true_iff in Hgo as [_ Hgo]; apply Z.ltb_lt in Hgo; [lia|].
  apply sturdy_bind; [sturdy|intros _]. apply sturdy_bind; [sturdy|]. intros [|]; cbn [negb].
  - by destruct fuel.
  - apply sturdy_bind; [sturdy|intros _]. apply IH. lia.
Qed.

Lemma sturdy_login now : sturdy now loginAsync.
Proof.
  unfold loginAsync, fetchClientIdAsync, getAuthUrlAsync, generateState. sturdy.
  by apply sturdy_poll_token.
Qed.

Lemma sturdy_connect {CB} now : sturdy now (connect (CB := CB)).
Proof. unfold connect. sturdy. Qed.

Lemma sturdy_subscribe {CB} now type version : sturdy now (subscribe (CB := CB) type version).
Proof. unfold subscribe. sturdy. Qed.

Lemma sturdy_discord {St} {host : DiscordHost St} now message :
  sturdy now (Discord.sendMessage (St := St) message).
Proof.
  unfold Discord.sendMessage. apply sturdy_local.
  unfold send_body, stream_block, game_block, has_data, first_data, Discord.cfg, local, assign. sturdy.
Qed.

End SturdyOperations.

Section SturdyTasks.
Context {sol : SolApi} {plat : Platform} {gui : GuiApi} {J : JsonApi}.
Implicit Types w : World.

Lemma sturdy_setState now st msg : sturdy now (co_sync (setState (St := World) st msg)).
Proof.
  apply sturdy_sync. intros w. unfold setState, on_svc, modify, gets, mbind, M_bind.
  case_match; [|done]. by destruct (negb _).
Qed.

Lemma sturdy_login_done now u : sturdy now (co_sync (login_done (St := World) u)).
Proof.
  apply sturdy_sync. intros w. unfold login_done, setState, on_svc, modify, gets, mbind, M_bind.
  case_match; [|done]. by destruct (negb _).
Qed.

(** A read loop that has fuel for one more frame ends when the read fails. *)
Lemma sturdy_read_loop now fuel p : now = false ∨ (0 < fuel)%nat →
  sturdy now (read_loop (St := World) fuel p).
Proof.
  revert now. induction fuel as [|fuel IH]; intros now Hf; cbn [read_loop]; unfold on_eventsub;
    (apply sturdy_instant; [by apply ends_zoom|by apply sturdy_zoom|intros [[]|]]); try done.
  - destruct Hf as [->|]; [done|lia].
  - intros [e|frame]; [done|]. rewrite bool_decide_false by (intros []; done).
    do 3 (apply sturdy_instant; [by apply ends_zoom|by apply sturdy_zoom|intros ?]).
    apply sturdy_instant; [case_match; [apply ends_sync|done]| |intros _; apply IH; by left].
    case_match; [apply sturdy_sync_after|done].
Qed.

Lemma sturdy_on_eventsub now p {A} (c : coro (EventSub eventsub_callback) A) :
  sturdy now c → sturdy now (on_eventsub (St := World) p c).
Proof. apply sturdy_zoom. Qed.

Lemma sturdy_eventsub_ptr now : sturdy now (eventsub_ptr (St := World)).
Proof. intros w. by destruct (m_eventsub _). Qed.
Lemma sturdy_chat_read_ptr now : sturdy now (chat_read_ptr (St := World)).
Proof. intros w. by destruct (m_chat_read _). Qed.

#[local] Hint Resolve sturdy_setState sturdy_login_done sturdy_on_eventsub sturdy_eventsub_ptr
  sturdy_chat_read_ptr sturdy_connect sturdy_subscribe sturdy_zoom sturdy_login sturdy_fetchUserInfo
  : sturdy.

Lemma sturdy_connectToChat now : sturdy now (connectToChat (St := World)).
Proof.
  unfold connectToChat, requestSubscription, spawn_subscribe. sturdy. by apply sturdy_sync.
Qed.

Lemma sturdy_task now fuel t : (0 < fuel)%nat → sturdy now (task_coro fuel t).
Proof.
  intros Hf. destruct t; cbn [task_coro run_task].
  - unfold login_task, on_auth. sturdy.
  - apply sturdy_connectToChat.
  - unfold read_task, doRead. sturdy. apply sturdy_read_loop. by right.
  - apply sturdy_zoom. by unfold start.
  - apply sturdy_zoom, sturdy_subscribe.
  - apply sturdy_zoom, sturdy_connect.
  - unfold send_task, send_message. sturdy. apply sturdy_sync. intros w.
    unfold gets, mbind, M_bind. by destruct (m_status_callback _).
  - apply sturdy_discord.
Qed.

End SturdyTasks.
