(* ===== verification/Progress.v ===== *)
(** * Progress: every coroutine ends, and the session settles

    The network threads come to rest after finitely many steps in every interleaving
    ([network_step] is strongly normalising): each coroutine needs a bounded number
    of answers, and spawning goes down in rank.  At rest no coroutine is left waiting
    and the session is in a state where the user can act. *)

From S2P Require Import Prelude Coro Json Net Auth EventSub TwitchService Discord.
From S2P Require Import AppState Gui ViewModels LuaEngine World Ui Application Interference Scheduler.
From S2P Require Import Session Ends.

(** ** What each coroutine may spawn

    Only [connectToChat] spawns a read loop, only a read loop spawns what its
    commands send, and the rest spawn nothing: spawning goes down in rank. *)

Definition rank (t : task) : nat :=
  match t with TConnectToChat => 2 | TDoRead => 1 | _ => 0 end.
Definition below (t t' : task) : Prop := (rank t' < rank t)%nat.

Section Posting.
Context {sol : SolApi} {plat : Platform} {gui : GuiApi} {J : JsonApi}.
Implicit Types w : World.

Definition posts (t : task) w w' : Prop :=
  ∃ l, w_queue w' = w_queue w ++ l ∧ Forall (below t) l.

#[export] Instance posts_preorder t : PreOrder (posts t).
Proof.
  split.
  - intros w. exists []. by rewrite app_nil_r.
  - intros w1 w2 w3 (l2 & H2 & Hl2) (l3 & H3 & Hl3). exists (l2 ++ l3).
    rewrite H3, H2, app_assoc. split; [done|by apply Forall_app].
Qed.

Lemma posts_same t w w' : w_queue w' = w_queue w → posts t w w'.
Proof. exists []. by rewrite app_nil_r. Qed.

Definition anywhere (_ : unit) w : Prop := True.

#[local] Abbreviation posting t := (claimed tolerant (posts t) anywhere tt).

Lemma posting_sync t {A} (m : M World A) : keeps (posts t) m → posting t (co_sync m).
Proof. intros Hm. by apply claimed_sync; [intros []| |]. Qed.

Lemma posting_same t {A} (m : M World A) :
  (∀ w, w_queue (snd (m w)) = w_queue w) → posting t (co_sync m).
Proof. intros Hm. apply posting_sync. intros w. by apply posts_same. Qed.

Lemma posting_post t t' : below t t' → posting t (co_modify (post t')).
Proof. intros Ht w _. apply safe_modify; [|done]. exists [t']. by split; [|apply Forall_singleton]. Qed.

Lemma posting_gets t {A} (f : World → A) : posting t (co_gets f).
Proof. by intros w. Qed.

Lemma posting_undefined t {A} u : posting t (co_undefined (A := A) u).
Proof. intros w _. simpl. intros []. Qed.

Lemma posting_eventsub_ptr t : posting t eventsub_ptr.
Proof. intros w _. simpl. case_match; [done|intros []]. Qed.

Lemma posting_chat_read_ptr t : posting t chat_read_ptr.
Proof. intros w _. simpl. case_match; [done|intros []]. Qed.

Lemma posting_careful t {A} (c : coro World A) : Careful id c → posting t c.
Proof. intros Hc w Hw. apply (safe_careful tolerant (posts t) anywhere c tt); [by intros ? []|apply Hc|done]. Qed.

Lemma posting_on_eventsub t p {A} (c : coro (EventSub eventsub_callback) A) :
  Careful nothing c → posting t (on_eventsub p c).
Proof.
  intros Hc w Hw. unfold on_eventsub.
  apply (safe_zoom _ _ _ nothing); [by intros ? []|by intros; right; intros []| |done|done].
  intros es w1 Hw1. split_and!; [by apply posts_same|done|]. cbn. by rewrite lookup_insert_eq.
Qed.

Lemma posting_on_auth t {A} (c : coro Auth A) : Careful nothing c → posting t (on_auth c).
Proof.
  intros Hc w Hw. unfold on_auth.
  apply (safe_zoom _ _ _ nothing); [by intros ? []|by intros; right; intros []| |done|done].
  intros a w1 Hw1. split_and!; [by apply posts_same|done|done].
Qed.

Lemma posting_setState t st msg : posting t (co_sync (setState st msg)).
Proof.
  apply posting_same. intros w. rewrite setState_world. cbn [snd].
  by destruct (show_status_fields msg (upd_service (set_state st (w_service w)) w)) as (_ & _ & -> & _).
Qed.

(** The commands of the chat send messages. *)
Lemma posting_callback msg : posting TDoRead (co_sync (es_call HandleMessage msg)).
Proof.
  apply posting_sync. intros w. destruct (calm_callback msg w) as (_ & _ & l & Hq & Hl).
  exists l. split; [done|]. eapply Forall_impl; [exact Hl|]. intros [] Ht; try done; unfold below; cbn; lia.
Qed.

Hint Resolve claimed_ret claimed_await claimed_await_ws posting_gets posting_undefined
  posting_eventsub_ptr posting_chat_read_ptr posting_on_eventsub posting_on_auth posting_setState
  : sbot.

Ltac posting_step :=
  lazymatch goal with
  | |- posting _ (_ ≫= _) => apply claimed_bind; [|intros ?]
  | |- posting _ (co_catch _ _ _) => apply claimed_catch; [|intros ?]
  | |- posting _ (co_modify (post _)) => apply posting_post; unfold below; cbn; lia
  | |- posting _ (co_sync (es_call ?f _)) => destruct f; apply posting_callback
  | |- posting _ (on_eventsub _ (co_modify _)) => apply posting_on_eventsub; careful
  | |- posting _ (let _ := _ in _) => cbv zeta
  | |- posting _ (match ?x with _ => _ end) => destruct x
  | |- posting _ _ => solve [auto with sbot]
  end.
Ltac posting := repeat posting_step.

Lemma posting_read_loop fuel p : posting TDoRead (read_loop fuel p).
Proof. induction fuel as [|fuel IH]; cbn [read_loop]; posting. Qed.

Hint Resolve posting_read_loop : sbot.

Lemma posting_task fuel t : posting t (task_coro fuel t).
Proof.
  destruct t; cbn [task_coro run_task].
  - unfold login_task. posting. apply posting_sync. intros w.
    apply posts_same. unfold login_done, on_svc, gets, modify, mbind, M_bind. rewrite setState_world.
    cbn [snd]. by rewrite (proj1 (proj2 (proj2 (show_status_fields _ _)))).
  - unfold connectToChat, spawn_subscribe, requestSubscription. posting. by apply posting_same.
  - unfold read_task, doRead. posting.
  - auto with sbot.
  - auto with sbot.
  - auto with sbot.
  - unfold send_task. posting; [apply posting_careful; auto with sbot|].
    apply posting_same. intros w. unfold gets, mbind, M_bind. by destruct (m_status_callback _).
  - apply posting_careful, Careful_discord.
Qed.

End Posting.

(** ** The work that is left *)

Section Work.
Context {sol : SolApi} {plat : Platform} {gui : GuiApi} {J : JsonApi}.
Implicit Types w : World.

#[local] Abbreviation pool := (list (task * coro World unit)).
#[local] Abbreviation posting t := (claimed tolerant (posts t) anywhere tt).

(** A waiting coroutine and a number of answers that is enough for it. *)
Definition ready (tc : task * coro World unit) (tn : task * nat) : Prop :=
  fst tc = fst tn ∧ suspended (snd tc) ∧ ends_in (snd tn) (snd tc) ∧ posting (fst tc) (snd tc).

(** The pool, counted. *)
Definition counted (s : system) (l : list (task * nat)) : Prop := Forall2 ready (sys_pool s) l.

(** The share of a task of rank [r] in the work of rank [k]. *)
Definition share (r k n : nat) : nat := if decide (r = k) then n else 0%nat.

(** The work of the tasks of rank [k]: queued and waiting. *)
Definition queued_work (fuel k : nat) (q : list task) : nat :=
  sum_list_with (λ t, share (rank t) k (S (task_cost fuel t))) q.
Definition waiting_work (k : nat) (l : list (task * nat)) : nat :=
  sum_list_with (λ tn, share (rank (fst tn)) k (snd tn)) l.
Definition work (fuel k : nat) w (l : list (task * nat)) : nat :=
  (queued_work fuel k (w_queue w) + waiting_work k l)%nat.

Lemma share_same k n : share k k n = n.
Proof. unfold share. by rewrite decide_True. Qed.
Lemma share_other r k n : (r < k)%nat → share r k n = 0%nat.
Proof. intros. unfold share. by rewrite decide_False by lia. Qed.

Lemma queued_work_cons fuel k t q :
  queued_work fuel k (t :: q) = (share (rank t) k (S (task_cost fuel t)) + queued_work fuel k q)%nat.
Proof. done. Qed.
Lemma waiting_work_cons k t n l :
  waiting_work k ((t, n) :: l) = (share (rank t) k n + waiting_work k l)%nat.
Proof. done. Qed.
Lemma waiting_work_app k l1 l2 :
  waiting_work k (l1 ++ l2) = (waiting_work k l1 + waiting_work k l2)%nat.
Proof. unfold waiting_work. by rewrite sum_list_with_app. Qed.

Lemma queued_work_below fuel k t q l :
  (rank t ≤ k)%nat → Forall (below t) l → queued_work fuel k (q ++ l) = queued_work fuel k q.
Proof.
  intros Hk Hl. unfold queued_work. rewrite sum_list_with_app. fold (queued_work fuel k l).
  enough (queued_work fuel k l = 0)%nat by lia.
  induction Hl as [|t' l Ht' _ IH]; [done|]. unfold below in Ht'.
  rewrite queued_work_cons, share_other, IH by lia. done.
Qed.

(** What a coroutine leaves behind when it stops. *)
Lemma ready_stop t c n w c' w' :
  ends_in n c → posting t c → advance c w = (c', w') → runs_on c' →
  posts t w w' ∧ (park t c' [] = [] ∨ (park t c' [] = [(t, c')] ∧ ready (t, c') (t, n))).
Proof.
  intros Hn Hp Ha Hrun. destruct (safe_advance _ _ _ _ _ _ _ _ Ha (Hp w I)) as (HG & Hs & Hend).
  split; [done|]. destruct Hend as [Hsus|[(a & ->)|[(e & ->)|(u & -> & _)]]]; [|by left|by left|done].
  right. split; [by destruct c'|]. split_and!; [done|done|by eapply ends_advance|].
  intros w1 _. by eapply safe_stable.
Qed.

(** A step works on one task: its rank loses work, higher ranks keep theirs. *)
Lemma work_step fuel s s' l :
  counted s l → network_step fuel s s' →
  ∃ l' k, counted s' l' ∧ (k ≤ 2)%nat ∧
    (work fuel k (sys_world s') l' < work fuel k (sys_world s) l)%nat ∧
    ∀ j, (k < j)%nat → work fuel j (sys_world s') l' = work fuel j (sys_world s) l.
Proof.
  intros Hl Hstep. unfold counted in *.
  assert (Hrank : ∀ t, (rank t ≤ 2)%nat) by (intros []; cbn; lia).
  destruct Hstep as [w p t rest c w' Hq Ha Hrun|w l1 t c l2 c1 c' w' Hans Ha Hrun];
    cbn [sys_world sys_pool] in *; unfold work.
  - destruct (ready_stop t (task_coro fuel t) (task_cost fuel t) (upd_queue rest w) c w')
      as ((lq & Hq' & Hlq) & Hend); [apply ends_task|apply posting_task|done|done|].
    cbn [w_queue upd_queue] in Hq'. rewrite park_app.
    destruct Hend as [->|[-> Hr]]; [exists l, (rank t)|exists ((t, task_cost fuel t) :: l), (rank t)];
      (split; [by cbn; auto using Forall2_cons_2|split; [done|split]]).
    all: rewrite Hq, Hq'; try intros j Hj; rewrite (queued_work_below _ _ t), queued_work_cons by (lia || done).
    + rewrite share_same. lia.
    + by rewrite share_other by lia.
    + rewrite waiting_work_cons, !share_same. lia.
    + by rewrite waiting_work_cons, !share_other by lia.
  - apply Forall2_app_inv_l in Hl as (n1 & n2' & Hl1 & Hl2 & ->).
    apply Forall2_cons_inv_l in Hl2 as ([t' n] & n2 & (Ht & Hsus & Hn & Hp) & Hl2 & ->).
    cbn [fst snd] in *. subst t'. destruct (ends_answers _ _ _ Hans Hn) as (m & -> & Hm).
    destruct (ready_stop t c1 m w c' w') as ((lq & Hq' & Hlq) & Hend); [done| |done|done|].
    { intros w1 _. eapply safe_answers; [done|by apply Hp]. }
    rewrite park_app.
    destruct Hend as [->|[-> Hr]]; [exists (n1 ++ n2), (rank t)|exists (n1 ++ (t, m) :: n2), (rank t)];
      (split; [by cbn; auto using Forall2_app, Forall2_cons_2|split; [done|split]]);
      rewrite ?Hq'; try intros j Hj;
      rewrite (queued_work_below _ _ t), !waiting_work_app, !waiting_work_cons by (lia || done).
    + rewrite share_same. lia.
    + by rewrite share_other by lia.
    + rewrite !share_same. lia.
    + by rewrite !share_other by lia.
Qed.

Lemma counted_sn fuel s l : counted s l → sn (network_step fuel) s.
Proof.
  remember (work fuel 2 (sys_world s) l) as a eqn:Ha. remember (work fuel 1 (sys_world s) l) as b eqn:Hb.
  remember (work fuel 0 (sys_world s) l) as d eqn:Hd. revert b d s l Ha Hb Hd.
  induction a as [a IHa] using lt_wf_ind. intros b. induction b as [b IHb] using lt_wf_ind.
  intros d. induction d as [d IHd] using lt_wf_ind. intros s l Ha Hb Hd Hl. constructor.
  intros s' Hstep. destruct (work_step _ _ _ _ Hl Hstep) as (l' & k & Hl' & Hk & Hless & Hsame).
  destruct k as [|[|[|]]]; [| | |lia].
  - eapply IHd; [|by rewrite Hsame; [|lia]..|reflexivity|done]. lia.
  - eapply IHb; [|by rewrite Hsame; [|lia]|reflexivity..|done]. lia.
  - eapply IHa; [|reflexivity..|done]. lia.
Qed.

Lemma counted_step fuel s s' l : counted s l → sys_step fuel s s' → ∃ l', counted s' l'.
Proof.
  intros Hl Hs. destruct Hs as [s s' Hstep|w p w' Hf]; [|exists l; exact Hl].
  destruct (work_step _ _ _ _ Hl Hstep) as (l' & _ & ? & _). by exists l'.
Qed.

(** The waiting coroutines bear failures. *)
Definition steady (s : system) : Prop := Forall (λ tc, sturdy true (snd tc)) (sys_pool s).

Lemma steady_park t c w c' w' p now :
  sturdy now c → advance c w = (c', w') → runs_on c' → Forall (λ tc, sturdy true (snd tc)) p →
  Forall (λ tc, sturdy true (snd tc)) (park t c' p).
Proof.
  intros Hc Ha. pose proof (sturdy_advance _ _ _ _ _ Ha Hc) as Hc'. apply advance_stops in Ha.
  destruct c'; cbn; intros; try done; by apply Forall_cons.
Qed.

Lemma steady_step fuel s s' : (0 < fuel)%nat → steady s → sys_step fuel s s' → steady s'.
Proof.
  unfold steady. intros Hf Hs Hstep. destruct Hstep as [s s' Hnet|w p w' Hfr]; [|done].
  destruct Hnet as [w p t rest c w' Hq Ha Hrun|w l1 t c l2 c1 c' w' Hans Ha Hrun]; cbn [sys_pool] in *.
  - eapply (steady_park _ _ _ _ _ _ true); [by apply sturdy_task|done..].
  - apply Forall_app in Hs as [H1 [Hc H2]%Forall_cons]. apply Forall_app. split; [done|].
    destruct (sturdy_answers _ _ _ Hans Hc) as [now Hc1].
    by eapply steady_park.
Qed.

(** Where a coroutine stops: it runs on, or follows a dangling pointer. *)
Lemma sturdy_stop c w c' w' :
  sturdy true c → advance c w = (c', w') → runs_on c' ∨ c' = co_undefined Dangling.
Proof.
  intros Hc Ha. apply (sturdy_advance true) in Ha; [|done].
  destruct c' as [| |u| | | | | |]; try (by left). right. by rewrite Ha.
Qed.

(** A system that cannot step and does not crash has nothing left to do. *)
Lemma stuck_idle fuel s l :
  (0 < fuel)%nat → counted s l → steady s → nf (network_step fuel) s →
  crashes fuel s Dangling ∨ (w_queue (sys_world s) = [] ∧ sys_pool s = []).
Proof.
  intros Hf Hl Hst Hnf. destruct s as [w p]. unfold counted, steady in *. cbn [sys_world sys_pool] in *.
  destruct (w_queue w) as [|t rest] eqn:Hq.
  - destruct Hl as [|[t c] [t' n] p l (_ & Hsus & Hn & _) _]; [by right|left]. cbn [fst snd] in *.
    apply Forall_cons in Hst as [Hc _]. destruct (sturdy_failure _ _ _ Hsus Hn Hc) as (c1 & Hans & Hc1).
    destruct (advance c1 w) as [c' w'] eqn:Ha. destruct (sturdy_stop _ _ _ _ Hc1 Ha) as [Hr| ->].
    + destruct Hnf. eexists. by apply (net_resume fuel w [] t c p c1 c' w').
    + by apply (crash_resume fuel w [] t c p c1 Dangling w').
  - left. destruct (advance (task_coro fuel t) (upd_queue rest w)) as [c w'] eqn:Ha.
    destruct (sturdy_stop _ _ _ _ (sturdy_task true fuel t Hf) Ha) as [Hr| ->].
    + destruct Hnf. eexists. by eapply net_start.
    + by eapply crash_start.
Qed.

End Work.

(** ** While the session is busy, somebody works on it *)

Section Busy.
Context {sol : SolApi} {plat : Platform} {gui : GuiApi} {J : JsonApi}.
Implicit Types w : World.

#[local] Abbreviation pool := (list (task * coro World unit)).

(** The coroutines of a role, waiting or, for the login, queued. *)
Definition workers (r : role) (q : list task) (p : pool) : nat :=
  (match r with RLogin => logins q | _ => 0 end + count_role r p)%nat.

Definition busy w (p : pool) : Prop :=
  ∀ r, r ≠ ROther → phase r (session w) → (1 ≤ workers r (w_queue w) p)%nat.

Lemma workers_more r q l p : (workers r q p ≤ workers r (q ++ l) p)%nat.
Proof. unfold workers. destruct r; [rewrite logins_app|..]; lia. Qed.

Lemma busy_same w w' l p :
  session w' = session w → w_queue w' = w_queue w ++ l → busy w p → busy w' p.
Proof.
  intros Hs Hq Hb r Hr Hph. rewrite Hq. etrans; [|apply workers_more]. apply Hb; [done|by rewrite <- Hs].
Qed.

(** No coroutine moves the session into the phase of another role. *)
Lemma role_moves_into r r' a b :
  role_moves r a b → r' ≠ r → r' ≠ ROther → phase r' b → phase r' a.
Proof. intros [->|Hm] Hr Ho; destruct r, r'; simpl; naive_solver congruence. Qed.

Lemma busy_coroutine t c w c' w' l1 l2 :
  safe tolerant (moves (role_of t)) (in_phase (role_of t)) c w (ended (role_of t)) →
  advance c w = (c', w') → runs_on c' →
  (∀ r, r ≠ ROther → r ≠ role_of t → phase r (session w) →
     (1 ≤ workers r (w_queue w) (l1 ++ l2))%nat) →
  busy w' (l1 ++ park t c' l2).
Proof.
  intros Hs Ha Hrun Hb r Hr Hph. destruct (role_stop _ _ _ _ _ Hs Ha Hrun) as ((Hm & l & Hq & _) & Hend).
  assert (Hsplit : workers r (w_queue w') (l1 ++ park t c' l2) =
    (workers r (w_queue w') (l1 ++ l2) + count_role r (park t c' []))%nat).
  { rewrite park_app. unfold workers. rewrite !count_role_app. lia. }
  rewrite Hsplit. destruct (decide (r = role_of t)) as [->|Hne].
  - destruct Hend as [[_ Hend]|[-> _]]; [by apply Hend in Hph|].
    rewrite count_role_cons, decide_True by done. lia.
  - rewrite Hq. pose proof (workers_more r (w_queue w) l (l1 ++ l2)).
    specialize (Hb r Hr Hne (role_moves_into _ _ _ _ Hm Hne Hr Hph)). lia.
Qed.

Lemma busy_network fuel s s' :
  session_valid s → busy (sys_world s) (sys_pool s) → network_step fuel s s' →
  busy (sys_world s') (sys_pool s').
Proof.
  intros (Hp & _ & Hone) Hb Hstep.
  destruct Hstep as [w p t rest c w' Hq Ha Hrun|w l1 t c l2 c1 c' w' Hans Ha Hrun];
    cbn [sys_world sys_pool] in *.
  - assert (Hrest : ∀ r, r ≠ ROther → r ≠ role_of t → phase r (session w) → (1 ≤ workers r rest p)%nat).
    { intros r Hr Hne Hph. specialize (Hb r Hr Hph). rewrite Hq in Hb. unfold workers in *.
      destruct r; try done. rewrite logins_cons in Hb. by destruct t. }
    destruct (decide (role_of t = RConnect ∧ session w ≠ LoggedIn)) as [[Hr Hst]|Hcon].
    + destruct t; try done. apply connect_ignored in Ha as [-> ->]; [|done]. cbn [park].
      intros r Hr' Hph. specialize (Hb r Hr' Hph). rewrite Hq in Hb. unfold workers in *.
      destruct r; [rewrite logins_cons in Hb; cbn [is_login w_queue upd_queue] in *|..]; lia.
    + apply (busy_coroutine t (task_coro fuel t) (upd_queue rest w) c w' [] p); [|done..].
      apply task_role; [|by intros Hr; destruct (decide (session w = LoggedIn)); [|by destruct Hcon] ].
      intros Hr. destruct t; try done. destruct Hone as [Hn Hlog]. apply Hlog.
      rewrite Hq, logins_cons in *. cbn [is_login] in *. lia.
  - apply Forall_app in Hp as [Hl1 [[Hsus Hsafe] Hl2]%Forall_cons].
    apply (busy_coroutine t c1 w); [by apply (safe_answers _ _ _ c)|done|done|].
    intros r Hr Hne Hph. specialize (Hb r Hr Hph). unfold workers in *.
    rewrite count_role_app, count_role_cons, decide_False in Hb by (cbn; congruence).
    rewrite count_role_app. lia.
Qed.

Lemma busy_frame w w' p : busy w p → frame w = (Ok tt, w') → busy w' p.
Proof.
  intros Hb Hf. apply frame_move in Hf as (w1 & w2 & H1 & Hauth & H2).
  apply (calm_moves ROther) in H1 as ([Hs1|[]] & l1 & Hq1 & _), H2 as ([Hs2|[]] & l2 & Hq2 & _).
  apply (busy_same w2 _ l2); [done|done|]. assert (Hb1 : busy w1 p) by (by apply (busy_same w _ l1)).
  apply auth_user_move in Hauth as [(Hs & l & Hq & _)|(Hm & l & Hq & _ & Hlog)];
    [by apply (busy_same w1 _ l)|].
  intros r Hr Hph. destruct r; [| |done].
  - unfold workers. rewrite Hq, logins_app, (proj2 Hlog) by done. lia.
  - by destruct Hm.
Qed.

Lemma idle_settled w : w_queue w = [] → busy w [] →
  session w ∈ [Disconnected; LoggedIn; ChatConnected; Error].
Proof.
  intros Hq Hb. unfold busy, workers in Hb. rewrite Hq in Hb.
  pose proof (Hb RLogin) as Hl. pose proof (Hb RConnect) as Hc. cbn in Hl, Hc.
  destruct (session w);
    try (by repeat (apply list_elem_of_here || apply list_elem_of_further)).
  - specialize (Hl ltac:(done) eq_refl). lia.
  - specialize (Hc ltac:(done) eq_refl). lia.
Qed.

(** What every reachable system satisfies. *)
Definition progressing (s : system) : Prop :=
  session_valid s ∧ busy (sys_world s) (sys_pool s) ∧ steady s ∧ ∃ l, counted s l.

Lemma progressing_step fuel s s' :
  (0 < fuel)%nat → progressing s → sys_step fuel s s' → progressing s'.
Proof.
  intros Hf (Hv & Hb & Hst & l & Hl) Hstep.
  split_and!; [by eapply session_valid_step| |by eapply steady_step|by eapply counted_step].
  destruct Hstep as [s s' Hn|w p w' Hfr]; [by eapply busy_network|by eapply busy_frame].
Qed.

Lemma progressing_steps fuel s s' :
  (0 < fuel)%nat → rtc (sys_step fuel) s s' → progressing s → progressing s'.
Proof. intros Hf. induction 1 as [|s1 s2 s3 H12 _ IH]; [done|]. eauto using progressing_step. Qed.

Lemma progressing_started w w' : started w → run_setup w = (Ok tt, w') → progressing (mk_system w' []).
Proof.
  intros Hst Hrun. split_and!; [by eapply session_started| |by constructor|by exists [] ; constructor].
  destruct Hst as (_ & _ & Hst & _). pose proof (keeps_run _ _ _ _ _ calm_run_setup Hrun) as [Hs _].
  intros r Hr. cbn [sys_world sys_pool]. unfold session. rewrite Hs, Hst. by destruct r.
Qed.

(** The network threads at rest: nothing is queued or waits, and the session is in a
    state where the Auth panel offers the user a button. *)
Definition at_rest (s : system) : Prop :=
  w_queue (sys_world s) = [] ∧ sys_pool s = [] ∧
  session (sys_world s) ∈ [Disconnected; LoggedIn; ChatConnected; Error].

Lemma progressing_rest fuel s :
  (0 < fuel)%nat → progressing s → nf (network_step fuel) s →
  crashes fuel s Dangling ∨ at_rest s.
Proof.
  intros Hf (_ & Hb & Hst & l & Hl) Hnf.
  destruct (stuck_idle _ _ _ Hf Hl Hst Hnf) as [|[Hq Hp]]; [by left|right].
  split_and!; [done|done|]. rewrite Hp in Hb. by apply idle_settled.
Qed.

Lemma network_steps_valid fuel s s' : system_valid s → rtc (network_step fuel) s s' → system_valid s'.
Proof. intros Hs. induction 1 as [|s1 s2 s3 H12 _ IH]; [done|]. eauto using network_valid. Qed.

End Busy.

(** ** Properties *)

Section Properties.
Context {sol : SolApi} {plat : Platform} {gui : GuiApi} {J : JsonApi}.

(** Bounds: whatever the network answers and whatever the rest of the program does
    meanwhile, a coroutine ends after a fixed number of answers: a login after its
    random characters, the three requests of seven operations each, the browser and
    ten rounds of polling, a connection to the chat after 15, a subscription after
    8, a message after 7, a notification after 21; a read loop after as many as it
    receives frames. *)
Theorem task_bounded fuel t : ends_in (task_cost fuel t) (task_coro fuel t).
Proof. apply ends_task. Qed.

(** C4.  Liveness: in every system the program can reach, the network threads can only
    take finitely many further steps, in whatever order and with whatever answers,
    if every read loop receives at most [fuel] frames: that loop has no bound in the
    program, and the steps in which one would receive more are left out.  When they can take none, nothing is queued or waiting and the
    session is in one of the states where the Auth panel offers the user a button:
    it never hangs in LoggingIn or ConnectingToChat.  The only exception is a
    coroutine that follows a dangling pointer, and there is none as long as the user
    did not destroy an [EventSub] object with the Auth panel, by Disconnect or by Reset
    of the error state. *)
Theorem network_settles fuel w w' s :
  (0 < fuel)%nat → started w → run_setup w = (Ok tt, w') →
  rtc (sys_step fuel) (mk_system w' []) s →
  sn (network_step fuel) s ∧
  ∀ s', rtc (network_step fuel) s s' → nf (network_step fuel) s' →
    (crashes fuel s' Dangling ∨ at_rest s') ∧
    (rtc (staying_step fuel) (mk_system w' []) s → at_rest s').
Proof.
  intros Hf Hstart Hrun Hsteps.
  pose proof (progressing_steps _ _ _ Hf Hsteps (progressing_started _ _ Hstart Hrun)) as Hs.
  split; [destruct Hs as (_ & _ & _ & l & Hl); by eapply counted_sn|]. intros s' Hnet Hnf.
  assert (Hrest : crashes fuel s' Dangling ∨ at_rest s').
  { apply progressing_rest; [done| |done]. apply (progressing_steps fuel s); [done| |done].
    eapply rtc_subrel; [|exact Hnet]. by constructor. }
  split; [done|]. intros Hstay. destruct Hrest as [Hc|]; [|done].
  apply valid_no_crash in Hc; [done|]. eapply network_steps_valid; [|exact Hnet].
  eapply steps_valid; [|exact Hstay]. by eapply started_valid.
Qed.

End Properties.
