(* ===== verification/LuaNumbers.v ===== *)
(** * Numbers of Lua

    What the command scripts under [src/commands] use of the Lua language: the build
    takes the installed Lua; this is version 5.4, with integers of 64 bits and floats
    of binary64, in the C locale.  Reading a number from a text
    ([tonumber]), arithmetic, exact comparison, [math.ceil], and writing a number in a
    concatenation. *)

From Stdlib Require Import SpecFloat.
From S2P Require Import Prelude Cxx.

Inductive number :=
  | Integer (z : Z)
  | Float (f : spec_float).

(** ** Integers and floats *)

Definition flt_prec : Z := 53.
Definition flt_emax : Z := 1024.

(** Integer arithmetic wraps around. *)
Definition wrap64 (z : Z) : Z := (z + 2 ^ 63) mod 2 ^ 64 - 2 ^ 63.
Definition is_int64 (z : Z) : bool := (- 2 ^ 63 <=? z) && (z <? 2 ^ 63).

Definition flt_of_Z (z : Z) : spec_float := binary_normalize flt_prec flt_emax z 0 false.
Definition to_float (n : number) : spec_float :=
  match n with Integer z => flt_of_Z z | Float f => f end.

Definition num_arith (on_int : Z → Z → Z) (on_float : spec_float → spec_float → spec_float)
    (a b : number) : number :=
  match a, b with
  | Integer x, Integer y => Integer (wrap64 (on_int x y))
  | _, _ => Float (on_float (to_float a) (to_float b))
  end.

Definition num_add : number → number → number := num_arith Z.add (SFadd flt_prec flt_emax).
Definition num_sub : number → number → number := num_arith Z.sub (SFsub flt_prec flt_emax).
Definition num_mul : number → number → number := num_arith Z.mul (SFmul flt_prec flt_emax).
(** [/] is always a division of floats. *)
Definition num_div (a b : number) : number :=
  Float (SFdiv flt_prec flt_emax (to_float a) (to_float b)).

(** ** Comparison: by the exact values *)

Inductive value :=
  | Finite (m e : Z)                   (* [m * 2 ^ e] *)
  | Infinite (negative : bool)
  | NotANumber.

Definition float_value (f : spec_float) : value :=
  match f with
  | S754_zero _ => Finite 0 0
  | S754_finite s m e => Finite (cond_Zopp s (Zpos m)) e
  | S754_infinity s => Infinite s
  | S754_nan => NotANumber
  end.
Definition value_of (n : number) : value :=
  match n with Integer z => Finite z 0 | Float f => float_value f end.

Definition num_compare (a b : number) : option comparison :=
  match value_of a, value_of b with
  | Finite m1 e1, Finite m2 e2 =>
      let e := Z.min e1 e2 in Some (m1 * 2 ^ (e1 - e) ?= m2 * 2 ^ (e2 - e))
  | Infinite s1, Infinite s2 =>
      Some (match s1, s2 with true, false => Lt | false, true => Gt | _, _ => Eq end)
  | Infinite s, Finite _ _ => Some (if s : bool then Lt else Gt)
  | Finite _ _, Infinite s => Some (if s : bool then Gt else Lt)
  | NotANumber, _ | _, NotANumber => None
  end.

Definition num_lt (a b : number) : bool :=
  match num_compare a b with Some Lt => true | _ => false end.
Definition num_le (a b : number) : bool :=
  match num_compare a b with Some (Lt | Eq) => true | _ => false end.

(** [math.min(a, b)] and [math.max(a, b)] keep the first of equal numbers. *)
Definition num_min (a b : number) : number := if num_lt b a then b else a.
Definition num_max (a b : number) : number := if num_lt a b then b else a.

(** ** Integers from floats *)

(** A number that has an integer representation ([luaL_checkinteger]). *)
Definition to_integer (n : number) : option Z :=
  match n with
  | Integer z => Some z
  | Float f =>
      match float_value f with
      | Finite m e =>
          let z := if 0 <=? e then m * 2 ^ e else m / 2 ^ (- e) in
          if ((0 <=? e) || (m mod 2 ^ (- e) =? 0)) && is_int64 z then Some z else None
      | _ => None
      end
  end.

(** [math.ceil]: an integer when it fits, else a float. *)
Definition num_ceil (n : number) : number :=
  match n with
  | Integer z => Integer z
  | Float f =>
      match float_value f with
      | Finite m e =>
          let z := if 0 <=? e then m * 2 ^ e else - ((- m) / 2 ^ (- e)) in
          if is_int64 z then Integer z else Float f
      | _ => Float f
      end
  end.

(** ** Reading: [tonumber] of a string *)

Definition digit_of (base : Z) (c : ascii) : option Z :=
  let n := Z.of_nat (Ascii.nat_of_ascii c) in
  let d := if (48 <=? n) && (n <=? 57) then n - 48
           else if (97 <=? n) && (n <=? 102) then n - 87
           else if (65 <=? n) && (n <=? 70) then n - 55
           else base in
  if d <? base then Some d else None.

(** The digits at the start: their value after [acc], their number, and the rest. *)
Fixpoint read_digits (base acc : Z) (count : nat) (s : string) : Z * nat * string :=
  match s with
  | String c s' =>
      match digit_of base c with
      | Some d => read_digits base (acc * base + d) (S count) s'
      | None => (acc, count, s)
      end
  | "" => (acc, count, "")
  end.

Fixpoint skip_spaces (s : string) : string :=
  match s with String c s' => if isspace c then skip_spaces s' else s | "" => "" end.

Definition read_sign (s : string) : bool * string :=
  match s with
  | String c s' =>
      if decide (c = "-"%char) then (true, s')
      else if decide (c = "+"%char) then (false, s') else (false, s)
  | "" => (false, "")
  end.

(** One of two characters. *)
Definition starts_char (c1 c2 : ascii) (s : string) : option string :=
  match s with
  | String c s' => if decide (c = c1 ∨ c = c2) then Some s' else None
  | "" => None
  end.

(** [0x] or [0X]. *)
Definition hex_prefix (s : string) : option string :=
  match starts_char "0" "0" s with Some s' => starts_char "x" "X" s' | None => None end.

(** [l_str2int]: a decimal integer that fits, or hexadecimal digits that wrap. *)
Definition str2int (s : string) : option Z :=
  let '(neg, s) := read_sign (skip_spaces s) in
  let sign z := if neg : bool then - z else z in
  match hex_prefix s with
  | Some s' =>
      let '(z, n, rest) := read_digits 16 0 0 s' in
      if (0 <? n)%nat && str_empty (skip_spaces rest) then Some (wrap64 (sign z)) else None
  | None =>
      let '(z, n, rest) := read_digits 10 0 0 s in
      if (0 <? n)%nat && str_empty (skip_spaces rest) && is_int64 (sign z)
      then Some (sign z) else None
  end.

(** An exponent, [mark] followed by a sign and digits; none is 0. *)
Definition read_exponent (c1 c2 : ascii) (s : string) : Z * string :=
  match starts_char c1 c2 s with
  | Some s' =>
      let '(neg, s'') := read_sign s' in
      let '(z, n, rest) := read_digits 10 0 0 s'' in
      if (0 <? n)%nat then (if neg : bool then - z else z, rest) else (0, s)
  | None => (0, s)
  end.

(** Digits, and after a point more digits: the value without the point, the number
    of digits, and how many of them follow the point. *)
Definition read_mantissa (base : Z) (s : string) : Z * nat * nat * string :=
  let '(z, n, rest) := read_digits base 0 0 s in
  match starts_char "." "." rest with
  | Some rest' => let '(z', n', rest'') := read_digits base z 0 rest' in (z', n + n', n', rest'')%nat
  | None => (z, n, O, rest)
  end.

(** The float nearest to [m * 10 ^ e]. *)
Definition flt_of_decimal (neg : bool) (m e : Z) : spec_float :=
  match m with
  | Zpos p =>
      match e with
      | Zneg q => SFdiv flt_prec flt_emax (S754_finite neg p 0) (S754_finite false (10 ^ q) 0)
      | _ => binary_round flt_prec flt_emax neg (p * Z.to_pos (10 ^ e)) 0
      end
  | _ => S754_zero neg
  end.
(** The float nearest to [m * 2 ^ e]. *)
Definition flt_of_binary (neg : bool) (m e : Z) : spec_float :=
  match m with Zpos p => binary_round flt_prec flt_emax neg p e | _ => S754_zero neg end.

(** The first of the characters that [l_str2d] looks for decides: 'n' is refused
    ("inf" and "nan" are no numbers). *)
Fixpoint rejects (s : string) : bool :=
  match s with
  | String c s' =>
      if decide (c ∈ ["n"; "N"]%char) then true
      else if decide (c ∈ ["."; "x"; "X"]%char) then false else rejects s'
  | "" => false
  end.

(** [l_str2d], with the C function [strtod]. *)
Definition str2d (s : string) : option spec_float :=
  if rejects s then None
  else
    let '(neg, s) := read_sign (skip_spaces s) in
    match hex_prefix s with
    | Some s' =>
        let '(m, n, frac, rest) := read_mantissa 16 s' in
        let '(e, rest) := read_exponent "p" "P" rest in
        if (0 <? n)%nat && str_empty (skip_spaces rest)
        then Some (flt_of_binary neg m (e - 4 * Z.of_nat frac)) else None
    | None =>
        let '(m, n, frac, rest) := read_mantissa 10 s in
        let '(e, rest) := read_exponent "e" "E" rest in
        if (0 <? n)%nat && str_empty (skip_spaces rest)
        then Some (flt_of_decimal neg m (e - Z.of_nat frac)) else None
    end.

Definition tonumber (s : string) : option number :=
  match str2int s with
  | Some z => Some (Integer z)
  | None => Float <$> str2d s
  end.

(** ** Writing: a number in a concatenation *)

(** [n / d] rounded to the nearest integer, ties to even. *)
Definition round_div (n d : Z) : Z :=
  let q := n / d in
  match 2 * (n mod d) ?= d with
  | Lt => q
  | Eq => if Z.even q then q else q + 1
  | Gt => q + 1
  end.

(** The least [k] from [k] on with [d <= n * 10 ^ k]. *)
Fixpoint lift_up (fuel : nat) (n d k : Z) : Z :=
  match fuel with
  | O => k
  | S f => if d <=? n * 10 ^ k then k else lift_up f n d (k + 1)
  end.

(** The exponent of the leading decimal digit of [n / d]; binary64 is above [10 ^ -324]. *)
Definition exponent10 (n d : Z) : Z :=
  if d <=? n then Z.of_nat (String.length (to_string (n / d))) - 1
  else - lift_up 330 n d 0.

(** Digits without the zeros at their end. *)
Fixpoint strip_zeros (s : string) : string :=
  match s with
  | "" => ""
  | String c s' =>
      match strip_zeros s' with
      | "" => if decide (c = "0"%char) then "" else String c ""
      | t => String c t
      end
  end.

(** A whole part and the digits after the point. *)
Definition with_point (whole fraction : string) : string :=
  match strip_zeros fraction with "" => whole | f => whole +:+ "." +:+ f end.

Fixpoint zeros (n : nat) : string := match n with O => "" | S n' => String "0" (zeros n') end.

(** "%.14g" of the positive number [n / d]. *)
Definition format_g (n d : Z) : string :=
  let x := exponent10 n d in
  let mant := if 13 <=? x then round_div n (d * 10 ^ (x - 13)) else round_div (n * 10 ^ (13 - x)) d in
  let '(mant, x) := if mant =? 10 ^ 14 then (10 ^ 13, x + 1) else (mant, x) in
  let digits := to_string mant in
  if (x <? -4) || (14 <=? x) then
    with_point (String.substring 0 1 digits) (str_drop 1 digits) +:+
      (if x <? 0 then "e-" else "e+") +:+
      (if Z.abs x <? 10 then "0" else "") +:+ to_string (Z.abs x)
  else if x <? 0 then with_point "0" (zeros (Z.to_nat (- x - 1)) +:+ digits)
  else with_point (String.substring 0 (Z.to_nat (x + 1)) digits) (str_drop (Z.to_nat (x + 1)) digits).

(** Only digits and signs: [tostringbuff] then adds ".0". *)
Fixpoint looks_like_int (s : string) : bool :=
  match s with
  | "" => true
  | String c s' => (bool_decide (c = "-"%char) || bool_decide (is_Some (digit_of 10 c))) && looks_like_int s'
  end.

Definition format_float (f : spec_float) : string :=
  let text :=
    match f with
    | S754_zero s => if s then "-0" else "0"
    | S754_infinity s => if s then "-inf" else "inf"
    | S754_nan => "nan"
    | S754_finite s m e =>
        (if s then "-" else "") +:+
        (if 0 <=? e then format_g (Zpos m * 2 ^ e) 1 else format_g (Zpos m) (2 ^ (- e)))
    end in
  if looks_like_int text then text +:+ ".0" else text.

Definition num_text (n : number) : string :=
  match n with Integer z => to_string z | Float f => format_float f end.

(** ** Examples *)

Example reads_numbers :
  map (λ s, num_text <$> tonumber s)
    ["20"; " -7 "; "0x1F"; "2.5"; "6.0"; "1e2"; ".5"; "5."; "1e"; "0x"; "inf"; "nan"; ""; "d20"; "+3";
     "9223372036854775807"; "9223372036854775808"; "0x1p4"; "1e999"; "123456.789e3"; "1e-7";
     "-9223372036854775808"; "0.1"; "100000000000000"; "1e15"; "0xffffffffffffffffff"] =
  [Some "20"; Some "-7"; Some "31"; Some "2.5"; Some "6.0"; Some "100.0"; Some "0.5"; Some "5.0"; None;
   None; None; None; None; None; Some "3"; Some "9223372036854775807"; Some "9.2233720368548e+18";
   Some "16.0"; Some "inf"; Some "123456789.0"; Some "1e-07"; Some "-9223372036854775808";
   Some "0.1"; Some "100000000000000"; Some "1e+15"; Some "-1"].
Proof. vm_compute. reflexivity. Qed.

Example computes_numbers :
  map num_text
    [num_add (Integer (2 ^ 63 - 1)) (Integer 1); num_div (Integer 7) (Integer 2);
     num_ceil (num_div (Integer 31) (Integer 15)); num_mul (Float (flt_of_Z 3)) (Integer 15);
     num_div (Integer 1) (Integer 3); num_ceil (num_div (Integer 30) (Integer 15))] =
  ["-9223372036854775808"; "3.5"; "3"; "45.0"; "0.33333333333333"; "2"].
Proof. vm_compute. reflexivity. Qed.
