(* ===== verification/Scripts.v ===== *)
(** * The command scripts

    The seven Lua files under [src/commands], as programs over the calls the engine
    offers them: a value [lua A] is a piece of a Lua function, in continuation-passing
    style, that becomes a [script] of [LuaEngine] when it is called.  The state of the
    interpreter is its random number generator; no script changes anything else of
    it.  The scripts never catch an error, so an error ends the call.

    [shipped_sol] is the interpreter that knows these files, an instance of [SolApi]:
    the theorems about the engine and the program hold for it. *)

From Stdlib Require Import SpecFloat.
From S2P Require Import Prelude Cxx CommandParser AudioSystem Cooldown LuaEngine LuaNumbers.

(** ** What lies outside *)

(** The generator of [math.random]: [draw n] gives a number from which one below [n]
    is made. *)
Class LuaRandom := {
  Rng : Type;
  draw : Z → Rng → Z * Rng;
}.

(** How sol2 makes integers of Lua floats: for the key of a [std::vector] and for a
    [sol::optional<int>] argument. *)
Class SolNumbers := {
  sol_float_key : spec_float → Z;
  sol_float_int : spec_float → option Z;
}.

Section Scripts.
Context {rng : LuaRandom} {sn : SolNumbers}.

(** ** Pieces of a Lua function *)

Definition lua (A : Type) : Type := (A → Rng → script Rng) → Rng → script Rng.

#[global] Instance lua_ret : MRet lua := λ A a k, k a.
#[global] Instance lua_bind : MBind lua := λ A B f m k, m (λ a, f a k).

Definition lua_error {A} (what : string) : lua A := λ _ l, SDone l (Some what).

(** A call on the context object; an exception of the C++ code is a Lua error. *)
Definition ctx_method (c : CtxCall) : lua CtxAnswer := λ k l,
  SCall c (λ r, match r with Some a => k a l | None => SDone l (Some "C++ exception") end).

Definition ctx_reply (m : string) : lua unit := ctx_method (Reply m) ;; mret tt.
Definition answer_string (a : CtxAnswer) : lua string :=
  match a with AString s => mret s | _ => lua_error "string expected" end.
Definition ctx_getUser : lua string := ctx_method GetUser ≫= answer_string.
Definition ctx_findAudioFile (name dir : string) : lua string :=
  ctx_method (FindAudioFile name dir) ≫= answer_string.
Definition ctx_listAudioFiles (dir : string) : lua (list string) :=
  a ← ctx_method (ListAudioFiles dir);
  match a with AStrings l => mret l | _ => lua_error "vector expected" end.
Definition ctx_playSound (file : string) (volume : number) : lua bool :=
  a ← ctx_method (PlaySound file match volume with
                                 | Integer z => Some z
                                 | Float f => sol_float_int f
                                 end);
  match a with ABool b => mret b | _ => lua_error "boolean expected" end.

(** [v[i]] of a [std::vector<std::string>]: [nil] outside of it. *)
Definition vector_at (v : list string) (i : number) : option string :=
  let k := match i with Integer z => z | Float f => sol_float_key f end in
  if 1 <=? k then v !! Z.to_nat (k - 1) else None.
Definition vector_len (v : list string) : Z := Z.of_nat (length v).

(** [v[i]] where a string is needed. *)
Definition string_at (v : list string) (i : number) : lua string :=
  match vector_at v i with Some s => mret s | None => lua_error "string expected, got nil" end.

(** [math.random(n)] *)
Definition math_random (n : number) : lua Z := λ k l,
  match to_integer n with
  | None => SDone l (Some "number has no integer representation")
  | Some up =>
      if up =? 0 then let '(r, l') := draw 0 l in k (wrap64 r) l'
      else if up <? 1 then SDone l (Some "interval is empty")
      else let '(r, l') := draw up l in k (1 + r mod up) l'
  end.

(** ** dice.lua *)

Definition dice (args : list string) : lua unit :=
  sides ← (if 0 <? vector_len args then
             a ← string_at args (Integer 1);
             match tonumber a with
             | Some input =>
                 if num_lt (Integer 1) input && num_le input (Integer 100)
                 then mret input else mret (Integer 6)
             | None => mret (Integer 6)
             end
           else mret (Integer 6));
  result ← math_random sides;
  user ← ctx_getUser;
  ctx_reply ("🎲 " +:+ user +:+ " rolled a " +:+ num_text (Integer result) +:+
             " (1-" +:+ num_text sides +:+ ")").

(** ** flip.lua, hello.lua, limited.lua, modcmd.lua *)

Definition flip (args : list string) : lua unit :=
  r ← math_random (Integer 2);
  let result := if r =? 1 then "Heads" else "Tails" in
  ctx_reply ("🪙 " +:+ result +:+ "!").

Definition hello (args : list string) : lua unit :=
  if 0 <? vector_len args then
    a ← string_at args (Integer 1);
    ctx_reply ("Hello " +:+ a +:+ "!")
  else
    user ← ctx_getUser;
    ctx_reply ("Hello " +:+ user +:+ "!").

Definition special (args : list string) : lua unit :=
  user ← ctx_getUser;
  ctx_reply ("🎉 Special subscriber command activated by " +:+ user +:+ "!").

Definition modcmd (args : list string) : lua unit :=
  user ← ctx_getUser;
  ctx_reply ("This is a moderator-only command executed by " +:+ user).

(** ** vip_joke.lua *)

Definition jokes : list string :=
  ["Why do VIPs never get lost? Because they always have priority directions!";
   "What did the VIP say to the regular viewer? 'Thanks for the support!'";
   "Why are VIPs like good code? They're both well-structured and valuable!"].

Definition vipjoke (args : list string) : lua unit :=
  r ← math_random (Integer (vector_len jokes));
  joke ← string_at jokes (Integer r);
  ctx_reply ("🌟 " +:+ joke).

(** ** sfx.lua *)

Definition sound_dir : string := "sounds".
Definition default_volume : number := Integer 70.

(** [math.max(0, math.min(100, volume))] *)
Definition clamp_volume (v : number) : number := num_max (Integer 0) (num_min (Integer 100) v).

(** [tonumber(args[2])] when there is a second argument. *)
Definition second_number (args : list string) : lua (option number) :=
  if 1 <? vector_len args then a ← string_at args (Integer 2); mret (tonumber a)
  else mret None.

(** The text of the list before its sounds. *)
Definition list_head : string := "Available sounds: ".

(** [for i = i, n]: with a float, the limit is a float too. *)
Definition for_goes_on (i : number) (n : Z) : bool :=
  match i with
  | Integer z => z <=? n
  | Float _ => num_le i (Float (flt_of_Z n))
  end.

(** The loop that fills a page, until the next sound does not fit into 450
    characters: the sounds of the page, or an error.  [None] when [fuel], a bound on
    the rounds, is used up. *)
Fixpoint page_loop (fuel : nat) (sounds : list string) (i : number) (page_sounds : list string)
    (current_length : Z) : option (string + list string) :=
  if for_goes_on i (vector_len sounds) then
    match fuel with
    | O => None
    | S fuel' =>
        match vector_at sounds i with
        | None => Some (inl "attempt to use a nil value (local 'sound_name')")
        | Some sound_name =>
            let test_addition :=
              if (0 <? length page_sounds)%nat then ", " +:+ sound_name else sound_name in
            let longer := current_length + Z.of_nat (String.length test_addition) in
            if 450 <? longer then Some (inr page_sounds)
            else page_loop fuel' sounds (num_add i (Integer 1)) (page_sounds ++ [sound_name]) longer
        end
    end
  else Some (inr page_sounds).

(** More rounds than the loop makes: a page holds fewer than 450 sounds, since each
    takes two characters but the first. *)
Definition page_fuel (sounds : list string) : nat := length sounds + 450.

Definition start_index (page : number) : number :=
  num_add (num_mul (num_sub page (Integer 1)) (Integer 15)) (Integer 1).

(** The sounds of a page. *)
Definition fill_page (sounds : list string) (page : number) : option (string + list string) :=
  page_loop (page_fuel sounds) sounds (start_index page) [] (Z.of_nat (String.length list_head)).

Definition sfx_list (args : list string) : lua unit :=
  n ← second_number args;
  let page := default (Integer 1) n in
  sounds ← ctx_listAudioFiles sound_dir;
  if vector_len sounds =? 0 then ctx_reply ("No sounds found in directory: " +:+ sound_dir)
  else
    match fill_page sounds page with
    | None => lua_error "out of fuel"
    | Some (inl what) => lua_error what
    | Some (inr []) =>
        ctx_reply ("Page " +:+ num_text page +:+ " is empty. Try a lower page number.")
    | Some (inr page_sounds) =>
        let response := list_head +:+ join ", " page_sounds in
        let total_pages :=
          num_ceil (num_div (Integer (vector_len sounds)) (Integer (vector_len page_sounds))) in
        let response :=
          if num_lt (Integer 1) total_pages
          then response +:+ " (Page " +:+ num_text page +:+ "/" +:+ num_text total_pages +:+ ")"
          else response in
        ctx_reply response
    end.

Definition sfx_random (args : list string) : lua unit :=
  sounds ← ctx_listAudioFiles sound_dir;
  if vector_len sounds =? 0 then ctx_reply "No sounds available for random selection"
  else
    r ← math_random (Integer (vector_len sounds));
    random_sound ← string_at sounds (Integer r);
    filepath ← ctx_findAudioFile random_sound sound_dir;
    if negb (str_empty filepath) then
      volume ← (if 1 <? vector_len args then
                  n ← second_number args; mret (clamp_volume (default default_volume n))
                else mret default_volume);
      played ← ctx_playSound filepath volume;
      if played : bool then ctx_reply ("Random sound: " +:+ random_sound)
      else ctx_reply ("Failed to play random sound: " +:+ random_sound)
    else ctx_reply "Could not find random sound file".

Definition sfx_play (sound_name : string) (args : list string) : lua unit :=
  n ← second_number args;
  let volume := from_option clamp_volume default_volume n in
  filepath ← ctx_findAudioFile sound_name sound_dir;
  if str_empty filepath then
    ctx_reply ("Sound '" +:+ sound_name +:+ "' not found. Try !sfx list")
  else
    played ← ctx_playSound filepath volume;
    if played : bool then ctx_reply sound_name
    else ctx_reply ("Failed to play sound: " +:+ sound_name).

Definition sfx (args : list string) : lua unit :=
  if vector_len args =? 0 then ctx_reply "Usage: !sfx <sound> | !sfx list | !sfx random"
  else
    a ← string_at args (Integer 1);
    let command := tolower a in
    if bool_decide (command = "list") then sfx_list args
    else if bool_decide (command = "random") then sfx_random args
    else sfx_play command args.

End Scripts.

(** ** The files *)

Inductive execute := Dice | Flip | Hello | Special | Modcmd | Sfx | Vipjoke.

#[global] Instance execute_eq_dec : EqDecision execute.
Proof. solve_decision. Defined.

(** The values the command tables are made of. *)
Inductive lua_value :=
  | VNil
  | VBool (b : bool)
  | VNumber (n : number)
  | VString (s : string)
  | VStrings (l : list string)                    (* a table of strings, from 1 on *)
  | VFunction (f : execute)
  | VTable (fields : list (string * lua_value)).

Definition dice_lua : lua_value := VTable
  [("name", VString "dice"); ("aliases", VStrings ["roll"; "d6"]);
   ("description", VString "Roll dice"); ("usage", VString "!dice [sides]");
   ("user_cooldown", VNumber (Integer 15)); ("max_uses_per_stream", VNumber (Integer 50));
   ("execute", VFunction Dice)].

Definition flip_lua : lua_value := VTable
  [("name", VString "flip"); ("aliases", VStrings ["coin"; "coinflip"]);
   ("description", VString "Flip a coin"); ("usage", VString "!flip");
   ("command_cooldown", VNumber (Integer 5)); ("execute", VFunction Flip)].

Definition hello_lua : lua_value := VTable
  [("name", VString "hello"); ("description", VString "Greet a user");
   ("usage", VString "!hello [username]"); ("user_cooldown", VNumber (Integer 10));
   ("execute", VFunction Hello)].

Definition limited_lua : lua_value := VTable
  [("name", VString "special"); ("description", VString "Special limited command");
   ("usage", VString "!special"); ("subscriber_only", VBool true);
   ("user_cooldown", VNumber (Integer 60)); ("command_cooldown", VNumber (Integer 10));
   ("max_uses_per_stream", VNumber (Integer 10)); ("execute", VFunction Special)].

Definition modcmd_lua : lua_value := VTable
  [("name", VString "modcmd"); ("description", VString "Moderator only command");
   ("usage", VString "!modcmd"); ("mod_only", VBool true); ("execute", VFunction Modcmd)].

Definition sfx_lua : lua_value := VTable
  [("name", VString "sfx"); ("aliases", VStrings ["sound"; "audio"; "play"]);
   ("description", VString "Play sound effects");
   ("usage", VString "!sfx <soundname> | !sfx list [page] | !sfx random");
   ("user_cooldown", VNumber (Integer 3)); ("command_cooldown", VNumber (Integer 1));
   ("execute", VFunction Sfx)].

Definition vip_joke_lua : lua_value := VTable
  [("name", VString "vipjoke"); ("description", VString "Tell a VIP joke");
   ("usage", VString "!vipjoke"); ("vip_only", VBool true);
   ("allowed_users", VStrings ["specificfriend"; "anotherfriend"]);
   ("command_cooldown", VNumber (Integer 30)); ("execute", VFunction Vipjoke)].

Definition shipped_files : list (string * lua_value) :=
  [("commands/dice.lua", dice_lua); ("commands/flip.lua", flip_lua);
   ("commands/hello.lua", hello_lua); ("commands/limited.lua", limited_lua);
   ("commands/modcmd.lua", modcmd_lua); ("commands/sfx.lua", sfx_lua);
   ("commands/vip_joke.lua", vip_joke_lua)].

(** ** The interpreter that knows them *)

Fixpoint assoc {A} (k : string) (l : list (string * A)) : option A :=
  match l with
  | [] => None
  | (k', a) :: l' => if decide (k = k') then Some a else assoc k l'
  end.

Definition lua_field (t : lua_value) (k : string) : lua_value :=
  match t with VTable fields => default VNil (assoc k fields) | _ => VNil end.

Definition lua_type_error : exn := mk_exn LuaError "stack index type mismatch".

Section Shipped.
Context {rng : LuaRandom} {sn : SolNumbers}.

Definition execute_body (f : execute) : list string → lua unit :=
  match f with
  | Dice => dice
  | Flip => flip
  | Hello => hello
  | Special => special
  | Modcmd => modcmd
  | Sfx => sfx
  | Vipjoke => vipjoke
  end.

(** A call of a command: what follows the last statement is the end of the call. *)
Definition call_command (f : execute) (args : list string) : Rng → script Rng :=
  execute_body f args (λ _ l, SDone l None).

Definition shipped_sol : SolApi := {|
  LuaState := Rng;
  LuaValue := lua_value;
  sol_open l := l;
  sol_script_file path l :=
    (Ok (from_option ScriptValue (ScriptError "cannot open file") (assoc path shipped_files)), l);
  sol_is_table v := match v with VTable _ | VStrings _ => true | _ => false end;
  sol_valid v := match v with VNil => false | _ => true end;
  sol_field _ t k := lua_field t k;
  sol_nth _ t i :=
    match t with VStrings l => from_option VString VNil (l !! pred i) | _ => VNil end;
  sol_size _ t := match t with VStrings l => length l | _ => 0%nat end;
  sol_as_string v := match v with VString s => Ok s | _ => Throw lua_type_error end;
  sol_as_table v := match v with VTable _ | VStrings _ => Ok v | _ => Throw lua_type_error end;
  sol_as_function v := match v with VFunction _ => Ok v | _ => Throw lua_type_error end;
  sol_get_or_string _ t k d := match lua_field t k with VString s => s | _ => d end;
  sol_get_or_int _ t k d := match lua_field t k with VNumber (Integer z) => z | _ => d end;
  sol_get_or_bool _ t k d := match lua_field t k with VBool b => b | _ => d end;
  sol_call l v args :=
    match v with
    | VFunction f => call_command f args l
    | _ => SDone l (Some "attempt to call a value that is no function")
    end;
|}.

End Shipped.
