(* ===== verification/ScriptFacts.v ===== *)
(** * Lemmas about the command scripts

    Running the pieces of a script, the comparison of numbers with integers, and the
    loop that fills a page of the sound list. *)

From Stdlib Require Import SpecFloat.
From S2P Require Import Prelude Cxx CommandParser AudioSystem Cooldown LuaEngine LuaFacts.
From S2P Require Import LuaNumbers Scripts.

(** ** Numbers *)

Lemma wrap64_small z : - 2 ^ 63 ≤ z < 2 ^ 63 → wrap64 z = z.
Proof.
  intros Hz. unfold wrap64. rewrite Z.mod_small; [lia|].
  replace (2 ^ 64) with (2 ^ 63 + 2 ^ 63) by reflexivity. lia.
Qed.

Lemma start_index_page p : Z.abs p ≤ 2 ^ 58 →
  start_index (Integer p) = Integer (15 * (p - 1) + 1).
Proof.
  intros Hp. change (2 ^ 58) with 288230376151711744 in Hp. cbn. f_equal.
  rewrite (wrap64_small (p - 1)), (wrap64_small ((p - 1) * 15)), wrap64_small; [lia|..];
    change (2 ^ 63) with 9223372036854775808; lia.
Qed.

(** A number with an integer representation compares like that integer. *)
Lemma to_integer_value n z : to_integer n = Some z →
  ∃ m e, value_of n = Finite m e ∧ m * 2 ^ (e - Z.min 0 e) = z * 2 ^ (- Z.min 0 e).
Proof.
  destruct n as [y|f]; cbn; [intros [= ->]; by exists z, 0|].
  destruct (float_value f) as [m e| |] eqn:Hv; [|done..].
  intros Hz. exists m, e. split; [done|]. revert Hz. case_match eqn:Hc; [|done]. intros [= <-].
  apply andb_true_iff in Hc as [Hc _]. destruct (0 <=? e) eqn:He; cbn [orb] in Hc.
  - apply Z.leb_le in He. rewrite Z.min_l, Z.sub_0_r, Z.opp_0 by done. lia.
  - apply Z.leb_gt in He. apply Z.eqb_eq in Hc. rewrite Z.min_r, Z.sub_diag by lia.
    pose proof (Z.div_mod m (2 ^ (- e)) ltac:(apply Z.pow_nonzero; lia)). lia.
Qed.

Lemma compare_to_integer n y z : to_integer n = Some z →
  num_compare (Integer y) n = Some (y ?= z) ∧ num_compare n (Integer y) = Some (z ?= y).
Proof.
  intros (m & e & Hv & Hm)%to_integer_value. unfold num_compare. rewrite Hv. cbn [value_of].
  rewrite (Z.min_comm e 0), !Z.sub_0_l, Hm.
  assert (Hp : 0 < 2 ^ (- Z.min 0 e)) by (apply Z.pow_pos_nonneg; lia).
  by rewrite !(Z.mul_comm _ (2 ^ (- Z.min 0 e))), <- !Zmult_compare_compat_l by lia.
Qed.

Lemma lt_to_integer n y z : to_integer n = Some z → num_lt (Integer y) n = (y <? z).
Proof. intros [Hc _]%(compare_to_integer _ y). unfold num_lt, Z.ltb. by rewrite Hc. Qed.
Lemma le_to_integer n y z : to_integer n = Some z → num_le n (Integer y) = (z <=? y).
Proof. intros [_ Hc]%(compare_to_integer _ y). unfold num_le, Z.leb. rewrite Hc. by destruct (z ?= y). Qed.

(** ** Running the pieces of a script *)

Section Running.
Context {rng : LuaRandom} {sn : SolNumbers}.
#[local] Existing Instance shipped_sol.
Context {H St : Type} {host : EngineHost H St} {laws : EngineHostLaws H St}.
Variable ma_success : list ma_call → ma_call → bool.
Implicit Types (s : St) (l : Rng).

(** The end of a script: the state of the interpreter is kept. *)
Definition finish l (error : option string) : M St (option string) :=
  on_engine (modify (set_lua l)) ;; mret error.

Lemma run_reply ctx `{!ReplyOk ctx} m (k : unit → Rng → script Rng) l s :
  run_script ma_success ctx (ctx_reply m k l) s =
    (reply ctx m ;; run_script ma_success ctx (k tt l)) s.
Proof.
  unfold ctx_reply, ctx_method, mbind, lua_bind, M_bind. cbn [run_script ctx_call].
  unfold mbind, M_bind. by destruct (reply_ok m s) as (s' & -> & _).
Qed.

Lemma run_getUser ctx (k : string → Rng → script Rng) l s :
  run_script ma_success ctx (ctx_getUser k l) s =
    run_script ma_success ctx (k (user (message ctx)) l) s.
Proof. done. Qed.

Lemma run_listAudioFiles ctx dir sounds (k : list string → Rng → script Rng) l s :
  listAudioFiles (host_fs s) (m_audio_system (engine_of s)) dir = Ok sounds →
  run_script ma_success ctx (ctx_listAudioFiles dir k l) s =
    run_script ma_success ctx (k sounds l) s.
Proof.
  intros Hl. unfold ctx_listAudioFiles, ctx_method. unfold mbind, lua_bind.
  cbn [run_script ctx_call]. by rewrite Hl.
Qed.

Lemma run_findAudioFile ctx name dir file (k : string → Rng → script Rng) l s :
  findAudioFile (host_fs s) (m_audio_system (engine_of s)) name dir = Ok file →
  run_script ma_success ctx (ctx_findAudioFile name dir k l) s =
    run_script ma_success ctx (k file l) s.
Proof.
  intros Hf. unfold ctx_findAudioFile, ctx_method. unfold mbind, lua_bind.
  cbn [run_script ctx_call]. by rewrite Hf.
Qed.

Lemma random_spec n z (k : Z → Rng → script Rng) l : to_integer n = Some z → 1 ≤ z →
  ∃ r l', 1 ≤ r ≤ z ∧ math_random n k l = k r l'.
Proof.
  intros Hn Hz. unfold math_random. rewrite Hn.
  rewrite (proj2 (Z.eqb_neq z 0)), (proj2 (Z.ltb_ge z 1)) by lia.
  destruct (draw z l) as [r l']. exists (1 + r mod z), l'. split; [|done].
  pose proof (Z.mod_pos_bound r z). lia.
Qed.

End Running.

(** ** A page of the sound list *)

Section Page.
Context {sn : SolNumbers}.

Definition page_text (l : list string) : string := list_head +:+ join ", " l.
Definition page_length (l : list string) : Z := Z.of_nat (String.length (page_text l)).

(** The sounds of [rest] that still fit after [shown], in the order of the list. *)
Fixpoint fitting (shown rest : list string) : list string :=
  match rest with
  | [] => []
  | x :: rest' =>
      if 450 <? page_length (shown ++ [x]) then [] else x :: fitting (shown ++ [x]) rest'
  end.

Lemma page_length_snoc shown x :
  page_length (shown ++ [x]) = page_length shown +
    Z.of_nat (String.length (if (0 <? length shown)%nat then ", " +:+ x else x)).
Proof.
  unfold page_length, page_text. destruct shown as [|y shown].
  - rewrite !str_length_app. cbn [app join length Nat.ltb Nat.leb String.length]. lia.
  - rewrite join_app by done. cbn [length Nat.ltb Nat.leb]. rewrite !str_length_app.
    cbn [join String.length]. lia.
Qed.

Lemma vector_at_index sounds before x rest :
  sounds = before ++ x :: rest → vector_at sounds (Integer (vector_len before + 1)) = Some x.
Proof.
  intros ->. unfold vector_at, vector_len. rewrite (proj2 (Z.leb_le _ _)) by lia.
  replace (Z.to_nat _) with (length before) by lia. by rewrite list_lookup_middle.
Qed.

Lemma page_loop_done fuel sounds i shown len :
  for_goes_on i (vector_len sounds) = false → page_loop fuel sounds i shown len = Some (inr shown).
Proof. intros Hi. destruct fuel; cbn [page_loop]; by rewrite Hi. Qed.

Lemma page_loop_nil fuel sounds i shown len :
  (0 < fuel)%nat → for_goes_on i (vector_len sounds) = true → vector_at sounds i = None →
  ∃ what, page_loop fuel sounds i shown len = Some (inl what).
Proof. intros Hf Hi Hv. destruct fuel; [lia|]. cbn [page_loop]. rewrite Hi, Hv. by eexists. Qed.

Lemma page_loop_fitting fuel before rest shown :
  (length rest ≤ fuel)%nat → Z.of_nat (length (before ++ rest)) < 2 ^ 62 →
  page_loop fuel (before ++ rest) (Integer (vector_len before + 1)) shown (page_length shown) =
    Some (inr (shown ++ fitting shown rest)).
Proof.
  revert before rest shown. induction fuel as [|fuel IH]; intros before rest shown Hf Hb.
  - destruct rest; cbn in Hf; [|lia]. rewrite !app_nil_r. cbn [page_loop for_goes_on].
    by rewrite (proj2 (Z.leb_gt _ _)) by lia.
  - cbn [page_loop for_goes_on]. destruct rest as [|x rest]; cbn [fitting].
    { rewrite !app_nil_r. by rewrite (proj2 (Z.leb_gt _ _)) by lia. }
    rewrite (proj2 (Z.leb_le _ _)) by (unfold vector_len; rewrite length_app; cbn; lia).
    rewrite (vector_at_index _ before x rest) by done. rewrite <- page_length_snoc.
    destruct (450 <? page_length (shown ++ [x])); [by rewrite app_nil_r|].
    replace (num_add _ _) with (Integer (vector_len (before ++ [x]) + 1)).
    + replace (before ++ x :: rest) with ((before ++ [x]) ++ rest) by by rewrite <- app_assoc.
      rewrite IH; [by rewrite <- app_assoc|cbn in Hf; lia|by rewrite <- app_assoc].
    + cbn. f_equal. unfold vector_len. rewrite !length_app in *. cbn in *.
      rewrite wrap64_small; [lia|]. change (2 ^ 63) with (2 ^ 62 + 2 ^ 62). lia.
Qed.

(** With any page number, the fuel is enough: every sound but the first takes two
    characters. *)
Lemma page_loop_total fuel sounds i shown len :
  (0 < length shown)%nat → len ≤ 450 → 450 - len < 2 * Z.of_nat fuel →
  is_Some (page_loop fuel sounds i shown len).
Proof.
  revert i shown len. induction fuel as [|fuel IH]; intros i shown len Hs Hl Hf; cbn [page_loop].
  - lia.
  - destruct (for_goes_on i _); [|done]. destruct (vector_at sounds i) as [x|]; [|done].
    rewrite (proj2 (Nat.ltb_lt _ _)) by done. rewrite str_length_app.
    case_match eqn:Hlong; [done|]. apply Z.ltb_ge in Hlong.
    apply IH; [rewrite length_app; lia|done|]. cbn [String.length] in *. lia.
Qed.

Lemma fill_page_total sounds page : is_Some (fill_page sounds page).
Proof.
  unfold fill_page, page_fuel. destruct (length sounds + 450)%nat as [|fuel] eqn:Hf; [lia|].
  cbn [page_loop]. destruct (for_goes_on _ _); [|done].
  destruct (vector_at _ _) as [x|]; [|done]. cbn [length Nat.ltb Nat.leb].
  case_match eqn:Hlong; [done|]. apply Z.ltb_ge in Hlong.
  apply page_loop_total; [cbn; lia|done|lia].
Qed.

(** A page of the list: the sounds from the fifteenth multiple on, as many as fit. *)
Definition page_start (p : Z) : nat := Z.to_nat (15 * (p - 1)).
Definition page_sounds (sounds : list string) (p : Z) : list string :=
  fitting [] (drop (page_start p) sounds).

Lemma fill_page_fitting sounds p : 1 ≤ p ≤ 2 ^ 58 → Z.of_nat (length sounds) < 2 ^ 62 →
  fill_page sounds (Integer p) = Some (inr (page_sounds sounds p)).
Proof.
  intros Hp Hn. unfold fill_page. rewrite start_index_page by lia.
  destruct (decide (page_start p < length sounds)%nat) as [Hin|Hout].
  - rewrite <- (take_drop (page_start p) sounds) at 2.
    replace (15 * (p - 1) + 1) with (vector_len (take (page_start p) sounds) + 1).
    + apply (page_loop_fitting _ _ _ []).
      * rewrite length_drop. unfold page_fuel. lia.
      * by rewrite take_drop.
    + unfold vector_len, page_start in *. rewrite length_take. lia.
  - unfold page_sounds. rewrite drop_ge by lia. apply page_loop_done. cbn [for_goes_on].
    apply Z.leb_gt. unfold vector_len, page_start in *. lia.
Qed.

Lemma fill_page_below sounds p : - 2 ^ 58 ≤ p ≤ 0 →
  ∃ what, fill_page sounds (Integer p) = Some (inl what).
Proof.
  intros Hp. unfold fill_page. rewrite start_index_page by lia. apply page_loop_nil.
  - unfold page_fuel. lia.
  - cbn [for_goes_on]. apply Z.leb_le. unfold vector_len. lia.
  - unfold vector_at. by rewrite (proj2 (Z.leb_gt _ _)) by lia.
Qed.

(** ** Sounds no page shows *)

Lemma fitting_prefix shown rest : fitting shown rest `prefix_of` rest.
Proof.
  revert shown. induction rest as [|x rest IH]; intros shown; cbn; [done|].
  destruct (450 <? _); [apply prefix_nil|by apply prefix_cons].
Qed.

Lemma page_length_app l1 l2 : page_length l2 ≤ page_length (l1 ++ l2).
Proof.
  induction l1 as [|x l1 IH]; [done|]. etrans; [exact IH|]. unfold page_length, page_text.
  change ((x :: l1) ++ l2) with ([x] ++ (l1 ++ l2)). destruct (l1 ++ l2) as [|y l].
  - rewrite !str_length_app. cbn [app join String.length]. lia.
  - rewrite join_app by done. rewrite !str_length_app. lia.
Qed.

Lemma page_length_prefix l1 l2 : page_length l1 ≤ page_length (l1 ++ l2).
Proof.
  induction l2 as [|x l2 IH] using rev_ind; [by rewrite app_nil_r|].
  rewrite app_assoc, page_length_snoc. lia.
Qed.

Lemma fitting_length shown rest :
  page_length shown ≤ 450 → page_length (shown ++ fitting shown rest) ≤ 450.
Proof.
  revert shown. induction rest as [|x rest IH]; intros shown Hs; cbn [fitting]; [by rewrite app_nil_r|].
  destruct (450 <? page_length (shown ++ [x])) eqn:Hl; [by rewrite app_nil_r|]. apply Z.ltb_ge in Hl.
  replace (shown ++ x :: _) with ((shown ++ [x]) ++ fitting (shown ++ [x]) rest) by by rewrite <- app_assoc.
  by apply IH.
Qed.

(** A page that stops before the end of the list stops because the next sound does
    not fit. *)
Lemma fitting_stops shown rest : (length (fitting shown rest) < length rest)%nat →
  ∃ x rest', rest = fitting shown rest ++ x :: rest' ∧
    450 < page_length (shown ++ fitting shown rest ++ [x]).
Proof.
  revert shown. induction rest as [|x rest IH]; intros shown; cbn [fitting length]; [lia|].
  destruct (450 <? page_length (shown ++ [x])) eqn:Hl.
  - apply Z.ltb_lt in Hl. intros _. by exists x, rest.
  - cbn [length]. intros Hlt. destruct (IH (shown ++ [x])) as (y & rest' & Hr & Hy); [lia|].
    exists y, rest'. split; [by rewrite Hr at 1|]. by rewrite <- app_assoc in Hy.
Qed.

Lemma page_sounds_length sounds p : page_length (page_sounds sounds p) ≤ 450.
Proof. apply (fitting_length []). reflexivity || (vm_compute; discriminate). Qed.

Lemma page_rest sounds p :
  ∃ rest, drop (page_start p) sounds = page_sounds sounds p ++ rest ∧
    match rest with [] => True | x :: _ => 450 < page_length (page_sounds sounds p ++ [x]) end.
Proof.
  destruct (fitting_prefix [] (drop (page_start p) sounds)) as [rest Hr].
  exists rest. split; [done|]. destruct rest as [|y rest]; [done|].
  destruct (fitting_stops [] (drop (page_start p) sounds)) as (x & rest' & Hr' & Hx).
  { rewrite Hr at 2. rewrite length_app. cbn. lia. }
  rewrite Hr in Hr' at 1. apply app_inv_head in Hr'. by injection Hr' as -> ->.
Qed.

(** The position [i] of the list is on page [p]. *)
Definition on_page (sounds : list string) (p : Z) (i : nat) : Prop :=
  (page_start p ≤ i < page_start p + length (page_sounds sounds p))%nat.

(** The sounds between two positions of a page. *)
Lemma on_page_between sounds p i j : (page_start p ≤ i ≤ j)%nat → on_page sounds p j →
  page_length (take (S j - i) (drop i sounds)) ≤ 450.
Proof.
  intros Hi [Hj1 Hj2]. etrans; [|apply (page_sounds_length sounds p)].
  unfold page_sounds in *. destruct (fitting_prefix [] (drop (page_start p) sounds)) as [rest Hr].
  set (l := fitting [] (drop (page_start p) sounds)) in *.
  replace (take (S j - i) (drop i sounds)) with (take (S j - i) (drop (i - page_start p) l)).
  - rewrite <- (take_drop (i - page_start p) l) at 2. etrans; [|apply page_length_app].
    rewrite <- (take_drop (S j - i) (drop (i - page_start p) l)) at 2. apply page_length_prefix.
  - replace (drop i sounds) with (drop (i - page_start p) (drop (page_start p) sounds))
      by (rewrite drop_drop; f_equal; lia).
    rewrite Hr, drop_app_le by lia. rewrite take_app_le; [done|]. rewrite length_drop. lia.
Qed.

(** A sound before the start of the next page that does not fit is on no page. *)
Lemma missed sounds p i p' : 1 ≤ p →
  i = (page_start p + length (page_sounds sounds p))%nat → (i < length sounds)%nat →
  (length (page_sounds sounds p) < 15)%nat → 1 ≤ p' → ¬ on_page sounds p' i.
Proof.
  intros Hp Hi Hn H15 Hp' Hon.
  destruct (Z.lt_trichotomy p' p) as [Hlt|[->|Hgt]].
  - destruct (fitting_stops [] (drop (page_start p) sounds)) as (x & rest & Hr & Hx).
    { fold (page_sounds sounds p). rewrite length_drop. lia. }
    fold (page_sounds sounds p) in Hr, Hx. cbn [app] in Hx.
    assert (Hb : page_length (take (S i - page_start p) (drop (page_start p) sounds)) ≤ 450).
    { apply (on_page_between _ p'); [|done]. unfold page_start in *. lia. }
    rewrite Hr in Hb. replace (S i - page_start p)%nat with (S (length (page_sounds sounds p))) in Hb by lia.
    replace (_ ++ x :: rest) with ((page_sounds sounds p ++ [x]) ++ rest) in Hb by by rewrite <- app_assoc.
    rewrite take_app_length' in Hb by (rewrite length_app; cbn; lia). lia.
  - unfold on_page in Hon. lia.
  - unfold on_page, page_start in *. lia.
Qed.

End Page.
