(* ===== verification/LuaProperties.v ===== *)
(** * Properties of the Lua command engine

    The theorems about [LuaEngine], a concrete interpreter and program state in
    which their hypotheses hold, and the laws of sol2 that reading a command
    table relies on. *)

From S2P Require Import Prelude Cxx CommandParser AudioSystem Cooldown LuaEngine LuaFacts.
From S2P Require Import LuaNumbers Scripts.

(** ** Documented behaviour of sol2 tables

    Literal Lua values; [get_or] gives the value of a field of the requested
    type and the default for an absent one. *)

Inductive lua_literal :=
  | LNil
  | LString (s : string)
  | LInt (z : Z)
  | LBool (b : bool).

#[global] Instance lua_literal_eq_dec : EqDecision lua_literal.
Proof. solve_decision. Defined.

Class SolLaws {sol : SolApi} := {
  lua_lit : lua_literal → LuaValue;
  valid_lit x : sol_valid (lua_lit x) = negb (bool_decide (x = LNil));
  as_string_lit s : sol_as_string (lua_lit (LString s)) = Ok s;
  get_or_string_nil l t k d : sol_field l t k = lua_lit LNil → sol_get_or_string l t k d = d;
  get_or_string_lit l t k d s :
    sol_field l t k = lua_lit (LString s) → sol_get_or_string l t k d = s;
  get_or_int_nil l t k d : sol_field l t k = lua_lit LNil → sol_get_or_int l t k d = d;
  get_or_int_lit l t k d z : sol_field l t k = lua_lit (LInt z) → sol_get_or_int l t k d = z;
  get_or_bool_nil l t k d : sol_field l t k = lua_lit LNil → sol_get_or_bool l t k d = d;
  get_or_bool_lit l t k d b : sol_field l t k = lua_lit (LBool b) → sol_get_or_bool l t k d = b;
}.

(** ** A command table as its author writes it *)

Record command_description := mk_description {
  d_strings : gmap string string;
  d_ints : gmap string Z;
  d_bools : gmap string bool;
  d_lists : gmap string (list string);
}.

Section Described.
Context {sol : SolApi} {sl : SolLaws}.

Definition describes (l : LuaState) (t : LuaValue) (d : command_description) : Prop :=
  (∀ k, k ∈ ["name"; "description"; "usage"] →
     sol_field l t k = lua_lit (from_option LString LNil (d_strings d !! k))) ∧
  (∀ k, k ∈ ["global_cooldown"; "command_cooldown"; "user_cooldown"; "max_uses_per_stream"] →
     sol_field l t k = lua_lit (from_option LInt LNil (d_ints d !! k))) ∧
  (∀ k, k ∈ ["mod_only"; "vip_only"; "subscriber_only"; "enabled"] →
     sol_field l t k = lua_lit (from_option LBool LNil (d_bools d !! k))) ∧
  (∀ k, k ∈ ["aliases"; "allowed_users"] →
     match d_lists d !! k with
     | None => sol_field l t k = lua_lit LNil
     | Some ss =>
         ∃ v, sol_valid (sol_field l t k) = true ∧ sol_as_table (sol_field l t k) = Ok v ∧
           sol_size l v = length ss ∧
           ∀ i s, ss !! i = Some s → sol_nth l v (S i) = lua_lit (LString s)
     end).

(** The metadata a description stands for. *)
Definition metadata_of (d : command_description) (default_name : string) : CommandMetadata :=
  let str k x := default x (d_strings d !! k) in
  let int k x := default x (d_ints d !! k) in
  let flag k x := default x (d_bools d !! k) in
  let lst k := default [] (d_lists d !! k) in
  mk_Metadata (str "name" default_name) (str "description" "")
    (str "usage" ("!" +:+ str "name" default_name)) (lst "aliases")
    (int "global_cooldown" 0) (int "command_cooldown" 0) (int "user_cooldown" 0)
    (flag "mod_only" false) (flag "vip_only" false) (flag "subscriber_only" false)
    (lst "allowed_users") (flag "enabled" true) (int "max_uses_per_stream" (-1)).

Lemma lua_strings_spec l v ss i0 (ss0 : list string) :
  (∀ i s, (ss0 ++ ss) !! i = Some s → sol_nth l v (S i) = lua_lit (LString s)) →
  i0 = S (length ss0) →
  lua_strings l v i0 (length ss) = Ok ss.
Proof.
  revert i0 ss0. induction ss as [|s ss IH]; intros i0 ss0 Hn ->; [done|].
  cbn [length lua_strings].
  rewrite (Hn (length ss0) s) by (by rewrite lookup_app_r, Nat.sub_diag by lia).
  rewrite valid_lit, as_string_lit. simpl.
  rewrite (IH (S (S (length ss0))) (ss0 ++ [s])); [done| |rewrite length_app; simpl; lia].
  intros i x. rewrite <- app_assoc. apply Hn.
Qed.

Lemma lua_string_list_spec l t d k :
  describes l t d → k ∈ ["aliases"; "allowed_users"] →
  lua_string_list l t k = Ok (default [] (d_lists d !! k)).
Proof.
  intros (_ & _ & _ & Hl) Hk. specialize (Hl k Hk). unfold lua_string_list.
  destruct (d_lists d !! k) as [ss|]; simpl.
  - destruct Hl as (v & Hv & Ht & Hsz & Hn). rewrite Hv, Ht. simpl. rewrite Hsz. by apply (lua_strings_spec l v ss 1 []).
  - by rewrite Hl, valid_lit.
Qed.

Lemma described_string l t d k x :
  describes l t d → k ∈ ["name"; "description"; "usage"] →
  sol_get_or_string l t k x = default x (d_strings d !! k).
Proof.
  intros (Hs & _) Hk. specialize (Hs k Hk). destruct (d_strings d !! k); simpl in *;
    eauto using get_or_string_lit, get_or_string_nil.
Qed.

Lemma described_int l t d k x :
  describes l t d →
  k ∈ ["global_cooldown"; "command_cooldown"; "user_cooldown"; "max_uses_per_stream"] →
  sol_get_or_int l t k x = default x (d_ints d !! k).
Proof.
  intros (_ & Hs & _) Hk. specialize (Hs k Hk). destruct (d_ints d !! k); simpl in *;
    eauto using get_or_int_lit, get_or_int_nil.
Qed.

Lemma described_bool l t d k x :
  describes l t d → k ∈ ["mod_only"; "vip_only"; "subscriber_only"; "enabled"] →
  sol_get_or_bool l t k x = default x (d_bools d !! k).
Proof.
  intros (_ & _ & Hs & _) Hk. specialize (Hs k Hk). destruct (d_bools d !! k); simpl in *;
    eauto using get_or_bool_lit, get_or_bool_nil.
Qed.

End Described.

(** ** A concrete interpreter and program state *)

(** The values of [Scripts] are such tables. *)
Definition literal_value (x : lua_literal) : lua_value :=
  match x with
  | LNil => VNil
  | LString s => VString s
  | LInt z => VNumber (Integer z)
  | LBool b => VBool b
  end.

#[global] Instance shipped_sol_laws {rng : LuaRandom} {sn : SolNumbers} : SolLaws (sol := shipped_sol).
Proof.
  refine {| lua_lit := literal_value : lua_literal → @LuaValue shipped_sol |};
    try (by intros []); try done;
    intros l t k; intros; cbn in *;
    match goal with E : lua_field t k = _ |- _ => by rewrite E end.
Defined.

(** The interpreter of the repository's scripts, with a generator that always draws
    the same number. *)
#[global] Instance demo_random : LuaRandom := {| Rng := unit; draw _ l := (3, l) |}.
#[global] Instance demo_numbers : SolNumbers := {|
  sol_float_key f := default 0 (to_integer (Float f));
  sol_float_int f := to_integer (Float f);
|}.
#[global] Instance demo_sol : SolApi := shipped_sol.

(** A program state: engine, parser, replies sent, and the clock, which advances
    by one second at every reading. *)
Inductive demo_handler := DemoLua (name : string) (f : lua_value).

Record demo_state := mk_demo {
  demo_engine : @LuaCommandEngine demo_sol;
  demo_parser : CommandParser demo_handler;
  demo_out : list string;
  demo_clock : Z;
}.

#[global] Instance demo_host : EngineHost demo_handler demo_state := {|
  engine_of := demo_engine;
  set_engine e s := mk_demo e (demo_parser s) (demo_out s) (demo_clock s);
  host_parser := demo_parser;
  set_host_parser p s := mk_demo (demo_engine s) p (demo_out s) (demo_clock s);
  host_fs _ := demo_fs;
  steady_now s := let t := demo_clock s + second in
                  (Ok t, mk_demo (demo_engine s) (demo_parser s) (demo_out s) t);
  last_now := demo_clock;
|}.

#[global] Instance demo_host_laws : EngineHostLaws demo_handler demo_state.
Proof.
  constructor; try done. intros s. eexists _, _. split; [done|]. simpl.
  split_and!; try done. unfold second. lia.
Qed.

Definition demo_reply (m : string) : M demo_state unit :=
  modify (λ s, mk_demo (demo_engine s) (demo_parser s) (demo_out s ++ [m]) (demo_clock s)).

Definition demo_ctx (u : string) (b : list string) : CommandContext demo_state :=
  mk_CommandContext (mk_ChatMessage u "!dice" "" b) "dice" [] demo_reply.

#[global] Instance demo_reply_ok u b : ReplyOk (demo_ctx u b).
Proof. intros m s. eexists. split; [done|]. by repeat split. Qed.

Definition demo_fun : @LuaValue demo_sol := VFunction Dice.
Definition demo_lua : string → @LuaValue demo_sol → demo_handler := DemoLua.
Definition demo_ma : list ma_call → ma_call → bool := λ _ _, true.

(** The engine after loading the two command files. *)
Definition demo_files : FileSystem := mk_FileSystem
  (λ p, Ok (bool_decide (p ∈ ["commands"; "commands/dice.lua"; "commands/limited.lua"])))
  (λ p, Ok (bool_decide (p = "commands")))
  (λ p, Ok (bool_decide (p ∈ ["commands/dice.lua"; "commands/limited.lua"])))
  (λ _, ([("commands/dice.lua", true); ("commands/readme.txt", true);
          ("commands/limited.lua", true)], None))
  (fs_weakly_canonical demo_fs).

Definition demo_loaded : Z * @LuaCommandEngine demo_sol :=
  match loadCommandsFromDirectory demo_files "commands"
          (engine_initialize (new_LuaCommandEngine demo_ma tt demo_fs)) with
  | (Ok n, e) => (n, e)
  | (_, e) => (-1, e)
  end.

Definition demo_start : demo_state := Eval vm_compute in
  mk_demo (snd demo_loaded) new_CommandParser [] (100 * second).

Lemma has_any_spec {St} l (ctx : CommandContext St) :
  has_any l ctx = true ↔ Exists (λ b, b ∈ badges (message ctx)) l.
Proof.
  unfold has_any. rewrite existsb_exists, Exists_exists. setoid_rewrite bool_decide_eq_true.
  setoid_rewrite <- list_elem_of_In. naive_solver.
Qed.

(** ** Properties *)

Section Properties.
Context {sol : SolApi} {H St : Type} {host : EngineHost H St} {laws : EngineHostLaws H St}.
Variable ma_success : list ma_call → ma_call → bool.

(** C6.  Rate limiting: in every history of calls of Lua commands, by any users and
    for any commands, with anything in between that leaves the cooldowns alone, a
    script starts no earlier than the configured cooldown after every earlier script
    ended: the global cooldown after any command, the command cooldown after a call
    under the same registered name, and the user cooldown after a call under the
    same name by the same user.  An alias is a registered name of its own. *)
Theorem cooldown_spacing s l1 run1 l2 run2 l3 s' meta :
  history ma_success s (l1 ++ run1 :: l2 ++ run2 :: l3) s' → tracker_wf s →
  m_command_metadata (engine_of s) !! run_name run2 = Some meta →
  (0 < global_cooldown meta → run_end run1 + global_cooldown meta * second ≤ run_start run2) ∧
  (run_name run1 = run_name run2 → 0 < command_cooldown meta →
   run_end run1 + command_cooldown meta * second ≤ run_start run2) ∧
  (run_name run1 = run_name run2 → run_user run1 = run_user run2 → 0 < user_cooldown meta →
   run_end run1 + user_cooldown meta * second ≤ run_start run2).
Proof.
  intros Hh Hwf Hm.
  apply history_runs, runs_split in Hh as (s1 & s2 & ctx & t2 & Hmd & Hwf2 & Hh & Hu & Hte & Hx);
    [|done].
  assert (Hin : run2 ∈ l2 ++ run2 :: l3) by (apply elem_of_app; right; apply list_elem_of_here).
  pose proof (runs_respect _ _ _ _ Hh Hwf2 Hin meta) as Hr.
  unfold same_metadata in Hmd. rewrite Hmd in Hr. destruct (Hr Hm) as (Hg & Hc & Huc).
  apply executes_tracker in Hx as (Hrec & _).
  pose proof (recordUsage_fields _ _ _ _ _ Hrec) as (Hlg & Hlc & _).
  rewrite Hlg in Hg. rewrite Hlc in Hc.
  setoid_rewrite (recordUsage_user_last _ _ _ _ _ _ _ Hrec) in Huc.
  unfold within_cooldown in *. split_and!.
  - lia.
  - intros Hn Hpos. specialize (Hc t2). rewrite Hn, lookup_insert_eq in Hc.
    specialize (Hc eq_refl). lia.
  - intros Hn Hue Hpos. specialize (Huc t2).
    rewrite decide_True in Huc by (split; congruence). specialize (Huc eq_refl). lia.
Qed.

(** C30.  Usage limit: in every history of calls of Lua commands, with anything in
    between that leaves the counters alone, the scripts run under a registered name
    with a positive limit are at most as many as the limit leaves, and the counter of
    that name counts them.  An alias is a registered name with a counter of its own. *)
Theorem usage_limit s runs s' name meta :
  history ma_success s runs s' →
  m_command_metadata (engine_of s) !! name = Some meta → 0 < max_uses_per_stream meta →
  uses (engine_of s') name = uses (engine_of s) name + count_name name runs ∧
  (uses (engine_of s) name ≤ max_uses_per_stream meta →
   count_name name runs ≤ max_uses_per_stream meta - uses (engine_of s) name).
Proof.
  intros Hh%history_runs Hm Hpos. pose proof (runs_uses _ _ _ name Hh).
  pose proof (runs_limit _ _ _ _ _ Hh Hm Hpos). split; [done|]. lia.
Qed.

(** C7.  Guards of a command call: whatever the Lua function of a command does, a
    call of its handler either leaves the engine exactly as it was (no script
    run, nothing recorded), or the command has metadata, is enabled, the user is
    permitted, no cooldown is running and the stream limit is not reached; and
    it never throws. *)
Theorem handler_guarded name fn ctx `{!ReplyOk ctx} s r s' :
  lua_handler_body ma_success name fn ctx s = (r, s') →
  (∀ e, r ≠ Throw e) ∧
  (r ≠ Undefined → engine_of s' ≠ engine_of s →
   ∃ meta now, m_command_metadata (engine_of s) !! name = Some meta ∧ last_now s ≤ now ∧
     enabled meta = true ∧ hasPermission ctx meta = true ∧
     isOnCooldown (m_cooldown_tracker (engine_of s)) now name (user (message ctx)) meta = false ∧
     (0 < max_uses_per_stream meta → uses (engine_of s) name < max_uses_per_stream meta) ∧
     uses (engine_of s') name = uses (engine_of s) name + 1).
Proof.
  intros Hb. apply handler_cases in Hb as [->|[-> Hc]]; [by split| |done]. split; [done|].
  intros _ Hne. destruct Hc as [(_ & ? & _)|(t1 & t2 & te & _ & _ & Hx)]; [done|].
  pose proof (executes_uses _ _ _ _ _ _ name Hx) as Hu. rewrite decide_True in Hu by done.
  destruct Hx as (meta & tr & ? & ? & ? & ? & ? & ? & _). eauto 10.
Qed.


(** Permissions: a user may run a command exactly when the command lists the
    user by name, or the user's badges satisfy every restriction set (moderator
    commands need a moderator or broadcaster badge, VIP commands also accept a
    VIP badge, subscriber commands also a subscriber badge); in particular the
    broadcaster may run every command. *)
Theorem hasPermission_spec (ctx : CommandContext St) meta :
  let has b := b ∈ badges (message ctx) in
  let as_mod := has "moderator" ∨ has "broadcaster" in
  let as_vip := has "vip" ∨ as_mod in
  let as_sub := has "subscriber" ∨ as_vip in
  (hasPermission ctx meta = true ↔
   user (message ctx) ∈ allowed_users meta ∨
   ((mod_only meta = true → as_mod) ∧ (vip_only meta = true → as_vip) ∧
    (subscriber_only meta = true → as_sub))) ∧
  (has "broadcaster" → hasPermission ctx meta = true).
Proof.
  intros has as_mod as_vip as_sub.
  assert (Hm : isModerator ctx = true ↔ as_mod).
  { unfold isModerator, as_mod. rewrite has_any_spec, !Exists_cons, Exists_nil. tauto. }
  assert (Hv : isVip ctx = true ↔ as_vip).
  { unfold isVip, as_vip, as_mod. rewrite has_any_spec, !Exists_cons, Exists_nil. tauto. }
  assert (Hs : isSubscriber ctx = true ↔ as_sub).
  { unfold isSubscriber, as_sub, as_vip, as_mod. rewrite has_any_spec, !Exists_cons, Exists_nil. tauto. }
  assert (Hiff : hasPermission ctx meta = true ↔
   user (message ctx) ∈ allowed_users meta ∨
   ((mod_only meta = true → as_mod) ∧ (vip_only meta = true → as_vip) ∧
    (subscriber_only meta = true → as_sub))).
  { rewrite <- Hm, <- Hv, <- Hs. unfold hasPermission. case_bool_decide; [tauto|].
    destruct (mod_only meta), (vip_only meta), (subscriber_only meta), (isModerator ctx),
      (isVip ctx), (isSubscriber ctx); simpl; naive_solver. }
  split; [exact Hiff|]. intros Hb. apply Hiff. right. unfold as_sub, as_vip, as_mod. tauto.
Qed.

End Properties.

(** C31.  Loading a command file is all or nothing: on success the file's name and
    each of its aliases, and nothing else, map to the file and to one and the
    same metadata; on every failure (engine not initialised, missing file,
    script error, exception) both maps are unchanged; cooldowns, audio system
    and initialisation are never touched. *)
Theorem loadLuaCommand_atomic {sol : SolApi} fs file e :
  let r := fst (loadLuaCommand fs file e) in
  let e' := snd (loadLuaCommand fs file e) in
  load_frame e e' ∧
  ((r = Ok true ∧ ∃ name md, name ≠ "" ∧ loaded_as name file md e e') ∨
   (r ≠ Ok true ∧ same_commands e e')).
Proof.
  destruct (loadLuaCommand fs file e) as [r e'] eqn:Hl. simpl.
  apply loadLuaCommand_cases in Hl as [Hf [(? & _ & _ & ?)|?]]; auto.
Qed.

(** Reading a command table: for a Lua table that holds the fields of a
    description with their documented types, [parseCommandMetadata] returns
    those values, with the documented default for every absent field (usage
    falls back to "!" and the name, the stream limit to -1, enabled to true). *)
Theorem parseCommandMetadata_described {sol : SolApi} {sl : SolLaws} l t d default_name :
  describes l t d →
  parseCommandMetadata l t default_name = Ok (metadata_of d default_name).
Proof.
  intros Hd. unfold parseCommandMetadata, metadata_of.
  rewrite !(lua_string_list_spec _ _ _ _ Hd) by set_solver. simpl.
  by rewrite !(described_string _ _ _ _ _ Hd), !(described_int _ _ _ _ _ Hd),
    !(described_bool _ _ _ _ _ Hd) by set_solver.
Qed.

Section RegisterProperties.
Context {sol : SolApi} {H St : Type} {host : EngineHost H St} {laws : EngineHostLaws H St}.
Variable map_order : gmap string string → list (string * string).
Variable lua_handler : string → LuaValue → H.
(** The iteration order of an [unordered_map] is some order of its entries. *)
Hypothesis map_order_perm : ∀ m, map_order m ≡ₚ map_to_list m.

Lemma elem_of_map_order m k v : (k, v) ∈ map_order m ↔ m !! k = Some v.
Proof. by rewrite map_order_perm, elem_of_map_to_list. Qed.

(** Registration: whatever the iteration order of the command map, after
    [registerWithParser] every loaded command whose file still runs has a Lua
    handler under its lower-cased name (its own, or that of a command whose name
    differs only in case), parser entries under other names are untouched, and
    the engine changes in nothing but its Lua state. *)
Theorem registerWithParser_registers s r s' :
  engine_initialized (engine_of s) = true →
  registerWithParser map_order lua_handler s = (r, s') → r ≠ Undefined →
  r = Ok tt ∧ register_frame s s' ∧
  (∀ name file, m_command_files (engine_of s) !! name = Some file → name ≠ "" →
     registrable file →
     ∃ name' f, is_Some (m_command_files (engine_of s) !! name') ∧
       tolower name' = tolower name ∧
       m_commands (host_parser s') !! tolower name = Some (lua_handler name' f)) ∧
  (∀ k, (∀ name, is_Some (m_command_files (engine_of s) !! name) → tolower name ≠ k) →
     m_commands (host_parser s') !! k = m_commands (host_parser s) !! k).
Proof.
  intros Hi. unfold registerWithParser. rewrite Hi; simpl.
  intros Hl Hr. apply register_loop in Hl as (-> & Hfr & Horig & Hall); [|done].
  setoid_rewrite elem_of_map_order in Horig. setoid_rewrite elem_of_map_order in Hall.
  split; [done|]. split; [done|]. split.
  - intros name file Hf Hne Hreg.
    destruct (Hall name file Hf Hne Hreg) as (n & fl & f & ? & ? & ?). eauto 10.
  - intros k Hk. destruct (Horig k) as [?|(n & fl & f & Hf & Ht & _)]; [done|].
    destruct (Hk n); eauto.
Qed.

(** The "reload" command never forgets: after reloading and registering
    again, every command the parser knew before is still registered and still
    has metadata, while the list of loaded commands names only files that exist;
    so a command whose file was deleted stays callable although it is no longer
    listed. *)
Theorem reload_keeps_commands s s1 s2 :
  on_engine (reloadAllCommands map_order (host_fs s)) s = (Ok tt, s1) →
  registerWithParser map_order lua_handler s1 = (Ok tt, s2) →
  (∀ k, is_Some (m_commands (host_parser s) !! k) →
        is_Some (m_commands (host_parser s2) !! k)) ∧
  dom (m_command_metadata (engine_of s)) ⊆ dom (m_command_metadata (engine_of s2)) ∧
  (∀ name, name ∈ getLoadedCommands map_order (engine_of s2) →
     ∃ file, m_command_files (engine_of s2) !! name = Some file ∧
             fs_exists (host_fs s) file = Ok true).
Proof.
  unfold on_engine, zoom.
  destruct (reloadAllCommands map_order (host_fs s) (engine_of s)) as [r e1] eqn:Hre.
  intros [= -> <-]. apply reload_cases in Hre as (_ & Hdom & Hex).
  set (s1 := set_engine e1 s). intros Hg.
  assert (Hs1 : engine_of s1 = e1 ∧ host_parser s1 = host_parser s)
    by (subst s1; by rewrite engine_set_engine, parser_set_engine).
  destruct Hs1 as [He1 Hp1].
  assert (Hreg : same_commands e1 (engine_of s2) ∧
                 ∀ k, is_Some (m_commands (host_parser s1) !! k) →
                      is_Some (m_commands (host_parser s2) !! k)).
  { unfold registerWithParser in Hg. destruct (negb _); [injection Hg as <-; by rewrite He1|].
    apply register_loop in Hg as (_ & (_ & Hsame & _) & Horig & _); [|done].
    rewrite He1 in Hsame. split; [done|]. intros k Hk.
    destruct (Horig k) as [->|(n & fl & f & _ & _ & ->)]; eauto. }
  destruct Hreg as [[Hf Hm] Hk]. rewrite Hp1 in Hk. split; [done|]. split; [by rewrite Hm|].
  intros name Hin. unfold getLoadedCommands in Hin. rewrite Hf in Hin |- *.
  apply list_elem_of_fmap in Hin as ([n f] & -> & Hin%elem_of_map_order). eauto.
Qed.

End RegisterProperties.

(** ** Witnesses on two command files of the repository *)

Definition demo_exec1 : demo_state := Eval vm_compute in
  snd (lua_handler_body demo_ma "dice" demo_fun (demo_ctx "ann" []) demo_start).
Definition demo_exec2 : demo_state := Eval vm_compute in
  snd (lua_handler_body demo_ma "dice" demo_fun (demo_ctx "bob" []) demo_exec1).
Definition demo_exec3 : demo_state := Eval vm_compute in
  snd (lua_handler_body demo_ma "dice" demo_fun (demo_ctx "ann" []) demo_exec2).

Definition dice_metadata : CommandMetadata :=
  mk_Metadata "dice" "Roll dice" "!dice [sides]" ["roll"; "d6"] 0 0 15 false false false [] true 50.

(** Ann rolls, Bob rolls, and Ann, whose cooldown of 15 seconds is running, is refused;
    the clock is read once by a refused call and twice by the others. *)
Lemma demo_history :
  history demo_ma demo_start
    [mk_run "dice" "ann" (101 * second) (101 * second);
     mk_run "dice" "bob" (103 * second) (103 * second)]
    demo_exec3.
Proof.
  assert (Hruns : script_runs demo_ma "dice" demo_fun (demo_ctx "ann" []) demo_start =
                    [mk_run "dice" "ann" (101 * second) (101 * second)] ∧
                  script_runs demo_ma "dice" demo_fun (demo_ctx "bob" []) demo_exec1 =
                    [mk_run "dice" "bob" (103 * second) (103 * second)] ∧
                  script_runs demo_ma "dice" demo_fun (demo_ctx "ann" []) demo_exec2 = [])
    by (split_and!; vm_compute; reflexivity).
  destruct Hruns as (Hann & Hbob & Hann2).
  assert (Hcall : ∀ u s s', fst (lua_handler_body demo_ma "dice" demo_fun (demo_ctx u []) s) = Ok tt →
    snd (lua_handler_body demo_ma "dice" demo_fun (demo_ctx u []) s) = s' →
    ∀ runs, history demo_ma s' runs demo_exec3 →
    history demo_ma s (script_runs demo_ma "dice" demo_fun (demo_ctx u []) s ++ runs) demo_exec3).
  { intros u s s' Hr Hs runs. apply history_call; [apply _|].
    rewrite <- Hr, <- Hs. apply surjective_pairing. }
  assert (Hh : history demo_ma demo_exec3 [] demo_exec3) by constructor.
  apply (Hcall "ann" demo_exec2) in Hh; [|vm_compute; reflexivity..].
  apply (Hcall "bob" demo_exec1) in Hh; [|vm_compute; reflexivity..].
  apply (Hcall "ann" demo_start) in Hh; [|vm_compute; reflexivity..].
  rewrite Hann, Hbob, Hann2 in Hh. exact Hh.
Qed.

Lemma demo_start_wf : tracker_wf demo_start.
Proof.
  split; [by vm_compute|]. split.
  - intros c x Hx.
    change (last_command_use _) with (∅ : gmap string Z) in Hx. by rewrite lookup_empty in Hx.
  - intros c u x Hx. unfold user_last in Hx.
    change (user_command_cooldowns _) with (∅ : gmap string (gmap string Z)) in Hx.
    by rewrite lookup_empty in Hx.
Qed.

Lemma cooldown_spacing_witness :
  let meta := dice_metadata in
  0 < user_cooldown meta ∧
  (0 < command_cooldown meta → 101 * second + command_cooldown meta * second ≤ 103 * second).
Proof.
  intros meta. split; [reflexivity|].
  apply (proj1 (proj2 (cooldown_spacing demo_ma demo_start []
    (mk_run "dice" "ann" (101 * second) (101 * second)) []
    (mk_run "dice" "bob" (103 * second) (103 * second)) [] _ dice_metadata
    demo_history demo_start_wf ltac:(vm_compute; reflexivity)))).
  reflexivity.
Defined.

Lemma usage_limit_witness : uses (engine_of demo_exec3) "dice" = 2.
Proof.
  rewrite (proj1 (usage_limit demo_ma demo_start _ _ "dice" dice_metadata demo_history
    ltac:(vm_compute; reflexivity) ltac:(vm_compute; reflexivity))).
  vm_compute. reflexivity.
Defined.

Lemma handler_guarded_witness :
  ∃ r s', lua_handler_body demo_ma "special" demo_fun (demo_ctx "ann" ["vip"]) demo_start = (r, s')
    ∧ ∀ e, r ≠ Throw e.
Proof.
  destruct (lua_handler_body demo_ma "special" demo_fun (demo_ctx "ann" ["vip"]) demo_start)
    as [r s'] eqn:Hb.
  exists r, s'. split; [reflexivity|].
  exact (proj1 (handler_guarded demo_ma "special" demo_fun (demo_ctx "ann" ["vip"]) demo_start
                  r s' Hb)).
Defined.


Definition dice_description : command_description := mk_description
  {["name" := "dice"; "description" := "Roll dice"; "usage" := "!dice [sides]"]}
  {["user_cooldown" := 15; "max_uses_per_stream" := 50]} ∅ {["aliases" := ["roll"; "d6"]]}.

Lemma dice_described : describes (sol := demo_sol) tt dice_lua dice_description.
Proof.
  split_and!; intros k Hk.
  1-3: repeat (apply elem_of_cons in Hk as [->|Hk]; [vm_compute; reflexivity|]);
    by apply not_elem_of_nil in Hk.
  repeat (apply elem_of_cons in Hk as [->|Hk]); [| |by apply not_elem_of_nil in Hk].
  - replace (d_lists dice_description !! "aliases") with (Some ["roll"; "d6"])
      by (vm_compute; reflexivity).
    exists (VStrings ["roll"; "d6"]). split_and!; try (vm_compute; reflexivity).
    intros [|[|i]] s Hs; vm_compute in Hs; by inversion Hs.
  - replace (d_lists dice_description !! "allowed_users") with (@None (list string))
      by (vm_compute; reflexivity).
    vm_compute. reflexivity.
Qed.

Lemma parseCommandMetadata_described_witness :
  parseCommandMetadata (sol := demo_sol) tt dice_lua "x" = Ok dice_metadata.
Proof.
  transitivity (@Ok CommandMetadata (metadata_of dice_description "x")).
  - exact (parseCommandMetadata_described tt dice_lua dice_description "x" dice_described).
  - vm_compute. reflexivity.
Defined.

Lemma registerWithParser_registers_witness :
  ∃ r s', registerWithParser map_to_list demo_lua demo_start = (r, s') ∧ r = Ok tt.
Proof.
  destruct (registerWithParser map_to_list demo_lua demo_start) as [r s'] eqn:Hr.
  exists r, s'. split; [reflexivity|].
  assert (Hu : r ≠ Undefined).
  { intros ->. apply (f_equal (λ x, match fst x with Ok _ => true | _ => false end)) in Hr.
    vm_compute in Hr. discriminate. }
  exact (proj1 (registerWithParser_registers map_to_list demo_lua (λ m, reflexivity _)
                  demo_start r s' eq_refl Hr Hu)).
Defined.

(** The state after registering, and the two steps of a reload from it. *)
Definition demo_registered : demo_state := Eval vm_compute in
  snd (registerWithParser map_to_list demo_lua demo_start).
Definition demo_reloaded : demo_state := Eval vm_compute in
  snd (on_engine (reloadAllCommands map_to_list demo_fs) demo_registered).

Lemma reload_keeps_commands_witness :
  is_Some (m_commands (host_parser demo_registered) !! "dice") ∧
  is_Some (m_commands (host_parser demo_reloaded) !! "dice") ∧
  getLoadedCommands map_to_list (engine_of demo_reloaded) = [].
Proof.
  assert (H1 : on_engine (reloadAllCommands map_to_list (host_fs demo_registered)) demo_registered
               = (Ok tt, demo_reloaded)) by (vm_compute; reflexivity).
  assert (H2 : registerWithParser map_to_list demo_lua demo_reloaded = (Ok tt, demo_reloaded))
    by (vm_compute; reflexivity).
  assert (Hd : is_Some (m_commands (host_parser demo_registered) !! "dice"))
    by (vm_compute; eexists; reflexivity).
  split; [exact Hd|]. split; [|vm_compute; reflexivity].
  exact (proj1 (reload_keeps_commands map_to_list demo_lua (λ m, reflexivity _)
                  demo_registered demo_reloaded demo_reloaded H1 H2) "dice" Hd).
Defined.

(** Limits are kept per name, not per command: with the metadata of
    [src/commands/dice.lua] and fifty recorded uses of "dice", the handler of
    "dice" refuses, while the handler of its alias "roll" runs the same script
    and records a first use of "roll". *)
Theorem alias_limit_separate :
  let t := mk_Tracker 0 ∅ ∅ {["dice" := 50]} in
  let s := set_engine (set_tracker t (engine_of demo_start)) demo_start in
  let call name := lua_handler_body demo_ma name demo_fun
                     (demo_ctx "ann" []) s in
  max_uses_per_stream dice_metadata = 50 ∧ "roll" ∈ md_aliases dice_metadata ∧
  m_command_metadata (engine_of s) !! "roll" = Some dice_metadata ∧
  m_command_metadata (engine_of s) !! "dice" = Some dice_metadata ∧
  demo_out (snd (call "dice")) = ["Command has reached its usage limit for this stream."] ∧
  uses (engine_of (snd (call "dice"))) "dice" = 50 ∧
  demo_out (snd (call "roll")) = ["🎲 ann rolled a 4 (1-6)"] ∧
  uses (engine_of (snd (call "roll"))) "roll" = 1.
Proof.
  cbv zeta. split_and!; try (vm_compute; reflexivity). apply list_elem_of_here.
Qed.
