(* ===== verification/ScriptProperties.v ===== *)
(** * What the command scripts do

    The theorems about the scripts of [Scripts], run by the engine in any program
    state, and in the whole program. *)

From Stdlib Require Import SpecFloat.
From S2P Require Import Prelude Cxx CommandParser AudioSystem Cooldown LuaEngine LuaFacts.
From S2P Require Import LuaNumbers Scripts ScriptFacts.

(** ** Reference definitions *)

(** The sides of the die: a number above 1 and at most 100, or 6. *)
Definition dice_sides (args : list string) : number :=
  match args with
  | [] => Integer 6
  | a :: _ =>
      match tonumber a with
      | Some n => if num_lt (Integer 1) n && num_le n (Integer 100) then n else Integer 6
      | None => Integer 6
      end
  end.

Definition dice_text (user : string) (r : Z) (sides : number) : string :=
  "🎲 " +:+ user +:+ " rolled a " +:+ to_string r +:+ " (1-" +:+ num_text sides +:+ ")".

(** The answer to "!sfx list" with a page number. *)
Definition page_reply (p : Z) (sounds : list string) : string :=
  match page_sounds sounds p with
  | [] => "Page " +:+ to_string p +:+ " is empty. Try a lower page number."
  | shown =>
      let total := num_ceil (num_div (Integer (vector_len sounds)) (Integer (vector_len shown))) in
      page_text shown +:+
        (if num_lt (Integer 1) total
         then " (Page " +:+ to_string p +:+ "/" +:+ num_text total +:+ ")" else "")
  end.

(** The volume of "!sfx name volume". *)
Definition sfx_volume (more : list string) : number :=
  match more with
  | a :: _ => from_option clamp_volume default_volume (tonumber a)
  | [] => default_volume
  end.

Section Engine.
Context {rng : LuaRandom} {sn : SolNumbers}.
#[local] Existing Instance shipped_sol.
Context {H St : Type} {host : EngineHost H St} {laws : EngineHostLaws H St}.
Variable ma_success : list ma_call → ma_call → bool.
Implicit Types (s : St) (l : Rng) (ctx : CommandContext St).

(** The engine's call of a command script. *)
#[local] Abbreviation runs_as f ctx l s := (run_script ma_success ctx (call_command f (args ctx) l) s).

Lemma dice_sides_bounds a n : to_integer (dice_sides a) = Some n → 2 ≤ n ≤ 100.
Proof.
  unfold dice_sides. destruct a as [|a _]; [intros [= <-]; lia|].
  destruct (tonumber a) as [m|]; [|intros [= <-]; lia].
  destruct (num_lt (Integer 1) m && num_le m (Integer 100)) eqn:Hr; [|intros [= <-]; lia].
  apply andb_true_iff in Hr as [Hlt Hle]. intros Hn.
  rewrite (lt_to_integer _ _ _ Hn) in Hlt. rewrite (le_to_integer _ _ _ Hn) in Hle. lia.
Qed.

(** The script, with the choice of the sides made. *)
Lemma dice_run ctx l :
  call_command Dice (args ctx) l =
    math_random (dice_sides (args ctx)) (λ r, ctx_getUser (λ u, ctx_reply (dice_text u r (dice_sides (args ctx)))
      (λ _ l, SDone l None))) l.
Proof.
  unfold call_command, execute_body, dice, dice_sides, mbind, lua_bind.
  destruct (args ctx) as [|a more]; [done|].
  change (0 <? vector_len (a :: more)) with true. change (string_at (a :: more) (Integer 1)) with (mret (M := lua) a).
  unfold mret, lua_ret. destruct (tonumber a) as [n|]; [|done].
  by destruct (num_lt (Integer 1) n && num_le n (Integer 100)).
Qed.

Lemma dice_answer ctx `{!ReplyOk ctx} l n :
  let sides := dice_sides (args ctx) in
  to_integer sides = Some n →
  ∃ r l', 1 ≤ r ≤ n ∧ ∀ s,
    runs_as Dice ctx l s = (reply ctx (dice_text (user (message ctx)) r sides) ;; finish l' None) s.
Proof.
  intros sides Hn. rewrite dice_run. fold sides. pose proof (dice_sides_bounds _ _ Hn) as Hb.
  destruct (random_spec sides n (λ r, ctx_getUser (λ u, ctx_reply (dice_text u r sides)
    (λ _ l, SDone l None))) l Hn ltac:(lia)) as (r & l' & Hr & ->).
  exists r, l'. split; [done|]. intros s. rewrite run_getUser. by rewrite run_reply.
Qed.

Lemma dice_error ctx l :
  to_integer (dice_sides (args ctx)) = None →
  ∃ what, ∀ s, run_script ma_success ctx (call_command Dice (args ctx) l) s = finish l (Some what) s.
Proof.
  intros Hn. exists "number has no integer representation". intros s.
  rewrite dice_run. unfold math_random. by rewrite Hn.
Qed.

(** Rolling dice: "!dice" answers with exactly one message, a number between 1 and
    the sides of the die, which are the first argument when that is a number above 1
    and at most 100, and 6 otherwise; a number of sides that is no integer, such as
    2.5, is a Lua error and rolls nothing. *)
Theorem dice_rolls ctx `{!ReplyOk ctx} l s :
  let sides := dice_sides (args ctx) in
  match to_integer sides with
  | Some n => 2 ≤ n ≤ 100 ∧ ∃ r l', 1 ≤ r ≤ n ∧
      runs_as Dice ctx l s =
        (reply ctx (dice_text (user (message ctx)) r sides) ;; finish l' None) s
  | None => ∃ what, runs_as Dice ctx l s = finish l (Some what) s
  end.
Proof.
  intros sides. destruct (to_integer sides) as [n|] eqn:Hn.
  - split; [by apply (dice_sides_bounds (args ctx))|].
    destruct (dice_answer ctx l n Hn) as (r & l' & Hr & Hrun). eauto.
  - rewrite dice_run. fold sides. unfold math_random. rewrite Hn. by eexists.
Qed.
(** "!sfx list" and a page number. *)
Lemma sfx_list_run ctx l a b more n :
  args ctx = a :: b :: more → tolower a = "list" → tonumber b = Some n →
  call_command Sfx (args ctx) l = ctx_listAudioFiles sound_dir (λ sounds,
    (if vector_len sounds =? 0 then ctx_reply ("No sounds found in directory: " +:+ sound_dir)
     else match fill_page sounds n with
          | None => lua_error "out of fuel"
          | Some (inl what) => lua_error what
          | Some (inr []) =>
              ctx_reply ("Page " +:+ num_text n +:+ " is empty. Try a lower page number.")
          | Some (inr shown) =>
              let total := num_ceil (num_div (Integer (vector_len sounds)) (Integer (vector_len shown))) in
              ctx_reply (if num_lt (Integer 1) total
                         then page_text shown +:+ " (Page " +:+ num_text n +:+ "/" +:+ num_text total +:+ ")"
                         else page_text shown)
          end) (λ _ l, SDone l None)) l.
Proof.
  intros -> Ha Hb. unfold call_command, execute_body, sfx.
  change (vector_len (a :: b :: more) =? 0) with false.
  change (string_at (a :: b :: more) (Integer 1)) with (mret (M := lua) a).
  unfold mbind, lua_bind, mret, lua_ret. rewrite Ha. cbn [bool_decide].
  unfold sfx_list, second_number. unfold mbind, lua_bind.
  change (1 <? vector_len (a :: b :: more)) with (Pos.ltb 1 (Pos.of_succ_nat (S (length more)))).
  replace (Pos.ltb 1 _) with true by (symmetry; apply Pos.ltb_lt; lia).
  change (string_at (a :: b :: more) (Integer 2)) with (mret (M := lua) b).
  unfold mret, lua_ret. rewrite Hb. done.
Qed.

(** C27.  Listing sounds: page [p] starts at the sound [15 * (p - 1)] of the sorted list and
    shows, in order, as many as fit: the names and their separators stay within 450
    characters, and the page ends early only when the next name would pass them.
    The answer is one message, these names and, when there are several pages, the
    number of the page.  A page number below 1 is a Lua error. *)
Theorem sfx_list_page ctx `{!ReplyOk ctx} l s a b more p sounds :
  args ctx = a :: b :: more → tolower a = "list" → tonumber b = Some (Integer p) →
  - 2 ^ 58 ≤ p ≤ 2 ^ 58 →
  listAudioFiles (host_fs s) (m_audio_system (engine_of s)) "sounds" = Ok sounds →
  sounds ≠ [] → Z.of_nat (length sounds) < 2 ^ 62 →
  if 1 <=? p then
    runs_as Sfx ctx l s = (reply ctx (page_reply p sounds) ;; finish l None) s ∧
    page_length (page_sounds sounds p) ≤ 450 ∧
    ∃ rest, drop (page_start p) sounds = page_sounds sounds p ++ rest ∧
      match rest with
      | [] => True
      | x :: _ => 450 < page_length (page_sounds sounds p ++ [x])
      end
  else ∃ what, runs_as Sfx ctx l s = finish l (Some what) s.
Proof.
  intros Hargs Ha Hb Hp Hl Hne Hn. rewrite (sfx_list_run _ _ _ _ _ _ Hargs Ha Hb).
  rewrite (run_listAudioFiles _ _ _ _ _ _ _ Hl).
  replace (vector_len sounds =? 0) with false by (destruct sounds; [done|symmetry; apply Z.eqb_neq; done]).
  destruct (1 <=? p) eqn:H1.
  - apply Z.leb_le in H1. rewrite fill_page_fitting by lia. split_and!.
    + unfold page_reply. destruct (page_sounds sounds p) as [|x shown]; rewrite run_reply by done; [done|].
      cbv zeta. case_match; [done|]. by rewrite str_app_nil_r.
    + apply page_sounds_length.
    + apply page_rest.
  - apply Z.leb_gt in H1. destruct (fill_page_below sounds p) as [what ->]; [lia|]. by eexists.
Qed.

(** C28.  Sounds that cannot be listed: when a page ends early, before its fifteenth sound,
    the sound it could not show is on no page at all: the next page starts behind
    it, and the pages before it have no more room. *)
Theorem sfx_list_misses sounds p shown x rest :
  1 ≤ p ≤ 2 ^ 58 → Z.of_nat (length sounds) < 2 ^ 62 →
  fill_page sounds (Integer p) = Some (inr shown) → (length shown < 15)%nat →
  drop (page_start p) sounds = shown ++ x :: rest →
  let i := (page_start p + length shown)%nat in
  sounds !! i = Some x ∧
  ∀ p' shown', 1 ≤ p' ≤ 2 ^ 58 → fill_page sounds (Integer p') = Some (inr shown') →
    ¬ (page_start p' ≤ i < page_start p' + length shown')%nat.
Proof.
  intros Hp Hn Hf H15 Hd i. rewrite fill_page_fitting in Hf by done. injection Hf as <-.
  assert (Hi : sounds !! i = Some x).
  { unfold i. rewrite <- lookup_drop, Hd. by apply list_lookup_middle. }
  split; [done|]. intros p' shown' Hp' Hf'. rewrite fill_page_fitting in Hf' by done.
  injection Hf' as <-. apply (missed sounds p i p'); [lia|done| |done|lia]. by eapply lookup_lt_Some.
Qed.

(** "!sfx" and a name. *)
Lemma sfx_play_run ctx l a more :
  args ctx = a :: more → tolower a ≠ "list" → tolower a ≠ "random" →
  call_command Sfx (args ctx) l = ctx_findAudioFile (tolower a) sound_dir (λ file,
    (if str_empty file then
       ctx_reply ("Sound '" +:+ tolower a +:+ "' not found. Try !sfx list")
     else
       played ← ctx_playSound file (sfx_volume more);
       if played : bool then ctx_reply (tolower a)
       else ctx_reply ("Failed to play sound: " +:+ tolower a)) (λ _ l, SDone l None)) l.
Proof.
  intros -> Hl Hr. unfold call_command, execute_body, sfx.
  change (vector_len (a :: more) =? 0) with false.
  change (string_at (a :: more) (Integer 1)) with (mret (M := lua) a).
  unfold mbind at 1, lua_bind at 1, mret, lua_ret. rewrite !bool_decide_false by done.
  unfold sfx_play, second_number, mbind, lua_bind.
  destruct more as [|b more]; [done|].
  change (1 <? vector_len (a :: b :: more)) with (Pos.ltb 1 (Pos.of_succ_nat (S (length more)))).
  replace (Pos.ltb 1 _) with true by (symmetry; apply Pos.ltb_lt; lia).
  change (string_at (a :: b :: more) (Integer 2)) with (mret (M := lua) b).
  by unfold mret, lua_ret.
Qed.

Lemma clamp_volume_integer z : clamp_volume (Integer z) = Integer (clamp z 0 100).
Proof.
  unfold clamp_volume, num_max, num_min, clamp. rewrite (lt_to_integer (Integer 100) z 100 eq_refl).
  destruct (Z.ltb_spec z 100).
  - rewrite (lt_to_integer (Integer z) 0 z eq_refl). destruct (Z.ltb_spec 0 z), (Z.ltb_spec z 0),
      (Z.ltb_spec 100 z); f_equal; lia.
  - rewrite (lt_to_integer (Integer 100) 0 100 eq_refl), (proj2 (Z.ltb_ge z 0)) by lia.
    cbn. destruct (Z.ltb_spec 100 z); f_equal; lia.
Qed.

(** C29.  Playing a sound: "!sfx name volume" asks for the lower-cased name in the sound
    directory, answers that there is none, or plays the file found, with the volume
    limited to 0..100 (70 when none is given), and answers with the name or with
    the failure; nothing else of the engine changes but the player. *)
Theorem sfx_plays ctx `{!ReplyOk ctx} l s a more file played audio :
  args ctx = a :: more → tolower a ≠ "list" → tolower a ≠ "random" →
  findAudioFile (host_fs s) (m_audio_system (engine_of s)) (tolower a) "sounds" = Ok file →
  let volume := match sfx_volume more with Integer z => z | Float f => default 70 (sol_float_int f) end in
  playSound ma_success (host_fs s) file volume (m_audio_system (engine_of s)) = (Ok played, audio) →
  (∀ b z, more = [b] → tonumber b = Some (Integer z) → volume = clamp z 0 100) ∧
  runs_as Sfx ctx l s =
    (if str_empty file then
       reply ctx ("Sound '" +:+ tolower a +:+ "' not found. Try !sfx list") ;; finish l None
     else
       on_engine (modify (set_audio audio)) ;;
       reply ctx (if played then tolower a else "Failed to play sound: " +:+ tolower a) ;;
       finish l None) s.
Proof.
  intros Hargs Hl Hr Hf volume Hplay. split.
  { intros b z -> Hb. unfold volume, sfx_volume. rewrite Hb. cbn [from_option].
    by rewrite clamp_volume_integer. }
  rewrite (sfx_play_run _ _ _ _ Hargs Hl Hr). rewrite (run_findAudioFile _ _ _ _ _ _ _ _ Hf).
  destruct (str_empty file); [by rewrite run_reply|].
  unfold ctx_playSound, ctx_method. unfold mbind at 1, lua_bind at 1. unfold mbind at 1, lua_bind at 1.
  cbn [run_script ctx_call].
  replace (default 70 _) with volume by (unfold volume; by destruct (sfx_volume more)).
  rewrite Hplay. destruct played; cbn [mbind outcome_bind mret outcome_ret lua_ret]; by rewrite run_reply.
Qed.

End Engine.
