(* ===== verification/Shipped.v ===== *)
(** * The program with the scripts of the repository

    Starting the program with the seven files of [src/commands] in its "commands"
    directory: which commands it then knows, and what a chat message does that calls
    one of them, from the frame Twitch delivers to the reply that is posted. *)

From S2P Require Import Prelude Cxx CommandParser AudioSystem Cooldown LuaEngine LuaFacts.
From S2P Require Import LuaNumbers Scripts ScriptFacts ScriptProperties.
From S2P Require Import Json TwitchService AppState Gui World Application Typing.

(** ** The commands of the files *)

(** What the files define: metadata and function. *)
Definition shipped : list (string * (CommandMetadata * execute)) :=
  [("commands/dice.lua",
    (mk_Metadata "dice" "Roll dice" "!dice [sides]" ["roll"; "d6"] 0 0 15 false false false [] true 50,
     Dice));
   ("commands/flip.lua",
    (mk_Metadata "flip" "Flip a coin" "!flip" ["coin"; "coinflip"] 0 5 0 false false false [] true (-1),
     Flip));
   ("commands/hello.lua",
    (mk_Metadata "hello" "Greet a user" "!hello [username]" [] 0 0 10 false false false [] true (-1),
     Hello));
   ("commands/limited.lua",
    (mk_Metadata "special" "Special limited command" "!special" [] 0 10 60 false false true [] true 10,
     Special));
   ("commands/modcmd.lua",
    (mk_Metadata "modcmd" "Moderator only command" "!modcmd" [] 0 0 0 true false false [] true (-1),
     Modcmd));
   ("commands/sfx.lua",
    (mk_Metadata "sfx" "Play sound effects" "!sfx <soundname> | !sfx list [page] | !sfx random"
       ["sound"; "audio"; "play"] 0 1 3 false false false [] true (-1), Sfx));
   ("commands/vip_joke.lua",
    (mk_Metadata "vipjoke" "Tell a VIP joke" "!vipjoke" [] 0 30 0 false true false
       ["specificfriend"; "anotherfriend"] true (-1), Vipjoke))].

(** The names a command is called by. *)
Definition names (md : CommandMetadata) : list string := md_name md :: md_aliases md.

(** The file that defines a name. *)
Definition owner (k : string) : option (string * (CommandMetadata * execute)) :=
  List.find (λ x, bool_decide (k ∈ names (fst (snd x)))) shipped.

Lemma owner_some k x : owner k = Some x → x ∈ shipped ∧ k ∈ names (fst (snd x)).
Proof.
  intros [Hin Hk]%find_some. by apply bool_decide_eq_true in Hk as ?; split; [apply list_elem_of_In|].
Qed.

(** No name belongs to two files, and all are in lower case. *)
Lemma owner_name x k : x ∈ shipped → k ∈ names (fst (snd x)) →
  owner k = Some x ∧ tolower k = k ∧ k ≠ "".
Proof.
  intros Hx Hk.
  assert (Hall : Forall (λ x, Forall (λ k, owner k = Some x ∧ tolower k = k ∧ k ≠ "")
                                (names (fst (snd x)))) shipped).
  { repeat constructor; done. }
  rewrite Forall_forall in Hall. specialize (Hall x Hx). rewrite Forall_forall in Hall. auto.
Qed.

(** Entering one value under several names. *)
Definition insert_all {A} (ks : list string) (a : A) (m : gmap string A) : gmap string A :=
  foldl (λ m k, <[k := a]> m) m ks.

Lemma lookup_insert_all {A} ks (a : A) m k :
  insert_all ks a m !! k = if decide (k ∈ ks) then Some a else m !! k.
Proof.
  unfold insert_all. revert m. induction ks as [|k' ks IH]; intros m; cbn [foldl]; [done|].
  rewrite IH. destruct (decide (k ∈ ks)) as [Hin|Hout].
  - by rewrite decide_True by (by apply list_elem_of_further).
  - destruct (decide (k = k')) as [->|Hne].
    + by rewrite lookup_insert_eq, decide_True by apply list_elem_of_here.
    + rewrite lookup_insert_ne by done. by rewrite decide_False by (by rewrite elem_of_cons; intros []).
Qed.

Section Loading.
Context {rng : LuaRandom} {sn : SolNumbers}.
#[local] Existing Instance shipped_sol.
Implicit Types e : LuaCommandEngine.

(** One file. *)
Lemma load_shipped fs e x :
  x ∈ shipped → engine_initialized e = true → fs_exists fs (fst x) = Ok true →
  let md := fst (snd x) in
  loadLuaCommand fs (fst x) e =
    (Ok true, set_commands (insert_all (names md) (fst x) (m_command_files e))
                (insert_all (names md) md (m_command_metadata e)) (set_lua (m_lua e) e)).
Proof.
  intros Hx Hi Hf. unfold loadLuaCommand. rewrite Hi, Hf. cbn [negb].
  repeat (apply elem_of_cons in Hx as [->|Hx]; [reflexivity|]). by apply not_elem_of_nil in Hx.
Qed.

(** What the maps of the engine say once the files [done] are loaded. *)
Definition loaded (done : list string) e : Prop :=
  engine_initialized e = true ∧
  ∀ k, m_command_metadata e !! k =
         (x ← owner k; if decide (fst x ∈ done) then Some (fst (snd x)) else None) ∧
       m_command_files e !! k = (x ← owner k; if decide (fst x ∈ done) then Some (fst x) else None).

Lemma file_unique x y : x ∈ shipped → y ∈ shipped → fst x = fst y → x = y.
Proof.
  intros Hx Hy Hf. assert (Hn : NoDup (map fst shipped)) by (apply (bool_decide_unpack _); by vm_compute).
  apply list_elem_of_lookup in Hx as [i Hi], Hy as [j Hj].
  pose proof (NoDup_lookup _ i j (fst x) Hn) as Heq. rewrite !list_lookup_fmap, Hi, Hj in Heq.
  rewrite Heq in Hi; [congruence|done|by rewrite Hf].
Qed.

Lemma loaded_step done fs e x :
  loaded done e → x ∈ shipped → fst x ∉ done → fs_exists fs (fst x) = Ok true →
  ∃ e', loadLuaCommand fs (fst x) e = (Ok true, e') ∧ loaded (fst x :: done) e' ∧
    m_cooldown_tracker e' = m_cooldown_tracker e.
Proof.
  intros [Hi He] Hx Hnew Hf. rewrite load_shipped by done. eexists. split; [done|]. split; [|done].
  split; [done|]. intros k. cbn [set_commands m_command_metadata m_command_files].
  rewrite !lookup_insert_all. destruct (He k) as [-> ->].
  destruct (decide (k ∈ names (fst (snd x)))) as [Hk|Hk].
  - destruct (owner_name x k Hx Hk) as [-> _]. cbn [mbind option_bind].
    by rewrite !decide_True by apply list_elem_of_here.
  - destruct (owner k) as [y|] eqn:Ho; [|done]. cbn [mbind option_bind].
    apply owner_some in Ho as [Hy Hky].
    assert (fst y ≠ fst x) by (intros Heq; apply file_unique in Heq; [by subst y|done|done]).
    destruct (decide (fst y ∈ done)) as [Hd|Hd].
    + by rewrite !decide_True by (by apply list_elem_of_further).
    + by rewrite !decide_False by (by rewrite elem_of_cons; intros []).
Qed.

Lemma loaded_entries fs files done n e :
  loaded done e → (∀ f, f ∈ files → f ∈ map fst shipped) → NoDup files → (∀ f, f ∈ files → f ∉ done) →
  (∀ f, f ∈ files → fs_exists fs f = Ok true) →
  ∃ e', load_entries fs (map (λ f, (f, true)) files) n e = (Ok (n + Z.of_nat (length files)), e') ∧
    loaded (rev files ++ done) e' ∧ m_cooldown_tracker e' = m_cooldown_tracker e.
Proof.
  revert done n e. induction files as [|f files IH]; intros done n e Hl Hin Hnd Hnew Hfs.
  { exists e. cbn. by rewrite Z.add_0_r. }
  cbn [map load_entries].
  assert (Hf : f ∈ map fst shipped) by (apply Hin, list_elem_of_here).
  apply list_elem_of_fmap in Hf as (x & -> & Hx). apply NoDup_cons in Hnd as [Hnf Hnd].
  replace (true && bool_decide (path_extension (fst x) = ".lua")) with true.
  2:{ repeat (apply elem_of_cons in Hx as [->|Hx]; [reflexivity|]). by apply not_elem_of_nil in Hx. }
  destruct (loaded_step done fs e x) as (e1 & -> & Hl1 & Ht1);
    [done|done|by apply Hnew, list_elem_of_here|by apply Hfs, list_elem_of_here|].
  destruct (IH (fst x :: done) (n + 1) e1) as (e2 & -> & Hl2 & Ht2).
  - done.
  - intros g Hg. by apply Hin, list_elem_of_further.
  - done.
  - intros g Hg. rewrite elem_of_cons. intros [->|Hd]; [done|].
    by apply (Hnew g); [apply list_elem_of_further|].
  - intros g Hg. by apply Hfs, list_elem_of_further.
  - exists e2. split; [f_equal; f_equal; cbn [length]; lia|]. split; [|congruence].
    cbn [rev]. by rewrite <- app_assoc.
Qed.

End Loading.

(** ** Registering *)

Section Registering.
Context {rng : LuaRandom} {sn : SolNumbers} {plat : Platform}.
#[local] Existing Instance shipped_sol.
Implicit Types w : World.

Lemma register_shipped w x k :
  x ∈ shipped → register_one HLua k (fst x) w =
    (Ok tt, upd_parser (registerCommand k (Some (HLua k (VFunction (snd (snd x))))) (w_parser w)) w).
Proof.
  intros Hx.
  repeat (apply elem_of_cons in Hx as [->|Hx]; [by destruct w as [? ? ? ? [] ? ? ? ? ? ? ? ? ? ? ? ? ?]|]).
  by apply not_elem_of_nil in Hx.
Qed.

(** The commands of the parser once the names [done] are registered. *)
Definition registered (done : list string) (old : gmap string handler) w : Prop :=
  ∀ k, m_commands (w_parser w) !! k =
    if decide (k ∈ done) then x ← owner k; Some (HLua k (VFunction (snd (snd x)))) else old !! k.

Lemma registered_loop l done old w :
  registered done old w → (∀ k f, (k, f) ∈ l → ∃ x, owner k = Some x ∧ f = fst x) →
  ∃ p, mfor l (λ '(k, f), register_one HLua k f) w = (Ok tt, upd_parser p w) ∧
    m_prefix p = m_prefix (w_parser w) ∧ registered (rev (map fst l) ++ done) old (upd_parser p w).
Proof.
  revert done w. induction l as [|[k f] l IH]; intros done w Hr Hl.
  { exists (w_parser w). split; [by destruct w|]. by split. }
  destruct (Hl k f) as (x & Ho & ->); [apply list_elem_of_here|].
  pose proof (owner_some _ _ Ho) as [Hx Hk]. destruct (owner_name x k Hx Hk) as (_ & Hlow & Hne).
  cbn [mfor]. unfold mbind, M_bind. rewrite (register_shipped w x k Hx).
  set (p := registerCommand _ _ _).
  destruct (IH (k :: done) (upd_parser p w)) as (p' & -> & Hpre & Hr').
  - intros k'. cbn [w_parser upd_parser]. unfold p, registerCommand.
    apply str_empty_false in Hne as ->. cbn [m_commands]. rewrite Hlow.
    destruct (decide (k' = k)) as [->|Hkk].
    + rewrite lookup_insert_eq, decide_True by apply list_elem_of_here. by rewrite Ho.
    + rewrite lookup_insert_ne by done. rewrite (Hr k').
      destruct (decide (k' ∈ done)) as [Hd|Hd].
      * by rewrite decide_True by (by apply list_elem_of_further).
      * by rewrite decide_False by (by rewrite elem_of_cons; intros []).
  - intros k' f' Hin. by apply Hl, list_elem_of_further.
  - exists p'. split; [done|]. split; [|cbn [map rev]; by rewrite <- app_assoc].
    rewrite Hpre. unfold p, registerCommand. cbn [w_parser upd_parser]. by destruct (str_empty k).
Qed.

End Registering.

(** ** Properties *)

Section Properties.
Context {rng : LuaRandom} {sn : SolNumbers} {plat : Platform} {laws : PlatformLaws} {gui : GuiApi}.
#[local] Existing Instance shipped_sol.
Implicit Types w : World.

Lemma loaded_all done e : loaded done e → done ≡ₚ map fst shipped →
  ∀ k, m_command_metadata e !! k = (λ x, fst (snd x)) <$> owner k ∧
       m_command_files e !! k = fst <$> owner k.
Proof.
  intros [_ He] Hp k. destruct (He k) as [-> ->]. destruct (owner k) as [x|] eqn:Ho; [|done].
  apply owner_some in Ho as [Hx _]. cbn. rewrite !decide_True; [done|..];
    rewrite Hp; by apply list_elem_of_fmap_2.
Qed.

Lemma register_all w :
  engine_initialized (w_engine w) = true → m_commands (w_parser w) = ∅ →
  (∀ k, m_command_files (w_engine w) !! k = fst <$> owner k) →
  ∃ p, registerWithParser map_order HLua w = (Ok tt, upd_parser p w) ∧
    m_prefix p = m_prefix (w_parser w) ∧
    ∀ k, m_commands p !! k = x ← owner k; Some (HLua k (VFunction (snd (snd x)))).
Proof.
  intros Hi He Hf. unfold registerWithParser. cbn [engine_of World_engine]. rewrite Hi. cbn [negb].
  assert (Hin : ∀ k f, (k, f) ∈ map_order (m_command_files (w_engine w)) ↔
                  ∃ x, owner k = Some x ∧ f = fst x).
  { intros k f. rewrite map_order_perm, elem_of_map_to_list, Hf.
    destruct (owner k); cbn; naive_solver. }
  destruct (registered_loop (map_order (m_command_files (w_engine w))) [] ∅ w) as (p & -> & Hpre & Hr).
  - intros k. rewrite He. by rewrite decide_False by apply not_elem_of_nil.
  - intros k f Hk. by apply Hin.
  - exists p. split; [done|]. split; [done|]. intros k. specialize (Hr k). cbn [w_parser upd_parser] in Hr.
    rewrite Hr. destruct (owner k) as [x|] eqn:Ho; [|by destruct (decide _)].
    rewrite decide_True; [done|]. rewrite app_nil_r, <- Permutation_rev.
    apply list_elem_of_fmap. exists (k, fst x). split; [done|]. apply Hin. eauto.
Qed.

(** C16.  Starting with the scripts of the repository: when the "commands" directory holds
    the seven files, in any order, the setup of [run] succeeds, and the parser then
    knows exactly their names and aliases, each with the function of its file, and
    the two native commands; the engine has exactly the metadata of the files. *)
Theorem shipped_commands (s s' : Startup) w files :
  initialize (set_app default_Application s) = (Ok true, s') → enter s' = Some w →
  let fs := st_fs s in
  fs_exists fs "commands" = Ok true → fs_is_directory fs "commands" = Ok true →
  fst (fs_directory_iterator fs "commands") = map (λ f, (f, true)) files →
  files ≡ₚ map fst shipped → (∀ f, f ∈ files → fs_exists fs f = Ok true) →
  ∃ w', run_setup w = (Ok tt, w') ∧ m_prefix (w_parser w') = "!" ∧
    (∀ k, m_commands (w_parser w') !! k =
       if decide (k = "commands") then Some HCommands
       else if decide (k = "reload") then Some HReload
       else x ← owner k; Some (HLua k (VFunction (snd (snd x))))) ∧
    (∀ k, m_command_metadata (w_engine w') !! k = (λ x, fst (snd x)) <$> owner k).
Proof.
  intros Hi He fs Hex Hdir Hls Hperm Hfs.
  destruct (initialize_cases s) as [(t & s2 & Hi2 & _ & He2)|(what & s2 & Hi2 & _)];
    rewrite Hi in Hi2; [|done]. injection Hi2 as <-. rewrite He in He2. injection He2 as ->.
  set (w := first_world _ _ _). unfold run_setup.
  set (e0 := engine_initialize (w_engine w)). set (w0 := upd_engine e0 w).
  destruct (loaded_entries fs files [] 0 e0) as (e1 & Hl & Hl1 & _).
  { split; [done|]. intros k. change (m_command_metadata e0) with (∅ : gmap string CommandMetadata).
    change (m_command_files e0) with (∅ : gmap string string). rewrite !lookup_empty.
    destruct (owner k); [|done]. cbn [mbind option_bind].
    by rewrite !decide_False by apply not_elem_of_nil. }
  { intros f Hf. by rewrite <- Hperm. }
  { rewrite Hperm. apply (bool_decide_unpack _). by vm_compute. }
  { intros f _. apply not_elem_of_nil. }
  { done. }
  rewrite app_nil_r in Hl1.
  pose proof (loaded_all _ _ Hl1 ltac:(by rewrite <- Permutation_rev)) as Hall.
  destruct (register_all (upd_engine e1 w)) as (p & Hr & Hpre & Hp); [apply Hl1|done|apply Hall|].
  rewrite (bind_run _ _ w tt w0 eq_refl).
  assert (Hload : load_commands w0 = (Ok tt, upd_engine e1 w)).
  { unfold load_commands, gets. unfold mbind at 1, M_bind at 1. change (w_fs w0) with fs.
    change commands_dir with "commands". unfold mbind at 1, M_bind at 1, lift. rewrite Hex.
    unfold loadCommandsFromDirectory. unfold mbind, M_bind, lift, on_engine, zoom. rewrite Hex, Hdir. cbn [negb]. rewrite Hls. change (engine_of w0) with e0. by rewrite Hl. }
  rewrite (bind_run _ _ _ _ _ Hload), (bind_run _ _ _ _ _ Hr).
  eexists. split; [reflexivity|]. split; [exact Hpre|]. split; [|apply Hall].
  intros k. cbn. destruct (decide (k = "commands")) as [->|Hk]; [by rewrite lookup_insert_eq|].
  rewrite lookup_insert_ne by done.
  destruct (decide (k = "reload")) as [->|Hk']; [by rewrite lookup_insert_eq|].
  by rewrite lookup_insert_ne by done.
Qed.

(** The reply function of a context posts a message, or nothing. *)
Lemma reply_fn_world m w :
  reply_fn m w = (Ok tt, if bool_decide (m_state (w_service w) = ChatConnected)
                         then upd_queue (w_queue w ++ [TSend m]) w else w).
Proof.
  unfold reply_fn, TwitchService.sendMessage. cbn [svc service_host]. by destruct (m_state (w_service w)).
Qed.

#[local] Instance reply_fn_ok msg cmd a : ReplyOk (mk_CommandContext msg cmd a reply_fn).
Proof.
  intros m w. cbn [reply]. rewrite reply_fn_world. eexists. split; [done|].
  case_bool_decide; split_and!; done || (cbn; lia).
Qed.

(** The time the steady clock shows at its next reading. *)
Definition next_time w : Z := w_steady w + Z.of_N (hd 0%N (w_elapsed w)).

Lemma world_now_time w :
  world_now w = (Ok (next_time w), upd_clock (next_time w) (tl (w_elapsed w)) w).
Proof. done. Qed.

(** A command in a connected program that posts one message and changes nothing else
    but the Lua state. *)
Definition posts (text : string) (l' : @LuaState shipped_sol) ctx (f : execute) w : Prop :=
  executeLuaCommand ma_success ctx (VFunction f) w =
    (Ok tt, upd_engine (set_lua (sol := shipped_sol) l' (w_engine w))
              (upd_queue (w_queue w ++ [TSend text]) w)).

Lemma reply_posts msg cmd a f text l' w :
  let ctx := mk_CommandContext msg cmd a reply_fn in
  m_state (w_service w) = ChatConnected →
  run_script ma_success ctx (call_command f a (m_lua (w_engine w))) w =
    (reply_fn text ;; finish l' None) w → posts text l' ctx f w.
Proof.
  intros ctx Hst Hrun. unfold posts, executeLuaCommand, try_catch. rewrite gets_run.
  change (sol_call _ _ _) with (call_command f a (m_lua (w_engine w))).
  unfold mbind at 1, M_bind at 1. rewrite Hrun. unfold mbind at 1, M_bind at 1.
  rewrite reply_fn_world. by rewrite bool_decide_true.
Qed.

Lemma error_posts msg cmd a f what l' w :
  let ctx := mk_CommandContext msg cmd a reply_fn in
  m_state (w_service w) = ChatConnected →
  run_script ma_success ctx (call_command f a (m_lua (w_engine w))) w = finish l' (Some what) w →
  posts "Command error occured - check logs" l' ctx f w.
Proof.
  intros ctx Hst Hrun. unfold posts, executeLuaCommand, try_catch. rewrite gets_run.
  change (sol_call _ _ _) with (call_command f a (m_lua (w_engine w))).
  unfold mbind at 1, M_bind at 1. rewrite Hrun.
  change (finish l' (Some what) w)
    with (Ok (Some what), upd_engine (set_lua (sol := shipped_sol) l' (w_engine w)) w).
  cbn -[reply_fn upd_queue upd_engine]. unfold ctx. cbn [reply]. rewrite reply_fn_world. by rewrite bool_decide_true.
Qed.

(** A permitted call, off cooldown and below its limit, of such a command. *)
Lemma handler_replies msg cmd a k f md text l' w :
  let ctx := mk_CommandContext msg cmd a reply_fn in
  m_command_metadata (w_engine w) !! k = Some md → enabled md = true → hasPermission ctx md = true →
  isOnCooldown (m_cooldown_tracker (w_engine w)) (next_time w) k (user msg) md = false →
  0 ≤ uses (w_engine w) k < INT_MAX →
  (0 < max_uses_per_stream md → uses (w_engine w) k < max_uses_per_stream md) →
  (∀ t l, posts text l' ctx f (upd_clock t l w)) →
  ∃ w', lua_handler_body ma_success k (VFunction f) ctx w = (Ok tt, w') ∧
    w_queue w' = w_queue w ++ [TSend text] ∧ uses (w_engine w') k = uses (w_engine w) k + 1 ∧
    w_app_state w' = w_app_state w.
Proof.
  intros ctx Hm Hen Hperm Hcd Hu Hmax Hrun. unfold lua_handler_body, lua_handler_with.
  cbn [engine_of World_engine steady_now]. rewrite Hm, Hen, Hperm. cbn [negb].
  assert (Hlim : (0 <? max_uses_per_stream md) && (max_uses_per_stream md <=? uses (w_engine w) k) = false).
  { destruct (Z.ltb_spec 0 (max_uses_per_stream md)); [|done]. apply Z.leb_gt. by apply Hmax. }
  rewrite (bind_run _ _ _ _ _ (world_now_time w)).
  set (w1 := upd_clock _ _ w). rewrite gets_run.
  change (w_engine w1) with (w_engine w). change (user (message ctx)) with (user msg). rewrite Hcd.
  rewrite gets_run. change (w_engine w1) with (w_engine w). fold (uses (w_engine w) k). rewrite Hlim.
  pose proof (Hrun (next_time w) (tl (w_elapsed w))) as Hx. fold w1 in Hx. unfold posts in Hx.
  rewrite (bind_run _ _ _ _ _ Hx). set (w2 := upd_engine _ _).
  rewrite (bind_run _ _ _ _ _ (world_now_time w2)).
  set (w3 := upd_clock _ _ w2). rewrite gets_run.
  change (m_cooldown_tracker (w_engine w3)) with (m_cooldown_tracker (w_engine w)).
  destruct (recordUsage (m_cooldown_tracker (w_engine w)) (next_time w2) k (user msg)) as [tr| |] eqn:Hr;
    unfold recordUsage in Hr; fold (uses (w_engine w) k) in Hr;
    rewrite (proj2 (Z.eqb_neq _ _)) in Hr by lia; [|done..].
  injection Hr as <-. eexists. split; [reflexivity|]. split; [done|]. split; [|done].
  unfold uses at 1. cbn [w_engine on_engine]. cbn. by rewrite lookup_insert_eq.
Qed.

(** What "!dice" with the arguments [a] answers: a roll between 1 and the sides asked
    for, or, for a number of sides that is no integer, that it has failed. *)
Definition dice_reply (who : string) (a : list string) (answer : string) : Prop :=
  match to_integer (dice_sides a) with
  | Some n => 2 ≤ n ≤ 100 ∧ ∃ r, 1 ≤ r ≤ n ∧ answer = dice_text who r (dice_sides a)
  | None => answer = "Command error occured - check logs"
  end.

Lemma dice_posts msg cmd a w :
  let ctx := mk_CommandContext msg cmd a reply_fn in
  m_state (w_service w) = ChatConnected →
  ∃ answer l', dice_reply (user msg) a answer ∧ ∀ t l, posts answer l' ctx Dice (upd_clock t l w).
Proof.
  intros ctx Hst. unfold dice_reply. destruct (to_integer (dice_sides a)) as [n|] eqn:Hn.
  - destruct (dice_answer ma_success ctx (m_lua (w_engine w)) n Hn) as (r & l' & Hr & Hrun).
    exists (dice_text (user msg) r (dice_sides a)), l'.
    split; [split; [by eapply dice_sides_bounds|by eauto]|].
    intros t l. by apply reply_posts.
  - destruct (dice_error ma_success ctx (m_lua (w_engine w)) Hn) as (what & Hrun).
    eexists _, _. split; [done|]. intros t l. by eapply error_posts.
Qed.

(** C15.  From a frame to a roll: when a viewer writes "!dice" (or "!roll", or "!d6") with
    any arguments, and the command is off cooldown and below its limit, the frame
    Twitch delivers puts the message into the queue of the chat panel, posts exactly
    one reply and counts one more use.  The reply is a roll between 1 and the sides
    asked for, which are the first argument when it is a number above 1 and at most
    100, and 6 otherwise; for a number of sides that is no integer, such as 2.5, the
    script fails and the reply says so. *)
Theorem dice_answered {J : JsonApi} {jlaws : JsonLaws} msg j cm rest word a md file w :
  let k := tolower word in
  json_parse msg = inr j → describes_chat j cm →
  text cm = "!" +:+ rest → tokenize rest = word :: a → owner k = Some (file, (md, Dice)) →
  m_message_callback (w_service w) = Some AppCallback → m_state (w_service w) = ChatConnected →
  m_prefix (w_parser w) = "!" →
  m_commands (w_parser w) !! k = Some (HLua k (VFunction Dice)) →
  m_command_metadata (w_engine w) !! k = Some md →
  isOnCooldown (m_cooldown_tracker (w_engine w)) (next_time w) k (user cm) md = false →
  0 ≤ uses (w_engine w) k < 50 →
  ∃ answer w', dice_reply (user cm) a answer ∧ handleEventSubMessage msg w = (Ok tt, w') ∧
    w_queue w' = w_queue w ++ [TSend answer] ∧
    uses (w_engine w') k = uses (w_engine w) k + 1 ∧
    w_app_state w' = pushChatMessage cm (w_app_state w).
Proof.
  intros k Hp Hd Ht Htok Ho Hcb Hst Hpre Hcmd Hmd Hcd Hu.
  pose proof (owner_some _ _ Ho) as [Hx _].
  assert (Hmdv : enabled md = true ∧ allowed_users md = [] ∧ mod_only md = false ∧ vip_only md = false ∧
                 subscriber_only md = false ∧ max_uses_per_stream md = 50).
  { repeat (apply elem_of_cons in Hx as [Hx|Hx]; [by simplify_eq|]). by apply not_elem_of_nil in Hx. }
  destruct Hmdv as (Hen & Hau & Hmo & Hvo & Hso & Hmax).
  set (w1 := upd_app_state (pushChatMessage cm (w_app_state w)) w).
  set (ctx := mk_CommandContext cm word a reply_fn).
  destruct (dice_posts cm word a w1 Hst) as (answer & l' & Hans & Hrun).
  exists answer.
  destruct (handler_replies cm word a k Dice md answer l' w1)
    as (w' & Hh & Hq & Hu' & Happ); try done.
  - unfold hasPermission. rewrite Hau, Hmo, Hvo, Hso. by destruct (bool_decide _).
  - change (uses (w_engine w1) k) with (uses (w_engine w) k). unfold INT_MAX. lia.
  - rewrite Hmax. intros _. apply Hu.
  - exists w'. split; [done|]. split; [|done].
    rewrite (handle_described (host := World_service) msg j cm AppCallback w Hp Hd Hcb).
    unfold try_catch at 1. cbn [call_message World_service service_host].
    rewrite (on_chat_message_command cm rest word a (HLua (sol := shipped_sol) k (VFunction Dice))); try done.
    + fold w1. unfold mbind at 1, M_bind at 1, try_catch, invoke_handler.
      fold ctx. unfold mbind at 1, M_bind at 1. unfold ctx. by rewrite Hh.
    + intros ->. by vm_compute in Ho.
Qed.

End Properties.
