(* ===== verification/Examples.v ===== *)
(** * Examples of whole programs

    A concrete program state with the two command files of [src/commands/] loaded,
    a concrete GUI, and concrete Twitch frames; the theorems about the service,
    the panels and the application are applied to them. *)

From Stdlib Require Import SpecFloat.
From S2P Require Import Prelude Cxx CommandParser Coro Json Net Auth EventSub TwitchService Discord.
From S2P Require Import AppState Gui Obs ViewModels AudioSystem Cooldown LuaEngine LuaProperties.
From S2P Require Import World Ui Application Interference Scheduler Session Invariants Typing Progress.

(** ** The outside *)

#[local] Instance demo_platform : Platform := {|
  ma_success _ _ := true;
  map_order := map_to_list;
  make_directories _ fs := (Ok tt, fs);
|}.

(** A user who opens the File menu and chooses Exit; GLFW reports the close once
    it was told. *)
Definition is_close (ev : gui_event) : bool :=
  match ev with Did (GlfwSetWindowShouldClose true) => true | _ => false end.

#[local] Instance demo_gui : GuiApi := {|
  gui_answer tr c :=
    match c with
    | GlfwWindowShouldClose => existsb is_close tr
    | GlfwInit | GlfwCreateWindow _ _ _ | BeginMenuBar | BeginMenu _ | MenuItem _ => true
    | _ => false
    end;
  gui_edit _ _ old := old;
  gui_viewport _ := mk_viewport (vec2_of_Z 0 0) (vec2_of_Z 1280 720) 1;
  gui_framerate _ := f32_of_Z 60;
  gui_frame_height _ := f32_of_Z 23;
  gui_at_bottom _ := true;
|}.

(** ** A program connected to chat *)

Definition demo_cfg : ClientConfig :=
  mk_ClientConfig "eventsub.wss.twitch.tv" "443" "api.twitch.tv" "443" "cid" "oauth:tok" "42".

Definition demo_service (st : State) : TwitchService app_callback :=
  mk_TwitchService _ (new_Auth "seraphbot-oauth-server.onrender.com") (Some 0%nat) (Some 0%nat)
    (Some (mk_Send demo_cfg)) st "galizur" (Some AppCallback) (Some AppCallback).

Definition demo_native_parser : CommandParser (handler (sol := demo_sol)) :=
  registerCommand "commands" (Some HCommands) (registerCommand "reload" (Some HReload) new_CommandParser).

Definition demo_world (st : State) : World := mk_World _ demo_cfg (new_ConnectionManager 3)
  new_AppState demo_native_parser (demo_engine demo_start) (demo_service st) (mk_Notifications "")
  (new_OBSService "testpassword") (mk_ImGuiManager true true true "") new_AuthVM new_DiscordVM
  {[0%nat := new_EventSub demo_cfg]} [] demo_files 0 [] 1700000000 [].

(** ** Frames from Twitch *)

Definition demo_chat (user text color : string) : jvalue := JObject
  [("metadata", JObject [("message_type", JString "notification");
                         ("subscription_type", JString "channel.chat.message")]);
   ("payload", JObject [("event", JObject
      [("chatter_user_name", JString user); ("message", JObject [("text", JString text)]);
       ("color", JString color);
       ("badges", JArray [JObject [("set_id", JString "vip"); ("id", JString "1")]])])])].

Definition demo_ad_break : jvalue := JObject
  [("metadata", JObject [("message_type", JString "notification");
                         ("subscription_type", JString "channel.ad_break.begin")]);
   ("payload", JObject [("event", JObject [("duration_seconds", JInt 60)])])].

Definition demo_frames : list (string * jvalue) :=
  [("hello", demo_chat "ann" "hi" "#FF7F50"); ("commands", demo_chat "ann" "!commands" "#FF7F50");
   ("percent", demo_chat "eve" "100% sure" "#FF7F50"); ("colour", demo_chat "eve" "hi" "#nocolor");
   ("ad", demo_ad_break); ("dice", demo_chat "ann" "!dice 20" "#FF7F50")].

#[local] Instance demo_json : JsonApi := JsonModel demo_frames.
#[local] Instance demo_json_laws : JsonLaws := JsonModel_laws demo_frames.

Lemma demo_describes user text color :
  describes_chat (J := demo_json) (demo_chat user text color) (mk_ChatMessage user text color ["vip"]).
Proof.
  do 3 eexists. split; [do 3 eexists; split_and!; reflexivity|].
  split_and!; try reflexivity. constructor; [|constructor].
  eexists; split; reflexivity.
Defined.

(** ** The service *)

Lemma handle_chat_message_witness :
  m_pending_messages (w_app_state (snd (handleEventSubMessage "hello" (demo_world ChatConnected)))) =
    [mk_ChatMessage "ann" "hi" "#FF7F50" ["vip"]].
Proof.
  rewrite (handle_chat_message (J := demo_json) (host := World_service) "hello" (demo_chat "ann" "hi" "#FF7F50")
    (mk_ChatMessage "ann" "hi" "#FF7F50" ["vip"]) AppCallback (demo_world ChatConnected));
    [|reflexivity|apply demo_describes|reflexivity].
  vm_compute. reflexivity.
Defined.

Lemma ad_break_dropped_witness :
  handleEventSubMessage "ad" (demo_world ChatConnected) = (Ok tt, demo_world ChatConnected).
Proof.
  apply (ad_break_dropped (J := demo_json) (host := World_service) "ad" demo_ad_break
    [("duration_seconds", JInt 60)] 60 AppCallback); try reflexivity.
  do 3 eexists. split_and!; reflexivity.
Defined.

(** ** The application *)

Lemma commands_replied_witness :
  w_queue (snd (handleEventSubMessage "commands" (demo_world ChatConnected))) =
    [TSend (commands_text (demo_world ChatConnected))].
Proof.
  rewrite (commands_replied (J := demo_json) "commands" (demo_chat "ann" "!commands" "#FF7F50")
    (mk_ChatMessage "ann" "!commands" "#FF7F50" ["vip"]) (demo_world ChatConnected));
    [reflexivity|reflexivity|apply demo_describes|reflexivity..].
Defined.

Lemma chat_text_is_format_witness :
  ∃ w', handleEventSubMessage "percent" (demo_world ChatConnected) = (Ok tt, w') ∧
    fst (manageChat w') = Undefined.
Proof.
  eapply (chat_text_is_format (J := demo_json) "percent" (demo_chat "eve" "100% sure" "#FF7F50")
    (mk_ChatMessage "eve" "100% sure" "#FF7F50" ["vip"]) _ "100" " " "sure" (demo_world ChatConnected));
    [reflexivity|apply demo_describes|try reflexivity..].
  by vm_compute.
Defined.

Lemma chat_color_terminates_witness :
  ∃ w' e, handleEventSubMessage "colour" (demo_world ChatConnected) = (Ok tt, w') ∧
    fst (manageChat w') = Throw e ∧ main_catch e = Terminated e.
Proof.
  eapply (chat_color_terminates (J := demo_json) "colour" (demo_chat "eve" "hi" "#nocolor")
    (mk_ChatMessage "eve" "hi" "#nocolor" ["vip"]) _ "ocolor" (demo_world ChatConnected));
    try reflexivity; [apply demo_describes|by vm_compute..|simpl; lia].
Defined.

(** The frame of the demo world, in which the user chooses Exit. *)
Definition demo_after_frame : World := snd (frame (demo_world LoggedIn)).

Lemma demo_frame_ok : frame (demo_world LoggedIn) = (Ok tt, demo_after_frame).
Proof.
  unfold demo_after_frame. assert (fst (frame (demo_world LoggedIn)) = Ok tt) as Hf by (vm_compute; reflexivity).
  destruct (frame (demo_world LoggedIn)) as [r w]. cbn in Hf. by rewrite Hf.
Qed.

Lemma frame_nested_witness : nesting_of (w_trace demo_after_frame) = Some ([], O).
Proof. apply (frame_nested (demo_world LoggedIn)); [reflexivity|exact demo_frame_ok]. Defined.

Lemma is_close_spec tr :
  Did (GlfwSetWindowShouldClose true) ∈ tr → existsb is_close tr = true.
Proof.
  intros Hin. apply existsb_exists. exists (Did (GlfwSetWindowShouldClose true)).
  split; [by apply list_elem_of_In|done].
Qed.

Lemma exit_ends_run_witness :
  fst (run_loop 3 (λ _ w, w) 1 demo_after_frame) = Ok (Some 0).
Proof.
  apply (exit_ends_run (λ _ w, w) (demo_world LoggedIn)).
  - apply is_close_spec.
  - reflexivity.
  - reflexivity.
  - exact demo_frame_ok.
  - apply (list_elem_of_lookup_2 _ 17). vm_compute. reflexivity.
Defined.

(** A startup and what [initialize] makes of it. *)
Definition demo_startup : Startup :=
  mk_Startup _ default_Application None tt demo_files 0 [] 1700000000 [].
Definition demo_initialized : Startup :=
  snd (initialize (set_app default_Application demo_startup)).

(** The program with the commands of the repository, until the user chooses Exit. *)
Lemma demo_ran : ∃ w w' name fn, enter demo_initialized = Some w ∧
  run 3 (λ _ w, w) w = (Ok (Some 0), w') ∧
  m_commands (w_parser w') !! "dice" = Some (HLua name fn).
Proof.
  set (w := default (demo_world Disconnected) (enter demo_initialized)).
  set (w' := snd (run 3 (λ _ w, w) w)).
  assert (Hb : from_option is_lua false (m_commands (w_parser w') !! "dice") = true)
    by (vm_compute; reflexivity).
  assert (Hh : ∃ name fn, m_commands (w_parser w') !! "dice" = Some (HLua name fn)).
  { destruct (m_commands (w_parser w') !! "dice") as [[name fn| |]|]; [by exists name, fn|done..]. }
  destruct Hh as (name & fn & Hh). exists w, w', name, fn.
  assert (He : from_option (λ _, true) false (enter demo_initialized) = true)
    by (vm_compute; reflexivity).
  split; [unfold w; by destruct (enter demo_initialized)|]. split; [|exact Hh].
  assert (Hr : fst (run 3 (λ _ w, w) w) = Ok (Some 0)) by (vm_compute; reflexivity).
  unfold w'. destruct (run 3 (λ _ w, w) w) as [r w1]. cbn in *. by rewrite Hr.
Qed.

Lemma exit_outcome_witness : main_run 3 (λ _ w, w) demo_initialized = Crashed.
Proof.
  destruct demo_ran as (w & w' & name & fn & He & Hr & Hh).
  exact (proj1 (exit_outcome 3 (λ _ w, w) demo_initialized w w' 0 He Hr)
           (ex_intro _ "dice" (ex_intro _ name (ex_intro _ fn Hh)))).
Defined.

Lemma shutdown_keeps_network_witness :
  ∃ s' c, shutdown demo_initialized = (Ok tt, s') ∧ st_conn s' = Some c ∧
    m_thread_pool c = replicate 3 ThreadRunning.
Proof.
  destruct (shutdown_keeps_network demo_initialized (new_ConnectionManager 3) (mk_Notifications "")
    (mk_ImGuiManager true true true "")) as (s' & Hs & Hc & _); [vm_compute; reflexivity..|].
  exists s', (new_ConnectionManager 3). split; [exact Hs|]. split; [exact Hc|reflexivity].
Defined.

(** ** The coroutines of the service, with a network that works *)

Definition demo_net_frames : list (string * jvalue) :=
  [("welcome", JObject [("payload", JObject [("session", JObject [("id", JString "s1")])])]);
   ("{}", JObject [])].

Definition demo_net : Environment := {|
  env_do _ _ := None;
  env_http_read _ := inr (mk_response 200 "" "{}");
  env_ws_read _ := inr "welcome";
  env_random h _ := length h;
|}.

Lemma connectToChat_outcome_witness :
  let '(o, w', h') := exec (env := demo_net) (connectToChat (J := JsonModel demo_net_frames))
                        (demo_world LoggedIn) [] in
  o = Ok tt ∧ m_state (w_service w') = ChatConnected ∧ length (w_queue w') = 9%nat.
Proof.
  pose proof (connectToChat_outcome (J := JsonModel demo_net_frames) (host := World_service)
    (env := demo_net) (demo_world LoggedIn) []) as H.
  destruct (exec _ (demo_world LoggedIn) []) as [[o w'] h'] eqn:Hx.
  destruct H as (-> & _). split; [reflexivity|].
  apply (f_equal (λ x, (m_state (w_service (snd (fst x))), length (w_queue (snd (fst x)))))) in Hx.
  cbn [fst snd] in Hx.
  match type of Hx with ?l = _ => assert (l = (ChatConnected, 9%nat)) as Hl by (vm_compute; reflexivity) end.
  rewrite Hl in Hx. injection Hx as <- <-. split; reflexivity.
Defined.

Lemma login_task_outcome_witness :
  let '(o, w', h') := exec (env := demo_net) (login_task (J := JsonModel demo_net_frames))
                        (demo_world LoggingIn) [] in
  o = Ok tt ∧ m_state (w_service w') = Error.
Proof.
  pose proof (login_task_outcome (J := JsonModel demo_net_frames) (host := World_service)
    (env := demo_net) (demo_world LoggingIn) []) as H.
  destruct (exec _ (demo_world LoggingIn) []) as [[o w'] h'] eqn:Hx.
  destruct H as (-> & _). split; [reflexivity|].
  apply (f_equal (λ x, m_state (w_service (snd (fst x))))) in Hx.
  cbn [fst snd] in Hx. rewrite <- Hx. vm_compute. reflexivity.
Defined.

(** ** Interleavings *)

(** A user who presses one button of the Auth panel. *)
Definition demo_presses (label : string) : GuiApi := {|
  gui_answer tr c :=
    match c with
    | GlfwInit | GlfwCreateWindow _ _ _ => true
    | Button l => bool_decide (l = label)
    | _ => false
    end;
  gui_edit _ _ old := old;
  gui_viewport _ := mk_viewport (vec2_of_Z 0 0) (vec2_of_Z 1280 720) 1;
  gui_framerate _ := f32_of_Z 60;
  gui_frame_height _ := f32_of_Z 23;
  gui_at_bottom _ := true;
|}.

(** The world [run] enters. *)
Definition demo_entered : World := default (demo_world Disconnected) (enter demo_initialized).
Lemma ran {S A} (m : M S A) s a : fst (m s) = Ok a → m s = (Ok a, snd (m s)).
Proof. destruct (m s) as [r s']. simpl. by intros ->. Qed.

(** The setup of [run] and a frame in which the user logs in. *)
Lemma demo_asked : ∃ w1 w2, run_setup demo_entered = (Ok tt, w1) ∧
  frame (gui := demo_presses "Login to Twitch") w1 = (Ok tt, w2) ∧
  m_state (w_service w1) = Disconnected ∧ m_state (w_service w2) = LoggingIn ∧
  w_queue w2 = [TLogin].
Proof.
  exists (snd (run_setup demo_entered)),
    (snd (frame (gui := demo_presses "Login to Twitch") (snd (run_setup demo_entered)))).
  split; [refine (ran run_setup demo_entered tt _); vm_compute; reflexivity|].
  split; [refine (ran (frame (gui := demo_presses "Login to Twitch")) _ tt _);
          vm_compute; reflexivity|].
  split_and!; vm_compute; reflexivity.
Qed.

Lemma demo_started : started demo_entered.
Proof.
  unfold demo_entered, demo_initialized.
  destruct (initialize_cases demo_startup) as [(t & s' & -> & _ & He)|(what & s' & _ & Hw & _)].
  - cbn [snd]. rewrite He. apply first_world_started.
  - vm_compute in Hw. discriminate.
Qed.

Lemma login_waits w : ∃ op k, advance login_task w = (co_do op k, w).
Proof. do 2 eexists. reflexivity. Qed.

(** The user logs in, and the login coroutine waits for the resolver. *)
Lemma no_dangling_pointer_witness :
  ∃ op k w, advance login_task w = (co_do op k, w) ∧ m_state (w_service w) = LoggingIn ∧
    ¬ crashes 9 (mk_system w [(TLogin, co_do op k)]) Dangling.
Proof.
  destruct demo_asked as (w1 & w2 & Hsetup & Hframe & Hst1 & Hst2 & Hq).
  destruct (login_waits (upd_queue [] w2)) as (op & k & Ha).
  exists op, k, (upd_queue [] w2). split; [exact Ha|]. split; [exact Hst2|].
  apply (no_dangling_pointer (gui := demo_presses "Login to Twitch") 9 demo_entered w1
           (mk_system (upd_queue [] w2) [(TLogin, co_do op k)]) demo_started Hsetup).
  apply (rtc_l _ _ (mk_system w2 [])); [|apply rtc_once].
  - split; [exact (step_frame 9 w1 [] w2 Hframe)|].
    intros [_ Hout]. cbn in Hout. rewrite Hst2 in Hout. discriminate Hout.
  - split; [exact (step_network 9 _ _ (net_start 9 w2 [] TLogin [] (co_do op k) _ Hq Ha I))|].
    intros [_ Hout]. cbn in Hout. rewrite Hst2 in Hout. discriminate Hout.
Defined.

(** The first frame of the session, in which the user logs in. *)
Lemma session_refines_witness :
  ∃ w1 w2, run_setup demo_entered = (Ok tt, w1) ∧
    sys_step (gui := demo_presses "Login to Twitch") 9 (mk_system w1 []) (mk_system w2 []) ∧
    session w2 = LoggingIn ∧ session_step (session w1) (session w2).
Proof.
  destruct demo_asked as (w1 & w2 & Hsetup & Hframe & Hst1 & Hst2 & Hq).
  exists w1, w2. split; [exact Hsetup|]. split; [exact (step_frame 9 w1 [] w2 Hframe)|].
  split; [exact Hst2|].
  exact (proj1 (session_refines (gui := demo_presses "Login to Twitch") 9 demo_entered w1
    (mk_system w1 []) (mk_system w2 []) demo_started Hsetup (rtc_refl _ _)
    (step_frame 9 w1 [] w2 Hframe))).
Defined.

(** Once the user has asked for it, the login comes to an end. *)
Lemma network_settles_witness :
  ∃ w2, w_queue w2 = [TLogin] ∧ m_state (w_service w2) = LoggingIn ∧
    sn (network_step 9) (mk_system w2 []) ∧
    ∀ s', rtc (network_step 9) (mk_system w2 []) s' → nf (network_step 9) s' →
      crashes 9 s' Dangling ∨ at_rest s'.
Proof.
  destruct demo_asked as (w1 & w2 & Hsetup & Hframe & Hst1 & Hst2 & Hq).
  exists w2. split; [exact Hq|]. split; [exact Hst2|].
  destruct (network_settles (gui := demo_presses "Login to Twitch") 9 demo_entered w1
    (mk_system w2 []) (Nat.lt_0_succ 8) demo_started Hsetup
    (rtc_once _ _ (step_frame (gui := demo_presses "Login to Twitch") 9 w1 [] w2 Hframe)))
    as [Hsn Hend].
  split; [exact Hsn|]. intros s' Hr Hnf. exact (proj1 (Hend s' Hr Hnf)).
Defined.

(** The user disconnects while the first subscription is under way. *)
Definition demo_subscribing : World :=
  upd_queue [TSubscribe 0 "channel.update" "2"] (demo_world ChatConnected).

Lemma demo_left : ∃ w',
  frame (gui := demo_presses "Disconnect") (upd_queue [] demo_subscribing) = (Ok tt, w') ∧
  m_state (w_service w') = Disconnected.
Proof.
  exists (snd (frame (gui := demo_presses "Disconnect") (upd_queue [] demo_subscribing))).
  split; [|vm_compute; reflexivity].
  refine (ran (frame (gui := demo_presses "Disconnect")) _ tt _). vm_compute. reflexivity.
Qed.

Lemma connected_in_chat : in_chat ChatConnected.
Proof. unfold in_chat. set_solver. Qed.

Lemma leaving_dangles_witness :
  ∃ s, rtc (sys_step (gui := demo_presses "Disconnect") (J := JsonModel demo_net_frames) 9)
         (mk_system demo_subscribing []) s ∧
    crashes (J := JsonModel demo_net_frames) 9 s Dangling.
Proof.
  destruct demo_left as (w' & Hframe & Hout).
  exact (leaving_dangles (gui := demo_presses "Disconnect") (J := JsonModel demo_net_frames) 9 0
    (new_EventSub demo_cfg) "channel.update" "2" [] _ "{}" (JObject []) demo_subscribing w' []
    eq_refl eq_refl eq_refl eq_refl eq_refl Hframe connected_in_chat Hout).
Defined.

(** ** Types *)

#[local] Instance demo_platform_laws : PlatformLaws.
Proof. intros m. reflexivity. Qed.

(** A user who pastes a text longer than the buffers, with a NUL inside the last. *)
Definition demo_paste : string := String.concat "" (replicate 600 "x").
Definition demo_pastes : GuiApi := {|
  gui_answer tr c := match c with GlfwInit | GlfwCreateWindow _ _ _ => true | _ => false end;
  gui_edit _ label old := if String.eqb label "##webhookurl" then demo_paste
                          else "a" +:+ String nul "b";
  gui_viewport _ := mk_viewport (vec2_of_Z 0 0) (vec2_of_Z 1280 720) 1;
  gui_framerate _ := f32_of_Z 60;
  gui_frame_height _ := f32_of_Z 23;
  gui_at_bottom _ := true;
|}.

Lemma demo_pasted : ∃ s' w w1 w2,
  initialize (gui := demo_pastes) (set_app default_Application demo_startup) = (Ok true, s') ∧
  enter s' = Some w ∧ run_setup w = (Ok tt, w1) ∧ frame (gui := demo_pastes) w1 = (Ok tt, w2) ∧
  String.length (webhook_url (w_discord_vm w2)) = 511%nat ∧ notification_text (w_discord_vm w2) = "a".
Proof.
  set (s' := snd (initialize (gui := demo_pastes) (set_app default_Application demo_startup))).
  set (w := default (demo_world Disconnected) (enter s')).
  exists s', w, (snd (run_setup w)), (snd (frame (gui := demo_pastes) (snd (run_setup w)))).
  split; [refine (ran (initialize (gui := demo_pastes)) _ true _); vm_compute; reflexivity|].
  assert (He : from_option (λ _, true) false (enter s') = true) by (vm_compute; reflexivity).
  split; [unfold w; by destruct (enter s')|].
  split; [refine (ran run_setup w tt _); vm_compute; reflexivity|].
  split; [refine (ran (frame (gui := demo_pastes)) _ tt _); vm_compute; reflexivity|].
  split; vm_compute; reflexivity.
Qed.

Lemma world_typed_witness : ∃ w2,
  String.length (webhook_url (w_discord_vm w2)) = 511%nat ∧
  well_typed (new_DirectoryWhitelist demo_files) w2.
Proof.
  destruct demo_pasted as (s' & w & w1 & w2 & Hi & He & Hsetup & Hframe & Hlen & _).
  exists w2. split; [exact Hlen|].
  exact (world_typed (gui := demo_pastes) 9 demo_startup s' w w1 (mk_system w2 []) Hi He (Z.le_refl 0)
    Hsetup (rtc_once _ _ (step_frame (gui := demo_pastes) 9 w1 [] w2 Hframe))).
Defined.
