(* ===== verification/ScriptExamples.v ===== *)
(** * The command scripts on concrete inputs

    Examples of what the scripts answer, and the theorems of [ScriptProperties] and
    [Shipped] applied to them. *)

From Stdlib Require Import SpecFloat.
From S2P Require Import Prelude Cxx CommandParser Coro Json Net EventSub TwitchService AppState Gui.
From S2P Require Import AudioSystem Cooldown LuaEngine LuaFacts LuaNumbers Scripts ScriptFacts.
From S2P Require Import World Application Typing LuaProperties ScriptProperties Shipped Examples.

(** ** The engine *)

Definition demo_call (a : list string) : CommandContext demo_state :=
  mk_CommandContext (mk_ChatMessage "ann" "" "" []) "command" a demo_reply.

#[local] Instance demo_call_ok a : ReplyOk (demo_call a).
Proof. intros m s. eexists. split; [done|]. by repeat split. Qed.

(** What "ann" is answered. *)
Definition answers_to (f : execute) (a : list string) : list string :=
  demo_out (snd (executeLuaCommand demo_ma (demo_call a) (VFunction f) demo_start)).

Example scripts_answer :
  answers_to Dice [] = ["🎲 ann rolled a 4 (1-6)"] ∧
  answers_to Dice ["20"] = ["🎲 ann rolled a 4 (1-20)"] ∧
  answers_to Dice ["6.0"] = ["🎲 ann rolled a 4 (1-6.0)"] ∧
  answers_to Dice ["2.5"] = ["Command error occured - check logs"] ∧
  answers_to Hello ["bob"] = ["Hello bob!"] ∧ answers_to Flip [] = ["🪙 Tails!"] ∧
  answers_to Sfx [] = ["Usage: !sfx <sound> | !sfx list | !sfx random"] ∧
  answers_to Sfx ["list"] = ["Available sounds: Bell, airhorn"] ∧
  answers_to Sfx ["LIST"; "2"] = ["Page 2 is empty. Try a lower page number."] ∧
  answers_to Sfx ["list"; "0"] = ["Command error occured - check logs"] ∧
  answers_to Sfx ["airhorn"; "55"] = ["airhorn"].
Proof. split_and!; vm_compute; reflexivity. Qed.

(** A sound that is listed and cannot be played: the file is "Bell.WAV", the list
    says "Bell", and the script looks for "bell". *)
Theorem sfx_listed_not_found :
  answers_to Sfx ["list"] = ["Available sounds: Bell, airhorn"] ∧
  answers_to Sfx ["Bell"] = ["Sound 'bell' not found. Try !sfx list"].
Proof. split; vm_compute; reflexivity. Qed.

Lemma dice_rolls_witness : ∃ r l', 1 ≤ r ≤ 20 ∧
  run_script demo_ma (demo_call ["20"]) (call_command Dice ["20"] tt) demo_start =
    (reply (demo_call ["20"]) (dice_text "ann" r (Integer 20)) ;; finish (St := demo_state) l' None) demo_start.
Proof. exact (proj2 (dice_rolls demo_ma (demo_call ["20"]) tt demo_start)). Defined.

Lemma sfx_list_page_witness :
  run_script demo_ma (demo_call ["list"; "1"]) (call_command Sfx ["list"; "1"] tt) demo_start =
    (reply (demo_call ["list"; "1"]) (page_reply 1 ["Bell"; "airhorn"]) ;; finish (St := demo_state) tt None) demo_start.
Proof.
  exact (proj1 (sfx_list_page demo_ma (demo_call ["list"; "1"]) tt demo_start "list" "1" [] 1
    ["Bell"; "airhorn"] eq_refl eq_refl eq_refl ltac:(split; vm_compute; discriminate)
    ltac:(vm_compute; reflexivity) ltac:(discriminate) ltac:(vm_compute; reflexivity))).
Defined.

(** Twenty names of sixty characters: a page shows seven. *)
Definition long_names : list string :=
  replicate 20 "a-sound-whose-name-is-exactly-sixty-characters-long-0123456".

Lemma sfx_list_misses_witness :
  fill_page long_names (Integer 1) = Some (inr (take 7 long_names)) ∧
  fill_page long_names (Integer 2) = Some (inr (drop 15 long_names)) ∧
  ¬ (page_start 2 ≤ 7 < page_start 2 + length (drop 15 long_names))%nat.
Proof.
  assert (H2 : fill_page long_names (Integer 2) = Some (inr (drop 15 long_names)))
    by (vm_compute; reflexivity).
  split; [vm_compute; reflexivity|]. split; [exact H2|].
  exact (proj2 (sfx_list_misses long_names 1 (take 7 long_names) (hd "" long_names)
    (drop 8 long_names) ltac:(split; vm_compute; discriminate) ltac:(vm_compute; reflexivity)
    ltac:(vm_compute; reflexivity) ltac:(vm_compute; lia) ltac:(vm_compute; reflexivity))
    2 (drop 15 long_names) ltac:(split; vm_compute; discriminate) H2).
Defined.

Lemma sfx_plays_witness : ∃ audio,
  run_script demo_ma (demo_call ["Airhorn"; "120"]) (call_command Sfx ["Airhorn"; "120"] tt) demo_start =
    (on_engine (modify (set_audio audio)) ;; reply (demo_call []) "airhorn" ;; finish (St := demo_state) tt None) demo_start.
Proof.
  exists (snd (playSound demo_ma demo_fs "sounds/airhorn.mp3" 100 (m_audio_system (demo_engine demo_start)))).
  exact (proj2 (sfx_plays demo_ma (demo_call ["Airhorn"; "120"]) tt demo_start "Airhorn" ["120"]
    "sounds/airhorn.mp3" true _ eq_refl ltac:(by vm_compute) ltac:(by vm_compute)
    ltac:(vm_compute; reflexivity) ltac:(vm_compute; reflexivity))).
Defined.

(** ** The program *)

#[local] Existing Instance demo_platform.
#[local] Existing Instance demo_gui.
#[local] Existing Instance demo_platform_laws.
#[local] Existing Instance demo_json.
#[local] Existing Instance demo_json_laws.

Definition demo_command_files : list string := map fst shipped.

(** A disk with the files of the repository. *)
Definition shipped_fs : FileSystem := mk_FileSystem
  (λ p, Ok (bool_decide (p ∈ "commands" :: demo_command_files)))
  (λ p, Ok (bool_decide (p = "commands")))
  (λ p, Ok (bool_decide (p ∈ demo_command_files)))
  (λ _, (map (λ f, (f, true)) (rev demo_command_files), None))
  (fs_weakly_canonical demo_fs).

Definition shipped_startup : Startup :=
  mk_Startup _ default_Application None tt shipped_fs 0 [] 1700000000 [].

Lemma shipped_commands_witness : ∃ w w',
  run_setup w = (Ok tt, w') ∧ m_commands (w_parser w') !! "d6" = Some (HLua "d6" (VFunction Dice)).
Proof.
  destruct (initialize_cases shipped_startup) as [(t & s' & Hi & _ & He)|(what & s' & _ & Hw & _)];
    [|vm_compute in Hw; discriminate].
  destruct (shipped_commands shipped_startup s' _ (rev demo_command_files) Hi He eq_refl eq_refl eq_refl
    ltac:(symmetry; apply Permutation_rev)) as (w' & Hrun & _ & Hcmd & _).
  { intros f Hf. rewrite <- Permutation_rev in Hf. cbn [fs_exists shipped_fs st_fs shipped_startup].
    by rewrite bool_decide_true by (by apply list_elem_of_further). }
  eexists _, w'. split; [exact Hrun|]. rewrite Hcmd. reflexivity.
Defined.

Definition dice_world : World :=
  upd_parser (registerCommand "dice" (Some (HLua "dice" (VFunction Dice))) demo_native_parser)
    (demo_world ChatConnected).

Lemma dice_answered_witness : ∃ r w', 1 ≤ r ≤ 20 ∧
  handleEventSubMessage "dice" dice_world = (Ok tt, w') ∧
  w_queue w' = [TSend (dice_text "ann" r (Integer 20))].
Proof.
  destruct (dice_answered (J := demo_json) "dice" (demo_chat "ann" "!dice 20" "#FF7F50")
    (mk_ChatMessage "ann" "!dice 20" "#FF7F50" ["vip"]) "dice 20" "dice" ["20"] dice_metadata
    "commands/dice.lua" dice_world eq_refl (demo_describes _ _ _) eq_refl eq_refl eq_refl eq_refl eq_refl
    eq_refl eq_refl eq_refl eq_refl ltac:(split; vm_compute; [discriminate|reflexivity]))
    as (answer & w' & Hans & Hh & Hq & _).
  destruct Hans as (_ & r & Hr & ->).
  exists r, w'. split; [exact Hr|]. split; [exact Hh|]. exact Hq.
Defined.
